(* ===== verification/_CoqProject ===== *)
-Q . S2P
Prelude.v
GoStrings.v
Netip.v
Netaddr.v
Procname.v
Config.v
Metadata.v
ProxyChain.v
Exclude.v
Effects.v
Dns.v
Gateway.v
Exec.v
Url.v
AutorouteLinux.v
AutorouteDarwin.v
AutorouteWindows.v
Driver.v
Platform.v
Logger.v
LogSetup.v
App.v
Dataplane.v
Forward.v
