(* ===== verification/Prelude.v ===== *)
(** * nanotun: a verification library

    nanotun is a daemon that reads packets from a TUN device, terminates the
    connections in a user-space stack and dials them again, directly or through
    a SOCKS5 proxy.  This library models the program (the Go files under src/)
    and proves what makes it correct.

    ** The program

    - [cmd/nanotun/main.go] reads flags and a YAML file ([internal/config]),
      sets up the log ([internal/logger]) and calls [app.Run].
    - [internal/app/runner.go] builds the proxy from its URL, starts the process
      matcher ([internal/exclude]), the proxy chain ([internal/proxychain]) and
      the gateway handler ([internal/gateway]), and runs a packet driver
      ([internal/stack/gvisor] or [internal/stack/simple]).
    - A driver opens the device, configures it ([internal/tunconf]), installs
      routes and DNS redirection ([internal/autoroute], one file per platform),
      starts the stack, and when it stops undoes what it did, with the
      exceptions listed below.
    - A flow goes from the stack (the forwarders of
      [internal/stack/simple/stack.go]) to the gateway handler, which relays DNS
      sent to the gateway, drops what must not leave, and hands the rest to the
      tunnel (tun2socks), which dials through the chain; the chain asks the
      matcher and the table of reserved blocks ([internal/netaddr]).

    ** Files

    - [Prelude] (this file): results, state passing, machine integers, tactics,
      the hint database [nanotun], lemmas on lists and bytes.
    - [GoStrings], [Netip], [Url]: the functions of Go's [strings], [strconv],
      [unicode/utf8], [net/netip] and [net/url] that the program calls, on byte
      lists and integers, with their print/parse round trips.
    - [Netaddr] (well_known.go, reserved.go), [Procname] (procname.go),
      [Config] (config.go, [loadRuntimeConfig] of main.go).
    - [Metadata]: the interface through which tun2socks describes a flow, as a
      class of accessors and a class of laws; [Metadata.Flow] is an instance.
    - [ProxyChain] (chain.go); [Exclude] (matcher.go), with module [Conc] for
      the interleavings of callers and the refresh loop.
    - [Effects]: programs that talk to the outside, as trees of requests, and
      their traces.
    - [Dns] (dns.go, dns_mark_*.go), [Gateway] (handler.go), [Forward]
      (the forwarders of simple/stack.go).
    - [Exec]: running commands and taking them back; [AutorouteLinux],
      [AutorouteDarwin], [AutorouteWindows] (autoroute_*.go, powershell.go,
      routeparse.go); [Driver] (tunconf_*.go, gvisor/driver.go, simple/driver.go,
      the stack construction of simple/stack.go); [Platform]: what a driver
      relies on, as the classes [Platform] and [Restores], with Linux, macOS and
      Windows as instances.
    - [Logger] (file_writer.go, [parseLevel]), [LogSetup] (logger.go).
    - [App] (runner.go, [main]) and [Dataplane] (the same wiring seen from a
      flow) compose the components.

    A Go struct is a record, a pointer that may be nil an option, a function
    that returns an error a [result] or an option of a message.  Names follow
    the source; a helper that has no name there says what it is in a comment.
    The texts of errors are kept as far as the code or a theorem looks at them.

    ** What is shown

    - Routing.  [Dataplane.dataplane_refines_policy]: the composed handler,
      chain and matcher implement a policy stated flow by flow;
      [Dataplane.session_refines_policy]: so they do over any sequence of flows
      and rescans, where the scans really made (recorded by the lookups) justify
      each exclusion, and exclude what they all agree on.  [ProxyChain]:
      reserved and excluded destinations and excluded processes never reach the
      proxy, everything else does.  [Netaddr]: the prefix table equals a table of
      intervals.  [Gateway], [Forward]: no flow is lost or handed over twice; the
      dispatch is part of the policy above.
    - Processes.  [Exclude]: a configured name skips exactly the flows of its
      processes; tables are replaced as a whole in every interleaving; every call
      terminates; the limit on scans holds for calls made one after the other.
    - DNS.  [Dns]: both relays are transparent, close what they open, deliver
      when nothing fails, and dial only the resolver, with the mark that the
      redirection rules of [AutorouteLinux] spare.
    - Restoring the host.  [AutorouteLinux], [AutorouteDarwin],
      [AutorouteWindows], [Driver], [App.linux_main_restores] and, against the
      interface of [Platform], [App.main_restores]: what a run changed is
      followed by the command that takes it back, on every path except those
      [darwin_first_failure_leaks] and [windows_first_failure_leaks] describe, and
      except for the IPv6 bypass routes on Linux, which the code never deletes
      ([AutorouteLinux.stranded]; the theorems say what holds with and without
      them, and [bypass6_stays] is a run that leaves one).  A driver closes the
      stack and the device it opened, except that the simple driver leaves its
      stack open when a step of building it fails ([Driver.leaked]).  That the
      commands do what their manuals say is not part of the statement.
      [AutorouteWindows.psQuote_literal]: which values PowerShell reads back from
      their quotes, and what becomes of the others.
    - Configuration.  [Config]: which inputs are accepted, what the accepted ones
      satisfy, how the layers combine, round trips of addresses and prefixes.
      [App.proxy_url_roundtrip]: escaped user names and passwords survive.
    - Log.  [Logger.log_is_messages]: the files are the messages, under every
      pattern of failing calls; retention; file names.  [LogSetup]: one open
      writer, and when it is the one in use.

    ** Choices

    - Integers have their Go width where it matters: [int64], [uint16], [uint32]
      are explicit wrap-arounds, bytes are [Byte.byte].
    - Recursion is structural wherever the loop runs over data.  Fuel is used in
      four places: UTF-8 decoding (the length of the string; every rune takes a
      byte, [GoStrings.chunks_fuel_enough]), decimal digits (twenty, enough for
      64 bits, [GoStrings.dec_digits_spec]), the parser of IPv6 addresses (one
      unit per field, [Netip.ParseAddr_String]) and [io.ReadFull] (one read per
      byte; a reader that gives nothing and no error breaks its contract).
    - [Effects.runs] quantifies over every answer of the outside, and
      [Effects.exec_runs] shows that every environment gives a run, so theorems
      about all runs are not empty.  A relay or driver blocked for ever in one
      request has no complete trace; timeouts are answers.
    - The order in which Go visits a map is left open: a permutation in
      [Exclude.Conc], and order-independent results elsewhere.
    - Parameters: reading files and decoding YAML ([Config]), the connection
      table and process names ([Exclude.Probe]), the clock, the calendar, the
      midnight of a date and the calls that fail ([Logger]), PowerShell's reader
      of quoted strings ([AutorouteWindows]), the reader of
      bracketed hosts ([Url.Parse], whose rules differ between Go releases), the
      dialers of the chain.  Laws assumed of them are named hypotheses, and the
      examples that end each file instantiate them.

    ** Not modelled

    tun2socks, gVisor, gopsutil, the TUN device and YAML are other packages and
    appear only as requests or parameters.  The kernel's routing, nftables and
    iptables are not modelled: theorems speak of command lines.  Signals are
    seen as the cancellation a driver reports.  Log attributes are left out of
    log messages.  The two connection adapters of simple/stack.go hold values
    and have no logic; log files are not opened by two processes at once.

    ** Plan

    Next: the parsers of gateway output against the formats of the tools, and a
    data plane whose flows are concurrent, on the interleavings of
    [Exclude.Conc]. *)

From stdpp Require Export base gmap strings list fin_maps sorting.
From Stdlib Require Export ZArith Lia.
From Stdlib Require Strings.Byte.
From Corelib Require Export Init.Byte.
Export (notations) Strings.Byte.

#[global] Open Scope Z_scope.
#[global] Open Scope list_scope.

(** ** Results: Go's (value, error) pairs *)

(** A Go function that returns [(T, error)] returns a [result E T]: the error
    branch carries which check failed, the success branch the value. *)
Inductive result (E A : Type) : Type :=
| Ok (a : A)
| Err (e : E).
Arguments Ok {E A} a.
Arguments Err {E A} e.

Definition result_bind {E A B} (m : result E A) (k : A → result E B) : result E B :=
  match m with Ok a => k a | Err e => Err e end.

Definition map_err {E F A} (f : E → F) (m : result E A) : result F A :=
  match m with Ok a => Ok a | Err e => Err (f e) end.

Definition is_ok {E A} (m : result E A) : bool :=
  match m with Ok _ => true | Err _ => false end.

Notation "'let?' x ':=' m 'in' k" :=
  (result_bind m (λ x, k)) (at level 10, x pattern, m at level 100, k at level 200) : stdpp_scope.

(** ** State passing *)

(** Code with effects on a world [W] (the operating system, a socket, a log) is
    a function from the world before to a value and the world after. *)
Definition st (W A : Type) : Type := W → A * W.

Definition st_ret {W A} (a : A) : st W A := λ w, (a, w).
Definition st_bind {W A B} (m : st W A) (k : A → st W B) : st W B :=
  λ w, let '(a, w') := m w in k a w'.

Notation "'let!' x ':=' m 'in' k" :=
  (st_bind m (λ x, k)) (at level 10, x pattern, m at level 100, k at level 200) : stdpp_scope.

(** ** Machine integers *)

Definition uint8 (z : Z) : Z := z `mod` 2 ^ 8.
Definition uint16 (z : Z) : Z := z `mod` 2 ^ 16.
Definition uint32 (z : Z) : Z := z `mod` 2 ^ 32.
(** Go's [int] and [int64] on the 64-bit targets: two's complement wrap-around. *)
Definition int64 (z : Z) : Z := (z + 2 ^ 63) `mod` 2 ^ 64 - 2 ^ 63.

Definition max_int64 : Z := 2 ^ 63 - 1.
Definition min_int64 : Z := - 2 ^ 63.

Lemma int64_small z : min_int64 ≤ z ≤ max_int64 → int64 z = z.
Proof. unfold int64, min_int64, max_int64. intros. rewrite Z.mod_small; lia. Qed.

Lemma int64_range z : min_int64 ≤ int64 z ≤ max_int64.
Proof.
  unfold int64, min_int64, max_int64.
  pose proof (Z.mod_pos_bound (z + 2 ^ 63) (2 ^ 64) ltac:(lia)). lia.
Qed.

Lemma uint16_small z : 0 ≤ z < 65536 → uint16 z = z.
Proof. intros. unfold uint16. rewrite Z.mod_small; lia. Qed.

Lemma uint16_range z : 0 ≤ uint16 z < 65536.
Proof. unfold uint16. pose proof (Z.mod_pos_bound z (2 ^ 16) ltac:(lia)). lia. Qed.

(** ** Bytes and Go strings *)

(** A Go string is an immutable sequence of bytes; so is the content of a
    [[]byte].  String literals of the source are written as Rocq string
    literals and coerced to their UTF-8 bytes. *)
Abbreviation gostring := (list byte).

Definition str (s : string) : list byte := String.list_byte_of_string s.
Coercion str : string >-> list.

#[global] Instance byte_eq_decision : EqDecision byte := Byte.byte_eq_dec.

#[global] Program Instance byte_countable : Countable byte :=
  inj_countable Byte.to_N Byte.of_N _.
Next Obligation. apply Byte.of_to_N. Qed.

Definition bval (b : byte) : Z := Z.of_N (Byte.to_N b).
Definition byte_of_Z (z : Z) : byte := default x00 (Byte.of_N (Z.to_N (z `mod` 256))).

Lemma bval_range b : 0 ≤ bval b < 256.
Proof. unfold bval. pose proof (Byte.to_N_bounded b). lia. Qed.

Lemma byte_of_Z_bval b : byte_of_Z (bval b) = b.
Proof.
  unfold byte_of_Z. rewrite Z.mod_small by apply bval_range.
  unfold bval. rewrite N2Z.id, Byte.of_to_N. done.
Qed.

Lemma bval_byte_of_Z z : bval (byte_of_Z z) = z `mod` 256.
Proof.
  unfold byte_of_Z, bval. pose proof (Z.mod_pos_bound z 256 ltac:(lia)) as Hz.
  destruct (Byte.of_N (Z.to_N (z `mod` 256))) as [b|] eqn:Hb; simpl.
  - apply Byte.to_of_N in Hb. rewrite Hb. lia.
  - apply Byte.of_N_None_iff in Hb. lia.
Qed.

Lemma bval_byte_of_Z_small z : 0 ≤ z < 256 → bval (byte_of_Z z) = z.
Proof. intros. rewrite bval_byte_of_Z. apply Z.mod_small. lia. Qed.

#[global] Instance bval_inj : Inj (=) (=) bval.
Proof. intros a b H. rewrite <- (byte_of_Z_bval a), H. apply byte_of_Z_bval. Qed.

(** [in_range lo hi z] is the test [lo <= z && z <= hi]. *)
Definition in_range (lo hi z : Z) : bool := (lo <=? z) && (z <=? hi).

Lemma in_range_true lo hi z : in_range lo hi z = true ↔ lo ≤ z ≤ hi.
Proof. unfold in_range. rewrite andb_true_iff, !Z.leb_le. done. Qed.

Lemma in_range_false lo hi z : in_range lo hi z = false ↔ z < lo ∨ hi < z.
Proof. unfold in_range. rewrite andb_false_iff, !Z.leb_gt. done. Qed.

(** ** Automation *)

(** [case_bool] splits the innermost boolean test of the goal and turns the
    integer comparisons it leaves into propositions. *)
Ltac b2p :=
  repeat match goal with
  | H : in_range _ _ _ = true |- _ => apply in_range_true in H
  | H : in_range _ _ _ = false |- _ => apply in_range_false in H
  | H : _ && _ = true |- _ => apply andb_true_iff in H; destruct H
  | H : _ || _ = false |- _ => apply orb_false_iff in H; destruct H
  | H : _ && _ = false |- _ => apply andb_false_iff in H; destruct H
  | H : _ || _ = true |- _ => apply orb_true_iff in H; destruct H
  | H : negb _ = true |- _ => apply negb_true_iff in H
  | H : negb _ = false |- _ => apply negb_false_iff in H
  | H : (_ <? _)%Z = true |- _ => apply Z.ltb_lt in H
  | H : (_ <? _)%Z = false |- _ => apply Z.ltb_ge in H
  | H : (_ <=? _)%Z = true |- _ => apply Z.leb_le in H
  | H : (_ <=? _)%Z = false |- _ => apply Z.leb_gt in H
  | H : (_ =? _)%Z = true |- _ => apply Z.eqb_eq in H
  | H : (_ =? _)%Z = false |- _ => apply Z.eqb_neq in H
  | H : bool_decide _ = true |- _ => apply bool_decide_eq_true in H
  | H : bool_decide _ = false |- _ => apply bool_decide_eq_false in H
  end.

Ltac case_bool :=
  match goal with
  | |- context [if ?b then _ else _] => destruct b eqn:?; b2p
  | H : context [if ?b then _ else _] |- _ => destruct b eqn:?; b2p
  end.

Lemma result_bind_Ok {E A B} (m : result E A) (k : A → result E B) b :
  result_bind m k = Ok b → ∃ a, m = Ok a ∧ k a = Ok b.
Proof. destruct m as [a|e]; [by exists a|done]. Qed.

(** [ok_inv H] inverts a successful chain of [let?] binds. *)
Ltac ok_inv H :=
  repeat match type of H with
  | result_bind ?m _ = Ok _ =>
      let a := fresh "a" in let E := fresh "E" in
      apply result_bind_Ok in H; destruct H as (a & E & H)
  end.

Create HintDb nanotun.
#[export] Hint Resolve bval_range uint16_range int64_range : nanotun.
Create Rewrite HintDb nanotun_rw.
#[export] Hint Rewrite byte_of_Z_bval bval_byte_of_Z : nanotun_rw.

(** ** Generic lemmas on lists *)

(** A decidable check over an initial segment of the integers. *)
Definition forallZ (n : nat) (p : Z → bool) : bool := forallb p (Z.of_nat <$> seq 0 n).

Lemma forallZ_spec n p : forallZ n p = true → ∀ z, 0 ≤ z < Z.of_nat n → p z = true.
Proof.
  unfold forallZ. rewrite forallb_forall. intros H z Hz. apply H.
  apply list_elem_of_In, list_elem_of_fmap. exists (Z.to_nat z).
  split; [lia|]. apply elem_of_seq. lia.
Qed.

Lemma take_drop_app_eq {A} (l k : list A) :
  drop (length l) (l ++ k) = k ∧ take (length l) (l ++ k) = l.
Proof. split; [apply drop_app_length|apply take_app_length]. Qed.

Lemma app_cons_not_elem {A} (x : A) l1 l2 k1 k2 :
  x ∉ l1 → x ∉ k1 → l1 ++ x :: l2 = k1 ++ x :: k2 → l1 = k1 ∧ l2 = k2.
Proof.
  revert k1. induction l1 as [|a l1 IH]; intros [|b k1] Hl Hk Heq; simplify_eq/=; auto.
  - set_solver.
  - set_solver.
  - destruct (IH k1) as [-> ->]; set_solver.
Qed.

Lemma drop_at {A} (s t : list A) (x : A) : drop (S (length s)) (s ++ x :: t) = t.
Proof.
  replace (S (length s)) with (length (s ++ [x])) by (rewrite length_app; cbn; lia).
  replace (s ++ x :: t) with ((s ++ [x]) ++ t) by (rewrite <- app_assoc; done). apply drop_app_length.
Qed.
