(* ===== verification/GoStrings.v ===== *)
(** * The Go standard library functions on strings that nanotun calls

    [strings], [strconv] and [unicode/utf8], on byte sequences, as the
    documentation and the sources of Go 1.25 give them: [TrimSpace] and
    [Fields] split on Unicode white space after UTF-8 decoding, [ToLower]
    maps runes with the Unicode simple lower-case mapping, and an invalid
    UTF-8 byte decodes to U+FFFD. *)

From S2P Require Import Prelude.

(** ** Definitions *)

(** *** Substrings *)

Definition HasPrefix (s p : gostring) : bool :=
  (length p <=? length s)%nat && bool_decide (take (length p) s = p).

Definition HasSuffix (s p : gostring) : bool :=
  (length p <=? length s)%nat && bool_decide (drop (length s - length p) s = p).

Definition TrimPrefix (s p : gostring) : gostring :=
  if HasPrefix s p then drop (length p) s else s.

Definition TrimSuffix (s p : gostring) : gostring :=
  if HasSuffix s p then take (length s - length p) s else s.

(** [Index s sub] is the position of the first occurrence of [sub]. *)
Fixpoint Index (s sub : gostring) : option nat :=
  if HasPrefix s sub then Some 0%nat
  else match s with [] => None | _ :: s' => S <$> Index s' sub end.

Definition Contains (s sub : gostring) : bool :=
  match Index s sub with Some _ => true | None => false end.

Fixpoint IndexByte (s : gostring) (c : byte) : option nat :=
  match s with
  | [] => None
  | b :: s' => if bool_decide (b = c) then Some 0%nat else S <$> IndexByte s' c
  end.

Fixpoint LastIndexByte (s : gostring) (c : byte) : option nat :=
  match s with
  | [] => None
  | b :: s' => match LastIndexByte s' c with
               | Some i => Some (S i)
               | None => if bool_decide (b = c) then Some 0%nat else None
               end
  end.

(** [Split s c]: the pieces of [s] between occurrences of the byte [c]; it is
    never empty. *)
Fixpoint Split (s : gostring) (c : byte) : list gostring :=
  match s with
  | [] => [[]]
  | b :: s' =>
      if bool_decide (b = c) then [] :: Split s' c
      else match Split s' c with
           | p :: ps => (b :: p) :: ps
           | [] => [[b]]
           end
  end.

(** [ReplaceAll s c new] for a one-byte pattern. *)
Definition ReplaceAll (s : gostring) (c : byte) (new : gostring) : gostring :=
  s ≫= λ b, if bool_decide (b = c) then new else [b].

(** *** UTF-8 *)

Definition RuneError : Z := 65533.

(** The size announced by a first byte and the range its second byte must lie
    in ([first] and [acceptRanges] of unicode/utf8). *)
Definition first_info (c : Z) : option (nat * Z * Z) :=
  if in_range 194 223 c then Some (2%nat, 128, 191)
  else if c =? 224 then Some (3%nat, 160, 191)
  else if in_range 225 236 c then Some (3%nat, 128, 191)
  else if c =? 237 then Some (3%nat, 128, 159)
  else if in_range 238 239 c then Some (3%nat, 128, 191)
  else if c =? 240 then Some (4%nat, 144, 191)
  else if in_range 241 243 c then Some (4%nat, 128, 191)
  else if c =? 244 then Some (4%nat, 128, 143)
  else None.

Definition cont (b : byte) : bool := in_range 128 191 (bval b).

(** [DecodeRuneInString]: the first rune and the number of bytes it takes. *)
Definition DecodeRune (s : gostring) : Z * nat :=
  match s with
  | [] => (RuneError, 0%nat)
  | b0 :: t =>
      if bval b0 <? 128 then (bval b0, 1%nat)
      else match first_info (bval b0) with
      | None => (RuneError, 1%nat)
      | Some (2%nat, lo, hi) =>
          match t with
          | b1 :: _ =>
              if in_range lo hi (bval b1)
              then ((bval b0 - 192) * 64 + (bval b1 - 128), 2%nat) else (RuneError, 1%nat)
          | _ => (RuneError, 1%nat)
          end
      | Some (3%nat, lo, hi) =>
          match t with
          | b1 :: b2 :: _ =>
              if in_range lo hi (bval b1) && cont b2
              then ((bval b0 - 224) * 4096 + (bval b1 - 128) * 64 + (bval b2 - 128), 3%nat)
              else (RuneError, 1%nat)
          | _ => (RuneError, 1%nat)
          end
      | Some (_, lo, hi) =>
          match t with
          | b1 :: b2 :: b3 :: _ =>
              if in_range lo hi (bval b1) && cont b2 && cont b3
              then ((bval b0 - 240) * 262144 + (bval b1 - 128) * 4096
                    + (bval b2 - 128) * 64 + (bval b3 - 128), 4%nat)
              else (RuneError, 1%nat)
          | _ => (RuneError, 1%nat)
          end
      end
  end.

#[global] Arguments DecodeRune : simpl never.

(** The runes of a string, each with the bytes it was decoded from.  Every
    decoded rune takes at least one byte, so the length is enough fuel. *)
Fixpoint chunks_fuel (n : nat) (s : gostring) : list (Z * gostring) :=
  match n, s with
  | O, _ | _, [] => []
  | S n', _ => let '(r, w) := DecodeRune s in (r, take w s) :: chunks_fuel n' (drop w s)
  end.
Definition chunks (s : gostring) : list (Z * gostring) := chunks_fuel (length s) s.
Definition runes (s : gostring) : list Z := (chunks s).*1.
Definition join_chunks (l : list (Z * gostring)) : gostring := l.*2 ≫= id.

Definition valid_rune (r : Z) : bool := in_range 0 55295 r || in_range 57344 1114111 r.

(** [AppendRune]: a rune that is no Unicode scalar value is written as U+FFFD. *)
Definition EncodeRune (r0 : Z) : gostring :=
  let r := if valid_rune r0 then r0 else RuneError in
  if r <? 128 then [byte_of_Z r]
  else if r <? 2048 then [byte_of_Z (192 + r `div` 64); byte_of_Z (128 + r `mod` 64)]
  else if r <? 65536 then
    [byte_of_Z (224 + r `div` 4096); byte_of_Z (128 + (r `div` 64) `mod` 64);
     byte_of_Z (128 + r `mod` 64)]
  else
    [byte_of_Z (240 + r `div` 262144); byte_of_Z (128 + (r `div` 4096) `mod` 64);
     byte_of_Z (128 + (r `div` 64) `mod` 64); byte_of_Z (128 + r `mod` 64)].

(** *** Unicode white space and lower case *)

Definition asciiSpace (c : Z) : bool := in_range 9 13 c || (c =? 32).

(** [unicode.IsSpace]: the Latin-1 cases and the White_Space property. *)
Definition IsSpace (r : Z) : bool :=
  asciiSpace r || (r =? 133) || (r =? 160) || (r =? 5760) || in_range 8192 8202 r
  || in_range 8232 8233 r || (r =? 8239) || (r =? 8287) || (r =? 12288).

(** The simple lower-case mappings above ASCII, as (first, last, stride, delta)
    rows: a rune of a row is mapped to itself plus delta. *)
Definition lower_table : list (Z * Z * Z * Z) :=
  [
    (192, 214, 1, 32); (216, 222, 1, 32); (256, 302, 2, 1); (304, 304, 1, (-199));
    (306, 310, 2, 1); (313, 327, 2, 1); (330, 374, 2, 1); (376, 376, 1, (-121)); (377, 381, 2, 1);
    (385, 385, 1, 210); (386, 388, 2, 1); (390, 390, 1, 206); (391, 391, 1, 1);
    (393, 394, 1, 205); (395, 395, 1, 1); (398, 398, 1, 79); (399, 399, 1, 202);
    (400, 400, 1, 203); (401, 401, 1, 1); (403, 403, 1, 205); (404, 404, 1, 207);
    (406, 406, 1, 211); (407, 407, 1, 209); (408, 408, 1, 1); (412, 412, 1, 211);
    (413, 413, 1, 213); (415, 415, 1, 214); (416, 420, 2, 1); (422, 422, 1, 218);
    (423, 423, 1, 1); (425, 425, 1, 218); (428, 428, 1, 1); (430, 430, 1, 218); (431, 431, 1, 1);
    (433, 434, 1, 217); (435, 437, 2, 1); (439, 439, 1, 219); (440, 440, 1, 1); (444, 444, 1, 1);
    (452, 452, 1, 2); (453, 453, 1, 1); (455, 455, 1, 2); (456, 456, 1, 1); (458, 458, 1, 2);
    (459, 475, 2, 1); (478, 494, 2, 1); (497, 497, 1, 2); (498, 500, 2, 1); (502, 502, 1, (-97));
    (503, 503, 1, (-56)); (504, 542, 2, 1); (544, 544, 1, (-130)); (546, 562, 2, 1);
    (570, 570, 1, 10795); (571, 571, 1, 1); (573, 573, 1, (-163)); (574, 574, 1, 10792);
    (577, 577, 1, 1); (579, 579, 1, (-195)); (580, 580, 1, 69); (581, 581, 1, 71);
    (582, 590, 2, 1); (880, 882, 2, 1); (886, 886, 1, 1); (895, 895, 1, 116); (902, 902, 1, 38);
    (904, 906, 1, 37); (908, 908, 1, 64); (910, 911, 1, 63); (913, 929, 1, 32); (931, 939, 1, 32);
    (975, 975, 1, 8); (984, 1006, 2, 1); (1012, 1012, 1, (-60)); (1015, 1015, 1, 1);
    (1017, 1017, 1, (-7)); (1018, 1018, 1, 1); (1021, 1023, 1, (-130)); (1024, 1039, 1, 80);
    (1040, 1071, 1, 32); (1120, 1152, 2, 1); (1162, 1214, 2, 1); (1216, 1216, 1, 15);
    (1217, 1229, 2, 1); (1232, 1326, 2, 1); (1329, 1366, 1, 48); (4256, 4293, 1, 7264);
    (4295, 4295, 1, 7264); (4301, 4301, 1, 7264); (5024, 5103, 1, 38864); (5104, 5109, 1, 8);
    (7312, 7354, 1, (-3008)); (7357, 7359, 1, (-3008)); (7680, 7828, 2, 1);
    (7838, 7838, 1, (-7615)); (7840, 7934, 2, 1); (7944, 7951, 1, (-8)); (7960, 7965, 1, (-8));
    (7976, 7983, 1, (-8)); (7992, 7999, 1, (-8)); (8008, 8013, 1, (-8)); (8025, 8031, 2, (-8));
    (8040, 8047, 1, (-8)); (8072, 8079, 1, (-8)); (8088, 8095, 1, (-8)); (8104, 8111, 1, (-8));
    (8120, 8121, 1, (-8)); (8122, 8123, 1, (-74)); (8124, 8124, 1, (-9)); (8136, 8139, 1, (-86));
    (8140, 8140, 1, (-9)); (8152, 8153, 1, (-8)); (8154, 8155, 1, (-100)); (8168, 8169, 1, (-8));
    (8170, 8171, 1, (-112)); (8172, 8172, 1, (-7)); (8184, 8185, 1, (-128));
    (8186, 8187, 1, (-126)); (8188, 8188, 1, (-9)); (8486, 8486, 1, (-7517));
    (8490, 8490, 1, (-8383)); (8491, 8491, 1, (-8262)); (8498, 8498, 1, 28); (8544, 8559, 1, 16);
    (8579, 8579, 1, 1); (9398, 9423, 1, 26); (11264, 11311, 1, 48); (11360, 11360, 1, 1);
    (11362, 11362, 1, (-10743)); (11363, 11363, 1, (-3814)); (11364, 11364, 1, (-10727));
    (11367, 11371, 2, 1); (11373, 11373, 1, (-10780)); (11374, 11374, 1, (-10749));
    (11375, 11375, 1, (-10783)); (11376, 11376, 1, (-10782)); (11378, 11378, 1, 1);
    (11381, 11381, 1, 1); (11390, 11391, 1, (-10815)); (11392, 11490, 2, 1); (11499, 11501, 2, 1);
    (11506, 11506, 1, 1); (42560, 42604, 2, 1); (42624, 42650, 2, 1); (42786, 42798, 2, 1);
    (42802, 42862, 2, 1); (42873, 42875, 2, 1); (42877, 42877, 1, (-35332)); (42878, 42886, 2, 1);
    (42891, 42891, 1, 1); (42893, 42893, 1, (-42280)); (42896, 42898, 2, 1); (42902, 42920, 2, 1);
    (42922, 42922, 1, (-42308)); (42923, 42923, 1, (-42319)); (42924, 42924, 1, (-42315));
    (42925, 42925, 1, (-42305)); (42926, 42926, 1, (-42308)); (42928, 42928, 1, (-42258));
    (42929, 42929, 1, (-42282)); (42930, 42930, 1, (-42261)); (42931, 42931, 1, 928);
    (42932, 42946, 2, 1); (42948, 42948, 1, (-48)); (42949, 42949, 1, (-42307));
    (42950, 42950, 1, (-35384)); (42951, 42953, 2, 1); (42960, 42960, 1, 1); (42966, 42968, 2, 1);
    (42997, 42997, 1, 1); (65313, 65338, 1, 32); (66560, 66599, 1, 40); (66736, 66771, 1, 40);
    (66928, 66938, 1, 39); (66940, 66954, 1, 39); (66956, 66962, 1, 39); (66964, 66965, 1, 39);
    (68736, 68786, 1, 64); (71840, 71871, 1, 32); (93760, 93791, 1, 32); (125184, 125217, 1, 34)
  ].

Fixpoint table_lower (t : list (Z * Z * Z * Z)) (r : Z) : Z :=
  match t with
  | [] => r
  | (lo, hi, stride, delta) :: t' =>
      if (if in_range lo hi r then (r - lo) `mod` stride =? 0 else false)
      then r + delta else table_lower t' r
  end.

Definition unicode_ToLower (r : Z) : Z :=
  if r <? 128 then (if in_range 65 90 r then r + 32 else r) else table_lower lower_table r.

Fixpoint drop_while {A} (p : A → bool) (l : list A) : list A :=
  match l with
  | [] => []
  | x :: l' => if p x then drop_while p l' else l
  end.

Definition trim_both {A} (p : A → bool) (l : list A) : list A :=
  rev (drop_while p (rev (drop_while p l))).

Definition TrimSpace (s : gostring) : gostring :=
  join_chunks (trim_both (λ c, IsSpace c.1) (chunks s)).

Definition ToLower (s : gostring) : gostring :=
  runes s ≫= λ r, EncodeRune (unicode_ToLower r).

(** [Fields]: the maximal runs of non-space runes. *)
Fixpoint fields_go (cur : gostring) (l : list (Z * gostring)) : list gostring :=
  match l with
  | [] => if bool_decide (cur = []) then [] else [cur]
  | (r, bs) :: l' =>
      if IsSpace r
      then (if bool_decide (cur = []) then [] else [cur]) ++ fields_go [] l'
      else fields_go (cur ++ bs) l'
  end.
Definition Fields (s : gostring) : list gostring := fields_go [] (chunks s).

(** *** Numbers *)

Definition digit (d : Z) : byte := byte_of_Z (48 + d).
Definition isDigit (b : byte) : bool := in_range 48 57 (bval b).

(** Decimal digits of a non-negative 64-bit value: at most 20 of them. *)
Fixpoint dec_digits (fuel : nat) (n : Z) (acc : gostring) : gostring :=
  match fuel with
  | O => acc
  | S f => let acc' := digit (n `mod` 10) :: acc in
           if n <? 10 then acc' else dec_digits f (n `div` 10) acc'
  end.
Definition FormatUint (n : Z) : gostring := dec_digits 20 n [].
Definition Itoa (n : Z) : gostring :=
  if n <? 0 then "-"%byte :: FormatUint (- n) else FormatUint n.

Fixpoint digits_val (acc : Z) (s : gostring) : option Z :=
  match s with
  | [] => Some acc
  | b :: s' => if isDigit b then digits_val (acc * 10 + (bval b - 48)) s' else None
  end.

Definition ParseUint (s : gostring) (max : Z) : option Z :=
  match s with
  | [] => None
  | _ => n ← digits_val 0 s; if n <=? max then Some n else None
  end.

Definition Atoi (s : gostring) : option Z :=
  match s with
  | [] => None
  | b :: t =>
      if bool_decide (b = "-"%byte) then n ← ParseUint t (2 ^ 63); Some (- n)
      else if bool_decide (b = "+"%byte) then ParseUint t max_int64
      else ParseUint s max_int64
  end.

(** ** Lemmas *)

(** *** Prefixes, suffixes, positions *)

Lemma HasPrefix_true s p : HasPrefix s p = true ↔ ∃ t, s = p ++ t.
Proof.
  unfold HasPrefix. rewrite andb_true_iff, Nat.leb_le, bool_decide_eq_true. split.
  - intros [Hl Ht]. exists (drop (length p) s). by rewrite <- Ht at 1; rewrite take_drop.
  - intros [t ->]. rewrite length_app, take_app_length. split; [lia|done].
Qed.

Lemma HasSuffix_true s p : HasSuffix s p = true ↔ ∃ t, s = t ++ p.
Proof.
  unfold HasSuffix. rewrite andb_true_iff, Nat.leb_le, bool_decide_eq_true. split.
  - intros [Hl Ht]. exists (take (length s - length p) s).
    rewrite <- Ht at 2. by rewrite take_drop.
  - intros [t ->]. rewrite length_app. split; [lia|].
    replace (length t + length p - length p)%nat with (length t) by lia.
    apply drop_app_length.
Qed.

Lemma HasPrefix_app p t : HasPrefix (p ++ t) p = true.
Proof. apply HasPrefix_true. eauto. Qed.

Lemma HasSuffix_app t p : HasSuffix (t ++ p) p = true.
Proof. apply HasSuffix_true. eauto. Qed.

Lemma TrimPrefix_app p t : TrimPrefix (p ++ t) p = t.
Proof. unfold TrimPrefix. rewrite HasPrefix_app. apply drop_app_length. Qed.

Lemma TrimSuffix_app t p : TrimSuffix (t ++ p) p = t.
Proof.
  unfold TrimSuffix. rewrite HasSuffix_app, length_app.
  replace (length t + length p - length p)%nat with (length t) by lia.
  apply take_app_length.
Qed.

Lemma IndexByte_None s c : IndexByte s c = None ↔ c ∉ s.
Proof.
  induction s as [|b s IH]; simpl; [set_solver|].
  case_bool; [set_solver|]. rewrite fmap_None, IH. set_solver.
Qed.

Lemma IndexByte_app s c t : c ∉ s → IndexByte (s ++ c :: t) c = Some (length s).
Proof.
  induction s as [|b s IH]; simpl; intros Hc.
  - by rewrite bool_decide_eq_true_2.
  - rewrite bool_decide_eq_false_2 by set_solver. rewrite IH by set_solver. done.
Qed.

Lemma LastIndexByte_None s c : LastIndexByte s c = None ↔ c ∉ s.
Proof.
  induction s as [|b s IH]; simpl; [set_solver|].
  destruct (LastIndexByte s c) eqn:E.
  - split; [done|]. intros Hn. exfalso.
    assert (c ∉ s) as H%IH by set_solver. done.
  - case_bool; [set_solver|]. split; [|done]. intros _. set_solver.
Qed.

Lemma LastIndexByte_app s c t : c ∉ t → LastIndexByte (s ++ c :: t) c = Some (length s).
Proof.
  intros Ht%LastIndexByte_None. induction s as [|b s IH]; simpl.
  - by rewrite Ht, bool_decide_eq_true_2.
  - by rewrite IH.
Qed.

Lemma Contains_byte s c : Contains s [c] = bool_decide (c ∈ s).
Proof.
  unfold Contains. induction s as [|b s IH].
  - symmetry. apply bool_decide_eq_false_2. set_solver.
  - cbn [Index]. destruct (HasPrefix (b :: s) [c]) eqn:E.
    + apply HasPrefix_true in E as [t Ht]. simplify_eq/=.
      by rewrite bool_decide_eq_true_2 by set_solver.
    + assert (b ≠ c).
      { intros ->. apply not_true_iff_false in E. apply E, HasPrefix_true. by exists s. }
      rewrite (bool_decide_ext (c ∈ b :: s) (c ∈ s)) by set_solver.
      rewrite <- IH. by destruct (Index s [c]).
Qed.

(** *** Splitting *)

Lemma Split_not_in s c : c ∉ s → Split s c = [s].
Proof.
  induction s as [|b s IH]; simpl; intros Hc; [done|].
  rewrite bool_decide_eq_false_2 by set_solver. rewrite IH by set_solver. done.
Qed.

Lemma Split_app s c t : c ∉ s → Split (s ++ c :: t) c = s :: Split t c.
Proof.
  induction s as [|b s IH]; simpl; intros Hc.
  - by rewrite bool_decide_eq_true_2.
  - rewrite bool_decide_eq_false_2 by set_solver. rewrite IH by set_solver. done.
Qed.

(** *** Numbers *)

Lemma digit_bval d : 0 ≤ d < 10 → bval (digit d) = 48 + d.
Proof. intros. unfold digit. apply bval_byte_of_Z_small. lia. Qed.

Lemma isDigit_digit d : 0 ≤ d < 10 → isDigit (digit d) = true.
Proof. intros. unfold isDigit. rewrite digit_bval by done. apply in_range_true. lia. Qed.

Lemma div10_bound n f : 10 ≤ n < 10 ^ Z.of_nat (S f) →
  1 ≤ n `div` 10 < 10 ^ Z.of_nat f ∧ (0 < f)%nat.
Proof.
  intros Hn. replace (Z.of_nat (S f)) with (1 + Z.of_nat f) in Hn by lia.
  rewrite Z.pow_add_r in Hn by lia. split; [split|].
  - apply Z.div_le_lower_bound; lia.
  - apply Z.div_lt_upper_bound; lia.
  - destruct f; [|lia]. change (10 ^ Z.of_nat 0) with 1 in Hn. lia.
Qed.

Lemma dec_digits_spec fuel n acc :
  0 ≤ n < 10 ^ Z.of_nat fuel → (0 < fuel)%nat →
  ∃ ds, dec_digits fuel n acc = ds ++ acc ∧ ds ≠ [] ∧ Forall (λ b, isDigit b = true) ds ∧
    ∀ a t, digits_val a (ds ++ t) = digits_val (a * 10 ^ Z.of_nat (length ds) + n) t.
Proof.
  revert n acc. induction fuel as [|f IH]; intros n acc Hn Hf; [lia|].
  cbn [dec_digits]. case_bool.
  - exists [digit (n `mod` 10)]. rewrite Z.mod_small by lia.
    repeat split; [done|repeat constructor; apply isDigit_digit; lia|].
    intros a t. simpl. rewrite isDigit_digit, digit_bval by lia. f_equal. lia.
  - destruct (div10_bound n f) as [Hd Hf']; [lia|].
    destruct (IH (n `div` 10) (digit (n `mod` 10) :: acc)) as (ds & -> & Hne & Hall & Hv);
      [lia|done|].
    pose proof (Z.mod_pos_bound n 10 ltac:(lia)) as Hm.
    exists (ds ++ [digit (n `mod` 10)]). rewrite <- app_assoc. split_and!; [done| | |].
    + by destruct ds.
    + apply Forall_app. split; [done|]. repeat constructor. by apply isDigit_digit.
    + intros a t. rewrite <- app_assoc, Hv. simpl.
      rewrite isDigit_digit, digit_bval by done. f_equal.
      rewrite length_app. simpl length. rewrite Nat2Z.inj_add, Z.pow_add_r by lia.
      change (10 ^ Z.of_nat 1) with 10. pose proof (Z.div_mod n 10). lia.
Qed.

Lemma dec_digits_lead fuel n acc :
  1 ≤ n < 10 ^ Z.of_nat fuel → (0 < fuel)%nat →
  ∃ b t, dec_digits fuel n acc = b :: t ∧ 49 ≤ bval b ≤ 57.
Proof.
  revert n acc. induction fuel as [|f IH]; intros n acc Hn Hf; [lia|].
  cbn [dec_digits]. case_bool.
  - eexists _, _. split; [done|]. rewrite Z.mod_small, digit_bval by lia. lia.
  - destruct (div10_bound n f) as [Hd Hf']; [lia|]. by apply IH.
Qed.

(** The decimal text of a 64-bit value: digits only, and read back unchanged. *)
Lemma FormatUint_spec n : 0 ≤ n < 2 ^ 64 →
  FormatUint n ≠ [] ∧ Forall (λ b, isDigit b = true) (FormatUint n) ∧
  ∀ a t, ∃ k, digits_val a (FormatUint n ++ t) = digits_val (a * k + n) t.
Proof.
  intros Hn. destruct (dec_digits_spec 20 n []) as (ds & E & Hne & Hall & Hv); [lia..|].
  unfold FormatUint. rewrite E, app_nil_r. eauto.
Qed.

Lemma FormatUint_lead n : 1 ≤ n < 2 ^ 64 →
  ∃ b t, FormatUint n = b :: t ∧ 49 ≤ bval b ≤ 57.
Proof. intros. apply dec_digits_lead; lia. Qed.

Lemma ParseUint_FormatUint n max : 0 ≤ n < 2 ^ 64 → n ≤ max →
  ParseUint (FormatUint n) max = Some n.
Proof.
  intros Hn Hm. destruct (FormatUint_spec n Hn) as (Hne & _ & Hv).
  destruct (Hv 0 []) as [k Hk]. rewrite app_nil_r, Z.mul_0_l, Z.add_0_l in Hk.
  unfold ParseUint. destruct (FormatUint n) as [|b t]; [done|]. rewrite Hk. simpl.
  by rewrite (proj2 (Z.leb_le _ _)).
Qed.

Lemma isDigit_ne b c : isDigit b = true → isDigit c = false → b ≠ c.
Proof. congruence. Qed.

Lemma digits_not_in s c : Forall (λ b, isDigit b = true) s → isDigit c = false → c ∉ s.
Proof. rewrite Forall_forall. intros H Hc Hin. apply H in Hin. congruence. Qed.

Lemma FormatUint_not_in n c : 0 ≤ n < 2 ^ 64 → isDigit c = false → c ∉ FormatUint n.
Proof. intros Hn. apply digits_not_in. by apply FormatUint_spec. Qed.

Lemma Atoi_FormatUint n : 0 ≤ n ≤ max_int64 → Atoi (FormatUint n) = Some n.
Proof.
  unfold max_int64. intros Hn. rewrite <- (ParseUint_FormatUint n max_int64); unfold max_int64; try lia.
  destruct (FormatUint_spec n) as (_ & Hall & _); [lia|].
  destruct (FormatUint n) as [|b t]; [done|]. apply Forall_cons in Hall as [Hb _].
  unfold Atoi. rewrite !bool_decide_eq_false_2; [done|intros ->; done..].
Qed.

Lemma Itoa_nonneg n : 0 ≤ n → Itoa n = FormatUint n.
Proof. intros. unfold Itoa. by rewrite (proj2 (Z.ltb_ge _ _)). Qed.

(** *** UTF-8 *)

Lemma DecodeRune_width s : s ≠ [] → (1 ≤ (DecodeRune s).2 ≤ length s)%nat.
Proof.
  intros Hs. destruct s as [|b0 t]; [done|]. unfold DecodeRune.
  repeat (case_match; simplify_eq/=; try lia).
Qed.

Lemma chunks_fuel_enough n s : (length s ≤ n)%nat → chunks_fuel n s = chunks s.
Proof.
  unfold chunks. intros Hn. remember (length s) as m eqn:Hm.
  assert (length s ≤ m)%nat as Hm' by lia. clear Hm.
  revert m s Hn Hm'. induction n as [|n IH]; intros [|m] [|b s] Hn Hm; simpl in Hn, Hm; try done; try lia.
  cbn [chunks_fuel]. destruct (DecodeRune (b :: s)) as [r w] eqn:E.
  pose proof (DecodeRune_width (b :: s) ltac:(done)) as Hw. rewrite E in Hw. simpl in Hw.
  f_equal. apply IH; [lia|]. rewrite length_drop. simpl. lia.
Qed.

Lemma chunks_unfold s : s ≠ [] →
  chunks s = ((DecodeRune s).1, take (DecodeRune s).2 s) :: chunks (drop (DecodeRune s).2 s).
Proof.
  intros Hs. pose proof (DecodeRune_width s Hs) as Hw. unfold chunks at 1.
  destruct s as [|b s]; [done|]. cbn [length chunks_fuel].
  destruct (DecodeRune (b :: s)) as [r w] eqn:E. simpl in *.
  f_equal. apply chunks_fuel_enough. rewrite length_drop. simpl. lia.
Qed.

Lemma join_chunks_chunks s : join_chunks (chunks s) = s.
Proof.
  induction s as [s IH] using (induction_ltof1 _ (@length byte)); unfold ltof in IH.
  destruct (decide (s = [])) as [->|Hs]; [done|].
  rewrite chunks_unfold by done. unfold join_chunks in *. cbn -[take drop DecodeRune].
  rewrite IH; [apply take_drop|]. rewrite length_drop.
  pose proof (DecodeRune_width s Hs). lia.
Qed.

Section Utf8Roundtrip.
#[local] Ltac Zify.zify_post_hook ::= Z.div_mod_to_equations.

Ltac decode_tac :=
  repeat (rewrite bval_byte_of_Z_small by lia); unfold first_info, cont;
  repeat (rewrite bval_byte_of_Z_small by lia);
  repeat (case_bool; try (exfalso; lia)); try (f_equal; lia).

Lemma DecodeRune_EncodeRune r t : valid_rune r = true →
  DecodeRune (EncodeRune r ++ t) = (r, length (EncodeRune r)).
Proof.
  intros Hr. unfold EncodeRune. rewrite Hr. unfold valid_rune in Hr.
  apply orb_true_iff in Hr. assert (0 ≤ r ≤ 55295 ∨ 57344 ≤ r ≤ 1114111) as Hv
    by (destruct Hr; b2p; lia). clear Hr.
  repeat case_bool; cbn [app length]; unfold DecodeRune; decode_tac.
Qed.
End Utf8Roundtrip.

Lemma EncodeRune_ne r : EncodeRune r ≠ [].
Proof. unfold EncodeRune. repeat case_bool; done. Qed.

Lemma chunks_EncodeRune r t : valid_rune r = true →
  chunks (EncodeRune r ++ t) = (r, EncodeRune r) :: chunks t.
Proof.
  intros Hr. rewrite chunks_unfold.
  - rewrite DecodeRune_EncodeRune by done. cbn [fst snd].
    by rewrite take_app_length, drop_app_length.
  - pose proof (EncodeRune_ne r). by destruct (EncodeRune r).
Qed.

(** Decoding what was encoded gives the runes back. *)
Lemma runes_encode rs : Forall (λ r, valid_rune r = true) rs → runes (rs ≫= EncodeRune) = rs.
Proof.
  unfold runes. induction 1 as [|r rs Hr _ IH]; [done|]. rewrite bind_cons.
  rewrite chunks_EncodeRune by done. rewrite fmap_cons. f_equal. exact IH.
Qed.

(** *** Case folding *)

Lemma DecodeRune_valid s : valid_rune (DecodeRune s).1 = true.
Proof.
  destruct s as [|b0 t]; [done|]. unfold DecodeRune.
  pose proof (bval_range b0) as H0.
  case_bool; [unfold valid_rune; apply orb_true_iff; left; apply in_range_true; simpl; lia|].
  unfold first_info, valid_rune, cont.
  repeat (case_match; simplify_eq; try done); b2p;
    repeat match goal with b : byte |- _ => pose proof (bval_range b); revert b end; intros;
    apply orb_true_iff; cbn [fst];
    repeat match goal with |- context [in_range ?a ?b ?c = true] => rewrite (in_range_true a b c) end;
    lia.
Qed.

Lemma runes_valid s : Forall (λ r, valid_rune r = true) (runes s).
Proof.
  unfold runes. induction s as [s IH] using (induction_ltof1 _ (@length byte)); unfold ltof in IH.
  destruct (decide (s = [])) as [->|Hs]; [constructor|].
  rewrite chunks_unfold by done. constructor; [apply DecodeRune_valid|].
  apply IH. rewrite length_drop. pose proof (DecodeRune_width s Hs). lia.
Qed.

(** The runes a row of the table maps. *)
Definition row_runes (row : Z * Z * Z * Z) : list Z :=
  let '(lo, hi, stride, _) := row in
  (λ k, lo + stride * k) <$> seqZ 0 ((hi - lo) `div` stride + 1).

Lemma table_lower_spec t r :
  forallb (λ row : Z * Z * Z * Z, 0 <? row.1.2) t = true →
  table_lower t r = r ∨ r ∈ t ≫= row_runes.
Proof.
  induction t as [|[[[lo hi] stride] delta] t IH]; [by left|].
  cbn [table_lower forallb fst snd]. intros Ht. apply andb_true_iff in Ht as [Hs Ht]. b2p.
  repeat case_bool; try done.
  - right. rewrite bind_cons. apply elem_of_app. left. unfold row_runes.
    apply list_elem_of_fmap. exists ((r - lo) `div` stride).
    pose proof (Z.div_mod (r - lo) stride ltac:(lia)). split; [lia|]. apply elem_of_seqZ.
    split; [apply Z.div_pos; lia|].
    assert ((r - lo) `div` stride ≤ (hi - lo) `div` stride) by (apply Z.div_le_mono; lia). lia.
  - destruct (IH Ht) as [->|IH']; [by left|right]. rewrite bind_cons. set_solver.
  - destruct (IH Ht) as [->|IH']; [by left|right]. rewrite bind_cons. set_solver.
Qed.

Lemma lower_table_checked :
  forallb (λ r, (unicode_ToLower (unicode_ToLower r) =? unicode_ToLower r)
                && valid_rune (unicode_ToLower r) && negb (IsSpace (unicode_ToLower r)))
    (lower_table ≫= row_runes) = true.
Proof. vm_compute. reflexivity. Qed.

Lemma unicode_ToLower_cases r :
  unicode_ToLower r = r ∨ (65 ≤ r ≤ 90 ∧ unicode_ToLower r = r + 32) ∨
  (r ∈ lower_table ≫= row_runes).
Proof.
  unfold unicode_ToLower. case_bool; [case_bool; [right; left; split; [lia|done]|by left]|].
  destruct (table_lower_spec lower_table r eq_refl) as [->|H]; auto.
Qed.

Lemma unicode_ToLower_idem r : unicode_ToLower (unicode_ToLower r) = unicode_ToLower r.
Proof.
  destruct (unicode_ToLower_cases r) as [E|[[Hr E]|H]].
  - by rewrite E.
  - rewrite E. unfold unicode_ToLower. rewrite (proj2 (Z.ltb_lt _ _)) by lia.
    by rewrite (proj2 (in_range_false _ _ _)) by lia.
  - pose proof lower_table_checked as Hc. rewrite forallb_forall in Hc.
    apply list_elem_of_In in H. apply Hc in H. b2p. done.
Qed.

Lemma unicode_ToLower_valid r : valid_rune r = true → valid_rune (unicode_ToLower r) = true.
Proof.
  intros Hv. destruct (unicode_ToLower_cases r) as [E|[[Hr E]|H]].
  - by rewrite E.
  - rewrite E. unfold valid_rune. apply orb_true_iff. left. apply in_range_true. lia.
  - pose proof lower_table_checked as Hc. rewrite forallb_forall in Hc.
    apply list_elem_of_In in H. apply Hc in H. b2p. done.
Qed.

Lemma ToLower_alt s : ToLower s = (unicode_ToLower <$> runes s) ≫= EncodeRune.
Proof.
  unfold ToLower. induction (runes s) as [|r rs IH]; [done|].
  rewrite fmap_cons, !bind_cons. by rewrite IH.
Qed.

Lemma runes_ToLower s : runes (ToLower s) = unicode_ToLower <$> runes s.
Proof.
  rewrite ToLower_alt. apply runes_encode. apply Forall_fmap.
  eapply Forall_impl; [apply runes_valid|]. intros r. apply unicode_ToLower_valid.
Qed.

Lemma ToLower_idem s : ToLower (ToLower s) = ToLower s.
Proof.
  rewrite (ToLower_alt (ToLower s)), runes_ToLower, <- list_fmap_compose, ToLower_alt.
  f_equal. apply list_fmap_ext. intros _ r _. apply unicode_ToLower_idem.
Qed.

(** *** White space *)

(** Decoding looks no further than the bytes of the rune: cutting the string
    anywhere behind them changes nothing. *)
Lemma DecodeRune_take s m : s ≠ [] → ((DecodeRune s).2 ≤ m)%nat → DecodeRune (take m s) = DecodeRune s.
Proof.
  destruct s as [|b0 t]; [done|]. intros _ Hm.
  assert (1 ≤ m)%nat as H1 by (pose proof (DecodeRune_width (b0 :: t) ltac:(done)); lia).
  destruct m as [|m]; [lia|]. cbn [take]. revert Hm. unfold DecodeRune.
  destruct (bval b0 <? 128); [done|]. destruct (first_info (bval b0)) as [[[n lo] hi]|]; [|done].
  destruct t as [|b1 [|b2 [|b3 t]]], m as [|[|[|m]]]; cbn [take];
    repeat (case_match; cbn [snd]; try done; try lia).
Qed.

Lemma chunks_ne s : s ≠ [] → chunks s ≠ [].
Proof. intros Hs. by rewrite chunks_unfold. Qed.

Lemma join_chunks_app l k : join_chunks (l ++ k) = join_chunks l ++ join_chunks k.
Proof. unfold join_chunks. by rewrite fmap_app, bind_app. Qed.

Lemma join_chunks_cons c l : join_chunks (c :: l) = c.2 ++ join_chunks l.
Proof. done. Qed.

Lemma chunks_cons_inv s c l : chunks s = c :: l →
  s ≠ [] ∧ c = ((DecodeRune s).1, take (DecodeRune s).2 s) ∧ l = chunks (drop (DecodeRune s).2 s).
Proof.
  intros H. assert (s ≠ []) as Hs by (intros ->; done).
  rewrite chunks_unfold in H by done. by simplify_eq.
Qed.

Lemma chunks_suffix l1 l2 s : chunks s = l1 ++ l2 → chunks (join_chunks l2) = l2.
Proof.
  revert s. induction l1 as [|c l1 IH]; intros s H.
  - simpl in H. subst l2. by rewrite join_chunks_chunks.
  - apply chunks_cons_inv in H as (_ & _ & H). eapply IH. symmetry. exact H.
Qed.

Lemma chunks_prefix l1 l2 s : chunks s = l1 ++ l2 → chunks (join_chunks l1) = l1.
Proof.
  revert s. induction l1 as [|c l1 IH]; intros s H; [done|].
  apply chunks_cons_inv in H as (Hs & -> & H). symmetry in H. pose proof (IH _ H) as HI.
  pose proof (join_chunks_chunks (drop (DecodeRune s).2 s)) as HJ. rewrite H, join_chunks_app in HJ.
  rewrite join_chunks_cons. cbn [snd].
  set (w := (DecodeRune s).2) in *. pose proof (DecodeRune_width s Hs) as Hw. fold w in Hw.
  assert (take w s ++ join_chunks l1 = take (w + length (join_chunks l1)) s) as E.
  { rewrite <- (take_drop w s) at 2. rewrite take_app_ge by (rewrite length_take; lia).
    rewrite length_take. replace (w + length (join_chunks l1) - w `min` length s)%nat
      with (length (join_chunks l1)) by lia.
    by rewrite <- HJ, take_app_length. }
  assert (DecodeRune (take w s ++ join_chunks l1) = DecodeRune s) as ED.
  { rewrite E. apply DecodeRune_take; [done|]. fold w. lia. }
  rewrite chunks_unfold by (destruct s; [done|]; destruct w; [lia|done]).
  rewrite ED. fold w.
  rewrite take_app_le, take_take, Nat.min_id by (rewrite length_take; lia).
  rewrite drop_app_ge by (rewrite length_take; lia).
  rewrite length_take. replace (w - w `min` length s)%nat with 0%nat by lia.
  rewrite drop_0. by rewrite HI.
Qed.

Lemma drop_while_split {A} (p : A → bool) l :
  ∃ a, l = a ++ drop_while p l ∧ Forall (λ x, p x = true) a ∧
       match drop_while p l with [] => True | x :: _ => p x = false end.
Proof.
  induction l as [|x l (a & IH1 & IH2 & IH3)]; [by exists []|]. cbn [drop_while].
  destruct (p x) eqn:E; [|exists []; by rewrite E].
  exists (x :: a). split_and!; [by simpl; f_equal|by constructor|done].
Qed.

(** [trim_both] cuts a prefix and a suffix of elements that satisfy [p], and
    neither end of what is left satisfies it. *)
Lemma trim_both_split {A} (p : A → bool) l :
  ∃ a b, l = a ++ trim_both p l ++ b ∧ Forall (λ x, p x = true) a ∧ Forall (λ x, p x = true) b ∧
    match trim_both p l with [] => True | x :: _ => p x = false end ∧
    match rev (trim_both p l) with [] => True | x :: _ => p x = false end.
Proof.
  unfold trim_both. destruct (drop_while_split p l) as (a & Ha & Hpa & Hha).
  destruct (drop_while_split p (rev (drop_while p l))) as (b & Hb & Hpb & Hhb).
  set (m := drop_while p l) in *. set (k := drop_while p (rev m)) in *.
  assert (m = rev k ++ rev b) as Hm.
  { rewrite <- rev_app_distr, <- Hb. by rewrite rev_involutive. }
  exists a, (rev b). rewrite <- Hm. split_and!; try done.
  - apply Forall_forall. intros x Hx. rewrite Forall_forall in Hpb. apply Hpb.
    apply list_elem_of_In. rewrite in_rev. by apply list_elem_of_In.
  - destruct (rev k) as [|x t] eqn:Ek; [done|]. rewrite Hm in Hha. exact Hha.
  - rewrite rev_involutive. done.
Qed.

Lemma drop_while_none {A} (p : A → bool) l :
  match l with [] => True | x :: _ => p x = false end → drop_while p l = l.
Proof. destruct l as [|x l]; [done|]. simpl. by intros ->. Qed.

Lemma trim_both_id {A} (p : A → bool) l :
  match l with [] => True | x :: _ => p x = false end →
  match rev l with [] => True | x :: _ => p x = false end → trim_both p l = l.
Proof.
  intros H1 H2. unfold trim_both. rewrite (drop_while_none p l) by done.
  rewrite drop_while_none by done. apply rev_involutive.
Qed.

Lemma drop_while_fmap {A B} (f : A → B) (p : A → bool) (q : B → bool) l :
  (∀ x, x ∈ l → q (f x) = p x) → drop_while q (f <$> l) = f <$> drop_while p l.
Proof.
  induction l as [|x l IH]; intros Hpq; [done|]. cbn. rewrite Hpq by left.
  destruct (p x); [|done]. apply IH. intros y Hy. apply Hpq. by right.
Qed.

Lemma elem_of_drop_while {A} (p : A → bool) l x : x ∈ drop_while p l → x ∈ l.
Proof. induction l as [|y l IH]; [done|]. cbn. destruct (p y); [|done]. right. by apply IH. Qed.

Lemma trim_both_fmap {A B} (f : A → B) (p : A → bool) (q : B → bool) l :
  (∀ x, x ∈ l → q (f x) = p x) → trim_both q (f <$> l) = f <$> trim_both p l.
Proof.
  intros Hpq. unfold trim_both. rewrite (drop_while_fmap f p q) by done.
  change (rev (f <$> drop_while p l)) with (rev (map f (drop_while p l))). rewrite <- map_rev.
  change (map f (rev (drop_while p l))) with (f <$> rev (drop_while p l)).
  rewrite (drop_while_fmap f p q).
  - symmetry. apply map_rev.
  - intros x Hx. apply Hpq. apply list_elem_of_In, in_rev, list_elem_of_In in Hx.
    by apply elem_of_drop_while in Hx.
Qed.

Lemma chunks_TrimSpace s : chunks (TrimSpace s) = trim_both (λ c, IsSpace c.1) (chunks s).
Proof.
  unfold TrimSpace. destruct (trim_both_split (λ c, IsSpace c.1) (chunks s)) as (a & b & E & _).
  rewrite app_assoc in E. apply chunks_prefix in E. by apply chunks_suffix in E.
Qed.

Lemma runes_TrimSpace s : runes (TrimSpace s) = trim_both IsSpace (runes s).
Proof.
  unfold runes. rewrite chunks_TrimSpace. symmetry. by apply trim_both_fmap.
Qed.

Lemma TrimSpace_idem s : TrimSpace (TrimSpace s) = TrimSpace s.
Proof.
  unfold TrimSpace at 1. rewrite chunks_TrimSpace.
  destruct (trim_both_split (λ c, IsSpace c.1) (chunks s)) as (a & b & _ & _ & _ & H1 & H2).
  rewrite trim_both_id by done. by rewrite <- chunks_TrimSpace, join_chunks_chunks.
Qed.

Lemma unicode_ToLower_space r : IsSpace (unicode_ToLower r) = IsSpace r.
Proof.
  destruct (unicode_ToLower_cases r) as [->|[[Hr ->]|H]]; [done| |].
  - assert (forallZ 91 (λ r, negb (in_range 65 90 r) || Bool.eqb (IsSpace (r + 32)) (IsSpace r)) = true)
      as Hc by (vm_compute; reflexivity).
    pose proof (forallZ_spec _ _ Hc r ltac:(lia)) as H'. cbn beta in H'.
    rewrite (proj2 (in_range_true _ _ _)) in H' by lia. by apply eqb_prop.
  - assert (forallb (λ r, negb (IsSpace (unicode_ToLower r)) && negb (IsSpace r)) (lower_table ≫= row_runes) = true)
      as Hc by (vm_compute; reflexivity).
    rewrite forallb_forall in Hc. apply list_elem_of_In, Hc in H. b2p. congruence.
Qed.

(** A valid encoding of the same runes is the same string. *)
Lemma ToLower_runes_eq s t : runes s = runes t → ToLower s = ToLower t.
Proof. intros H. rewrite !ToLower_alt. by rewrite H. Qed.

Lemma trim_both_sub {A} (p : A → bool) l (P : A → Prop) : Forall P l → Forall P (trim_both p l).
Proof.
  intros H. destruct (trim_both_split p l) as (a & b & E & _). rewrite E in H.
  apply Forall_app in H as [_ H]. by apply Forall_app in H as [H _].
Qed.

(** Lower-casing and trimming commute. *)
Lemma ToLower_TrimSpace s : ToLower (TrimSpace s) = TrimSpace (ToLower s).
Proof.
  rewrite ToLower_alt, runes_TrimSpace.
  rewrite <- (trim_both_fmap unicode_ToLower IsSpace IsSpace) by (intros; apply unicode_ToLower_space).
  unfold TrimSpace. rewrite ToLower_alt.
  assert (∀ rs, Forall (λ r, valid_rune r = true) rs →
    chunks (rs ≫= EncodeRune) = (λ r, (r, EncodeRune r)) <$> rs) as Hch.
  { induction 1 as [|r rs Hr _ IH]; [done|]. rewrite bind_cons, fmap_cons.
    rewrite chunks_EncodeRune by done. by f_equal. }
  rewrite Hch.
  - rewrite (trim_both_fmap (λ r, (r, EncodeRune r)) IsSpace) by done.
    unfold join_chunks. rewrite <- list_fmap_compose. generalize (trim_both IsSpace (unicode_ToLower <$> runes s)).
    intros l. induction l as [|r l IH]; [done|]. rewrite bind_cons, fmap_cons, bind_cons. by rewrite IH.
  - apply Forall_fmap. eapply Forall_impl; [apply runes_valid|]. intros r. apply unicode_ToLower_valid.
Qed.

(** An ASCII byte never belongs to a longer encoding, so decoding splits there. *)
Lemma DecodeRune_app_ascii s b t : s ≠ [] → bval b < 128 →
  DecodeRune (s ++ b :: t) = DecodeRune s.
Proof.
  intros Hs Hb. destruct s as [|b0 s]; [done|]. unfold DecodeRune. cbn [app].
  assert (∀ lo hi, 128 ≤ lo → in_range lo hi (bval b) = false) as Hr
    by (intros; apply in_range_false; lia).
  assert (cont b = false) as Hc by (apply Hr; lia).
  destruct (bval b0 <? 128); [done|]. destruct (first_info (bval b0)) as [[[n lo] hi]|] eqn:E; [|done].
  assert (128 ≤ lo) as Hlo.
  { revert E. unfold first_info. repeat (case_bool; [intros; simplify_eq; lia|]). done. }
  destruct s as [|b1 [|b2 [|b3 s]]]; cbn [app];
    repeat (case_match; simplify_eq; try done); rewrite ?Hr, ?Hc, ?andb_false_r in * by done; try done.
Qed.

Lemma chunks_app_ascii s b t : bval b < 128 → chunks (s ++ b :: t) = chunks s ++ chunks (b :: t).
Proof.
  intros Hb. induction s as [s IH] using (induction_ltof1 _ (@length byte)); unfold ltof in IH.
  destruct (decide (s = [])) as [->|Hs]; [done|].
  rewrite (chunks_unfold (s ++ b :: t)) by by destruct s. rewrite (chunks_unfold s) by done.
  rewrite DecodeRune_app_ascii by done. pose proof (DecodeRune_width s Hs) as Hw.
  rewrite take_app_le, drop_app_le by lia. cbn [app]. f_equal. apply IH. rewrite length_drop. lia.
Qed.

Lemma runes_app_ascii s b t : bval b < 128 → runes (s ++ b :: t) = runes s ++ runes (b :: t).
Proof. intros. unfold runes. by rewrite chunks_app_ascii, fmap_app. Qed.

Lemma ToLower_app_ascii s b t : bval b < 128 → ToLower (s ++ b :: t) = ToLower s ++ ToLower (b :: t).
Proof. intros. rewrite !ToLower_alt. by rewrite runes_app_ascii, fmap_app, bind_app. Qed.

Lemma chunks_cons_ascii b t : bval b < 128 → chunks (b :: t) = (bval b, [b]) :: chunks t.
Proof.
  intros Hb. rewrite chunks_unfold by done. unfold DecodeRune.
  by rewrite (proj2 (Z.ltb_lt _ _)) by done.
Qed.

(** An ASCII rune is decoded only from its own byte. *)
Lemma DecodeRune_small s : s ≠ [] → (DecodeRune s).1 < 128 → ∃ b t, s = b :: t ∧ bval b = (DecodeRune s).1.
Proof.
  intros Hs. destruct s as [|b0 t]; [done|]. intros H. exists b0, t. split; [done|]. revert H. unfold DecodeRune.
  pose proof (bval_range b0) as H0. case_bool; [done|]. unfold first_info, cont, RuneError.
  repeat (case_match; simplify_eq; try (by intros H; vm_compute in H)); b2p; cbn [fst];
    repeat match goal with b : byte |- _ => pose proof (bval_range b); revert b end; intros; lia.
Qed.

Lemma runes_small s r : r ∈ runes s → r < 128 → ∃ b, b ∈ s ∧ bval b = r.
Proof.
  unfold runes. induction s as [s IH] using (induction_ltof1 _ (@length byte)); unfold ltof in IH.
  destruct (decide (s = [])) as [->|Hs]; [intros H; by apply elem_of_nil in H|]. pose proof (DecodeRune_width s Hs) as Hw.
  rewrite chunks_unfold by done. cbn [fmap list_fmap fst]. intros [->|H]%elem_of_cons Hr.
  - destruct (DecodeRune_small s Hs Hr) as (b & t & -> & E). exists b. split; [left|done].
  - destruct (IH (drop (DecodeRune s).2 s)) as (b & Hb & E); [rewrite length_drop; lia|done..|].
    exists b. split; [|done]. rewrite <- (take_drop (DecodeRune s).2 s). apply elem_of_app. by right.
Qed.

(** A string whose first and last bytes are ASCII and no space is trimmed. *)
Lemma TrimSpace_ends b t u c : b :: t = u ++ [c] → bval b < 128 → bval c < 128 →
  IsSpace (bval b) = false → IsSpace (bval c) = false → TrimSpace (b :: t) = b :: t.
Proof.
  intros He Hb Hc Sb Sc. unfold TrimSpace. rewrite trim_both_id; [apply join_chunks_chunks| |].
  - by rewrite chunks_cons_ascii.
  - rewrite He, chunks_app_ascii, chunks_cons_ascii, rev_app_distr by done. exact Sc.
Qed.

Lemma ToLower_nil s : ToLower s = [] → s = [].
Proof.
  intros H. destruct (decide (s = [])) as [|Hs]; [done|].
  pose proof (chunks_ne s Hs) as Hc. revert H. unfold ToLower, runes.
  destruct (chunks s) as [|c l]; [done|]. cbn. intros [H _]%app_nil. by apply EncodeRune_ne in H.
Qed.

(** Bytes no trimming removes and no decoding merges. *)
Definition plain (b : byte) : Prop := bval b < 128 ∧ IsSpace (bval b) = false.

Lemma TrimSpace_plain s : Forall plain s → TrimSpace s = s.
Proof.
  intros H. destruct s as [|b t]; [done|].
  destruct (exists_last (l := b :: t)) as (u & c & E); [done|].
  assert (plain b ∧ plain c) as [[? ?] [? ?]].
  { rewrite Forall_forall in H. split; apply H; [left|rewrite E; set_solver]. }
  by eapply TrimSpace_ends.
Qed.
