(* ===== verification/Netip.v ===== *)
(** * The Go package net/netip: addresses, prefixes, address-port pairs

    [Addr], [Prefix] and [AddrPort] with the operations nanotun calls, as Go
    1.25 defines them: parsing and printing (RFC 5952 form for IPv6), the
    address class predicates, [Unmap], [Prefix.Contains] and [Prefix.Masked].
    The main results of the file are the print/parse round trips
    [ParseAddr_String], [ParseAddrPort_String] and [ParsePrefix_String] and the
    bit-level meaning of [Contains]. *)

From S2P Require Import Prelude GoStrings.

(** ** Definitions *)

(** [Addr]: the zero value, a 32-bit IPv4 address, or a 128-bit IPv6 address
    with its zone (empty for none).  Go's [==] on [Addr] is structural. *)
Inductive Addr : Type :=
| AddrZero
| Addr4 (v : Z)
| Addr6 (v : Z) (zone : gostring).

#[global] Instance Addr_eq_dec : EqDecision Addr.
Proof. solve_decision. Defined.

(** The values the Go type can hold. *)
Definition wf_addr (a : Addr) : Prop :=
  match a with
  | AddrZero => True
  | Addr4 v => 0 ≤ v < 2 ^ 32
  | Addr6 v _ => 0 ≤ v < 2 ^ 128
  end.

Definition IsValid (a : Addr) : bool := match a with AddrZero => false | _ => true end.
Definition Is4 (a : Addr) : bool := match a with Addr4 _ => true | _ => false end.
Definition Is6 (a : Addr) : bool := match a with Addr6 _ _ => true | _ => false end.
Definition BitLen (a : Addr) : Z :=
  match a with AddrZero => 0 | Addr4 _ => 32 | Addr6 _ _ => 128 end.
Definition hasZone (a : Addr) : bool :=
  match a with Addr6 _ z => negb (bool_decide (z = [])) | _ => false end.
Definition withoutZone (a : Addr) : Addr :=
  match a with Addr6 v _ => Addr6 v [] | _ => a end.

Definition Is4In6 (a : Addr) : bool :=
  match a with Addr6 v _ => Z.shiftr v 32 =? 65535 | _ => false end.

(** [Unmap] turns an IPv4-mapped IPv6 address into the IPv4 address. *)
Definition Unmap (a : Addr) : Addr :=
  match a with
  | Addr6 v _ => if Is4In6 a then Addr4 (v `mod` 2 ^ 32) else a
  | _ => a
  end.

(** Big-endian value of a byte sequence. *)
Definition be_value (bs : list Z) : Z := foldl (λ acc b, acc * 256 + b) 0 bs.

Definition AddrFromSlice (bs : gostring) : option Addr :=
  if (length bs =? 4)%nat then Some (Addr4 (be_value (bval <$> bs)))
  else if (length bs =? 16)%nat then Some (Addr6 (be_value (bval <$> bs)) [])
  else None.

(** *** Address classes *)

Definition v4_byte (v i : Z) : Z := Z.shiftr v (24 - 8 * i) `mod` 256.
Definition v6u16 (v i : Z) : Z := Z.shiftr v (112 - 16 * i) `mod` 65536.

Definition IsLoopback (a : Addr) : bool :=
  match Unmap a with
  | Addr4 v => v4_byte v 0 =? 127
  | Addr6 v _ => v =? 1
  | AddrZero => false
  end.

Definition IsPrivate (a : Addr) : bool :=
  match Unmap a with
  | Addr4 v =>
      (v4_byte v 0 =? 10) || ((v4_byte v 0 =? 172) && (Z.land (v4_byte v 1) 240 =? 16))
      || ((v4_byte v 0 =? 192) && (v4_byte v 1 =? 168))
  | Addr6 v _ => Z.land (Z.shiftr v 120 `mod` 256) 254 =? 252
  | AddrZero => false
  end.

(** No unmapping here: only 0.0.0.0 and the zoneless [::] are unspecified. *)
Definition IsUnspecified (a : Addr) : bool :=
  bool_decide (a = Addr4 0) || bool_decide (a = Addr6 0 []).

Definition IsLinkLocalUnicast (a : Addr) : bool :=
  match Unmap a with
  | Addr4 v => (v4_byte v 0 =? 169) && (v4_byte v 1 =? 254)
  | Addr6 v _ => Z.land (v6u16 v 0) 65472 =? 65152
  | AddrZero => false
  end.

Definition IsLinkLocalMulticast (a : Addr) : bool :=
  match Unmap a with
  | Addr4 v => (v4_byte v 0 =? 224) && (v4_byte v 1 =? 0) && (v4_byte v 2 =? 0)
  | Addr6 v _ => Z.land (v6u16 v 0) 65295 =? 65282
  | AddrZero => false
  end.

Definition IsMulticast (a : Addr) : bool :=
  match Unmap a with
  | Addr4 v => Z.land (v4_byte v 0) 240 =? 224
  | Addr6 v _ => Z.shiftr v 120 =? 255
  | AddrZero => false
  end.

(** *** Prefixes *)

(** [Prefix]: an address without zone and a bit count; [PrefixFrom] gives the
    invalid prefix (bit count -1) when the bits do not fit the family. *)
Record Prefix : Type := mkPrefix { p_ip : Addr; p_bits : Z }.

#[global] Instance Prefix_eq_dec : EqDecision Prefix.
Proof. solve_decision. Defined.

Definition PrefixFrom (ip : Addr) (bits : Z) : Prefix :=
  mkPrefix (withoutZone ip)
    (if IsValid ip && in_range 0 (BitLen ip) bits then bits else -1).

Definition prefix_IsValid (p : Prefix) : bool := 0 <=? p_bits p.

(** The [n] highest of [w] bits. *)
Definition mask_bits (w n : Z) : Z := 2 ^ w - 2 ^ (w - n).

Definition Contains_addr (p : Prefix) (ip : Addr) : bool :=
  if negb (prefix_IsValid p) || hasZone ip then false
  else match p_ip p, ip with
  | Addr4 pv, Addr4 v => Z.shiftr (Z.lxor v pv) (32 - p_bits p) =? 0
  | Addr6 pv _, Addr6 v _ => Z.land (Z.lxor v pv) (mask_bits 128 (p_bits p)) =? 0
  | _, _ => false
  end.

(** [Addr.Prefix]: the address with all but the first [b] bits cleared. *)
Definition addr_Prefix (ip : Addr) (b : Z) : option Prefix :=
  if b <? 0 then None
  else match ip with
  | AddrZero => Some (mkPrefix AddrZero (-1))
  | Addr4 v => if b >? 32 then None else Some (PrefixFrom (Addr4 (Z.land v (mask_bits 32 b))) b)
  | Addr6 v z =>
      if b >? 128 then None else Some (PrefixFrom (Addr6 (Z.land v (mask_bits 128 b)) z) b)
  end.

(** [Masked] is the zero prefix when the prefix is invalid. *)
Definition Masked (p : Prefix) : Prefix :=
  default (mkPrefix AddrZero (-1)) (addr_Prefix (p_ip p) (p_bits p)).

(** *** Parsing *)

(** [parseIPv4Fields].  [dot] says that the previous character was a dot or
    that there is none. *)
Fixpoint ipv4_fields (dot : bool) (val digLen : Z) (fields : list Z) (s : gostring)
    : option (list Z) :=
  match s with
  | [] => if (length fields <? 3)%nat then None else Some (fields ++ [val])
  | b :: s' =>
      if isDigit b then
        if (digLen =? 1) && (val =? 0) then None
        else let val' := val * 10 + (bval b - 48) in
             if val' >? 255 then None else ipv4_fields false val' (digLen + 1) fields s'
      else if bool_decide (b = "."%byte) then
        if dot || bool_decide (s' = []) then None
        else if (length fields =? 3)%nat then None
        else ipv4_fields true 0 0 (fields ++ [val]) s'
      else None
  end.
Definition parseIPv4Fields (s : gostring) : option (list Z) := ipv4_fields true 0 0 [] s.

Definition parseIPv4 (s : gostring) : option Addr :=
  fs ← parseIPv4Fields s; Some (Addr4 (be_value fs)).

Definition hexval (b : byte) : option Z :=
  let c := bval b in
  if in_range 48 57 c then Some (c - 48)
  else if in_range 97 102 c then Some (c - 87)
  else if in_range 65 70 c then Some (c - 55)
  else None.

(** The hexadecimal number at the head of [s]: its digit count, its value and
    what follows; [None] when it has too many digits. *)
Fixpoint hex_group (off : nat) (acc : Z) (s : gostring) : option (nat * Z * gostring) :=
  match s with
  | [] => Some (off, acc, [])
  | b :: s' =>
      match hexval b with
      | None => Some (off, acc, s)
      | Some d =>
          let acc' := acc * 16 + d in
          if (3 <? off)%nat then None else if acc' >? 65535 then None
          else hex_group (S off) acc' s'
      end
  end.

(** The loop of [parseIPv6]: bytes so far, position of the ellipsis, rest of
    the string.  Each round consumes two bytes of the address, so eight rounds
    are all there can be. *)
Fixpoint ipv6_loop (fuel : nat) (ip : list Z) (ell : option nat) (s : gostring)
    : option (list Z * option nat * gostring) :=
  match fuel with
  | O => Some (ip, ell, s)
  | S f =>
      g ← hex_group 0 0 s;
      let '(off, acc, s1) := g in
      if (off =? 0)%nat then None
      else if bool_decide (head s1 = Some "."%byte) then
        if bool_decide (ell = None) && negb (length ip =? 12)%nat then None
        else if (16 <? length ip + 4)%nat then None
        else fs ← parseIPv4Fields s; Some (ip ++ fs, ell, [])
      else
        let ip' := ip ++ [acc `div` 256; acc `mod` 256] in
        match s1 with
        | [] => Some (ip', ell, [])
        | c :: s2 =>
            if negb (bool_decide (c = ":"%byte)) then None
            else match s2 with
            | [] => None
            | c2 :: s3 =>
                if bool_decide (c2 = ":"%byte) then
                  if negb (bool_decide (ell = None)) then None
                  else if bool_decide (s3 = []) then Some (ip', Some (length ip'), [])
                  else ipv6_loop f ip' (Some (length ip')) s3
                else ipv6_loop f ip' ell s2
            end
        end
  end.

(** What follows the loop: the whole string is used, and the ellipsis stands
    for the missing groups, at least one. *)
Definition ipv6_finish (ip : list Z) (ell : option nat) (s : gostring) (zone : gostring)
    : option Addr :=
  if negb (bool_decide (s = [])) then None
  else if (length ip <? 16)%nat then
    e ← ell; Some (Addr6 (be_value (take e ip ++ replicate (16 - length ip) 0 ++ drop e ip)) zone)
  else match ell with
  | Some _ => None
  | None => Some (Addr6 (be_value ip) zone)
  end.

Definition ipv6_body (s zone : gostring) : option Addr :=
  if HasPrefix s "::" then
    let s' := drop 2 s in
    if bool_decide (s' = []) then Some (Addr6 0 zone)
    else r ← ipv6_loop 8 [] (Some 0%nat) s';
         let '(ip, ell, rest) := r in ipv6_finish ip ell rest zone
  else r ← ipv6_loop 8 [] None s;
       let '(ip, ell, rest) := r in ipv6_finish ip ell rest zone.

Definition parseIPv6 (s : gostring) : option Addr :=
  match IndexByte s "%"%byte with
  | Some i =>
      let zone := drop (S i) s in
      if bool_decide (zone = []) then None else ipv6_body (take i s) zone
  | None => ipv6_body s []
  end.

(** The first of the characters [. : %] decides which form is parsed. *)
Fixpoint addr_kind (s : gostring) : option byte :=
  match s with
  | [] => None
  | b :: s' =>
      if bool_decide (b ∈ [".";":";"%"]%byte) then Some b else addr_kind s'
  end.

Definition ParseAddr (s : gostring) : option Addr :=
  let kind := addr_kind s in
  if bool_decide (kind = Some "."%byte) then parseIPv4 s
  else if bool_decide (kind = Some ":"%byte) then parseIPv6 s
  else None.

Definition ParsePrefix (s : gostring) : option Prefix :=
  i ← LastIndexByte s "/"%byte;
  ip ← ParseAddr (take i s);
  if hasZone ip then None
  else
    let bitsStr := drop (S i) s in
    if match bitsStr with
       | b :: _ :: _ => negb (in_range 49 57 (bval b))
       | _ => false
       end then None
    else bits ← Atoi bitsStr;
         if negb (in_range 0 (if Is6 ip then 128 else 32) bits) then None
         else Some (PrefixFrom ip bits).

Record AddrPort : Type := mkAddrPort { ap_ip : Addr; ap_port : Z }.

#[global] Instance AddrPort_eq_dec : EqDecision AddrPort.
Proof. solve_decision. Defined.

Definition wf_addrport (ap : AddrPort) : Prop := wf_addr (ap_ip ap) ∧ 0 ≤ ap_port ap < 2 ^ 16.
Definition ap_IsValid (ap : AddrPort) : bool := IsValid (ap_ip ap).

(** [splitAddrPort]: address text, port text, whether it was in brackets. *)
Definition splitAddrPort (s : gostring) : option (gostring * gostring * bool) :=
  i ← LastIndexByte s ":"%byte;
  let ip := take i s in
  let port := drop (S i) s in
  if bool_decide (ip = []) || bool_decide (port = []) then None
  else if bool_decide (head ip = Some "["%byte) then
    if (length ip <? 2)%nat || negb (bool_decide (last ip = Some "]"%byte)) then None
    else Some (take (length ip - 2) (drop 1 ip), port, true)
  else Some (ip, port, false).

Definition ParseAddrPort (s : gostring) : option AddrPort :=
  p ← splitAddrPort s;
  let '(ip, port, v6) := p in
  port16 ← ParseUint port 65535;
  a ← ParseAddr ip;
  if v6 && Is4 a then None
  else if negb v6 && Is6 a then None
  else Some (mkAddrPort a port16).

(** *** Printing *)

Definition hexdigit (d : Z) : byte := if d <? 10 then byte_of_Z (48 + d) else byte_of_Z (87 + d).

Definition appendDecimal (x : Z) : gostring :=
  (if 100 <=? x then [digit (x `div` 100)] else [])
  ++ (if 10 <=? x then [digit ((x `div` 10) `mod` 10)] else [])
  ++ [digit (x `mod` 10)].

Definition appendHex (x : Z) : gostring :=
  (if 4096 <=? x then [hexdigit (x `div` 4096)] else [])
  ++ (if 256 <=? x then [hexdigit ((x `div` 256) `mod` 16)] else [])
  ++ (if 16 <=? x then [hexdigit ((x `div` 16) `mod` 16)] else [])
  ++ [hexdigit (x `mod` 16)].

Fixpoint join (sep : gostring) (l : list gostring) : gostring :=
  match l with
  | [] => []
  | [s] => s
  | s :: l' => s ++ sep ++ join sep l'
  end.

Definition octets (v : Z) : list Z := v4_byte v <$> [0; 1; 2; 3].
Definition groups (v : Z) : list Z := v6u16 v <$> [0; 1; 2; 3; 4; 5; 6; 7].

Definition string4 (v : Z) : gostring := join "." (appendDecimal <$> octets v).

Fixpoint zero_len (gs : list Z) : nat :=
  match gs with
  | g :: gs' => if g =? 0 then S (zero_len gs') else 0%nat
  | [] => 0%nat
  end.

(** The first longest run of at least two zero groups, as a half-open range. *)
Definition zero_run (gs : list Z) : option (nat * nat) :=
  foldl (λ best i,
    let l := zero_len (drop i gs) in
    let cur := match best with Some (zs, ze) => (ze - zs)%nat | None => 0%nat end in
    if (2 <=? l)%nat && (cur <? l)%nat then Some (i, (i + l)%nat) else best) None (seq 0 8).

(** Groups in hexadecimal, the zero run written as an ellipsis. *)
Definition string6 (v : Z) : gostring :=
  let gs := groups v in
  match zero_run gs with
  | None => join ":" (appendHex <$> gs)
  | Some (zs, ze) =>
      join ":" (appendHex <$> take zs gs) ++ "::" ++ join ":" (appendHex <$> drop ze gs)
  end.

Definition zone_suffix (zone : gostring) : gostring :=
  if bool_decide (zone = []) then [] else "%"%byte :: zone.

Definition append6 (v : Z) (zone : gostring) : gostring :=
  (if Is4In6 (Addr6 v zone) then "::ffff:" ++ string4 (v `mod` 2 ^ 32) else string6 v)
  ++ zone_suffix zone.

Definition addr_String (a : Addr) : gostring :=
  match a with
  | AddrZero => "invalid IP"
  | Addr4 v => string4 v
  | Addr6 v zone => append6 v zone
  end.

Definition prefix_String (p : Prefix) : gostring :=
  if prefix_IsValid p then addr_String (p_ip p) ++ "/" ++ Itoa (p_bits p) else "invalid Prefix".

Definition addrport_String (ap : AddrPort) : gostring :=
  match ap_ip ap with
  | AddrZero => "invalid AddrPort"
  | Addr4 v => string4 v ++ ":" ++ FormatUint (ap_port ap)
  | Addr6 v zone => "[" ++ append6 v zone ++ "]:" ++ FormatUint (ap_port ap)
  end.

(** [MustParseX] panics on bad input; the program only applies it to literals. *)
Definition MustParseAddr (s : gostring) : Addr := default AddrZero (ParseAddr s).
Definition MustParsePrefix (s : gostring) : Prefix :=
  default (mkPrefix AddrZero (-1)) (ParsePrefix s).
Definition MustParseAddrPort (s : gostring) : AddrPort :=
  default (mkAddrPort AddrZero 0) (ParseAddrPort s).

(** ** Lemmas *)

(** *** Positional values *)

Section Positional.
Context (B : Z) (HB : 0 < B).

Lemma foldl_base_acc l a :
  foldl (λ acc b, acc * B + b) a l = a * B ^ Z.of_nat (length l) + foldl (λ acc b, acc * B + b) 0 l.
Proof.
  revert a. induction l as [|x l IH]; intros a; [simpl; lia|].
  cbn [foldl]. rewrite IH, (IH (0 * B + x)). cbn [length].
  rewrite Nat2Z.inj_succ, Z.pow_succ_r by lia. lia.
Qed.

(** The base-[B] digits of [v], most significant first, have value [v]. *)
Lemma base_digits_value n v :
  foldl (λ acc b, acc * B + b) 0 ((λ i, v `div` B ^ Z.of_nat i `mod` B) <$> rev (seq 0 n))
  = v `mod` B ^ Z.of_nat n.
Proof.
  revert v. induction n as [|n IH]; intros v; [simpl; by rewrite Z.mod_1_r|].
  rewrite <- cons_seq, <- fmap_S_seq. cbn [rev]. rewrite fmap_app, foldl_app. cbn [fmap list_fmap foldl].
  change (Z.of_nat 0) with 0. rewrite Z.pow_0_r, Z.div_1_r.
  assert ((λ i, v `div` B ^ Z.of_nat i `mod` B) <$> rev (S <$> seq 0 n)
          = (λ i, (v `div` B) `div` B ^ Z.of_nat i `mod` B) <$> rev (seq 0 n)) as ->.
  { change (rev (S <$> seq 0 n)) with (rev (map S (seq 0 n))). rewrite <- map_rev.
    change (map S (rev (seq 0 n))) with (S <$> rev (seq 0 n)). rewrite <- list_fmap_compose. apply list_fmap_ext. intros _ i _. simpl.
    rewrite Nat2Z.inj_succ, Z.pow_succ_r by lia.
    rewrite Z.div_div; [done|lia|]. apply Z.pow_pos_nonneg; lia. }
  rewrite IH, Nat2Z.inj_succ, Z.pow_succ_r by lia.
  rewrite Z.rem_mul_r by (try lia; apply Z.pow_nonzero; lia). lia.
Qed.
End Positional.

Lemma be_value_octets v : 0 ≤ v < 2 ^ 32 → be_value (octets v) = v.
Proof.
  intros Hv. pose proof (base_digits_value 256 ltac:(lia) 4 v) as H.
  unfold octets, be_value. cbn [fmap list_fmap]. unfold v4_byte. rewrite !Z.shiftr_div_pow2 by lia.
  rewrite Z.mod_small in H by (simpl; lia). exact H.
Qed.

Definition group_bytes (gs : list Z) : list Z := gs ≫= λ g, [g `div` 256; g `mod` 256].

Lemma be_value_group_bytes_acc gs a :
  foldl (λ acc b, acc * 256 + b) a (group_bytes gs) = foldl (λ acc b, acc * 65536 + b) a gs.
Proof.
  revert a. induction gs as [|g gs IH]; intros a; [done|].
  unfold group_bytes in *. rewrite bind_cons, foldl_app. cbn [foldl].
  rewrite IH. f_equal. pose proof (Z.div_mod g 256 ltac:(lia)). lia.
Qed.

Lemma be_value_groups v : 0 ≤ v < 2 ^ 128 → be_value (group_bytes (groups v)) = v.
Proof.
  intros Hv. unfold be_value. rewrite be_value_group_bytes_acc.
  pose proof (base_digits_value 65536 ltac:(lia) 8 v) as H.
  unfold groups. cbn [fmap list_fmap]. unfold v6u16. rewrite !Z.shiftr_div_pow2 by lia.
  rewrite Z.mod_small in H by (simpl; lia). exact H.
Qed.

Lemma group_bytes_app l k : group_bytes (l ++ k) = group_bytes l ++ group_bytes k.
Proof. apply bind_app. Qed.

Lemma length_group_bytes gs : length (group_bytes gs) = (2 * length gs)%nat.
Proof.
  induction gs as [|g gs IH]; [done|]. unfold group_bytes in *.
  rewrite bind_cons, length_app, IH. cbn [length]. lia.
Qed.

Lemma group_bytes_zeros n : group_bytes (replicate n 0) = replicate (2 * n) 0.
Proof.
  induction n as [|n IH]; [done|]. unfold group_bytes in *.
  cbn [replicate]. rewrite bind_cons, IH. replace (2 * S n)%nat with (S (S (2 * n))) by lia. done.
Qed.

Lemma groups_range v : Forall (λ g, 0 ≤ g < 65536) (groups v).
Proof.
  unfold groups. apply Forall_fmap, Forall_true. intros i. simpl. unfold v6u16.
  apply Z.mod_pos_bound. lia.
Qed.

Lemma octets_range v : Forall (λ g, 0 ≤ g < 256) (octets v).
Proof.
  unfold octets. apply Forall_fmap, Forall_true. intros i. simpl. unfold v4_byte.
  apply Z.mod_pos_bound. lia.
Qed.

(** *** IPv4 text *)

Lemma ipv4_fields_digit dot val dl fs d t :
  0 ≤ d < 10 → ¬ (dl = 1 ∧ val = 0) → val * 10 + d ≤ 255 →
  ipv4_fields dot val dl fs (digit d :: t) = ipv4_fields false (val * 10 + d) (dl + 1) fs t.
Proof.
  intros Hd Hz Hv. cbn [ipv4_fields]. rewrite isDigit_digit, digit_bval by done.
  replace (48 + d - 48) with d by lia.
  destruct ((dl =? 1) && (val =? 0)) eqn:E; [b2p; lia|].
  rewrite Z.gtb_ltb. by rewrite (proj2 (Z.ltb_ge _ _)).
Qed.

Section DecimalText.
#[local] Ltac Zify.zify_post_hook ::= Z.div_mod_to_equations.

Lemma ipv4_fields_octet dot fs v t :
  0 ≤ v < 256 → ∃ dl, ipv4_fields dot 0 0 fs (appendDecimal v ++ t) = ipv4_fields false v dl fs t.
Proof.
  intros Hv. unfold appendDecimal.
  destruct (100 <=? v) eqn:E1; destruct (10 <=? v) eqn:E2; b2p; try lia; cbn [app];
    rewrite !ipv4_fields_digit by lia; eexists; f_equal; lia.
Qed.

Lemma hex_group_digit off acc d t :
  0 ≤ d < 10 → (off ≤ 3)%nat → acc * 16 + d ≤ 65535 →
  hex_group off acc (digit d :: t) = hex_group (S off) (acc * 16 + d) t.
Proof.
  intros Hd Ho Ha. cbn [hex_group]. unfold hexval. rewrite digit_bval by done.
  rewrite (proj2 (in_range_true _ _ _)) by lia. replace (48 + d - 48) with d by lia.
  rewrite (proj2 (Nat.ltb_ge _ _)) by lia. rewrite Z.gtb_ltb. by rewrite (proj2 (Z.ltb_ge _ _)).
Qed.

(** A decimal octet followed by a dot reads as a non-empty hexadecimal group. *)
Lemma hex_group_octet v t :
  0 ≤ v < 256 → ∃ k acc, hex_group 0 0 (appendDecimal v ++ "."%byte :: t) = Some (S k, acc, "."%byte :: t).
Proof.
  intros Hv. unfold appendDecimal.
  destruct (100 <=? v) eqn:E1; destruct (10 <=? v) eqn:E2; b2p; try lia; cbn [app];
    rewrite !hex_group_digit by lia; eexists _, _; reflexivity.
Qed.

Lemma appendDecimal_chars v b : 0 ≤ v < 256 → b ∈ appendDecimal v → isDigit b = true.
Proof.
  intros Hv. unfold appendDecimal.
  destruct (100 <=? v) eqn:E1; destruct (10 <=? v) eqn:E2; b2p; try lia; cbn [app];
    rewrite ?elem_of_cons, ?elem_of_nil; intros Hb; destruct_or?; subst; try done;
    apply isDigit_digit; lia.
Qed.
End DecimalText.

Lemma string4_eq v : ∃ a b c d, octets v = [a; b; c; d] ∧
  string4 v = appendDecimal a ++ "."%byte :: appendDecimal b ++ "."%byte :: appendDecimal c
              ++ "."%byte :: appendDecimal d.
Proof. unfold string4, octets. cbn [fmap list_fmap join]. eauto 10. Qed.

Lemma appendDecimal_ne v : appendDecimal v ≠ [].
Proof. unfold appendDecimal. repeat case_bool; done. Qed.

Lemma ipv4_fields_dot val dl fs s :
  s ≠ [] → (length fs < 3)%nat →
  ipv4_fields false val dl fs ("."%byte :: s) = ipv4_fields true 0 0 (fs ++ [val]) s.
Proof.
  intros Hs Hf. cbn [ipv4_fields]. rewrite (bool_decide_eq_false_2 (s = [])) by done.
  change (isDigit ".") with false. cbn. by rewrite (proj2 (Nat.eqb_neq _ _)) by lia.
Qed.

Lemma parseIPv4Fields_string4 v : 0 ≤ v < 2 ^ 32 → parseIPv4Fields (string4 v) = Some (octets v).
Proof.
  intros Hv. destruct (string4_eq v) as (a & b & c & d & Ho & ->).
  pose proof (octets_range v) as Hr. rewrite Ho in *. repeat (apply Forall_cons in Hr as [? Hr]).
  unfold parseIPv4Fields.
  destruct (ipv4_fields_octet true [] a ("."%byte :: appendDecimal b ++ "."%byte
    :: appendDecimal c ++ "."%byte :: appendDecimal d)) as [? ->]; [done|].
  rewrite ipv4_fields_dot by (simpl; try lia; by destruct (appendDecimal b)).
  destruct (ipv4_fields_octet true ([] ++ [a]) b ("."%byte
    :: appendDecimal c ++ "."%byte :: appendDecimal d)) as [? ->]; [done|].
  rewrite ipv4_fields_dot by (simpl; try lia; by destruct (appendDecimal c)).
  destruct (ipv4_fields_octet true (([] ++ [a]) ++ [b]) c ("."%byte :: appendDecimal d)) as [? ->]; [done|].
  rewrite ipv4_fields_dot by (simpl; try lia; apply appendDecimal_ne).
  destruct (ipv4_fields_octet true ((([] ++ [a]) ++ [b]) ++ [c]) d []) as [? E]; [done|].
  rewrite app_nil_r in E. by rewrite E.
Qed.

(** *** IPv6 text *)

Lemma hexval_hexdigit d : 0 ≤ d < 16 → hexval (hexdigit d) = Some d.
Proof.
  intros Hd.
  assert (forallZ 16 (λ d, bool_decide (hexval (hexdigit d) = Some d)) = true) as H
    by (vm_compute; reflexivity).
  pose proof (forallZ_spec _ _ H d) as H'. simpl in H'. specialize (H' ltac:(lia)). by b2p.
Qed.

Lemma hex_group_hexdigit off acc d t :
  0 ≤ d < 16 → (off ≤ 3)%nat → acc * 16 + d ≤ 65535 →
  hex_group off acc (hexdigit d :: t) = hex_group (S off) (acc * 16 + d) t.
Proof.
  intros Hd Ho Ha. cbn [hex_group]. rewrite hexval_hexdigit by done.
  rewrite (proj2 (Nat.ltb_ge _ _)) by lia. rewrite Z.gtb_ltb. by rewrite (proj2 (Z.ltb_ge _ _)).
Qed.

(** What may follow a hexadecimal group. *)
Definition no_hex (t : gostring) : Prop :=
  match t with [] => True | b :: _ => hexval b = None end.

Section HexText.
#[local] Ltac Zify.zify_post_hook ::= Z.div_mod_to_equations.

Lemma hex_group_appendHex g t :
  0 ≤ g < 65536 → no_hex t → ∃ k, hex_group 0 0 (appendHex g ++ t) = Some (S k, g, t).
Proof.
  intros Hg Ht.
  assert (∀ off acc, hex_group off acc t = Some (off, acc, t)) as Hend.
  { intros off acc. destruct t as [|b t]; [done|]. simpl in Ht. cbn [hex_group]. by rewrite Ht. }
  unfold appendHex.
  destruct (4096 <=? g) eqn:E1; destruct (256 <=? g) eqn:E2; destruct (16 <=? g) eqn:E3;
    b2p; try lia; cbn [app]; rewrite !hex_group_hexdigit by lia; rewrite Hend;
    eexists; repeat f_equal; lia.
Qed.

Lemma appendHex_chars g b : 0 ≤ g < 65536 → b ∈ appendHex g → is_Some (hexval b).
Proof.
  intros Hg. unfold appendHex.
  destruct (4096 <=? g) eqn:E1; destruct (256 <=? g) eqn:E2; destruct (16 <=? g) eqn:E3;
    b2p; try lia; cbn [app];
    rewrite ?elem_of_cons, ?elem_of_nil; intros Hb; destruct_or?; subst; try done;
    rewrite hexval_hexdigit by lia; eauto.
Qed.
End HexText.

Lemma appendHex_cons g : 0 ≤ g < 65536 → ∃ b t, appendHex g = b :: t ∧ is_Some (hexval b).
Proof.
  intros Hg. destruct (appendHex g) as [|b t] eqn:E.
  - exfalso. revert E. unfold appendHex. repeat case_bool; done.
  - eexists _, _. split; [done|]. apply (appendHex_chars g); [done|]. rewrite E. left.
Qed.

Abbreviation hextext gs := (join ":" (appendHex <$> gs)).

Lemma hextext_cons g gs : gs ≠ [] → hextext (g :: gs) = appendHex g ++ ":"%byte :: hextext gs.
Proof. destruct gs; [done|]. intros _. done. Qed.

Lemma hextext_head gs : gs ≠ [] → Forall (λ g, 0 ≤ g < 65536) gs →
  ∃ b t, hextext gs = b :: t ∧ is_Some (hexval b).
Proof.
  destruct gs as [|g gs]; [done|]. intros _ Hr. apply Forall_cons in Hr as [Hg _].
  destruct (appendHex_cons g Hg) as (b & t & E & Hb). destruct gs as [|g' gs].
  - exists b, t. split; [by cbn|done].
  - rewrite hextext_cons by done. rewrite E. eexists _, _. by split.
Qed.

(** One round of the loop on a group that ends the text, or is followed by a
    colon and another group, or by the ellipsis. *)
Lemma ipv6_loop_last f ip ell g : 0 ≤ g < 65536 →
  ipv6_loop (S f) ip ell (appendHex g) = Some (ip ++ [g `div` 256; g `mod` 256], ell, []).
Proof.
  intros Hg. destruct (hex_group_appendHex g [] Hg) as [k E]; [done|].
  rewrite app_nil_r in E. cbn [ipv6_loop]. rewrite E. done.
Qed.

Lemma ipv6_loop_colon f ip ell g b t : 0 ≤ g < 65536 → is_Some (hexval b) →
  ipv6_loop (S f) ip ell (appendHex g ++ ":"%byte :: b :: t)
  = ipv6_loop f (ip ++ [g `div` 256; g `mod` 256]) ell (b :: t).
Proof.
  intros Hg [x Hb]. destruct (hex_group_appendHex g (":"%byte :: b :: t) Hg) as [k E]; [done|].
  assert (b ≠ ":"%byte) as Hne by (intros ->; done).
  cbn [ipv6_loop]. rewrite E. cbn -[ipv6_loop bool_decide Z.div Z.modulo].
  by rewrite (bool_decide_eq_false_2 (b = ":"%byte)).
Qed.

Lemma ipv6_loop_ellipsis f ip g t : 0 ≤ g < 65536 →
  ipv6_loop (S f) ip None (appendHex g ++ ":"%byte :: ":"%byte :: t)
  = let ip' := ip ++ [g `div` 256; g `mod` 256] in
    if bool_decide (t = []) then Some (ip', Some (length ip'), [])
    else ipv6_loop f ip' (Some (length ip')) t.
Proof.
  intros Hg. destruct (hex_group_appendHex g (":"%byte :: ":"%byte :: t) Hg) as [k E]; [done|].
  cbn [ipv6_loop]. rewrite E. done.
Qed.

Lemma ipv6_loop_end gs f ip ell :
  gs ≠ [] → Forall (λ g, 0 ≤ g < 65536) gs → (length gs ≤ f)%nat →
  ipv6_loop f ip ell (hextext gs) = Some (ip ++ group_bytes gs, ell, []).
Proof.
  revert f ip. induction gs as [|g gs IH]; intros f ip Hne Hr Hf; [done|].
  apply Forall_cons in Hr as [Hg Hr]. destruct f as [|f]; [simpl in Hf; lia|].
  destruct (decide (gs = [])) as [->|Hne'].
  - change (hextext [g]) with (appendHex g). rewrite ipv6_loop_last by done. done.
  - rewrite hextext_cons by done.
    destruct (hextext_head gs Hne' Hr) as (b & t & E & Hb). rewrite E.
    rewrite ipv6_loop_colon by done. simpl in Hf. rewrite <- E, IH by (done || lia).
    rewrite <- app_assoc. done.
Qed.

Lemma ipv6_loop_mid gs f ip t :
  gs ≠ [] → Forall (λ g, 0 ≤ g < 65536) gs → (length gs ≤ f)%nat →
  ipv6_loop f ip None (hextext gs ++ ":"%byte :: ":"%byte :: t)
  = let ip' := ip ++ group_bytes gs in
    if bool_decide (t = []) then Some (ip', Some (length ip'), [])
    else ipv6_loop (f - length gs) ip' (Some (length ip')) t.
Proof.
  revert f ip. induction gs as [|g gs IH]; intros f ip Hne Hr Hf; [done|].
  apply Forall_cons in Hr as [Hg Hr]. destruct f as [|f]; [simpl in Hf; lia|].
  destruct (decide (gs = [])) as [->|Hne'].
  - change (hextext [g]) with (appendHex g). rewrite ipv6_loop_ellipsis by done.
    cbn [length]. rewrite Nat.sub_succ, Nat.sub_0_r. done.
  - rewrite hextext_cons by done. rewrite <- app_assoc. cbn [app].
    destruct (hextext_head gs Hne' Hr) as (b & t' & E & Hb). rewrite E. cbn [app].
    rewrite ipv6_loop_colon by done.
    change (b :: t' ++ ":"%byte :: ":"%byte :: t) with ((b :: t') ++ ":"%byte :: ":"%byte :: t).
    simpl in Hf. rewrite <- E, IH by (done || lia).
    rewrite <- app_assoc. done.
Qed.

(** *** The zero run *)

Lemma zero_len_spec gs : gs = replicate (zero_len gs) 0 ++ drop (zero_len gs) gs ∧
  (zero_len gs ≤ length gs)%nat.
Proof.
  induction gs as [|g gs [IH1 IH2]]; [done|]. cbn [zero_len]. case_bool; [|simpl; split; [done|lia]].
  subst g. simpl. split; [by f_equal|lia].
Qed.

Definition run_ok (gs : list Z) (r : option (nat * nat)) : Prop :=
  match r with
  | None => True
  | Some (zs, ze) => (zs + 2 ≤ ze ≤ length gs)%nat ∧
                     gs = take zs gs ++ replicate (ze - zs) 0 ++ drop ze gs
  end.

Lemma run_ok_at gs i : (i ≤ length gs)%nat → (2 ≤ zero_len (drop i gs))%nat →
  run_ok gs (Some (i, (i + zero_len (drop i gs))%nat)).
Proof.
  intros Hi Hl. destruct (zero_len_spec (drop i gs)) as [H1 H2]. rewrite length_drop in H2.
  split; [lia|]. replace (i + zero_len (drop i gs) - i)%nat with (zero_len (drop i gs)) by lia.
  rewrite <- (take_drop i gs) at 1. f_equal. rewrite <- drop_drop. exact H1.
Qed.

Lemma zero_run_ok gs : length gs = 8%nat → run_ok gs (zero_run gs).
Proof.
  intros Hl. unfold zero_run.
  assert (∀ js best, Forall (λ i, (i ≤ 8)%nat) js → run_ok gs best →
    run_ok gs (foldl (λ best i,
      let l := zero_len (drop i gs) in
      let cur := match best with Some (zs, ze) => (ze - zs)%nat | None => 0%nat end in
      if (2 <=? l)%nat && (cur <? l)%nat then Some (i, (i + l)%nat) else best) best js)) as H.
  { induction js as [|i js IH]; intros best Hi Hb; [done|]. apply Forall_cons in Hi as [Hi Hjs].
    cbn [foldl]. apply IH; [done|]. cbn zeta. case_match; [|done].
    apply andb_true_iff in H as [H _]. apply Nat.leb_le in H. apply run_ok_at; lia. }
  apply H; [|done]. repeat constructor; lia.
Qed.

(** The ellipsis stands for the bytes that are missing. *)
Lemma ipv6_finish_ell L R n zone : (length L + n + length R = 16)%nat → (0 < n)%nat →
  ipv6_finish (L ++ R) (Some (length L)) [] zone
  = Some (Addr6 (be_value (L ++ replicate n 0 ++ R)) zone).
Proof.
  intros Hl Hn. unfold ipv6_finish. rewrite length_app.
  rewrite (proj2 (Nat.ltb_lt _ _)) by lia. rewrite bool_decide_eq_true_2 by done.
  cbn [negb mbind option_bind]. rewrite take_app_length, drop_app_length.
  by replace (16 - (length L + length R))%nat with n by lia.
Qed.

(** Cutting a zero run out of the groups and padding with as many zero bytes
    gives the address back. *)
Lemma finish_run gs zs ze zone : length gs = 8%nat → run_ok gs (Some (zs, ze)) →
  ipv6_finish (group_bytes (take zs gs) ++ group_bytes (drop ze gs))
    (Some (length (group_bytes (take zs gs)))) [] zone
  = Some (Addr6 (be_value (group_bytes gs)) zone).
Proof.
  intros Hl [Hz Hgs]. rewrite (ipv6_finish_ell _ _ (2 * (ze - zs))); [|
    rewrite !length_group_bytes, length_take, length_drop; lia|lia].
  rewrite Hgs at 3. by rewrite !group_bytes_app, group_bytes_zeros.
Qed.

Lemma groups_length v : length (groups v) = 8%nat.
Proof. done. Qed.

Lemma HasPrefix_colons_hex b t : is_Some (hexval b) → HasPrefix (b :: t) "::" = false.
Proof.
  intros [x Hb]. apply not_true_iff_false. intros [u Hu]%HasPrefix_true.
  change (str "::" ++ u) with (":"%byte :: ":"%byte :: u) in Hu. simplify_eq.
Qed.

Lemma HasPrefix_colons t : HasPrefix ("::" ++ t) "::" = true.
Proof. apply HasPrefix_app. Qed.

Lemma ipv6_body_string6 v zone : 0 ≤ v < 2 ^ 128 →
  ipv6_body (string6 v) zone = Some (Addr6 v zone).
Proof.
  intros Hv. unfold string6. pose proof (groups_length v) as Hl.
  pose proof (groups_range v) as Hr. pose proof (zero_run_ok _ Hl) as Hok.
  pose proof (be_value_groups v Hv) as Hval. clear Hv.
  generalize dependent (groups v). intros gs Hl Hr Hok <-.
  destruct (zero_run gs) as [[zs ze]|].
  - destruct Hok as [Hz Hgs] eqn:Eok. clear Eok.
    assert (Forall (λ g, 0 ≤ g < 65536) (take zs gs)) by by apply Forall_take.
    assert (Forall (λ g, 0 ≤ g < 65536) (drop ze gs)) by by apply Forall_drop.
    pose proof (finish_run gs zs ze zone Hl Hok) as Hfin. unfold ipv6_body.
    destruct (decide (zs = 0%nat)) as [->|Hzs].
    + rewrite take_0. change (hextext []) with (@nil byte). rewrite app_nil_l, HasPrefix_colons.
      change (drop 2 (str "::" ++ hextext (drop ze gs))) with (hextext (drop ze gs)).
      destruct (decide (ze = 8%nat)) as [->|Hze].
      * rewrite (drop_ge gs 8) by lia. cbn -[group_bytes be_value]. repeat f_equal.
        rewrite Hgs, take_0, (drop_ge gs 8), app_nil_r by lia. done.
      * destruct (hextext_head (drop ze gs)) as (b & t & E & _); [|done|].
        { intros E%(f_equal length). rewrite length_drop in E. simpl in E. lia. }
        rewrite bool_decide_eq_false_2 by (rewrite E; done).
        rewrite ipv6_loop_end; [|intros E'; rewrite E' in E; done|done|rewrite length_drop; lia].
        exact Hfin.
    + assert (take zs gs ≠ []) as Hne.
      { intros E%(f_equal length). rewrite length_take in E. simpl in E. lia. }
      destruct (hextext_head (take zs gs) Hne ltac:(done)) as (b & t & E & Hb).
      rewrite E at 1. cbn [app]. rewrite HasPrefix_colons_hex by done.
      change (str "::" ++ hextext (drop ze gs)) with (":"%byte :: ":"%byte :: hextext (drop ze gs)).
      rewrite ipv6_loop_mid by (try done; rewrite length_take; lia).
      cbn [app]. case_bool_decide as Hd.
      * destruct (decide (drop ze gs = [])) as [Hnil|Hnn].
        -- rewrite Hnil in Hfin. change (group_bytes []) with (@nil Z) in Hfin.
           rewrite app_nil_r in Hfin. exact Hfin.
        -- destruct (hextext_head (drop ze gs) Hnn ltac:(done)) as (b' & t' & E' & _). congruence.
      * rewrite ipv6_loop_end; [exact Hfin| |done|rewrite length_drop, length_take; lia].
        intros Hn. rewrite Hn in Hd. done.
  - unfold ipv6_body. destruct (hextext_head gs) as (b & t & E & Hb); [by destruct gs|done|].
    rewrite E at 1. rewrite HasPrefix_colons_hex by done.
    rewrite ipv6_loop_end by (try done; try lia; by destruct gs).
    cbn [app mbind option_bind]. unfold ipv6_finish. rewrite bool_decide_eq_true_2 by done.
    rewrite length_group_bytes, Hl. done.
Qed.

Lemma Is4In6_value v zone : 0 ≤ v < 2 ^ 128 → Is4In6 (Addr6 v zone) = true →
  v = 65535 * 2 ^ 32 + v `mod` 2 ^ 32.
Proof.
  intros Hv H. unfold Is4In6 in H. b2p. rewrite Z.shiftr_div_pow2 in H by lia.
  pose proof (Z.div_mod v (2 ^ 32) ltac:(lia)). lia.
Qed.

Lemma be_value_acc l a : foldl (λ acc b, acc * 256 + b) a l = a * 256 ^ Z.of_nat (length l) + be_value l.
Proof. unfold be_value. apply foldl_base_acc. lia. Qed.

Lemma be_value_app l k : be_value (l ++ k) = be_value l * 256 ^ Z.of_nat (length k) + be_value k.
Proof. unfold be_value at 1. rewrite foldl_app. apply be_value_acc. Qed.

Lemma ipv6_loop_v4 f ip e s k acc t fs :
  hex_group 0 0 s = Some (S k, acc, "."%byte :: t) → parseIPv4Fields s = Some fs →
  (length ip + 4 ≤ 16)%nat →
  ipv6_loop (S f) ip (Some e) s = Some (ip ++ fs, Some e, []).
Proof.
  intros Hh Hf Hl. cbn [ipv6_loop]. rewrite Hh. cbn [mbind option_bind Nat.eqb head].
  rewrite bool_decide_eq_true_2, (bool_decide_eq_false_2 (Some e = None)) by done.
  cbn [andb]. rewrite (proj2 (Nat.ltb_ge _ _)) by lia. by rewrite Hf.
Qed.

Lemma ipv6_body_mapped w zone : 0 ≤ w < 2 ^ 32 →
  ipv6_body ("::ffff:" ++ string4 w) zone = Some (Addr6 (65535 * 2 ^ 32 + w) zone).
Proof.
  intros Hw. unfold ipv6_body.
  change (str "::ffff:" ++ string4 w) with (str "::" ++ (appendHex 65535 ++ ":"%byte :: string4 w)).
  rewrite HasPrefix_colons.
  change (drop 2 (str "::" ++ (appendHex 65535 ++ ":"%byte :: string4 w)))
    with (appendHex 65535 ++ ":"%byte :: string4 w).
  rewrite bool_decide_eq_false_2 by (by destruct (appendHex 65535)).
  destruct (string4_eq w) as (a & b & c & d & Ho & Es). pose proof (octets_range w) as Hr.
  rewrite Ho in Hr. apply Forall_cons in Hr as [Ha _].
  assert (∃ x t, string4 w = x :: t ∧ is_Some (hexval x)) as (x & t & Ex & Hx).
  { rewrite Es. pose proof (appendDecimal_chars a) as Hc. destruct (appendDecimal a) as [|x t] eqn:E.
    - by apply appendDecimal_ne in E.
    - eexists _, _. split; [done|]. specialize (Hc x Ha ltac:(left)).
      unfold hexval, isDigit in *. rewrite Hc. eauto. }
  rewrite Ex, ipv6_loop_colon by (done || lia). rewrite <- Ex. cbn [app].
  destruct (hex_group_octet a (appendDecimal b ++ "."%byte :: appendDecimal c ++ "."%byte
    :: appendDecimal d) Ha) as (k & acc & Hh). rewrite <- Es in Hh.
  rewrite (ipv6_loop_v4 _ _ _ _ _ _ _ _ Hh (parseIPv4Fields_string4 w Hw)) by (simpl; lia).
  cbn [mbind option_bind].
  change (ipv6_finish _ _ _ _) with
    (ipv6_finish ([] ++ ([65535 `div` 256; 65535 `mod` 256] ++ octets w)) (Some (length (@nil Z))) [] zone).
  rewrite (ipv6_finish_ell _ _ 10) by (rewrite ?Ho; simpl; lia).
  repeat f_equal. rewrite app_nil_l, !be_value_app, be_value_octets by done.
  rewrite Ho. reflexivity.
Qed.

(** *** Print/parse round trips *)

Definition is_sep (b : byte) : Prop := b ∈ ["."; ":"; "%"]%byte.

Lemma hexval_not_sep b : is_Some (hexval b) → ¬ is_sep b.
Proof.
  intros [x Hx] H. unfold is_sep in H. rewrite !elem_of_cons, elem_of_nil in H.
  destruct_or!; subst; done.
Qed.

Lemma isDigit_hexval b : isDigit b = true → is_Some (hexval b).
Proof. unfold isDigit, hexval. intros ->. eauto. Qed.

Lemma addr_kind_app s t : Forall (λ b, ¬ is_sep b) s → addr_kind (s ++ t) = addr_kind t.
Proof.
  induction 1 as [|b s Hb _ IH]; [done|]. cbn [app addr_kind].
  by rewrite bool_decide_eq_false_2.
Qed.

Lemma appendHex_not_sep g : 0 ≤ g < 65536 → Forall (λ b, ¬ is_sep b) (appendHex g).
Proof.
  intros Hg. apply Forall_forall. intros b Hb. apply hexval_not_sep.
  by apply (appendHex_chars g).
Qed.

Lemma appendDecimal_not_sep v : 0 ≤ v < 256 → Forall (λ b, ¬ is_sep b) (appendDecimal v).
Proof.
  intros Hg. apply Forall_forall. intros b Hb.
  apply hexval_not_sep, isDigit_hexval. by apply (appendDecimal_chars v).
Qed.

Lemma elem_of_join b sep l : b ∈ join sep l → b ∈ sep ∨ ∃ s, s ∈ l ∧ b ∈ s.
Proof.
  induction l as [|s [|s' l] IH]; [by intros ?%elem_of_nil| |].
  - cbn [join]. intros H. right. exists s. split; [left|done].
  - change (join sep (s :: s' :: l)) with (s ++ sep ++ join sep (s' :: l)).
    rewrite !elem_of_app. intros [H|[H|H]]; [right; exists s; split; [left|done]|by left|].
    destruct (IH H) as [|(u & Hu & Hb)]; [by left|right]. exists u. split; [by right|done].
Qed.

Lemma string4_chars v b : b ∈ string4 v → isDigit b = true ∨ b = "."%byte.
Proof.
  unfold string4. intros [H|(s & Hs & Hb)]%elem_of_join.
  - right. by apply list_elem_of_singleton in H.
  - left. apply list_elem_of_fmap in Hs as (x & -> & Hx).
    pose proof (octets_range v) as Hr. rewrite Forall_forall in Hr.
    apply (appendDecimal_chars x); auto.
Qed.

Lemma string6_chars v b : b ∈ string6 v → is_Some (hexval b) ∨ b = ":"%byte.
Proof.
  assert (∀ gs, Forall (λ g, 0 ≤ g < 65536) gs → b ∈ hextext gs → is_Some (hexval b) ∨ b = ":"%byte) as Hj.
  { intros gs Hr [H|(s & Hs & Hb)]%elem_of_join.
    - right. by apply list_elem_of_singleton in H.
    - left. apply list_elem_of_fmap in Hs as (x & -> & Hx). rewrite Forall_forall in Hr.
      apply (appendHex_chars x); auto. }
  unfold string6. pose proof (groups_range v) as Hr. destruct (zero_run (groups v)) as [[zs ze]|].
  - rewrite !elem_of_app. intros [H|[H|H]].
    + apply (Hj (take zs (groups v))); [by apply Forall_take|done].
    + right. cbn in H. rewrite !elem_of_cons, elem_of_nil in H. destruct_or!; done.
    + apply (Hj (drop ze (groups v))); [by apply Forall_drop|done].
  - by apply Hj.
Qed.

Lemma addr_kind_string4 v t : addr_kind (string4 v ++ t) = Some "."%byte.
Proof.
  destruct (string4_eq v) as (a & b & c & d & Ho & ->). pose proof (octets_range v) as Hr.
  rewrite Ho in Hr. apply Forall_cons in Hr as [Ha _].
  rewrite <- app_assoc, addr_kind_app by by apply appendDecimal_not_sep. done.
Qed.

Lemma addr_kind_hextext gs t : (2 ≤ length gs)%nat → Forall (λ g, 0 ≤ g < 65536) gs →
  addr_kind (hextext gs ++ t) = Some ":"%byte.
Proof.
  destruct gs as [|g [|g' gs]]; simpl length; [lia..|]. intros _ Hr.
  apply Forall_cons in Hr as [Hg _]. rewrite hextext_cons by done.
  rewrite <- app_assoc, addr_kind_app by by apply appendHex_not_sep. done.
Qed.

Lemma addr_kind_string6 v t : addr_kind (string6 v ++ t) = Some ":"%byte.
Proof.
  unfold string6. pose proof (groups_range v) as Hr. pose proof (groups_length v) as Hl.
  destruct (zero_run (groups v)) as [[zs ze]|]; [|apply addr_kind_hextext; [lia|done]].
  rewrite <- !app_assoc. generalize (groups v) as gs, Hr. intros gs Hr'.
  destruct (take zs gs) as [|g [|g' gs']] eqn:E; [done| |];
    apply (Forall_take _ zs) in Hr'; rewrite E in Hr'.
  - apply Forall_cons in Hr' as [Hg _]. change (hextext [g]) with (appendHex g).
    rewrite addr_kind_app by by apply appendHex_not_sep. done.
  - apply addr_kind_hextext; [simpl; lia|done].
Qed.

Lemma parseIPv6_zone body zone a :
  "%"%byte ∉ body → ipv6_body body zone = Some a → parseIPv6 (body ++ zone_suffix zone) = Some a.
Proof.
  intros Hp Hb. unfold parseIPv6, zone_suffix. case_bool_decide as Hz.
  - subst zone. rewrite app_nil_r. by rewrite (proj2 (IndexByte_None _ _)).
  - rewrite IndexByte_app by done.
    rewrite take_app_length.
    replace (drop (S (length body)) (body ++ "%"%byte :: zone)) with zone.
    + by rewrite bool_decide_eq_false_2.
    + rewrite drop_app_ge by lia. replace (S (length body) - length body)%nat with 1%nat by lia. done.
Qed.

(** Printing an address and parsing the text gives the address back. *)
Lemma ParseAddr_String a : wf_addr a → IsValid a = true → ParseAddr (addr_String a) = Some a.
Proof.
  intros Hw Hv. destruct a as [|v|v zone]; [done| |]; simpl in Hw; unfold ParseAddr, addr_String.
  - rewrite <- (app_nil_r (string4 v)), addr_kind_string4, app_nil_r.
    rewrite bool_decide_eq_true_2 by done. unfold parseIPv4.
    rewrite parseIPv4Fields_string4 by done. cbn -[be_value octets]. by rewrite be_value_octets.
  - unfold append6. destruct (Is4In6 (Addr6 v zone)) eqn:E.
    + pose proof (Is4In6_value v zone Hw E) as Hval.
      change (addr_kind _) with (Some ":"%byte).
      rewrite bool_decide_eq_false_2, bool_decide_eq_true_2 by done.
      apply parseIPv6_zone.
      * intros [H|H]%elem_of_app;
          [revert H; apply (bool_decide_unpack (_ ∉ _)); vm_compute; done|].
        apply string4_chars in H as [H|H]; done.
      * rewrite ipv6_body_mapped by (apply Z.mod_pos_bound; lia). by rewrite <- Hval.
    + rewrite addr_kind_string6, bool_decide_eq_false_2, bool_decide_eq_true_2 by done.
      apply parseIPv6_zone; [|by apply ipv6_body_string6].
      intros [[x H]|H]%string6_chars; done.
Qed.

Lemma string4_head v : ∃ b t, string4 v = b :: t ∧ isDigit b = true.
Proof.
  destruct (string4 v) as [|b t] eqn:E.
  - pose proof (addr_kind_string4 v []) as H. by rewrite E in H.
  - eexists _, _. split; [done|]. destruct (string4_chars v b) as [|H]; [rewrite E; left|done|].
    subst b. destruct (string4_eq v) as (a & ? & ? & ? & Ho & Es). rewrite Es in E.
    pose proof (octets_range v) as Hr. rewrite Ho in Hr. apply Forall_cons in Hr as [Ha _].
    destruct (appendDecimal a) as [|y ys] eqn:Ea; [by apply appendDecimal_ne in Ea|].
    simplify_eq/=. apply (appendDecimal_chars a); [done|]. rewrite Ea. left.
Qed.

Lemma split_at_last (body : gostring) c t : c ∉ t →
  LastIndexByte (body ++ c :: t) c = Some (length body) ∧
  take (length body) (body ++ c :: t) = body ∧ drop (S (length body)) (body ++ c :: t) = t.
Proof.
  intros Hc. split_and!; [by apply LastIndexByte_app|apply take_app_length|].
  rewrite drop_app_ge by lia. by replace (S (length body) - length body)%nat with 1%nat by lia.
Qed.

Lemma splitAddrPort_plain body port :
  ":"%byte ∉ port → port ≠ [] → (∃ b t, body = b :: t ∧ b ≠ "["%byte) →
  splitAddrPort (body ++ ":"%byte :: port) = Some (body, port, false).
Proof.
  intros Hc Hp (b & t & -> & Hb). unfold splitAddrPort.
  destruct (split_at_last (b :: t) ":"%byte port Hc) as (-> & E1 & E2).
  cbn [mbind option_bind]. rewrite E1, E2, (bool_decide_eq_false_2 (b :: t = [])),
    (bool_decide_eq_false_2 (port = [])) by done.
  rewrite bool_decide_eq_false_2; [done|]. simpl. congruence.
Qed.

Lemma splitAddrPort_bracket body port :
  ":"%byte ∉ port → port ≠ [] →
  splitAddrPort ("["%byte :: body ++ "]"%byte :: ":"%byte :: port) = Some (body, port, true).
Proof.
  intros Hc Hp. unfold splitAddrPort.
  replace ("["%byte :: body ++ "]"%byte :: ":"%byte :: port)
    with (("["%byte :: body ++ ["]"%byte]) ++ ":"%byte :: port) by (simpl; by rewrite <- app_assoc).
  destruct (split_at_last ("["%byte :: body ++ ["]"%byte]) ":"%byte port Hc) as (-> & E1 & E2).
  cbn [mbind option_bind]. rewrite E1, E2.
  rewrite (bool_decide_eq_false_2 (_ :: _ = [])), (bool_decide_eq_false_2 (port = [])) by done.
  rewrite app_comm_cons, last_snoc, !bool_decide_eq_true_2 by done. rewrite length_app. simpl.
  replace (length body + 1 - 1)%nat with (length body) by lia.
  rewrite (proj2 (Nat.ltb_ge _ _)) by lia. simpl. by rewrite drop_0, take_app_length.
Qed.

Lemma ParseAddrPort_String ap : wf_addrport ap → ap_IsValid ap = true →
  ParseAddrPort (addrport_String ap) = Some ap.
Proof.
  intros [Hw Hp] Hv. unfold ap_IsValid in Hv.
  pose proof (ParseAddr_String (ap_ip ap) Hw Hv) as Hrt.
  assert (":"%byte ∉ FormatUint (ap_port ap)) as Hc by (apply FormatUint_not_in; [lia|done]).
  assert (FormatUint (ap_port ap) ≠ []) as Hne by (apply FormatUint_spec; lia).
  pose proof (ParseUint_FormatUint (ap_port ap) 65535 ltac:(lia) ltac:(lia)) as Hport.
  unfold ParseAddrPort, addrport_String. destruct ap as [[|v|v zone] port]; [done| |];
    cbn [ap_ip ap_port] in *.
  - change (string4 v ++ str ":" ++ FormatUint port) with (string4 v ++ ":"%byte :: FormatUint port).
    rewrite splitAddrPort_plain; [|done..|].
    + cbn [mbind option_bind]. rewrite Hport. cbn [mbind option_bind].
      change (addr_String (Addr4 v)) with (string4 v) in Hrt. by rewrite Hrt.
    + destruct (string4_head v) as (b & t & E & Hb). exists b, t. split; [done|]. by intros ->.
  - change (str "[" ++ append6 v zone ++ str "]:" ++ FormatUint port)
      with ("["%byte :: append6 v zone ++ "]"%byte :: ":"%byte :: FormatUint port).
    rewrite splitAddrPort_bracket by done. cbn [mbind option_bind]. rewrite Hport.
    cbn [mbind option_bind]. change (addr_String (Addr6 v zone)) with (append6 v zone) in Hrt.
    by rewrite Hrt.
Qed.

(** The prefixes that can be written: a zoneless address and a bit count of
    its family. *)
Definition wf_prefix (p : Prefix) : Prop :=
  wf_addr (p_ip p) ∧ IsValid (p_ip p) = true ∧ hasZone (p_ip p) = false ∧
  0 ≤ p_bits p ≤ BitLen (p_ip p).

Lemma BitLen_le a : 0 ≤ BitLen a ≤ 128.
Proof. destruct a; simpl; lia. Qed.

Lemma withoutZone_id a : hasZone a = false → withoutZone a = a.
Proof. destruct a as [| |v z]; [done..|]. simpl. intros H. b2p. by subst. Qed.

Lemma ParsePrefix_String p : wf_prefix p → ParsePrefix (prefix_String p) = Some p.
Proof.
  intros (Hw & Hv & Hz & Hb). pose proof (BitLen_le (p_ip p)) as Hl.
  unfold prefix_String, prefix_IsValid. rewrite (proj2 (Z.leb_le _ _)) by lia.
  rewrite Itoa_nonneg by lia. change (str "/" ++ FormatUint (p_bits p)) with ("/"%byte :: FormatUint (p_bits p)).
  assert ("/"%byte ∉ FormatUint (p_bits p)) as Hc by (apply FormatUint_not_in; [lia|done]).
  unfold ParsePrefix.
  destruct (split_at_last (addr_String (p_ip p)) "/"%byte _ Hc) as (-> & E1 & E2).
  cbn [mbind option_bind]. rewrite E1, E2, ParseAddr_String by done. cbn [mbind option_bind].
  rewrite Hz, Atoi_FormatUint by (unfold max_int64; lia). cbn [mbind option_bind].
  assert (match FormatUint (p_bits p) with b :: _ :: _ => negb (in_range 49 57 (bval b)) | _ => false end = false) as ->.
  { assert (forallZ 129 (λ n, negb (match FormatUint n with b :: _ :: _ => negb (in_range 49 57 (bval b))
      | _ => false end)) = true) as H by (vm_compute; reflexivity).
    pose proof (forallZ_spec _ _ H (p_bits p) ltac:(lia)) as H'. by apply negb_true_iff in H'. }
  rewrite (proj2 (in_range_true _ _ _)) by (destruct (p_ip p); cbn [Is6 BitLen IsValid] in Hb, Hv |- *; [done|lia|lia]).
  cbn [negb]. unfold PrefixFrom. rewrite withoutZone_id, Hv, (proj2 (in_range_true _ _ _)) by (done || lia).
  by destruct p.
Qed.

(** Printed forms determine what was printed. *)
Lemma addrport_String_inj a b : wf_addrport a → wf_addrport b → ap_IsValid a = true →
  ap_IsValid b = true → addrport_String a = addrport_String b → a = b.
Proof.
  intros Ha Hb Va Vb E. apply (f_equal ParseAddrPort) in E.
  rewrite !ParseAddrPort_String in E by done. congruence.
Qed.

(** *** Prefix membership *)

Lemma land_mask w n x : 0 ≤ n ≤ w → 0 ≤ x < 2 ^ w →
  Z.land x (mask_bits w n) = Z.shiftl (Z.shiftr x (w - n)) (w - n).
Proof.
  intros Hn Hx. unfold mask_bits.
  assert (2 ^ w - 2 ^ (w - n) = Z.shiftl (Z.ones n) (w - n)) as ->.
  { rewrite Z.shiftl_mul_pow2, Z.ones_equiv by lia.
    replace (2 ^ w) with (2 ^ n * 2 ^ (w - n)) by (rewrite <- Z.pow_add_r by lia; f_equal; lia). lia. }
  apply Z.bits_inj'. intros i Hi. rewrite Z.land_spec, !Z.shiftl_spec by done.
  destruct (decide (i < w - n)) as [Hlt|Hge].
  - rewrite !(Z.testbit_neg_r _ (i - (w - n))) by lia. by rewrite andb_false_r.
  - rewrite Z.shiftr_spec by lia. replace (i - (w - n) + (w - n)) with i by lia.
    rewrite Z.testbit_ones_nonneg by lia.
    destruct (decide (i < w)) as [Hw|Hw].
    + rewrite (proj2 (Z.ltb_lt _ _)) by lia. by rewrite andb_true_r.
    + rewrite (proj2 (Z.ltb_ge _ _)) by lia. rewrite andb_false_r. symmetry.
      destruct (decide (x = 0)) as [->|]; [apply Z.testbit_0_l|].
      apply Z.bits_above_log2; [lia|]. apply Z.log2_lt_pow2; [lia|].
      eapply Z.lt_le_trans; [apply Hx|]. apply Z.pow_le_mono_r; lia.
Qed.

Lemma lxor_range w x y : 0 < w → 0 ≤ x < 2 ^ w → 0 ≤ y < 2 ^ w → 0 ≤ Z.lxor x y < 2 ^ w.
Proof.
  intros Hw Hx Hy. split; [apply Z.lxor_nonneg; lia|].
  destruct (decide (Z.lxor x y = 0)) as [->|Hne]; [lia|].
  assert (0 ≤ Z.lxor x y) by (apply Z.lxor_nonneg; lia).
  apply Z.log2_lt_pow2; [lia|].
  eapply Z.le_lt_trans; [apply Z.log2_lxor; lia|].
  apply Z.max_lub_lt.
  - destruct (decide (x = 0)) as [->|]; [simpl; lia|].
    apply Z.log2_lt_pow2; lia.
  - destruct (decide (y = 0)) as [->|]; [simpl; lia|].
    apply Z.log2_lt_pow2; lia.
Qed.

Lemma shiftl_shiftr_zero x k : 0 ≤ k → Z.shiftl x k = 0 ↔ x = 0.
Proof.
  intros Hk. rewrite Z.shiftl_mul_pow2 by done. pose proof (Z.pow_pos_nonneg 2 k). nia.
Qed.

Lemma lxor_shiftr_zero x y k : 0 ≤ k → Z.shiftr (Z.lxor x y) k = 0 ↔ x `div` 2 ^ k = y `div` 2 ^ k.
Proof.
  intros Hk. rewrite Z.shiftr_lxor, Z.lxor_eq_0_iff, !Z.shiftr_div_pow2 by done. done.
Qed.

(** The bits of an address that a prefix of [n] bits of its family compares. *)
Definition addr_val (a : Addr) : Z := match a with AddrZero => 0 | Addr4 v => v | Addr6 v _ => v end.

(** [Contains] holds exactly for zoneless addresses of the same family that
    agree with the prefix on its leading bits. *)
Lemma Contains_spec p ip : wf_prefix p → wf_addr ip →
  Contains_addr p ip = true ↔
  hasZone ip = false ∧ BitLen ip = BitLen (p_ip p) ∧
  addr_val ip `div` 2 ^ (BitLen ip - p_bits p) = addr_val (p_ip p) `div` 2 ^ (BitLen ip - p_bits p).
Proof.
  intros (Hw & Hv & Hz & Hb) Hi. unfold Contains_addr, prefix_IsValid.
  rewrite (proj2 (Z.leb_le _ _)) by lia. cbn [negb orb].
  destruct (hasZone ip) eqn:Ez; [naive_solver|].
  destruct p as [[|pv|pv pz] b], ip as [|v|v z]; cbn [p_ip p_bits BitLen addr_val] in *; try naive_solver lia.
  - rewrite Z.eqb_eq, lxor_shiftr_zero by lia. naive_solver.
  - simpl in Hw, Hi. rewrite Z.eqb_eq, land_mask by (try lia; apply lxor_range; lia).
    rewrite shiftl_shiftr_zero, lxor_shiftr_zero by lia. naive_solver.
Qed.

(** Masking clears the host bits: it keeps the set of addresses the prefix
    contains, and is idempotent. *)
Lemma Masked_eq p : wf_prefix p →
  Masked p = mkPrefix (match p_ip p with
                       | Addr4 v => Addr4 (Z.land v (mask_bits 32 (p_bits p)))
                       | Addr6 v z => Addr6 (Z.land v (mask_bits 128 (p_bits p))) z
                       | AddrZero => AddrZero
                       end) (p_bits p).
Proof.
  intros (Hw & Hv & Hz & Hb). unfold Masked, addr_Prefix.
  rewrite (proj2 (Z.ltb_ge _ _)) by lia.
  destruct p as [[|v|v z] b]; cbn [p_ip p_bits BitLen] in *; [done| |];
    rewrite Z.gtb_ltb, (proj2 (Z.ltb_ge _ _)) by lia; cbn [default];
    unfold PrefixFrom; cbn [IsValid BitLen andb];
    rewrite (proj2 (in_range_true _ _ _)) by lia; [done|].
  simpl in Hz. b2p. by subst.
Qed.

Lemma mask_div w n x : 0 ≤ n ≤ w → 0 ≤ x < 2 ^ w →
  0 ≤ Z.land x (mask_bits w n) < 2 ^ w ∧
  Z.land x (mask_bits w n) `div` 2 ^ (w - n) = x `div` 2 ^ (w - n).
Proof.
  intros Hn Hx. rewrite land_mask, Z.shiftl_mul_pow2, Z.shiftr_div_pow2 by lia.
  pose proof (Z.pow_pos_nonneg 2 (w - n) ltac:(lia) ltac:(lia)) as Hp.
  pose proof (Z.mul_div_le x (2 ^ (w - n)) Hp). pose proof (Z.div_pos x (2 ^ (w - n)) ltac:(lia) Hp).
  split; [nia|]. rewrite Z.div_mul; lia.
Qed.

Lemma mask_idem w n x : 0 ≤ n ≤ w → 0 ≤ x < 2 ^ w →
  Z.land (Z.land x (mask_bits w n)) (mask_bits w n) = Z.land x (mask_bits w n).
Proof. intros. by rewrite <- Z.land_assoc, Z.land_diag. Qed.

Lemma Masked_wf p : wf_prefix p → wf_prefix (Masked p).
Proof.
  intros Hp. rewrite Masked_eq by done. destruct Hp as (Hw & Hv & Hz & Hb).
  destruct p as [[|v|v z] b]; cbn [p_ip p_bits BitLen wf_addr] in *; [done| |];
    (refine (conj _ (conj _ (conj _ _))); cbn [p_ip p_bits wf_addr];
     [by apply mask_div|done|done|done]).
Qed.

Lemma Masked_Contains p ip : wf_prefix p → wf_addr ip →
  Contains_addr (Masked p) ip = Contains_addr p ip.
Proof.
  intros Hp Hi. apply eq_bool_prop_intro. rewrite !Is_true_true.
  rewrite !Contains_spec by (done || by apply Masked_wf). rewrite Masked_eq by done.
  destruct Hp as (Hw & Hv & Hz & Hb).
  destruct p as [[|v|v z] b], ip as [|w|w z']; cbn [p_ip p_bits BitLen wf_addr addr_val] in *;
    try done; try naive_solver lia.
  - destruct (mask_div 32 b v) as [_ ->]; [lia|done|]. done.
  - destruct (mask_div 128 b v) as [_ ->]; [lia|done|]. done.
Qed.

Lemma Masked_idem p : wf_prefix p → Masked (Masked p) = Masked p.
Proof.
  intros Hp. rewrite (Masked_eq (Masked p)) by by apply Masked_wf. rewrite Masked_eq by done.
  destruct Hp as (Hw & Hv & Hz & Hb).
  destruct p as [[|v|v z] b]; cbn [p_ip p_bits BitLen wf_addr] in *; [done| |];
    by rewrite mask_idem by (lia || done).
Qed.

(** *** What parsing can return *)

Definition is_octet (x : Z) : Prop := 0 ≤ x < 256.

Lemma be_value_range l : Forall is_octet l → 0 ≤ be_value l < 256 ^ Z.of_nat (length l).
Proof.
  induction l as [|x l IH] using rev_ind; intros H; [done|].
  apply Forall_app in H as [Hl Hx]. apply Forall_cons in Hx as [Hx _]. specialize (IH Hl).
  rewrite be_value_app, length_app, Nat2Z.inj_add, Z.pow_add_r by lia.
  change (256 ^ Z.of_nat (length [x])) with 256. change (be_value [x]) with x.
  unfold is_octet in Hx. lia.
Qed.

Lemma ipv4_fields_range s dot val dl fs r :
  ipv4_fields dot val dl fs s = Some r → is_octet val → Forall is_octet fs →
  (length fs ≤ 3)%nat → length r = 4%nat ∧ Forall is_octet r.
Proof.
  revert dot val dl fs. induction s as [|b s IH]; intros dot val dl fs H Hv Hf Hl; cbn [ipv4_fields] in H.
  - destruct (length fs <? 3)%nat eqn:E; [done|]. apply Nat.ltb_ge in E. simplify_eq.
    rewrite length_app. split; [simpl; lia|]. apply Forall_app; auto.
  - destruct (isDigit b) eqn:Ed.
    + destruct ((dl =? 1) && (val =? 0)); [done|]. rewrite Z.gtb_ltb in H.
      destruct (255 <? val * 10 + (bval b - 48)) eqn:Eg; [done|]. unfold isDigit in Ed. b2p.
      eapply IH; [exact H|unfold is_octet in *; lia|done..].
    + case_bool; [|done]. destruct (dot || bool_decide (s = [])); [done|]. destruct (length fs =? 3)%nat eqn:E3; [done|].
      apply Nat.eqb_neq in E3. eapply IH; [exact H|done|apply Forall_app; auto|].
      rewrite length_app. simpl. lia.
Qed.

Lemma parseIPv4Fields_range s r : parseIPv4Fields s = Some r → length r = 4%nat ∧ Forall is_octet r.
Proof. intros H. eapply ipv4_fields_range; [exact H|done|constructor|simpl; lia]. Qed.

Lemma hex_group_range s off acc off' acc' t :
  hex_group off acc s = Some (off', acc', t) → 0 ≤ acc < 65536 → 0 ≤ acc' < 65536.
Proof.
  revert off acc. induction s as [|b s IH]; intros off acc H Ha; cbn [hex_group] in H; [by simplify_eq|].
  destruct (hexval b) as [d|] eqn:Ed; [|by simplify_eq].
  destruct (3 <? off)%nat; [done|]. rewrite Z.gtb_ltb in H. case_bool; [done|].
  eapply IH; [exact H|]. unfold hexval in Ed. split; [|lia].
  destruct (in_range 48 57 (bval b)) eqn:?; [b2p; simplify_eq; lia|].
  destruct (in_range 97 102 (bval b)) eqn:?; [b2p; simplify_eq; lia|].
  destruct (in_range 65 70 (bval b)) eqn:?; [b2p; simplify_eq; lia|done].
Qed.

Lemma ipv6_loop_range f ip ell s ip' ell' t :
  ipv6_loop f ip ell s = Some (ip', ell', t) → Forall is_octet ip →
  (length ip + 2 * f ≤ 16)%nat → Forall is_octet ip' ∧ (length ip' ≤ 16)%nat.
Proof.
  revert ip ell s. induction f as [|f IH]; intros ip ell s H Hip Hl; cbn [ipv6_loop] in H.
  - simplify_eq. split; [done|lia].
  - destruct (hex_group 0 0 s) as [[[off acc] s1]|] eqn:Eg; [|done]. cbn [mbind option_bind] in H.
    assert (Forall is_octet (ip ++ [acc `div` 256; acc `mod` 256]) ∧
            length (ip ++ [acc `div` 256; acc `mod` 256]) = (length ip + 2)%nat) as [Hip2 Hlen].
    { apply hex_group_range in Eg; [|lia]. split; [|rewrite length_app; done].
      apply Forall_app. split; [done|]. unfold is_octet. repeat constructor.
      - apply Z.div_pos; lia.
      - apply Z.div_lt_upper_bound; lia.
      - apply Z.mod_pos_bound; lia.
      - apply Z.mod_pos_bound; lia. }
    repeat (case_match; simplify_eq; try done);
      try (eapply IH; [exact H|done|lia]); try (split; [done|lia]).
    destruct (parseIPv4Fields s) as [fs|] eqn:Ef; [|done]. cbn [mbind option_bind] in H. simplify_eq.
    apply parseIPv4Fields_range in Ef as [Hfl Hfr]. rewrite length_app.
    repeat match goal with E : (_ <? _)%nat = false |- _ => apply Nat.ltb_ge in E end.
    split; [by apply Forall_app|lia].
Qed.

Lemma ipv6_finish_range ip ell t zone a :
  ipv6_finish ip ell t zone = Some a → Forall is_octet ip → (length ip ≤ 16)%nat → ∃ v, a = Addr6 v zone ∧ 0 ≤ v < 2 ^ 128.
Proof.
  intros H Hip Hl. unfold ipv6_finish in H. case_bool; [done|].
  destruct (length ip <? 16)%nat eqn:El.
  - apply Nat.ltb_lt in El. destruct ell as [e|]; [|done]. cbn in H. simplify_eq.
    eexists; split; [done|].
    assert (Forall is_octet (take e ip ++ replicate (16 - length ip) 0 ++ drop e ip)) as Hr.
    { repeat (apply Forall_app; split); [by apply Forall_take| |by apply Forall_drop].
      apply Forall_replicate. unfold is_octet. lia. }
    apply be_value_range in Hr. rewrite !length_app, length_take, length_drop, length_replicate in Hr.
    replace (e `min` length ip + (16 - length ip + (length ip - e)))%nat with 16%nat in Hr by lia.
    done.
  - apply Nat.ltb_ge in El. destruct ell; [done|]. simplify_eq. eexists; split; [done|].
    pose proof (be_value_range ip Hip) as Hr. replace (length ip) with 16%nat in Hr by lia. done.
Qed.

Lemma ipv6_body_range s zone a : ipv6_body s zone = Some a → ∃ v, a = Addr6 v zone ∧ 0 ≤ v < 2 ^ 128.
Proof.
  assert (∀ ell s', ipv6_loop 8 [] ell s' ≫= (λ '(ip, ell, rest), ipv6_finish ip ell rest zone) = Some a →
    ∃ v, a = Addr6 v zone ∧ 0 ≤ v < 2 ^ 128) as Hloop.
  { intros ell s' H. destruct (ipv6_loop 8 [] ell s') as [[[ip e] t]|] eqn:El; [|done].
    cbn [mbind option_bind] in H. apply ipv6_loop_range in El as [Hi Hl]; [|constructor|simpl; lia].
    eapply ipv6_finish_range; [exact H|done..]. }
  unfold ipv6_body. destruct (HasPrefix s "::"); [|apply Hloop].
  case_bool; [|apply Hloop]. intros ?; simplify_eq. eexists; split; [done|lia].
Qed.

Lemma ParseAddr_wf s a : ParseAddr s = Some a → wf_addr a ∧ IsValid a = true.
Proof.
  unfold ParseAddr. case_bool; [|case_bool; [|done]].
  - unfold parseIPv4. destruct (parseIPv4Fields s) as [fs|] eqn:E; [|done]. cbn -[be_value].
    intros ?; simplify_eq. apply parseIPv4Fields_range in E as [Hl Hr].
    apply be_value_range in Hr. rewrite Hl in Hr. done.
  - unfold parseIPv6. destruct (IndexByte s "%"); [case_bool; [done|]|];
      intros (v & -> & Hv)%ipv6_body_range; done.
Qed.

Lemma ParsePrefix_wf s p : ParsePrefix s = Some p → wf_prefix p.
Proof.
  unfold ParsePrefix. destruct (LastIndexByte s "/") as [i|]; [|done]. cbn [mbind option_bind].
  destruct (ParseAddr (take i s)) as [ip|] eqn:Ea; [|done]. cbn [mbind option_bind].
  destruct (hasZone ip) eqn:Ez; [done|]. case_match; [done|].
  destruct (Atoi (drop (S i) s)) as [bits|]; [|done]. cbn [mbind option_bind].
  case_bool; [done|]. intros ?; simplify_eq. apply ParseAddr_wf in Ea as [Hw Hv].
  assert (0 ≤ bits ≤ BitLen ip) by (destruct ip; cbn [Is6 BitLen] in *; try done; lia).
  unfold PrefixFrom. rewrite withoutZone_id, Hv, (proj2 (in_range_true _ _ _)) by done.
  (refine (conj _ (conj _ (conj _ _)))); done.
Qed.

Lemma digits_val_nonneg s a n : digits_val a s = Some n → 0 ≤ a → 0 ≤ n.
Proof.
  revert a. induction s as [|b s IH]; intros a H Ha; cbn [digits_val] in H; [by simplify_eq|].
  destruct (isDigit b) eqn:E; [|done]. unfold isDigit in E. b2p. eapply IH; [exact H|lia].
Qed.

Lemma ParseUint_range s max n : ParseUint s max = Some n → 0 ≤ n ≤ max.
Proof.
  unfold ParseUint. destruct s as [|b s]; [done|]. destruct (digits_val 0 (b :: s)) as [m|] eqn:E; [|done].
  cbn [mbind option_bind]. case_bool; [|done]. intros ?; simplify_eq.
  apply digits_val_nonneg in E; lia.
Qed.

Lemma ParseAddrPort_wf s ap : ParseAddrPort s = Some ap → wf_addrport ap ∧ ap_IsValid ap = true.
Proof.
  unfold ParseAddrPort. destruct (splitAddrPort s) as [[[ip port] v6]|]; [|done]. cbn [mbind option_bind].
  destruct (ParseUint port 65535) as [n|] eqn:En; [|done]. cbn [mbind option_bind].
  destruct (ParseAddr ip) as [a|] eqn:Ea; [|done]. cbn [mbind option_bind].
  repeat case_match; try done; intros ?; simplify_eq;
    apply ParseAddr_wf in Ea as [? ?]; apply ParseUint_range in En; repeat split; simpl; try done; lia.
Qed.

(** *** Unmapping *)

Lemma Unmap_wf a : wf_addr a → wf_addr (Unmap a).
Proof.
  destruct a as [|v|v z]; [done..|]. intros H. unfold Unmap. case_bool; [|done].
  apply Z.mod_pos_bound. lia.
Qed.

Lemma Unmap_idem a : Unmap (Unmap a) = Unmap a.
Proof.
  destruct a as [|v|v z]; [done..|]. unfold Unmap at 2 3.
  destruct (Is4In6 (Addr6 v z)) eqn:E; [done|]. unfold Unmap. by rewrite E.
Qed.

Lemma Unmap_IsValid a : IsValid (Unmap a) = IsValid a.
Proof. destruct a as [|v|v z]; [done..|]. unfold Unmap. by destruct (Is4In6 _). Qed.

(** The IPv4-mapped form of an IPv4 address. *)
Definition mapped6 (w : Z) (zone : gostring) : Addr := Addr6 (65535 * 2 ^ 32 + w) zone.

Lemma Unmap_mapped6 w zone : 0 ≤ w < 2 ^ 32 → Unmap (mapped6 w zone) = Addr4 w.
Proof.
  intros Hw. unfold mapped6, Unmap, Is4In6. rewrite Z.shiftr_div_pow2 by lia.
  rewrite Z.div_add_l, Z.div_small, Z.add_0_r, Z.eqb_refl by lia.
  by rewrite Z.add_comm, Z.mod_add, Z.mod_small by lia.
Qed.
