(* ===== verification/Netaddr.v ===== *)
(** * Well-known and reserved addresses (internal/netaddr)

    [well_known.go]: the gateway addresses; [reserved.go]: the table of
    reserved prefixes and the predicate [IsReserved], together with an
    interval specification of what it accepts. *)

From S2P Require Import Prelude GoStrings Netip.

(** ** Definitions *)

Definition GatewayIPv4 : Addr := MustParseAddr "198.18.0.1".
Definition PrefixIPv4 : Prefix := MustParsePrefix "198.18.0.1/30".
Definition GatewayIPv6 : Addr := MustParseAddr "fdfe:dcba:9876::1".
Definition PrefixIPv6 : Prefix := MustParsePrefix "fdfe:dcba:9876::1/126".
Definition DefaultUpstreamDNS : AddrPort := MustParseAddrPort "8.8.8.8:53".

Definition reservedPrefixes : list Prefix :=
  MustParsePrefix ∘ str <$>
  [ "0.0.0.0/8"; "100.64.0.0/10"; "192.0.0.0/24"; "192.0.2.0/24"; "198.18.0.0/15";
    "198.51.100.0/24"; "203.0.113.0/24"; "240.0.0.0/4"; "255.255.255.255/32";
    "::ffff:0:0/96"; "64:ff9b::/96"; "100::/64"; "2001::/23"; "2002::/16" ]%string.

Definition IsReserved (addr0 : Addr) : bool :=
  let addr := Unmap addr0 in
  if negb (IsValid addr) then false
  else if IsLoopback addr || IsPrivate addr || IsUnspecified addr || IsLinkLocalUnicast addr
          || IsLinkLocalMulticast addr || IsMulticast addr then true
  else existsb (λ p, Contains_addr p addr) reservedPrefixes.

(** ** The interval specification *)

Definition ip4 (a b c d : Z) : Z := a * 2 ^ 24 + b * 2 ^ 16 + c * 2 ^ 8 + d.
(** The 128-bit value with the given leading groups, zeros after them. *)
Definition ip6 (a b c d : Z) : Z := a * 2 ^ 112 + b * 2 ^ 96 + c * 2 ^ 80 + d * 2 ^ 64.

(** First and last address of each reserved IPv4 block. *)
Definition reserved4_blocks : list (Z * Z) :=
  [ (ip4 0 0 0 0, ip4 0 255 255 255);          (* this network *)
    (ip4 10 0 0 0, ip4 10 255 255 255);        (* private *)
    (ip4 100 64 0 0, ip4 100 127 255 255);     (* shared address space *)
    (ip4 127 0 0 0, ip4 127 255 255 255);      (* loopback *)
    (ip4 169 254 0 0, ip4 169 254 255 255);    (* link local *)
    (ip4 172 16 0 0, ip4 172 31 255 255);      (* private *)
    (ip4 192 0 0 0, ip4 192 0 0 255);          (* protocol assignments *)
    (ip4 192 0 2 0, ip4 192 0 2 255);          (* TEST-NET-1 *)
    (ip4 192 168 0 0, ip4 192 168 255 255);    (* private *)
    (ip4 198 18 0 0, ip4 198 19 255 255);      (* benchmarking, the gateway subnet *)
    (ip4 198 51 100 0, ip4 198 51 100 255);    (* TEST-NET-2 *)
    (ip4 203 0 113 0, ip4 203 0 113 255);      (* TEST-NET-3 *)
    (ip4 224 0 0 0, ip4 255 255 255 255) ].    (* multicast, future use, broadcast *)

(** The IPv6 blocks whatever the zone. *)
Definition reserved6_zoned : list (Z * Z) :=
  [ (1, 1);                                                  (* loopback *)
    (ip6 0xfc00 0 0 0, ip6 0xfe00 0 0 0 - 1);                (* unique local *)
    (ip6 0xfe80 0 0 0, ip6 0xfec0 0 0 0 - 1);                (* link local *)
    (ip6 0xff00 0 0 0, ip6 0x10000 0 0 0 - 1) ].             (* multicast *)

(** The IPv6 blocks that hold for zoneless addresses only. *)
Definition reserved6_plain : list (Z * Z) :=
  [ (0, 0);                                                  (* unspecified *)
    (ip6 0x64 0xff9b 0 0, ip6 0x64 0xff9b 0 0 + 2 ^ 32 - 1); (* translation *)
    (ip6 0x100 0 0 0, ip6 0x100 0 0 1 - 1);                  (* discard *)
    (ip6 0x2001 0 0 0, ip6 0x2001 0x200 0 0 - 1);            (* protocol assignments *)
    (ip6 0x2002 0 0 0, ip6 0x2003 0 0 0 - 1) ].              (* 6to4 *)

Definition in_blocks (l : list (Z * Z)) (v : Z) : bool := existsb (λ '(lo, hi), in_range lo hi v) l.

Definition reserved_spec (a : Addr) : bool :=
  match Unmap a with
  | AddrZero => false
  | Addr4 v => in_blocks reserved4_blocks v
  | Addr6 v z =>
      in_blocks reserved6_zoned v || (bool_decide (z = []) && in_blocks reserved6_plain v)
  end.

(** ** Lemmas *)

Lemma Contains4_range c n v : 0 ≤ n ≤ 32 → 0 ≤ c < 2 ^ 32 → 0 ≤ v < 2 ^ 32 →
  Contains_addr (mkPrefix (Addr4 c) n) (Addr4 v)
  = in_range (c `div` 2 ^ (32 - n) * 2 ^ (32 - n)) (c `div` 2 ^ (32 - n) * 2 ^ (32 - n) + 2 ^ (32 - n) - 1) v.
Proof.
  intros Hn Hc Hv. apply eq_true_iff_eq. rewrite Contains_spec by done. rewrite in_range_true.
  cbn [hasZone BitLen addr_val p_ip p_bits].
  pose proof (Z.pow_pos_nonneg 2 (32 - n) ltac:(lia) ltac:(lia)) as Hp.
  pose proof (Z.div_mod v (2 ^ (32 - n)) ltac:(lia)). pose proof (Z.mod_pos_bound v _ Hp).
  split; [intros (_ & _ & E); rewrite <- E; lia|]. intros Hr. split_and!; [done..|].
  symmetry. apply Z.div_unique with (v - c `div` 2 ^ (32 - n) * 2 ^ (32 - n)); lia.
Qed.

Lemma Contains6_range c n v z : 0 ≤ n ≤ 128 → 0 ≤ c < 2 ^ 128 → 0 ≤ v < 2 ^ 128 →
  Contains_addr (mkPrefix (Addr6 c []) n) (Addr6 v z)
  = bool_decide (z = []) &&
    in_range (c `div` 2 ^ (128 - n) * 2 ^ (128 - n)) (c `div` 2 ^ (128 - n) * 2 ^ (128 - n) + 2 ^ (128 - n) - 1) v.
Proof.
  intros Hn Hc Hv. apply eq_true_iff_eq. rewrite Contains_spec by done.
  rewrite andb_true_iff, in_range_true, bool_decide_eq_true.
  cbn [hasZone BitLen addr_val p_ip p_bits]. rewrite negb_false_iff, bool_decide_eq_true.
  pose proof (Z.pow_pos_nonneg 2 (128 - n) ltac:(lia) ltac:(lia)) as Hp.
  pose proof (Z.div_mod v (2 ^ (128 - n)) ltac:(lia)). pose proof (Z.mod_pos_bound v _ Hp).
  split; [intros (-> & _ & E); rewrite <- E; split; [done|lia]|]. intros [-> Hr]. split_and!; [done..|].
  symmetry. apply Z.div_unique with (v - c `div` 2 ^ (128 - n) * 2 ^ (128 - n)); lia.
Qed.

(** The table, with the prefixes evaluated. *)
Lemma reservedPrefixes_eq : reservedPrefixes =
  [ mkPrefix (Addr4 (ip4 0 0 0 0)) 8; mkPrefix (Addr4 (ip4 100 64 0 0)) 10;
    mkPrefix (Addr4 (ip4 192 0 0 0)) 24; mkPrefix (Addr4 (ip4 192 0 2 0)) 24;
    mkPrefix (Addr4 (ip4 198 18 0 0)) 15; mkPrefix (Addr4 (ip4 198 51 100 0)) 24;
    mkPrefix (Addr4 (ip4 203 0 113 0)) 24; mkPrefix (Addr4 (ip4 240 0 0 0)) 4;
    mkPrefix (Addr4 (ip4 255 255 255 255)) 32;
    mkPrefix (Addr6 (65535 * 2 ^ 32) []) 96; mkPrefix (Addr6 (ip6 0x64 0xff9b 0 0) []) 96;
    mkPrefix (Addr6 (ip6 0x100 0 0 0) []) 64; mkPrefix (Addr6 (ip6 0x2001 0 0 0) []) 23;
    mkPrefix (Addr6 (ip6 0x2002 0 0 0) []) 16 ].
Proof. vm_compute. reflexivity. Qed.

Lemma byte_mask x m : 0 ≤ x < 256 → Z.land x 240 = m ↔ x `div` 16 * 16 = m.
Proof.
  intros Hx.
  assert (forallZ 256 (λ x, Z.land x 240 =? x `div` 16 * 16) = true) as H by (vm_compute; reflexivity).
  pose proof (forallZ_spec _ _ H x ltac:(lia)) as H'. apply Z.eqb_eq in H'. by rewrite H'.
Qed.

(** [pick] proves a disjunction of ranges by the first disjunct that holds. *)
Ltac pick := solve [repeat (first [left; lia | right]); lia].

Section Ranges4.
Context (v : Z) (Hv : 0 ≤ v < 2 ^ 32).
#[local] Ltac Zify.zify_post_hook ::= Z.div_mod_to_equations.

Lemma v4_bytes : v4_byte v 0 = v `div` 2 ^ 24 ∧ v4_byte v 1 = v `div` 2 ^ 16 `mod` 256 ∧
  v4_byte v 2 = v `div` 2 ^ 8 `mod` 256.
Proof.
  unfold v4_byte. rewrite !Z.shiftr_div_pow2 by lia. cbn -[Z.div Z.modulo Z.pow].
  split_and!; try done. apply Z.mod_small. lia.
Qed.

Lemma IsPrivate4 : IsPrivate (Addr4 v) = true ↔
  ip4 10 0 0 0 ≤ v ≤ ip4 10 255 255 255 ∨ ip4 172 16 0 0 ≤ v ≤ ip4 172 31 255 255 ∨
  ip4 192 168 0 0 ≤ v ≤ ip4 192 168 255 255.
Proof.
  unfold IsPrivate. cbn [Unmap]. destruct v4_bytes as (-> & -> & _).
  rewrite !orb_true_iff, !andb_true_iff, !Z.eqb_eq, byte_mask by lia. unfold ip4. lia.
Qed.

Lemma IsLoopback4 : IsLoopback (Addr4 v) = true ↔ ip4 127 0 0 0 ≤ v ≤ ip4 127 255 255 255.
Proof. unfold IsLoopback. cbn [Unmap]. destruct v4_bytes as (-> & _). rewrite Z.eqb_eq. unfold ip4. lia. Qed.

Lemma IsLinkLocalUnicast4 : IsLinkLocalUnicast (Addr4 v) = true ↔
  ip4 169 254 0 0 ≤ v ≤ ip4 169 254 255 255.
Proof.
  unfold IsLinkLocalUnicast. cbn [Unmap]. destruct v4_bytes as (-> & -> & _).
  rewrite andb_true_iff, !Z.eqb_eq. unfold ip4. lia.
Qed.

Lemma IsMulticast4 : IsMulticast (Addr4 v) = true ↔ ip4 224 0 0 0 ≤ v ≤ ip4 239 255 255 255.
Proof.
  unfold IsMulticast. cbn [Unmap]. destruct v4_bytes as (-> & _).
  rewrite Z.eqb_eq, byte_mask by lia. unfold ip4. lia.
Qed.

Lemma IsLinkLocalMulticast4 : IsLinkLocalMulticast (Addr4 v) = true → ip4 224 0 0 0 ≤ v ≤ ip4 239 255 255 255.
Proof.
  unfold IsLinkLocalMulticast. cbn [Unmap]. destruct v4_bytes as (-> & -> & ->).
  rewrite !andb_true_iff, !Z.eqb_eq. unfold ip4. lia.
Qed.
End Ranges4.

Lemma land_mask_div w n x : 0 ≤ n ≤ w → 0 ≤ x < 2 ^ w →
  Z.land x (mask_bits w n) = x `div` 2 ^ (w - n) * 2 ^ (w - n).
Proof. intros. rewrite land_mask, Z.shiftl_mul_pow2, Z.shiftr_div_pow2 by lia. done. Qed.

Section Ranges6.
Context (v : Z) (z : gostring) (Hv : 0 ≤ v < 2 ^ 128) (Hnm : Is4In6 (Addr6 v z) = false).
#[local] Ltac Zify.zify_post_hook ::= Z.div_mod_to_equations.

Lemma Unmap6 : Unmap (Addr6 v z) = Addr6 v z.
Proof. unfold Unmap. by rewrite Hnm. Qed.

Lemma top_group : v6u16 v 0 = v `div` 2 ^ 112 ∧ 0 ≤ v `div` 2 ^ 112 < 2 ^ 16.
Proof.
  assert (0 ≤ v `div` 2 ^ 112 < 2 ^ 16) as H by lia. split; [|done].
  unfold v6u16. rewrite Z.shiftr_div_pow2 by lia. change (112 - 16 * 0) with 112.
  apply Z.mod_small. exact H.
Qed.

Lemma IsPrivate6 : IsPrivate (Addr6 v z) = true ↔ ip6 0xfc00 0 0 0 ≤ v ≤ ip6 0xfe00 0 0 0 - 1.
Proof.
  unfold IsPrivate. rewrite Unmap6, Z.shiftr_div_pow2, Z.eqb_eq by lia.
  change 254 with (mask_bits 8 7). rewrite Z.mod_small by lia.
  rewrite land_mask_div by lia. unfold ip6. lia.
Qed.

Lemma IsMulticast6 : IsMulticast (Addr6 v z) = true ↔ ip6 0xff00 0 0 0 ≤ v ≤ ip6 0x10000 0 0 0 - 1.
Proof. unfold IsMulticast. rewrite Unmap6, Z.shiftr_div_pow2, Z.eqb_eq by lia. unfold ip6. lia. Qed.

Lemma IsLinkLocalUnicast6 : IsLinkLocalUnicast (Addr6 v z) = true ↔
  ip6 0xfe80 0 0 0 ≤ v ≤ ip6 0xfec0 0 0 0 - 1.
Proof.
  unfold IsLinkLocalUnicast. rewrite Unmap6, Z.eqb_eq. destruct top_group as [-> Hg].
  change 65472 with (mask_bits 16 10). rewrite land_mask_div by lia. unfold ip6. lia.
Qed.

Lemma IsLinkLocalMulticast6 : IsLinkLocalMulticast (Addr6 v z) = true →
  ip6 0xff00 0 0 0 ≤ v ≤ ip6 0x10000 0 0 0 - 1.
Proof.
  unfold IsLinkLocalMulticast. rewrite Unmap6, Z.eqb_eq. destruct top_group as [-> Hg]. intros H.
  apply (f_equal (λ x, Z.land x (mask_bits 16 8))) in H. rewrite <- Z.land_assoc in H.
  change (Z.land 65295 (mask_bits 16 8)) with (mask_bits 16 8) in H.
  change (Z.land 65282 (mask_bits 16 8)) with 65280 in H.
  rewrite land_mask_div in H by lia. unfold ip6. lia.
Qed.

Lemma IsLoopback6 : IsLoopback (Addr6 v z) = true ↔ 1 ≤ v ≤ 1.
Proof. unfold IsLoopback. rewrite Unmap6, Z.eqb_eq. lia. Qed.
End Ranges6.

Lemma IsUnspecified4 v : IsUnspecified (Addr4 v) = true ↔ v = 0.
Proof. unfold IsUnspecified. rewrite orb_true_iff, !bool_decide_eq_true. naive_solver. Qed.

Lemma IsUnspecified6 v z : IsUnspecified (Addr6 v z) = true ↔ z = [] ∧ v = 0.
Proof. unfold IsUnspecified. rewrite orb_true_iff, !bool_decide_eq_true. naive_solver. Qed.

(** A prefix of the other family contains nothing. *)
Lemma Contains_family p a : BitLen (p_ip p) ≠ BitLen a → Contains_addr p a = false.
Proof.
  intros H. unfold Contains_addr. case_match; [done|]. destruct (p_ip p), a; try done; simpl in H; lia.
Qed.

Lemma reserved_table4 v : 0 ≤ v < 2 ^ 32 →
  existsb (λ p, Contains_addr p (Addr4 v)) reservedPrefixes =
  in_blocks [ (ip4 0 0 0 0, ip4 0 255 255 255); (ip4 100 64 0 0, ip4 100 127 255 255);
    (ip4 192 0 0 0, ip4 192 0 0 255); (ip4 192 0 2 0, ip4 192 0 2 255);
    (ip4 198 18 0 0, ip4 198 19 255 255); (ip4 198 51 100 0, ip4 198 51 100 255);
    (ip4 203 0 113 0, ip4 203 0 113 255); (ip4 240 0 0 0, ip4 255 255 255 255);
    (ip4 255 255 255 255, ip4 255 255 255 255)] v.
Proof.
  intros Hv. rewrite reservedPrefixes_eq. cbn [existsb in_blocks].
  rewrite !Contains4_range by (done || (unfold ip4; lia)).
  rewrite !(Contains_family (mkPrefix (Addr6 _ _) _) (Addr4 _)) by done.
  unfold in_blocks. cbn [existsb]. reflexivity.
Qed.

Lemma reserved_table6 v z : 0 ≤ v < 2 ^ 128 → Is4In6 (Addr6 v z) = false →
  existsb (λ p, Contains_addr p (Addr6 v z)) reservedPrefixes =
  bool_decide (z = []) && in_blocks [
    (65535 * 2 ^ 32, 65536 * 2 ^ 32 - 1);
    (ip6 0x64 0xff9b 0 0, ip6 0x64 0xff9b 0 0 + 2 ^ 32 - 1);
    (ip6 0x100 0 0 0, ip6 0x100 0 0 1 - 1); (ip6 0x2001 0 0 0, ip6 0x2001 0x200 0 0 - 1);
    (ip6 0x2002 0 0 0, ip6 0x2003 0 0 0 - 1)] v.
Proof.
  intros Hv Hn. rewrite reservedPrefixes_eq. cbn [existsb in_blocks].
  rewrite !Contains6_range by (done || (unfold ip6; lia)).
  rewrite !(Contains_family (mkPrefix (Addr4 _) _) (Addr6 _ _)) by done.
  unfold in_blocks. cbn [existsb]. destruct (bool_decide (z = [])); reflexivity.
Qed.

Lemma in_blocks_cons lo hi l v : in_blocks ((lo, hi) :: l) v = true ↔ lo ≤ v ≤ hi ∨ in_blocks l v = true.
Proof. unfold in_blocks. cbn [existsb]. by rewrite orb_true_iff, in_range_true. Qed.

Lemma in_blocks_nil v : in_blocks [] v = true ↔ False.
Proof. done. Qed.

Lemma IsReserved_unfold a : IsValid a = true →
  IsReserved a = true ↔
  IsLoopback (Unmap a) = true ∨ IsPrivate (Unmap a) = true ∨ IsUnspecified (Unmap a) = true ∨
  IsLinkLocalUnicast (Unmap a) = true ∨ IsLinkLocalMulticast (Unmap a) = true ∨
  IsMulticast (Unmap a) = true ∨ existsb (λ p, Contains_addr p (Unmap a)) reservedPrefixes = true.
Proof.
  intros Hv. unfold IsReserved. rewrite Unmap_IsValid, Hv. cbn [negb].
  match goal with |- (if ?c then true else ?e) = true ↔ _ =>
    change (if c then true else e) with (orb c e) end.
  rewrite !orb_true_iff. tauto.
Qed.

Lemma IsReserved4 v : 0 ≤ v < 2 ^ 32 → IsReserved (Addr4 v) = true ↔ in_blocks reserved4_blocks v = true.
Proof.
  intros Hv. rewrite IsReserved_unfold by done. cbn [Unmap].
  rewrite reserved_table4, IsLoopback4, IsPrivate4, IsUnspecified4, IsLinkLocalUnicast4, IsMulticast4 by done.
  pose proof (IsLinkLocalMulticast4 v Hv) as Hll. unfold reserved4_blocks.
  rewrite !in_blocks_cons, !in_blocks_nil. unfold ip4 in *. split.
  - intros H. destruct_or!; try specialize (Hll H); try done; pick.
  - clear Hll. intros H. destruct_or!; try done; try pick.
    destruct (decide (v < 240 * 2 ^ 24)); pick.
Qed.

Lemma IsReserved6 v z : 0 ≤ v < 2 ^ 128 → Is4In6 (Addr6 v z) = false →
  IsReserved (Addr6 v z) = true ↔
  in_blocks reserved6_zoned v = true ∨ (z = [] ∧ in_blocks reserved6_plain v = true).
Proof.
  intros Hv Hn. rewrite IsReserved_unfold, Unmap6 by done.
  rewrite reserved_table6, IsLoopback6, IsPrivate6, IsUnspecified6, IsLinkLocalUnicast6, IsMulticast6 by done.
  pose proof (IsLinkLocalMulticast6 v z Hv Hn) as Hll. unfold reserved6_zoned, reserved6_plain.
  rewrite andb_true_iff, bool_decide_eq_true, !in_blocks_cons, !in_blocks_nil.
  assert (¬ 65535 * 2 ^ 32 ≤ v ≤ 65536 * 2 ^ 32 - 1) as Hm.
  { intros Hm. revert Hn. unfold Is4In6. rewrite Z.eqb_neq, Z.shiftr_div_pow2 by lia. intros Hn. apply Hn.
    symmetry. apply Z.div_unique with (v - 65535 * 2 ^ 32); lia. }
  split.
  - intros H. destruct_or!; try specialize (Hll H); destruct_and?; destruct_or?; try done;
      try (left; pick); right; split; try done; pick.
  - clear Hll. intros H. destruct_or!; destruct_and?; destruct_or?; try done;
      first [pick | do 2 right; left; split; [done|lia] | do 6 right; split; [done|pick]].
Qed.

Lemma IsReserved_blocks a : wf_addr a → IsReserved a = reserved_spec a.
Proof.
  intros Hw. apply eq_true_iff_eq. unfold reserved_spec.
  assert (IsReserved (Unmap a) = IsReserved a) as <- by (unfold IsReserved; by rewrite Unmap_idem).
  apply Unmap_wf in Hw. pose proof (Unmap_idem a) as Hi.
  destruct (Unmap a) as [|v|v z] eqn:E; [done|by apply IsReserved4|].
  rewrite IsReserved6; [|done|].
  - by rewrite orb_true_iff, andb_true_iff, bool_decide_eq_true.
  - unfold Unmap in Hi. destruct (Is4In6 (Addr6 v z)); done.
Qed.

Lemma Gateway_values : GatewayIPv4 = Addr4 (ip4 198 18 0 1) ∧
  GatewayIPv6 = Addr6 (ip6 0xfdfe 0xdcba 0x9876 0 + 1) [] ∧
  PrefixIPv4 = mkPrefix (Addr4 (ip4 198 18 0 1)) 30 ∧
  PrefixIPv6 = mkPrefix (Addr6 (ip6 0xfdfe 0xdcba 0x9876 0 + 1) []) 126.
Proof. by vm_compute. Qed.

Lemma Unmap_reserved a : IsReserved (Unmap a) = IsReserved a.
Proof. unfold IsReserved. by rewrite Unmap_idem. Qed.

(** ** Properties *)

(** C13: [IsReserved] accepts exactly the addresses of the documented blocks, for
    every address the type can hold: the IPv4 table of private, loopback, link
    local, multicast, documentation, benchmarking and future-use ranges, and
    the IPv6 blocks, of which the zone-qualified ones match only by class.  An
    IPv4-mapped IPv6 address is judged as the IPv4 address it carries. *)
Theorem IsReserved_is_block_table (a : Addr) : wf_addr a → IsReserved a = reserved_spec a.
Proof. apply IsReserved_blocks. Qed.

Lemma IsReserved_is_block_table_witness :
  IsReserved (mapped6 (ip4 10 1 2 3) []) = reserved_spec (mapped6 (ip4 10 1 2 3) []).
Proof. apply IsReserved_is_block_table. vm_compute. split; congruence. Defined.

(** The addresses of the tunnel subnets are all reserved, so a flow to the
    gateway or its subnet never reaches the upstream proxy; and the gateways
    lie in their subnets. *)
Theorem tunnel_subnets_reserved (a : Addr) : wf_addr a →
  Contains_addr PrefixIPv4 a = true ∨ Contains_addr PrefixIPv6 a = true → IsReserved a = true.
Proof.
  intros Hw H. destruct Gateway_values as (_ & _ & E4 & E6). rewrite E4, E6 in H. clear E4 E6.
  destruct a as [|v|v z]; [rewrite !Contains_family in H by (cbn; lia); destruct H; discriminate| |]; simpl in Hw.
  - apply IsReserved4; [done|]. destruct H as [H|H]; [|rewrite Contains_family in H by (cbn; lia); discriminate].
    rewrite Contains4_range in H by (unfold ip4; lia). b2p.
    unfold reserved4_blocks. rewrite !in_blocks_cons. unfold ip4 in *.
    change (2 ^ (32 - 30)) with 4 in *. change (_ `div` 4 * 4) with 3323068416 in *. pick.
  - destruct H as [H|H]; [rewrite Contains_family in H by (cbn; lia); discriminate|].
    rewrite Contains6_range in H by (unfold ip6; lia). b2p.
    change (2 ^ (128 - 126)) with 4 in *.
    assert ((ip6 0xfdfe 0xdcba 0x9876 0 + 1) `div` 4 * 4 = ip6 0xfdfe 0xdcba 0x9876 0) as E
      by (vm_compute; reflexivity). rewrite E in *.
    assert (ip6 0xfc00 0 0 0 ≤ v ≤ ip6 0xfe00 0 0 0 - 1) as Hv by (unfold ip6 in *; lia).
    apply IsReserved6; [done| |].
    + unfold Is4In6. rewrite Z.shiftr_div_pow2 by lia. apply Z.eqb_neq. intros E'.
      pose proof (Z.div_mod v (2 ^ 32) ltac:(lia)).
      pose proof (Z.mod_pos_bound v (2 ^ 32) ltac:(lia)). unfold ip6 in Hv. lia.
    + left. unfold reserved6_zoned. rewrite !in_blocks_cons. tauto.
Qed.

Lemma tunnel_subnets_reserved_witness : IsReserved GatewayIPv4 = true ∧ IsReserved GatewayIPv6 = true.
Proof.
  split; apply tunnel_subnets_reserved; try (vm_compute; split; congruence);
    [left|right]; vm_compute; reflexivity.
Defined.

(** The documentation block 2001:db8::/32 is not covered: none of its
    addresses is reserved, although the table's 2001::/23 row is annotated as
    covering it. *)
Theorem documentation6_not_reserved (v : Z) :
  ip6 0x2001 0xdb8 0 0 ≤ v < ip6 0x2001 0xdb9 0 0 → IsReserved (Addr6 v []) = false.
Proof.
  intros Hv. unfold ip6 in Hv. apply not_true_iff_false. intros H. apply IsReserved6 in H; [|lia|].
  - unfold reserved6_zoned, reserved6_plain in H. rewrite !in_blocks_cons, !in_blocks_nil in H.
    unfold ip6 in H. lia.
  - unfold Is4In6. rewrite Z.shiftr_div_pow2 by lia. apply Z.eqb_neq. intros E.
    pose proof (Z.div_mod v (2 ^ 32) ltac:(lia)).
    pose proof (Z.mod_pos_bound v (2 ^ 32) ltac:(lia)). lia.
Qed.

Lemma documentation6_not_reserved_witness :
  MustParseAddr "2001:db8::1" = Addr6 (ip6 0x2001 0xdb8 0 0 + 1) [] ∧
  IsReserved (Addr6 (ip6 0x2001 0xdb8 0 0 + 1) []) = false.
Proof.
  split; [vm_compute; reflexivity|]. apply documentation6_not_reserved. unfold ip6. lia.
Defined.
