(* ===== verification/Procname.v ===== *)
(** * Process-name normalisation (internal/procname/procname.go) *)

From S2P Require Import Prelude GoStrings.

(** ** Definitions *)

(** [Normalize]: trim, lower-case, and strip one trailing [.exe]. *)
Definition Normalize (name : gostring) : gostring :=
  let n := ToLower (TrimSpace name) in
  if HasSuffix n ".exe" then TrimSuffix n ".exe" else n.

(** ** Lemmas *)

Lemma Normalize_eq name : Normalize name = TrimSuffix (ToLower (TrimSpace name)) ".exe".
Proof.
  unfold Normalize. destruct (HasSuffix _ _) eqn:E; [done|]. unfold TrimSuffix. by rewrite E.
Qed.

Lemma Normalize_alt name : Normalize name = TrimSuffix (TrimSpace (ToLower name)) ".exe".
Proof. by rewrite Normalize_eq, ToLower_TrimSpace. Qed.

Lemma ToLower_exe s : ToLower (s ++ ".exe") = ToLower s ++ ".exe".
Proof.
  change (s ++ str ".exe") with (s ++ "."%byte :: str "exe").
  rewrite ToLower_app_ascii by done. f_equal.
Qed.

Lemma ToLower_EXE s : ToLower (s ++ ".EXE") = ToLower s ++ ".exe".
Proof.
  change (s ++ str ".EXE") with (s ++ "."%byte :: str "EXE").
  rewrite ToLower_app_ascii by done. f_equal.
Qed.

(** A name that is trimmed already stays trimmed with a suffix appended. *)
Lemma TrimSpace_exe s : s ≠ [] → TrimSpace s = s → TrimSpace (s ++ ".exe") = s ++ ".exe".
Proof.
  intros Hne Hs. unfold TrimSpace at 1.
  destruct (trim_both_split (λ c, IsSpace c.1) (chunks s)) as (_ & _ & _ & _ & _ & Hh & _).
  rewrite <- chunks_TrimSpace, Hs in Hh.
  rewrite trim_both_id; [by rewrite join_chunks_chunks| |].
  - change (s ++ str ".exe") with (s ++ "."%byte :: str "exe"). rewrite chunks_app_ascii by done.
    pose proof (chunks_ne s Hne). by destruct (chunks s).
  - change (s ++ str ".exe") with (s ++ "."%byte :: str "exe"). rewrite chunks_app_ascii by done.
    rewrite rev_app_distr. by vm_compute.
Qed.

(** ** Properties *)

(** Matching ignores case: names with the same lower-case form normalise to
    the same name. *)
Lemma Normalize_case s t : ToLower s = ToLower t → Normalize s = Normalize t.
Proof. intros H. by rewrite !Normalize_alt, H. Qed.

(** ... and surrounding white space. *)
Lemma Normalize_space s : Normalize (TrimSpace s) = Normalize s.
Proof. by rewrite !Normalize_eq, TrimSpace_idem. Qed.

(** ... and one [.exe] suffix, when the bare name does not itself end in it. *)
Lemma Normalize_suffix s : s ≠ [] → TrimSpace s = s → HasSuffix (ToLower s) ".exe" = false →
  Normalize (s ++ ".exe") = Normalize s.
Proof.
  intros Hne Hs He. rewrite !Normalize_eq, TrimSpace_exe, Hs, ToLower_exe, TrimSuffix_app by done.
  unfold TrimSuffix. by rewrite He.
Qed.

(** Only one suffix goes: normalising again can strip another. *)
Lemma Normalize_not_idempotent :
  Normalize "app.exe.exe" = str "app.exe" ∧ Normalize (Normalize "app.exe.exe") = str "app".
Proof. by vm_compute. Qed.
