(* ===== verification/Config.v ===== *)
(** * Configuration (internal/config/config.go, cmd/nanotun/main.go)

    The user-facing [Config], layering by [Merge], validation by [Finalize]
    into a [Runtime], and [loadRuntimeConfig], which layers defaults, the YAML
    file and the command line.  Durations are [time.Duration] values, in
    nanoseconds.  Reading a file, the YAML decoder and the flag parser are
    parameters. *)

From S2P Require Import Prelude GoStrings Netip Netaddr Procname.

(** ** Definitions *)

Definition second : Z := 1000000000.
Definition minute : Z := 60 * second.

Definition StackModeGVisor : gostring := "gvisor".
Definition StackModeSimple : gostring := "simple".

Record Config : Type := mkConfig {
  c_TunName : gostring;
  c_MTU : Z;
  c_StackMode : gostring;
  c_Proxy : gostring;
  c_DNS : gostring;
  c_UDPTimeout : Z;
  c_ExcludedProcesses : list gostring;
  c_ExcludeRefresh : Z;
  c_ExcludedIPs : list gostring;
  c_LogLevel : gostring;
  c_LogDir : gostring;
  c_AutoDefaultRoute : bool
}.

Record Runtime : Type := mkRuntime {
  r_TunName : gostring;
  r_MTU : Z;
  r_StackMode : gostring;
  r_Proxy : gostring;
  r_DNS : AddrPort;
  r_UDPTimeout : Z;
  r_ExcludedProcesses : list gostring;
  r_ExcludeRefresh : Z;
  r_ExcludedIPs : list Prefix;
  r_LogLevel : gostring;
  r_LogDir : gostring;
  r_AutoDefaultRoute : bool
}.

(** The zero value of the struct. *)
Definition zero_config : Config := mkConfig [] 0 [] [] [] 0 [] 0 [] [] [] false.

Definition Default : Config := {|
  c_TunName := "nano0";
  c_MTU := 1500;
  c_StackMode := StackModeGVisor;
  c_Proxy := [];
  c_DNS := [];
  c_UDPTimeout := minute;
  c_ExcludedProcesses := [];
  c_ExcludeRefresh := 15 * second;
  c_ExcludedIPs := [];
  c_LogLevel := "info";
  c_LogDir := "logs";
  c_AutoDefaultRoute := false
|}.

(** [v != ""], [v != 0] and [len(v) > 0]. *)
Definition over {A} (old new : list A) : list A :=
  match new with [] => old | _ => new end.
Definition overZ (old new : Z) : Z := if new =? 0 then old else new.

(** [StackMode] is lower-cased on the way. *)
Definition over_mode (old new : gostring) : gostring :=
  match new with [] => old | m => ToLower m end.

Definition Merge (c override : Config) : Config := {|
  c_TunName := over (c_TunName c) (c_TunName override);
  c_MTU := overZ (c_MTU c) (c_MTU override);
  c_StackMode := over_mode (c_StackMode c) (c_StackMode override);
  c_Proxy := over (c_Proxy c) (c_Proxy override);
  c_DNS := over (c_DNS c) (c_DNS override);
  c_UDPTimeout := overZ (c_UDPTimeout c) (c_UDPTimeout override);
  c_ExcludedProcesses := over (c_ExcludedProcesses c) (c_ExcludedProcesses override);
  c_ExcludeRefresh := overZ (c_ExcludeRefresh c) (c_ExcludeRefresh override);
  c_ExcludedIPs := over (c_ExcludedIPs c) (c_ExcludedIPs override);
  c_LogLevel := over (c_LogLevel c) (c_LogLevel override);
  c_LogDir := over (c_LogDir c) (c_LogDir override);
  c_AutoDefaultRoute := if c_AutoDefaultRoute override then true else c_AutoDefaultRoute c
|}.

Inductive ConfigError : Type :=
| ErrReadFile
| ErrYaml
| ErrProxyRequired
| ErrUnknownStackMode (v : gostring)
| ErrInvalidIP (s : gostring)
| ErrInvalidPrefix (s : gostring)
| ErrInvalidMTU (mtu : Z)
| ErrDNS (raw : gostring).

Definition parseStackMode (v : gostring) : result ConfigError gostring :=
  let m := ToLower (TrimSpace v) in
  if bool_decide (m = []) || bool_decide (m = StackModeGVisor) then Ok StackModeGVisor
  else if bool_decide (m = StackModeSimple) then Ok StackModeSimple
  else Err (ErrUnknownStackMode v).

Definition parseAddrPort (raw0 : gostring) : result ConfigError AddrPort :=
  let raw := if Contains raw0 ":" then raw0 else raw0 ++ ":53" in
  match ParseAddrPort raw with
  | None => Err (ErrDNS raw0)
  | Some ap => Ok ap
  end.

(** One entry of the list: [None] for a blank one. *)
Definition parsePrefixEntry (entry : gostring) : result ConfigError (option Prefix) :=
  let s := TrimSpace entry in
  if bool_decide (s = []) then Ok None
  else
    let? s' :=
      if Contains s "/" then Ok s
      else match ParseAddr s with
           | None => Err (ErrInvalidIP s)
           | Some ip => Ok (if Is4 ip then s ++ "/32" else s ++ "/128")
           end in
    match ParsePrefix s' with
    | None => Err (ErrInvalidPrefix s')
    | Some p => Ok (Some (Masked p))
    end.

Fixpoint parsePrefixList (raw : list gostring) : result ConfigError (list Prefix) :=
  match raw with
  | [] => Ok []
  | s :: raw' =>
      let? p := parsePrefixEntry s in
      let? out := parsePrefixList raw' in
      Ok (match p with None => out | Some p => p :: out end)
  end.

(** Byte-wise lexicographic order, Go's [<=] on strings. *)
Fixpoint str_leb (s t : gostring) : bool :=
  match s, t with
  | [], _ => true
  | _ :: _, [] => false
  | a :: s', b :: t' => if bval a =? bval b then str_leb s' t' else bval a <? bval b
  end.
Definition str_le (s t : gostring) : Prop := str_leb s t = true.

#[global] Instance str_le_dec : RelDecision str_le.
Proof. intros s t. unfold str_le. apply _. Defined.

(** The loop of [normalizeProcessList]: [seen] is the set of cleaned names
    already appended. *)
Fixpoint normalize_go (seen : gset gostring) (names : list gostring) : list gostring :=
  match names with
  | [] => []
  | name :: names' =>
      let cleaned := Normalize name in
      if bool_decide (cleaned = []) then normalize_go seen names'
      else if bool_decide (cleaned ∈ seen) then normalize_go seen names'
      else cleaned :: normalize_go ({[cleaned]} ∪ seen) names'
  end.

(** [slices.Sort] on strings; the sorted permutation is unique. *)
Definition normalizeProcessList (names : list gostring) : list gostring :=
  merge_sort str_le (normalize_go ∅ names).

Definition Finalize (c : Config) : result ConfigError Runtime :=
  let base := Merge Default c in
  if bool_decide (c_Proxy base = []) then Err ErrProxyRequired
  else
    let? mode := parseStackMode (c_StackMode base) in
    let? excludedPrefixes := parsePrefixList (c_ExcludedIPs base) in
    let udp := if c_UDPTimeout base =? 0 then minute else c_UDPTimeout base in
    let refresh := if c_ExcludeRefresh base =? 0 then 15 * second else c_ExcludeRefresh base in
    if c_MTU base <? 0 then Err (ErrInvalidMTU (c_MTU base))
    else
      let? dns :=
        if bool_decide (TrimSpace (c_DNS base) = []) then Ok (MustParseAddrPort "8.8.8.8:53")
        else parseAddrPort (c_DNS base) in
      Ok {|
        r_TunName := c_TunName base;
        r_MTU := c_MTU base;
        r_StackMode := mode;
        r_Proxy := c_Proxy base;
        r_DNS := dns;
        r_UDPTimeout := udp;
        r_ExcludedProcesses := normalizeProcessList (c_ExcludedProcesses base);
        r_ExcludeRefresh := refresh;
        r_ExcludedIPs := excludedPrefixes;
        r_LogLevel := c_LogLevel base;
        r_LogDir := c_LogDir base;
        r_AutoDefaultRoute := c_AutoDefaultRoute base
      |}.

(** *** The command line *)

(** What the flag parser reports: the path, and for every other flag its value
    when it was given ([fs.Changed]). *)
Record Flags : Type := mkFlags {
  f_config : gostring;
  f_tun : option gostring;
  f_mtu : option Z;
  f_stack : option gostring;
  f_proxy : option gostring;
  f_dns : option gostring;
  f_auto_route : option bool;
  f_udp_timeout : option Z;
  f_exclude : option (list gostring);
  f_exclude_refresh : option Z;
  f_exclude_ip : option (list gostring);
  f_log_level : option gostring;
  f_log_dir : option gostring
}.

Definition flag_overrides (f : Flags) : Config := {|
  c_TunName := default [] (f_tun f);
  c_MTU := default 0 (f_mtu f);
  c_StackMode := default [] (f_stack f);
  c_Proxy := default [] (f_proxy f);
  c_DNS := default [] (f_dns f);
  c_UDPTimeout := default 0 (f_udp_timeout f);
  c_ExcludedProcesses := default [] (f_exclude f);
  c_ExcludeRefresh := default 0 (f_exclude_refresh f);
  c_ExcludedIPs := default [] (f_exclude_ip f);
  c_LogLevel := default [] (f_log_level f);
  c_LogDir := default [] (f_log_dir f);
  c_AutoDefaultRoute := default false (f_auto_route f)
|}.

Section LoadConfig.
(** The file system and the YAML decoder. *)
Context (ReadFile : gostring → option gostring) (Unmarshal : gostring → option Config).

Definition LoadFile (path : gostring) : result ConfigError Config :=
  if bool_decide (TrimSpace path = []) then Ok zero_config
  else match ReadFile path with
       | None => Err ErrReadFile
       | Some data => match Unmarshal data with
                      | None => Err ErrYaml
                      | Some cfg => Ok cfg
                      end
       end.

Definition loadRuntimeConfig (f : Flags) : result ConfigError Runtime :=
  let? fileCfg := LoadFile (f_config f) in
  Finalize (Merge (Merge Default fileCfg) (flag_overrides f)).
End LoadConfig.

(** ** Lemmas *)

(** *** Layering *)

Lemma over_assoc {A} (a b c : list A) : over (over a b) c = over a (over b c).
Proof. by destruct c, b. Qed.

Lemma overZ_assoc a b c : overZ (overZ a b) c = overZ a (overZ b c).
Proof. unfold overZ. destruct (c =? 0) eqn:E; [done|]. by rewrite E. Qed.

Lemma over_idem {A} (a b : list A) : over (over a b) b = over a b.
Proof. by destruct b. Qed.

Lemma over_ne {A} (a b : list A) : a ≠ [] → over a b ≠ [].
Proof. by destruct b. Qed.

Lemma overZ_ne a b : a ≠ 0 → overZ a b ≠ 0.
Proof. unfold overZ. intros. case_bool; done. Qed.

Lemma over_self {A} (a b : list A) : over a (over a b) = over a b.
Proof. by destruct b, a. Qed.

Lemma overZ_self a b : overZ a (overZ a b) = overZ a b.
Proof. unfold overZ. repeat case_bool; congruence. Qed.

Lemma over_mode_assoc a b c : over_mode (over_mode a b) c = over_mode a (over_mode b c).
Proof.
  destruct c as [|x c]; [done|]. cbn [over_mode].
  destruct (ToLower (x :: c)) as [|y l] eqn:E.
  - by apply ToLower_nil in E.
  - cbn [over_mode]. by rewrite <- E, ToLower_idem.
Qed.

Lemma Merge_assoc_eq a b c : Merge (Merge a b) c = Merge a (Merge b c).
Proof.
  unfold Merge. cbn -[over overZ over_mode]. f_equal; try apply over_assoc; try apply overZ_assoc.
  - apply over_mode_assoc.
  - by destruct (c_AutoDefaultRoute c).
Qed.

Lemma Merge_zero_r c : Merge c zero_config = c.
Proof. by destruct c. Qed.

(** [Finalize] starts from the defaults itself, so a caller's own layer of
    defaults changes nothing. *)
Lemma Merge_Default_idem c : Merge Default (Merge Default c) = Merge Default c.
Proof.
  rewrite <- Merge_assoc_eq. f_equal.
Qed.

Lemma Finalize_Default c : Finalize (Merge Default c) = Finalize c.
Proof. unfold Finalize. by rewrite Merge_Default_idem. Qed.

(** *** Ordering of strings *)

#[global] Instance str_le_trans : Transitive str_le.
Proof.
  unfold str_le. intros s. induction s as [|a s IH]; intros [|b t] [|c u]; cbn [str_leb]; try done.
  repeat case_bool; try (lia || done). apply IH.
Qed.

#[global] Instance str_le_total : Total str_le.
Proof.
  unfold str_le. intros s. induction s as [|a s IH]; intros [|b t]; cbn [str_leb]; auto.
  rewrite (Z.eqb_sym (bval b)). case_bool; [apply IH|].
  destruct (bval a <? bval b) eqn:?; [by left|right]. b2p. apply Z.ltb_lt. lia.
Qed.

#[global] Instance str_le_antisymm : AntiSymm (=) str_le.
Proof.
  unfold str_le. intros s. induction s as [|a s IH]; intros [|b t]; cbn [str_leb]; try done.
  rewrite (Z.eqb_sym (bval b)). case_bool.
  - intros. f_equal; [by apply (inj bval)|by apply IH].
  - intros ?%Z.ltb_lt ?%Z.ltb_lt. lia.
Qed.

(** *** The process list *)

Lemma elem_of_normalize_go seen names x :
  x ∈ normalize_go seen names ↔ x ≠ [] ∧ x ∉ seen ∧ ∃ n, n ∈ names ∧ Normalize n = x.
Proof.
  revert seen. induction names as [|n names IH]; intros seen; cbn [normalize_go].
  - split; [by intros ?%elem_of_nil|]. intros (_ & _ & n & H & _). by apply elem_of_nil in H.
  - setoid_rewrite elem_of_cons. repeat case_bool.
    + rewrite IH. split; [naive_solver|]. intros (? & ? & m & [->|?] & ?); [congruence|eauto].
    + rewrite IH. split; [naive_solver|]. intros (? & ? & m & [->|?] & ?); [congruence|eauto].
    + rewrite elem_of_cons, IH, elem_of_union, elem_of_singleton.
      destruct (decide (x = Normalize n)) as [->|]; [naive_solver|].
      split; [naive_solver|]. intros (? & ? & m & [->|?] & ?); [congruence|].
      right. split; [done|]. split; [naive_solver|eauto].
Qed.

Lemma NoDup_normalize_go seen names : NoDup (normalize_go seen names).
Proof.
  revert seen. induction names as [|n names IH]; intros seen; cbn [normalize_go]; [constructor|].
  repeat case_bool; auto. constructor; [|auto].
  rewrite elem_of_normalize_go. set_solver.
Qed.

Lemma elem_of_normalizeProcessList names x :
  x ∈ normalizeProcessList names ↔ x ≠ [] ∧ ∃ n, n ∈ names ∧ Normalize n = x.
Proof.
  unfold normalizeProcessList. rewrite merge_sort_Permutation, elem_of_normalize_go. set_solver.
Qed.

Lemma NoDup_normalizeProcessList names : NoDup (normalizeProcessList names).
Proof. unfold normalizeProcessList. rewrite merge_sort_Permutation. apply NoDup_normalize_go. Qed.

Lemma StronglySorted_normalizeProcessList names : StronglySorted str_le (normalizeProcessList names).
Proof. apply StronglySorted_merge_sort; apply _. Qed.

(** *** Excluded prefixes *)

Lemma hexval_plain b : is_Some (hexval b) → plain b.
Proof.
  intros H. assert (in_range 48 57 (bval b) || in_range 97 102 (bval b) || in_range 65 70 (bval b) = true) as Hr.
  { revert H. unfold hexval. destruct (in_range 48 57 _), (in_range 97 102 _), (in_range 65 70 _);
      try done; by intros [? ?]. }
  assert (forallZ 256 (λ z, implb (in_range 48 57 z || in_range 97 102 z || in_range 65 70 z)
    ((z <? 128) && negb (IsSpace z))) = true) as Hc by (vm_compute; reflexivity).
  pose proof (forallZ_spec _ _ Hc (bval b) (bval_range b)) as Hb. cbn beta in Hb.
  rewrite Hr in Hb. cbn [implb] in Hb. clear Hr Hc. b2p. by split.
Qed.

Lemma addr_String_chars a b : hasZone a = false → IsValid a = true → b ∈ addr_String a →
  is_Some (hexval b) ∨ b = ":"%byte ∨ b = "."%byte.
Proof.
  destruct a as [|v|v z]; cbn [hasZone IsValid addr_String]; [done| |].
  - intros _ _ [H| ->]%string4_chars; [left; by apply isDigit_hexval|auto].
  - intros Hz _. b2p. subst z. unfold append6.
    rewrite elem_of_app. intros [H|H]; [|by apply elem_of_nil in H]. revert H. case_bool.
    + rewrite elem_of_app. intros [H|[H| ->]%string4_chars]; [|left; by apply isDigit_hexval|auto].
      repeat (apply elem_of_cons in H as [->|H]; [first [by (left; eexists)|by auto]|]). by apply elem_of_nil in H.
    + intros [H| ->]%string6_chars; auto.
Qed.

Lemma addr_String_plain a : hasZone a = false → IsValid a = true → Forall plain (addr_String a).
Proof.
  intros Hz Hv. apply Forall_forall. intros b Hb.
  destruct (addr_String_chars a b Hz Hv Hb) as [?|[->| ->]]; [by apply hexval_plain|done|done].
Qed.

Lemma addr_String_no_slash a : hasZone a = false → IsValid a = true → "/"%byte ∉ addr_String a.
Proof. intros Hz Hv H. by destruct (addr_String_chars a _ Hz Hv H) as [[? ?]|[?|?]]. Qed.

Lemma addr_String_ne a : wf_addr a → IsValid a = true → addr_String a ≠ [].
Proof. intros Hw Hv E. pose proof (ParseAddr_String a Hw Hv) as H. by rewrite E in H. Qed.

Lemma parsePrefixEntry_String p : wf_prefix p →
  parsePrefixEntry (prefix_String p) = Ok (Some (Masked p)).
Proof.
  intros Hp. pose proof Hp as (Ha & Hv & Hz & Hb). unfold parsePrefixEntry.
  pose proof (BitLen_le (p_ip p)) as HL.
  assert (prefix_String p = addr_String (p_ip p) ++ "/" ++ FormatUint (p_bits p)) as E.
  { unfold prefix_String, prefix_IsValid. rewrite (proj2 (Z.leb_le _ _)), Itoa_nonneg by lia. done. }
  assert (Forall plain (prefix_String p)) as Hpl.
  { rewrite E. apply Forall_app. split; [by apply addr_String_plain|].
    constructor; [done|]. destruct (FormatUint_spec (p_bits p)) as (_ & Hd & _); [lia|].
    eapply Forall_impl; [exact Hd|]. intros b Hb'. by apply hexval_plain, isDigit_hexval. }
  rewrite TrimSpace_plain by done.
  rewrite bool_decide_eq_false_2.
  2: { rewrite E. intros [H _]%app_nil. by eapply addr_String_ne. }
  change (str "/") with ["/"%byte]. rewrite Contains_byte, bool_decide_eq_true_2.
  2: { rewrite E. apply elem_of_app. right. left. }
  cbn [result_bind]. by rewrite ParsePrefix_String.
Qed.

Lemma Masked_full a : wf_addr a → hasZone a = false → IsValid a = true →
  Masked (mkPrefix a (BitLen a)) = mkPrefix a (BitLen a).
Proof.
  intros Hw Hz Hv. rewrite Masked_eq by (repeat split; try done; cbn; pose proof (BitLen_le a); lia).
  cbn [p_ip p_bits]. destruct a as [|v|v z]; cbn [BitLen wf_addr] in *; [done| |];
    rewrite land_mask, Z.sub_diag by lia; done.
Qed.

Lemma full_prefix_String a : IsValid a = true →
  prefix_String (mkPrefix a (BitLen a)) = addr_String a ++ (if Is4 a then "/32" else "/128").
Proof. by destruct a. Qed.

(** A bare address stands for the prefix that contains it alone. *)
Lemma parsePrefixEntry_addr a : wf_addr a → IsValid a = true → hasZone a = false →
  parsePrefixEntry (addr_String a) = Ok (Some (mkPrefix a (BitLen a))).
Proof.
  intros Hw Hv Hz. unfold parsePrefixEntry. rewrite TrimSpace_plain by by apply addr_String_plain.
  rewrite bool_decide_eq_false_2 by by apply addr_String_ne.
  change (str "/") with ["/"%byte].
  rewrite Contains_byte, bool_decide_eq_false_2 by by apply addr_String_no_slash.
  rewrite ParseAddr_String by done. cbn [result_bind].
  replace (if Is4 a then addr_String a ++ "/32" else addr_String a ++ "/128")
    with (prefix_String (mkPrefix a (BitLen a))) by (rewrite full_prefix_String by done; by destruct (Is4 a)).
  rewrite ParsePrefix_String.
  - by rewrite Masked_full.
  - repeat split; try done; cbn; pose proof (BitLen_le a); lia.
Qed.

Lemma parsePrefixEntry_wf s p : parsePrefixEntry s = Ok (Some p) → wf_prefix p ∧ Masked p = p.
Proof.
  unfold parsePrefixEntry. case_bool; [done|]. intros H. ok_inv H.
  destruct (ParsePrefix _) as [q|] eqn:Eq; [|done]. simplify_eq.
  apply ParsePrefix_wf in Eq. split; [by apply Masked_wf|by apply Masked_idem].
Qed.

(** The list parses entry by entry, blanks skipped. *)
Lemma parsePrefixList_ok raw out : parsePrefixList raw = Ok out ↔
  ∃ ps, Forall2 (λ s p, parsePrefixEntry s = Ok p) raw ps ∧ out = omap id ps.
Proof.
  revert out. induction raw as [|s raw IH]; intros out; cbn [parsePrefixList].
  - split; [intros; simplify_eq; by exists []|]. by intros (? & ->%Forall2_nil_inv_l & ->).
  - split.
    + intros H. ok_inv H. apply IH in E0 as (ps & Hps & ->). simplify_eq.
      exists (a :: ps). split; [by constructor|]. by destruct a.
    + intros (ps & (p & ps' & Hp & Hps & ->)%Forall2_cons_inv_l & ->).
      rewrite Hp. cbn [result_bind]. rewrite (proj2 (IH (omap id ps'))) by eauto. by destruct p.
Qed.

Lemma parsePrefixList_addrs ips :
  Forall (λ a, wf_addr a ∧ IsValid a = true ∧ hasZone a = false) ips →
  parsePrefixList (addr_String <$> ips) = Ok ((λ a, mkPrefix a (BitLen a)) <$> ips).
Proof.
  induction 1 as [|a ips (Hw & Hv & Hz) _ IH]; [done|]. rewrite !fmap_cons. cbn [parsePrefixList].
  rewrite parsePrefixEntry_addr by done. cbn [result_bind]. by rewrite IH.
Qed.

Lemma parsePrefixList_wf raw out : parsePrefixList raw = Ok out →
  Forall (λ p, wf_prefix p ∧ Masked p = p) out.
Proof.
  revert out. induction raw as [|s raw IH]; cbn [parsePrefixList]; intros out H; [by simplify_eq|].
  ok_inv H. simplify_eq. destruct a as [p|]; [|auto]. constructor; [|auto].
  by eapply parsePrefixEntry_wf.
Qed.

Lemma parsePrefixList_is_ok raw :
  is_ok (parsePrefixList raw) = forallb (λ s, is_ok (parsePrefixEntry s)) raw.
Proof.
  induction raw as [|s raw IH]; [done|]. cbn [parsePrefixList forallb].
  destruct (parsePrefixEntry s); [|done]. cbn [result_bind is_ok andb]. rewrite <- IH.
  by destruct (parsePrefixList raw).
Qed.

(** *** The resolver address *)

Lemma Contains_colon s : Contains s ":" = bool_decide (":"%byte ∈ s).
Proof. apply (Contains_byte s ":"%byte). Qed.

Lemma addrport_String_colon ap : ap_IsValid ap = true → ":"%byte ∈ addrport_String ap.
Proof.
  destruct ap as [[|v|v z] p]; [done| |]; intros _; unfold addrport_String; cbn [ap_ip ap_port].
  - apply elem_of_app. right. left.
  - rewrite !elem_of_app. do 2 right. left. right. left.
Qed.

Lemma string4_no_colon v : ":"%byte ∉ string4 v.
Proof. by intros [H|H]%string4_chars. Qed.

Lemma addr_kind_take i s c : addr_kind (take i s) = Some c → addr_kind s = Some c.
Proof.
  revert i. induction s as [|b s IH]; intros [|i]; cbn [take addr_kind]; try done.
  case_bool; [done|]. apply IH.
Qed.

Lemma addr_kind_elem s c : addr_kind s = Some c → c ∈ s.
Proof.
  induction s as [|b s IH]; cbn [addr_kind]; [done|].
  case_bool; intros H; [simplify_eq; left|right; auto].
Qed.

Lemma ipv6_body_open s zone : ipv6_body ("["%byte :: s) zone = None.
Proof.
  unfold ipv6_body. assert (HasPrefix ("["%byte :: s) "::" = false) as ->.
  { destruct (HasPrefix _ _) eqn:E; [|done]. apply HasPrefix_true in E as [t E]. done. }
  done.
Qed.

Lemma ParseAddr_open s : ParseAddr ("["%byte :: s) = None.
Proof.
  unfold ParseAddr. case_bool; [done|]. case_bool; [|done]. unfold parseIPv6.
  cbn [IndexByte]. rewrite bool_decide_eq_false_2 by done.
  destruct (IndexByte s _) as [i|]; cbn [fmap option_fmap option_map]; [case_bool; [done|]|];
    apply ipv6_body_open.
Qed.

Lemma ParseAddr_Is4_kind s a : ParseAddr s = Some a → Is4 a = true → addr_kind s = Some "."%byte.
Proof.
  unfold ParseAddr. case_bool; [done|]. case_bool; [|done]. intros Ha H4.
  unfold parseIPv6 in Ha. destruct (IndexByte _ _); [case_bool; [done|]|];
    apply ipv6_body_range in Ha as (v & -> & _); done.
Qed.

Lemma ParseAddr_Is6_kind s a : ParseAddr s = Some a → Is6 a = true → addr_kind s = Some ":"%byte.
Proof.
  unfold ParseAddr. case_bool.
  - unfold parseIPv4. destruct (parseIPv4Fields s); [|done]. cbn [mbind option_bind].
    intros ? ?. by simplify_eq.
  - by case_bool.
Qed.

(** A literal that is an IPv6 address is no address and port. *)
Lemma ParseAddrPort_bare6 s a : ParseAddr s = Some a → Is6 a = true → ParseAddrPort s = None.
Proof.
  intros Ha H6. pose proof (ParseAddr_Is6_kind s a Ha H6) as Hk. unfold ParseAddrPort, splitAddrPort.
  destruct (LastIndexByte s _) as [i|] eqn:Hi; [|done]. cbn [mbind option_bind].
  destruct (bool_decide (take i s = []) || _); [done|]. case_bool.
  - destruct s as [|b s]; [done|]. destruct i; [done|]. cbn [take head] in *. simplify_eq.
    by rewrite ParseAddr_open in Ha.
  - cbn [mbind option_bind]. destruct (ParseUint _ _); [|done]. cbn [mbind option_bind].
    destruct (ParseAddr (take i s)) as [b|] eqn:Hb; [|done]. cbn [mbind option_bind negb andb].
    destruct (Is6 b) eqn:Hb6; [done|]. exfalso.
    assert (Is4 b = true) as H4 by (apply ParseAddr_wf in Hb as [_ ?]; by destruct b).
    pose proof (ParseAddr_Is4_kind _ _ Hb H4) as E. apply addr_kind_take in E. congruence.
Qed.

(** *** Validation *)

(** What the rest of the program relies on in a validated configuration. *)
Record runtime_wf (r : Runtime) : Prop := {
  rw_tun : r_TunName r ≠ [];
  rw_mtu : 0 < r_MTU r;
  rw_mode : r_StackMode r = StackModeGVisor ∨ r_StackMode r = StackModeSimple;
  rw_proxy : r_Proxy r ≠ [];
  rw_dns : wf_addrport (r_DNS r) ∧ ap_IsValid (r_DNS r) = true;
  rw_timeouts : r_UDPTimeout r ≠ 0 ∧ r_ExcludeRefresh r ≠ 0;
  rw_procs : StronglySorted str_le (r_ExcludedProcesses r) ∧ NoDup (r_ExcludedProcesses r)
             ∧ [] ∉ r_ExcludedProcesses r;
  rw_ips : Forall (λ p, wf_prefix p ∧ Masked p = p) (r_ExcludedIPs r);
  rw_log : r_LogLevel r ≠ [] ∧ r_LogDir r ≠ []
}.

(** What a configuration must have for [Finalize] to accept it. *)
Definition dns_ok (s : gostring) : Prop := TrimSpace s = [] ∨ is_ok (parseAddrPort s) = true.
Definition config_ok (c : Config) : Prop :=
  c_Proxy c ≠ [] ∧
  ToLower (TrimSpace (c_StackMode c)) ∈ [[]; StackModeGVisor; StackModeSimple] ∧
  Forall (λ s, is_ok (parsePrefixEntry s) = true) (c_ExcludedIPs c) ∧
  0 ≤ c_MTU c ∧ dns_ok (c_DNS c).

Lemma parseStackMode_ok v m : parseStackMode v = Ok m → m = StackModeGVisor ∨ m = StackModeSimple.
Proof. unfold parseStackMode. repeat case_bool; intros; simplify_eq; auto. Qed.

Lemma parseStackMode_is_ok v : is_ok (parseStackMode v) = true ↔
  ToLower (TrimSpace v) ∈ [[]; StackModeGVisor; StackModeSimple].
Proof.
  unfold parseStackMode. rewrite !elem_of_cons, elem_of_nil.
  repeat case_bool; cbn [is_ok]; intuition congruence.
Qed.

Lemma parseAddrPort_wf s ap : parseAddrPort s = Ok ap → wf_addrport ap ∧ ap_IsValid ap = true.
Proof.
  unfold parseAddrPort. destruct (ParseAddrPort _) eqn:E; [|done].
  intros ?; simplify_eq. by eapply ParseAddrPort_wf.
Qed.

Lemma default_dns_wf : wf_addrport (MustParseAddrPort "8.8.8.8:53") ∧
  ap_IsValid (MustParseAddrPort "8.8.8.8:53") = true.
Proof. by vm_compute. Qed.

Lemma Finalize_unfold c r : Finalize c = Ok r →
  let base := Merge Default c in
  c_Proxy base ≠ [] ∧ 0 ≤ c_MTU base ∧
  parseStackMode (c_StackMode base) = Ok (r_StackMode r) ∧
  parsePrefixList (c_ExcludedIPs base) = Ok (r_ExcludedIPs r) ∧
  (if bool_decide (TrimSpace (c_DNS base) = []) then Ok (MustParseAddrPort "8.8.8.8:53")
   else parseAddrPort (c_DNS base)) = Ok (r_DNS r) ∧
  r = mkRuntime (c_TunName base) (c_MTU base) (r_StackMode r) (c_Proxy base) (r_DNS r)
        (c_UDPTimeout base) (normalizeProcessList (c_ExcludedProcesses base))
        (c_ExcludeRefresh base) (r_ExcludedIPs r) (c_LogLevel base) (c_LogDir base)
        (c_AutoDefaultRoute base).
Proof.
  intros H base. unfold Finalize in H. fold base in H.
  assert (c_UDPTimeout base ≠ 0 ∧ c_ExcludeRefresh base ≠ 0) as [HU HR]
    by (split; apply overZ_ne; by vm_compute).
  rewrite !(proj2 (Z.eqb_neq _ _)) in H by done.
  destruct (bool_decide (c_Proxy base = [])) eqn:EP; [done|]. ok_inv H.
  destruct (c_MTU base <? 0) eqn:EM; [done|]. ok_inv H. b2p. by simplify_eq.
Qed.

(** A configuration whose [StackMode], [DNS] and the rest were left out is
    merged with defaults that pass every check. *)
Lemma config_ok_Default c : config_ok (Merge Default c) ↔ config_ok c.
Proof.
  unfold config_ok, Merge. cbn [c_Proxy c_StackMode c_ExcludedIPs c_MTU c_DNS Default].
  assert (∀ l : gostring, over [] l = l) as -> by by intros [].
  assert (over [] (c_ExcludedIPs c) = c_ExcludedIPs c) as -> by by destruct (c_ExcludedIPs c).
  assert (over [] (c_DNS c) = c_DNS c) as -> by by destruct (c_DNS c).
  assert (ToLower (TrimSpace (over_mode StackModeGVisor (c_StackMode c)))
            ∈ [[]; StackModeGVisor; StackModeSimple]
          ↔ ToLower (TrimSpace (c_StackMode c)) ∈ [[]; StackModeGVisor; StackModeSimple]) as ->.
  { destruct (c_StackMode c) as [|b l] eqn:E.
    - cbn [over_mode]. split; intros _; rewrite !elem_of_cons; [left|right; left]; by vm_compute.
    - cbn [over_mode]. by rewrite ToLower_TrimSpace, ToLower_idem, <- ToLower_TrimSpace. }
  assert (0 ≤ overZ 1500 (c_MTU c) ↔ 0 ≤ c_MTU c) as -> by (unfold overZ; case_bool; lia).
  done.
Qed.

(** Everything [Finalize] accepts is well formed. *)
Lemma Finalize_wf c r : Finalize c = Ok r → runtime_wf r.
Proof.
  intros H.
  destruct (Finalize_unfold c r H) as (Hp & Hm & Hs & Hi & Hd & ->).
  set (base := Merge Default c) in *.
  split; cbn [r_TunName r_MTU r_StackMode r_Proxy r_DNS r_UDPTimeout r_ExcludedProcesses
              r_ExcludeRefresh r_ExcludedIPs r_LogLevel r_LogDir].
  - by apply over_ne.
  - assert (c_MTU base ≠ 0) by by apply overZ_ne. lia.
  - by eapply parseStackMode_ok.
  - done.
  - case_bool; [|by eapply parseAddrPort_wf]. injection Hd as <-. apply default_dns_wf.
  - split; apply overZ_ne; by vm_compute.
  - split_and!; [apply StronglySorted_normalizeProcessList|apply NoDup_normalizeProcessList|].
    rewrite elem_of_normalizeProcessList. naive_solver.
  - by eapply parsePrefixList_wf.
  - split; by apply over_ne.
Qed.

(** Lower-casing a mode on the way and filling in the default change nothing. *)
Lemma layered_mode file cli m :
  parseStackMode (over_mode (over_mode StackModeGVisor file) cli) = Ok m → parseStackMode (over file cli) = Ok m.
Proof.
  assert (∀ a, parseStackMode (ToLower a) = Ok m → parseStackMode a = Ok m) as Hlow.
  { intros a. unfold parseStackMode. rewrite <- ToLower_TrimSpace, ToLower_idem, ToLower_TrimSpace.
    destruct (_ || _); [done|]. by destruct (bool_decide _). }
  assert (parseStackMode StackModeGVisor = parseStackMode []) as Hdef by (vm_compute; reflexivity).
  destruct cli as [|b cli]; cbn [over over_mode]; [|apply Hlow].
  destruct file as [|b file]; cbn [over over_mode]; [by rewrite Hdef|apply Hlow].
Qed.

Lemma layered_dns (d : gostring) r :
  (if bool_decide (TrimSpace d = []) then Ok (MustParseAddrPort "8.8.8.8:53") else parseAddrPort d) = Ok r →
  if bool_decide (TrimSpace d = []) then ParseAddrPort "8.8.8.8:53" = Some r else parseAddrPort d = Ok r.
Proof. destruct (bool_decide _); [|done]. intros [= <-]. vm_compute. reflexivity. Qed.

(** *** Theorems *)

Section Theorems.
Context (ReadFile : gostring → option gostring) (Unmarshal : gostring → option Config).

(** C9: whatever the file and the flags say, a configuration the program starts
    with is well formed: a positive MTU, one of the two stack modes, a proxy, a
    valid resolver, non-zero timeouts, the excluded processes sorted, without
    duplicates and non-empty, and the excluded prefixes valid and masked. *)
Theorem loadRuntimeConfig_wf f r :
  loadRuntimeConfig ReadFile Unmarshal f = Ok r → runtime_wf r.
Proof. unfold loadRuntimeConfig. intros H. ok_inv H. by eapply Finalize_wf. Qed.

(** C28: the value of every field the program starts with is the command line's
    when that is non-zero, else the file's, else the default: strings,
    numbers and lists are layered as a whole, lists are not concatenated.  The
    stack mode, the resolver and the excluded prefixes are what the layered text
    parses to; a blank resolver is 8.8.8.8:53. *)
Theorem loadRuntimeConfig_layers f file r :
  LoadFile ReadFile Unmarshal (f_config f) = Ok file →
  loadRuntimeConfig ReadFile Unmarshal f = Ok r →
  let cli := flag_overrides f in
  r_TunName r = over (over "nano0" (c_TunName file)) (c_TunName cli) ∧
  r_MTU r = overZ (overZ 1500 (c_MTU file)) (c_MTU cli) ∧
  parseStackMode (over (c_StackMode file) (c_StackMode cli)) = Ok (r_StackMode r) ∧
  (let dns := over (c_DNS file) (c_DNS cli) in
   if bool_decide (TrimSpace dns = []) then ParseAddrPort "8.8.8.8:53" = Some (r_DNS r)
   else parseAddrPort dns = Ok (r_DNS r)) ∧
  r_Proxy r = over (c_Proxy file) (c_Proxy cli) ∧
  r_UDPTimeout r = overZ (overZ (60 * second) (c_UDPTimeout file)) (c_UDPTimeout cli) ∧
  r_ExcludeRefresh r = overZ (overZ (15 * second) (c_ExcludeRefresh file)) (c_ExcludeRefresh cli) ∧
  r_ExcludedProcesses r
    = normalizeProcessList (over (c_ExcludedProcesses file) (c_ExcludedProcesses cli)) ∧
  parsePrefixList (over (c_ExcludedIPs file) (c_ExcludedIPs cli)) = Ok (r_ExcludedIPs r) ∧
  r_LogLevel r = over (over "info" (c_LogLevel file)) (c_LogLevel cli) ∧
  r_LogDir r = over (over "logs" (c_LogDir file)) (c_LogDir cli) ∧
  r_AutoDefaultRoute r = c_AutoDefaultRoute cli || c_AutoDefaultRoute file.
Proof.
  intros Hf H cli. unfold loadRuntimeConfig in H. rewrite Hf in H. cbn [result_bind] in H.
  rewrite Merge_assoc_eq, Finalize_Default in H. fold cli in H.
  destruct (Finalize_unfold _ _ H) as (_ & _ & Hm & Hi & Hd%layered_dns & E).
  rewrite <- Merge_assoc_eq in *. apply layered_mode in Hm.
  assert (∀ {A} (l : list A), over [] l = l) as Hover by by intros A [].
  change (c_DNS (Merge (Merge Default file) cli)) with (over (over [] (c_DNS file)) (c_DNS cli)) in Hd.
  change (c_ExcludedIPs (Merge (Merge Default file) cli)) with (over (over [] (c_ExcludedIPs file)) (c_ExcludedIPs cli)) in Hi.
  rewrite Hover in Hd, Hi. rewrite E.
  cbn [r_TunName r_MTU r_StackMode r_Proxy r_DNS r_UDPTimeout r_ExcludedProcesses r_ExcludeRefresh r_ExcludedIPs
    r_LogLevel r_LogDir r_AutoDefaultRoute].
  split_and!; try done.
  - by unfold Merge, Default; cbn [c_Proxy]; rewrite Hover.
  - by unfold Merge, Default; cbn [c_ExcludedProcesses]; rewrite Hover.
  - unfold Merge, Default. cbn [c_AutoDefaultRoute]. by destruct (c_AutoDefaultRoute cli), (c_AutoDefaultRoute file).
Qed.
End Theorems.

(** C20: exactly the configurations with a proxy, a known stack mode, parsable
    exclusions, a non-negative MTU and a blank or parsable resolver are
    accepted, and [Finalize] is total: the others get an error. *)
Theorem Finalize_accepts c : is_ok (Finalize c) = true ↔ config_ok c.
Proof.
  rewrite <- config_ok_Default. unfold Finalize, config_ok, dns_ok. set (base := Merge Default c).
  rewrite <- parseStackMode_is_ok, Forall_forall.
  assert ((∀ s, s ∈ c_ExcludedIPs base → is_ok (parsePrefixEntry s) = true)
          ↔ is_ok (parsePrefixList (c_ExcludedIPs base)) = true) as ->.
  { rewrite parsePrefixList_is_ok, forallb_forall. by setoid_rewrite list_elem_of_In. }
  destruct (bool_decide (c_Proxy base = [])) eqn:EP; b2p; [cbn; naive_solver|].
  destruct (parseStackMode _); cbn [result_bind is_ok]; [|naive_solver].
  destruct (parsePrefixList _); cbn [result_bind is_ok]; [|naive_solver].
  case_bool; [cbn [is_ok]; split; [done|]; intros (_ & _ & _ & ? & _); lia|].
  case_bool; cbn [result_bind is_ok]; [naive_solver|].
  destruct (parseAddrPort _); cbn [result_bind is_ok]; naive_solver.
Qed.

(** C31: the excluded-process list holds exactly the non-empty normalised names
    of its entries, each once, in increasing byte order; so it is canonical: two
    lists that normalise to the same set give the same list. *)
Theorem normalizeProcessList_canonical names :
  (∀ x, x ∈ normalizeProcessList names ↔ x ≠ [] ∧ ∃ name, name ∈ names ∧ Normalize name = x) ∧
  NoDup (normalizeProcessList names) ∧ StronglySorted str_le (normalizeProcessList names) ∧
  (∀ names', (∀ x, x ≠ [] → x ∈ Normalize <$> names ↔ x ∈ Normalize <$> names') ↔
     normalizeProcessList names = normalizeProcessList names').
Proof.
  split_and!; [apply elem_of_normalizeProcessList|apply NoDup_normalizeProcessList|apply StronglySorted_normalizeProcessList|].
  intros names'. assert (∀ l x, x ∈ normalizeProcessList l ↔ x ≠ [] ∧ x ∈ Normalize <$> l) as Hin.
  { intros l x. rewrite elem_of_normalizeProcessList, list_elem_of_fmap. naive_solver. }
  split; intros H.
  - apply (StronglySorted_unique str_le); try apply StronglySorted_normalizeProcessList.
    apply NoDup_Permutation; try apply NoDup_normalizeProcessList.
    intros x. rewrite !Hin. split; intros [? ?]; (split; [done|]); by apply H.
  - intros x Hx. split; intros Hx'; [apply (Hin names')|apply (Hin names)];
      [rewrite <- H|rewrite H]; by apply Hin.
Qed.

(** C29: printed prefixes and printed addresses parse back, an address as the
    prefix that contains it alone, and blank entries are skipped. *)
Theorem parsePrefixList_roundtrip (ps : list Prefix) (ips : list Addr) (blanks : list gostring) :
  Forall (λ p, wf_prefix p ∧ Masked p = p) ps →
  Forall (λ a, wf_addr a ∧ IsValid a = true ∧ hasZone a = false) ips →
  Forall (λ s, TrimSpace s = []) blanks →
  parsePrefixList ((prefix_String <$> ps) ++ blanks ++ (addr_String <$> ips))
  = Ok (ps ++ ((λ a, mkPrefix a (BitLen a)) <$> ips)).
Proof.
  intros Hps Hips Hbl. apply parsePrefixList_ok.
  exists ((Some <$> ps) ++ (replicate (length blanks) None) ++ ((λ a, Some (mkPrefix a (BitLen a))) <$> ips)).
  split.
  - repeat apply Forall2_app.
    + induction Hps as [|p ps [Hp Hm] _ IH]; constructor; [|done].
      by rewrite parsePrefixEntry_String, Hm.
    + induction Hbl as [|s l Hs _ IH]; constructor; [|done].
      unfold parsePrefixEntry. by rewrite Hs.
    + induction Hips as [|a l (Hw & Hv & Hz) _ IH]; constructor; [|done].
      by apply parsePrefixEntry_addr.
  - rewrite !omap_app. clear. f_equal; [by induction ps as [|p ps IH]; [|cbn; f_equal]|].
    assert (∀ n, omap id (replicate n (@None Prefix)) = []) as -> by (induction n as [|n IH]; [done|exact IH]).
    by induction ips as [|a l IH]; [|cbn; f_equal].
Qed.

Lemma parsePrefixList_roundtrip_witness :
  parsePrefixList [str "10.8.0.0/16"; str "  "; str "1.1.1.1"; str "2001:db8::1"]
  = Ok [mkPrefix (Addr4 (10 * 2 ^ 24 + 8 * 2 ^ 16)) 16; mkPrefix (Addr4 16843009) 32;
        mkPrefix (Addr6 (0x20010db8 * 2 ^ 96 + 1) []) 128].
Proof.
  refine (parsePrefixList_roundtrip [mkPrefix (Addr4 (10 * 2 ^ 24 + 8 * 2 ^ 16)) 16]
    [Addr4 16843009; Addr6 (0x20010db8 * 2 ^ 96 + 1) []] [str "  "] _ _ _);
    repeat constructor; by vm_compute.
Defined.

(** C30: a resolver is read back from its printed form, an IPv4 resolver without
    a port gets port 53, and an IPv6 resolver without a port (and so without
    brackets) is always rejected. *)
Theorem parseAddrPort_forms :
  (∀ ap, wf_addrport ap → ap_IsValid ap = true → parseAddrPort (addrport_String ap) = Ok ap) ∧
  (∀ v, 0 ≤ v < 2 ^ 32 → parseAddrPort (string4 v) = Ok (mkAddrPort (Addr4 v) 53)) ∧
  (∀ s a, ParseAddr s = Some a → Is6 a = true → parseAddrPort s = Err (ErrDNS s)).
Proof.
  unfold parseAddrPort. split_and!.
  - intros ap Hw Hv. rewrite Contains_colon, bool_decide_eq_true_2 by by apply addrport_String_colon.
    by rewrite ParseAddrPort_String.
  - intros v Hv. rewrite Contains_colon, bool_decide_eq_false_2 by apply string4_no_colon.
    change (string4 v ++ str ":53") with (addrport_String (mkAddrPort (Addr4 v) 53)).
    by rewrite ParseAddrPort_String.
  - intros s a Ha H6. rewrite Contains_colon, bool_decide_eq_true_2.
    + by rewrite (ParseAddrPort_bare6 s a).
    + by eapply addr_kind_elem, ParseAddr_Is6_kind.
Qed.

Lemma parseAddrPort_forms_witness :
  parseAddrPort "[::1]:5353" = Ok (mkAddrPort (Addr6 1 []) 5353) ∧
  parseAddrPort "1.1.1.1" = Ok (mkAddrPort (Addr4 16843009) 53) ∧
  parseAddrPort "2606:4700::1111" = Err (ErrDNS "2606:4700::1111").
Proof.
  destruct parseAddrPort_forms as (H1 & H2 & H3). split_and!.
  - refine (H1 (mkAddrPort (Addr6 1 []) 5353) _ _); by vm_compute.
  - refine (H2 16843009 _); by vm_compute.
  - refine (H3 _ (Addr6 (0x26064700 * 2 ^ 96 + 0x1111) []) _ _); by vm_compute.
Defined.

(** A boolean or zero-valued flag cannot take back what the file set: with
    [autoDefaultRoute: true] in the file, [--auto-route=false] is accepted and
    has no effect, and a zero [--mtu] or [--udp-timeout] is ignored. *)
Theorem flags_cannot_reset ReadFile Unmarshal f file :
  LoadFile ReadFile Unmarshal (f_config f) = Ok file → c_AutoDefaultRoute file = true →
  loadRuntimeConfig ReadFile Unmarshal f
  = loadRuntimeConfig ReadFile Unmarshal
      (mkFlags (f_config f) (f_tun f) (if bool_decide (f_mtu f = Some 0) then None else f_mtu f)
         (f_stack f) (f_proxy f) (f_dns f) (Some true)
         (if bool_decide (f_udp_timeout f = Some 0) then None else f_udp_timeout f)
         (f_exclude f) (f_exclude_refresh f) (f_exclude_ip f) (f_log_level f) (f_log_dir f)).
Proof.
  intros Hf Ha. unfold loadRuntimeConfig. cbn [f_config]. rewrite Hf. cbn [result_bind]. f_equal.
  unfold flag_overrides. cbn [f_tun f_mtu f_stack f_proxy f_dns f_auto_route f_udp_timeout f_exclude
    f_exclude_refresh f_exclude_ip f_log_level f_log_dir default].
  replace (default 0 (if bool_decide (f_mtu f = Some 0) then None else f_mtu f)) with (default 0 (f_mtu f))
    by (case_bool; [by rewrite Heqb|done]).
  replace (default 0 (if bool_decide (f_udp_timeout f = Some 0) then None else f_udp_timeout f))
    with (default 0 (f_udp_timeout f)) by (case_bool; [by rewrite Heqb|done]).
  unfold Merge at 1 3. f_equal. cbn [c_AutoDefaultRoute Merge]. rewrite Ha. by destruct (default _ _).
Qed.

(** A run with a YAML file and flags, for the witnesses below. *)
Definition ex_file : Config :=
  mkConfig [] 9000 "Simple" "socks5://10.0.0.1:1080" "1.1.1.1" 0 [str "Foo.exe"; str "bar"; str " foo "] 0
    [str "10.8.0.0/16"] [] [] true.
Definition ex_read (p : gostring) : option gostring :=
  if bool_decide (p = "a.yaml") then Some (str "yaml") else None.
Definition ex_yaml (d : gostring) : option Config :=
  if bool_decide (d = "yaml") then Some ex_file else None.
Definition ex_flags : Flags :=
  mkFlags "a.yaml" (Some (str "tun7")) (Some 0) None None None (Some false) (Some 0) None None None None None.
Definition ex_runtime : Runtime :=
  mkRuntime "tun7" 9000 "simple" "socks5://10.0.0.1:1080" (mkAddrPort (Addr4 16843009) 53) minute
    [str "bar"; str "foo"] (15 * second) [mkPrefix (Addr4 (10 * 2 ^ 24 + 8 * 2 ^ 16)) 16] "info" "logs" true.

Lemma ex_runs : LoadFile ex_read ex_yaml (f_config ex_flags) = Ok ex_file ∧
  loadRuntimeConfig ex_read ex_yaml ex_flags = Ok ex_runtime.
Proof. by vm_compute. Qed.

Lemma loadRuntimeConfig_wf_witness : runtime_wf ex_runtime.
Proof. exact (loadRuntimeConfig_wf ex_read ex_yaml ex_flags ex_runtime (proj2 ex_runs)). Defined.

Lemma loadRuntimeConfig_layers_witness :
  r_TunName ex_runtime = "tun7" ∧ r_MTU ex_runtime = 9000 ∧ r_AutoDefaultRoute ex_runtime = true.
Proof.
  destruct (loadRuntimeConfig_layers ex_read ex_yaml ex_flags ex_file ex_runtime (proj1 ex_runs)
    (proj2 ex_runs)) as (H1 & H2 & _ & _ & _ & _ & _ & _ & _ & _ & _ & H3). exact (conj H1 (conj H2 H3)).
Defined.

Lemma flags_cannot_reset_witness :
  loadRuntimeConfig ex_read ex_yaml ex_flags
  = loadRuntimeConfig ex_read ex_yaml
      (mkFlags "a.yaml" (Some (str "tun7")) None None None None (Some true) None None None None None None).
Proof. exact (flags_cannot_reset ex_read ex_yaml ex_flags ex_file (proj1 ex_runs) eq_refl). Defined.
