(* ===== verification/Metadata.v ===== *)
(** * Flow metadata (the tun2socks package [metadata])

    The packet stack describes a flow by a [metadata.Metadata] of the tun2socks
    library.  The program reads three things of it: the network, the source
    address and port, and the destination address.  The library is not part of
    this repository, so it enters as an interface: a class of accessors, and a
    class of the laws the process matcher relies on. *)

From S2P Require Import Prelude GoStrings Netip.

Class MetadataOps : Type := {
  Metadata : Type;
  Network : Type;
  TCP : Network;
  UDP : Network;
  network_String : Network → gostring;
  md_Network : Metadata → Network;
  md_SourceAddrPort : Metadata → AddrPort;
  md_DstIP : Metadata → Addr
}.

(** Networks print differently and without a colon, and the addresses of a flow
    are well formed. *)
Class MetadataLaws (M : MetadataOps) : Prop := {
  network_String_inj : Inj (=) (=) network_String;
  network_String_colon n : ":"%byte ∉ network_String n;
  md_source_wf md : wf_addrport (md_SourceAddrPort md);
  md_dst_wf md : wf_addr (md_DstIP md)
}.
#[export] Existing Instance network_String_inj.

(** A concrete instance for evaluation: a flow is a network, a source and a
    destination, kept in range. *)
Module Flow.
Record flow : Type := mkFlow {
  fl_udp : bool;
  fl_src : Z;
  fl_port : Z;
  fl_dst : Addr
}.
Definition clamp (a : Addr) : Addr :=
  match a with
  | AddrZero => AddrZero
  | Addr4 v => Addr4 (v `mod` 2 ^ 32)
  | Addr6 v z => Addr6 (v `mod` 2 ^ 128) z
  end.

#[export] Instance flow_ops : MetadataOps := {|
  Metadata := flow;
  Network := bool;
  TCP := false;
  UDP := true;
  network_String u := if u then str "udp" else str "tcp";
  md_Network := fl_udp;
  md_SourceAddrPort f := mkAddrPort (Addr4 (uint32 (fl_src f))) (uint16 (fl_port f));
  md_DstIP f := clamp (fl_dst f)
|}.

#[export] Instance flow_laws : MetadataLaws flow_ops.
Proof.
  split.
  - by intros [] [].
  - intros [] H; repeat (apply elem_of_cons in H as [H|H]; [done|]); by apply elem_of_nil in H.
  - intros f. split; [|apply uint16_range]. cbn. unfold uint32. apply Z.mod_pos_bound. lia.
  - intros f. cbn. destruct (fl_dst f); cbn; [done| |]; apply Z.mod_pos_bound; lia.
Qed.
End Flow.
