(* ===== verification/ProxyChain.v ===== *)
(** * The proxy chain (internal/proxychain/chain.go)

    [Chain] decides, flow by flow, whether a connection is dialled directly or
    through the upstream proxy.  The two proxies, the process matcher and the
    logger are interfaces: they enter as state-passing functions over an
    arbitrary world [W], and every theorem holds for all of them. *)

From S2P Require Import Prelude GoStrings Netip Netaddr Procname Config Metadata.

Section Chain.
Context {MD : MetadataOps} {W Ctx Conn PacketConn Error : Type}.

(** ** Definitions *)

(** [proxy.Proxy] of tun2socks. *)
Record Proxy : Type := mkProxy {
  p_DialContext : Ctx → Metadata → st W (result Error Conn);
  p_DialUDP : Metadata → st W (result Error PacketConn)
}.

(** A logger: what [Debug] does with a message about a flow. *)
Record Logger : Type := mkLogger { Debug : gostring → Metadata → st W () }.

(** An interface value is [None] when it is the nil interface. *)
Record Options : Type := mkOptions {
  o_Matcher : option (Metadata → st W bool);
  o_ExcludedPrefixes : list Prefix;
  o_Logger : option Logger
}.

(** [ch_logger] is the logger of [opts] once [New] has filled it in. *)
Record Chain : Type := mkChain {
  ch_upstream : Proxy;
  ch_direct : Proxy;
  ch_Matcher : option (Metadata → st W bool);
  ch_ExcludedPrefixes : list Prefix;
  ch_logger : Logger
}.

(** What the constructor takes from outside: [slog.Default] and
    [proxy.NewDirect]. *)
Context (slog_Default : Logger) (NewDirect : Proxy).

Definition New (upstream : Proxy) (opts : Options) : Chain :=
  mkChain upstream NewDirect (o_Matcher opts) (o_ExcludedPrefixes opts)
    (default slog_Default (o_Logger opts)).

Definition isDirect (c : Chain) (md : Metadata) : bool :=
  let dst := Unmap (md_DstIP md) in
  if negb (IsValid dst) then false
  else if IsReserved dst then true
  else existsb (λ p, Contains_addr p dst) (ch_ExcludedPrefixes c).

Definition shouldBypassProcess (c : Chain) (md : Metadata) : st W bool :=
  match ch_Matcher c with
  | None => st_ret false
  | Some ShouldSkip => ShouldSkip md
  end.

Definition DialContext (c : Chain) (ctx : Ctx) (md : Metadata) : st W (result Error Conn) :=
  let! skip := shouldBypassProcess c md in
  if skip then
    let! _ := Debug (ch_logger c) "chain: direct (excluded process)" md in
    p_DialContext (ch_direct c) ctx md
  else if isDirect c md then
    let! _ := Debug (ch_logger c) "chain: direct (reserved/excluded IP)" md in
    p_DialContext (ch_direct c) ctx md
  else p_DialContext (ch_upstream c) ctx md.

Definition DialUDP (c : Chain) (md : Metadata) : st W (result Error PacketConn) :=
  let! skip := shouldBypassProcess c md in
  if skip then
    let! _ := Debug (ch_logger c) "chain: direct (excluded process)" md in
    p_DialUDP (ch_direct c) md
  else if isDirect c md then
    let! _ := Debug (ch_logger c) "chain: direct (reserved/excluded IP)" md in
    p_DialUDP (ch_direct c) md
  else p_DialUDP (ch_upstream c) md.

(** ** Lemmas *)

Lemma isDirect_true c md : isDirect c md = true ↔
  IsReserved (md_DstIP md) = true ∨
  ∃ p, p ∈ ch_ExcludedPrefixes c ∧ Contains_addr p (Unmap (md_DstIP md)) = true.
Proof.
  unfold isDirect. rewrite Unmap_IsValid, Unmap_reserved.
  destruct (IsValid (md_DstIP md)) eqn:Hv; cbn [negb].
  - destruct (IsReserved (md_DstIP md)) eqn:Hr; [naive_solver|].
    rewrite existsb_exists. setoid_rewrite <- list_elem_of_In. naive_solver.
  - destruct (md_DstIP md); [|done|done]. cbn [Unmap]. split; [done|].
    intros [H|(p & _ & H)]; [done|]. unfold Contains_addr in H.
    case_match; [done|]. by destruct (p_ip p).
Qed.

(** The chain dialled around another upstream proxy. *)
Definition with_upstream (c : Chain) (u : Proxy) : Chain :=
  mkChain u (ch_direct c) (ch_Matcher c) (ch_ExcludedPrefixes c) (ch_logger c).
Definition with_direct (c : Chain) (d : Proxy) : Chain :=
  mkChain (ch_upstream c) d (ch_Matcher c) (ch_ExcludedPrefixes c) (ch_logger c).

(** Every decision of the chain in one place: the flow is dialled by one of the
    two proxies, after what the matcher and the logger did to the world. *)
Definition goes_direct (c : Chain) (md : Metadata) (w : W) : bool :=
  (shouldBypassProcess c md w).1 || isDirect c md.

Lemma dial_upstream_irrelevant c u ctx md w : goes_direct c md w = true →
  DialContext (with_upstream c u) ctx md w = DialContext c ctx md w ∧
  DialUDP (with_upstream c u) md w = DialUDP c md w.
Proof.
  unfold goes_direct, DialContext, DialUDP, st_bind.
  change (shouldBypassProcess (with_upstream c u) md) with (shouldBypassProcess c md).
  change (isDirect (with_upstream c u) md) with (isDirect c md).
  destruct (shouldBypassProcess c md w) as [[] w1]; [done|]. cbn [fst orb]. by intros ->.
Qed.

Lemma dial_upstream c ctx md w : goes_direct c md w = false →
  DialContext c ctx md w = p_DialContext (ch_upstream c) ctx md (shouldBypassProcess c md w).2 ∧
  DialUDP c md w = p_DialUDP (ch_upstream c) md (shouldBypassProcess c md w).2.
Proof.
  unfold goes_direct, DialContext, DialUDP, st_bind.
  destruct (shouldBypassProcess c md w) as [[] w1]; [done|]. cbn [fst snd orb]. by intros ->.
Qed.
End Chain.
Arguments Proxy {MD} W Ctx Conn PacketConn Error.
Arguments Logger {MD} W.
Arguments Options {MD} W.
Arguments Chain {MD} W Ctx Conn PacketConn Error.

(** A prefix of full length contains its address and nothing else. *)
Lemma Contains_full a x : wf_addr a → IsValid a = true → hasZone a = false → wf_addr x →
  Contains_addr (mkPrefix a (BitLen a)) x = bool_decide (x = a).
Proof.
  intros Ha Hv Hz Hx. apply eq_true_iff_eq. rewrite bool_decide_eq_true, Contains_spec; [|repeat split; try done; cbn; pose proof (BitLen_le a); lia|done].
  cbn [p_ip p_bits]. split.
  - intros (Hxz & Hl & Hd). rewrite Hl, Z.sub_diag, Z.pow_0_r, !Z.div_1_r in Hd.
    destruct a as [|v|v z], x as [|v'|v' z']; cbn [BitLen addr_val hasZone] in *; try lia; try done; subst; [done|].
    b2p. by subst.
  - by intros ->.
Qed.

Lemma existsb_full ips x : Forall (λ a, wf_addr a ∧ IsValid a = true ∧ hasZone a = false) ips → wf_addr x →
  existsb (λ p, Contains_addr p x) ((λ a, mkPrefix a (BitLen a)) <$> ips) = bool_decide (x ∈ ips).
Proof.
  intros H Hx. induction H as [|a ips (Ha & Hv & Hz) _ IH].
  - symmetry. apply bool_decide_eq_false_2, not_elem_of_nil.
  - rewrite fmap_cons. cbn [existsb]. rewrite Contains_full, IH by done.
    apply eq_true_iff_eq. rewrite orb_true_iff, !bool_decide_eq_true, elem_of_cons. done.
Qed.

(** An unmapped address is outside every prefix of the IPv4-mapped range. *)
Lemma Unmap_not_mapped x : Is4In6 (Unmap x) = false.
Proof. destruct x as [|y|y z]; [done..|]. unfold Unmap. by destruct (Is4In6 (Addr6 y z)) eqn:E. Qed.

Lemma Contains_mapped_Unmap v n x : 65535 * 2 ^ 32 ≤ v < 65536 * 2 ^ 32 → 96 ≤ n ≤ 128 → wf_addr x →
  Contains_addr (mkPrefix (Addr6 v []) n) (Unmap x) = false.
Proof.
  intros Hv Hn Hx. pose proof (Unmap_wf x Hx) as Hu. apply not_true_iff_false.
  rewrite Contains_spec; [|repeat split; try done; cbn; lia|done].
  cbn [p_ip p_bits BitLen]. intros (_ & Hl & Hd). pose proof (Unmap_idem x) as Hi.
  destruct (Unmap x) as [|y|y z]; cbn [BitLen addr_val] in *; try lia. clear Hl.
  unfold Unmap in Hi. destruct (Is4In6 (Addr6 y z)) eqn:E4; [done|].
  unfold Is4In6 in E4. b2p. apply E4. rewrite Z.shiftr_div_pow2 by lia.
  replace 32 with ((128 - n) + (n - 96)) by lia.
  rewrite Z.pow_add_r, <- Z.div_div, Hd, Z.div_div, <- Z.pow_add_r by (try apply Z.pow_nonneg; try apply Z.pow_pos_nonneg; lia).
  replace (128 - n + (n - 96)) with 32 by lia. symmetry.
  apply (Z.div_unique v (2 ^ 32) 65535 (v - 65535 * 2 ^ 32)); lia.
Qed.

(** ** Theorems *)

Section Theorems.
Context {MD : MetadataOps} {ML : MetadataLaws MD} {W Ctx Conn PacketConn Error : Type}.
Context (slog_Default : Logger W) (NewDirect : Proxy W Ctx Conn PacketConn Error).
Implicit Types (c : Chain W Ctx Conn PacketConn Error) (md : Metadata) (w : W).

(** C3: traffic to a reserved block (private, loopback, link-local, multicast,
    the tunnel's own subnets, ...) or to an excluded prefix never touches the
    upstream proxy: the result and every effect of dialling it are the same
    whatever the upstream proxy is, for TCP and for UDP, and whatever the
    matcher answers. *)
Theorem chain_reserved_never_upstream c (u : Proxy W Ctx Conn PacketConn Error) ctx md w :
  reserved_spec (md_DstIP md) = true ∨
  (∃ p, p ∈ ch_ExcludedPrefixes c ∧ Contains_addr p (Unmap (md_DstIP md)) = true) →
  DialContext (with_upstream c u) ctx md w = DialContext c ctx md w ∧
  DialUDP (with_upstream c u) md w = DialUDP c md w.
Proof.
  rewrite <- IsReserved_blocks by apply md_dst_wf. rewrite <- isDirect_true. intros H.
  apply dial_upstream_irrelevant. unfold goes_direct. rewrite H. apply orb_true_r.
Qed.

(** C26: a flow of an excluded process never touches the upstream proxy either,
    wherever it goes. *)
Theorem chain_excluded_process_never_upstream c (u : Proxy W Ctx Conn PacketConn Error) ctx md w
    ShouldSkip :
  ch_Matcher c = Some ShouldSkip → (ShouldSkip md w).1 = true →
  DialContext (with_upstream c u) ctx md w = DialContext c ctx md w ∧
  DialUDP (with_upstream c u) md w = DialUDP c md w.
Proof.
  intros Hm Hs. apply dial_upstream_irrelevant. unfold goes_direct, shouldBypassProcess.
  by rewrite Hm, Hs.
Qed.

(** C6: every other flow goes to the upstream proxy and only there: dialling it
    is the upstream's dial in the world the matcher left. *)
Theorem chain_public_goes_upstream upstream opts ctx md w :
  let c := New slog_Default NewDirect upstream opts in
  (shouldBypassProcess c md w).1 = false →
  reserved_spec (md_DstIP md) = false →
  (∀ p, p ∈ o_ExcludedPrefixes opts → Contains_addr p (Unmap (md_DstIP md)) = false) →
  DialContext c ctx md w = p_DialContext upstream ctx md (shouldBypassProcess c md w).2 ∧
  DialUDP c md w = p_DialUDP upstream md (shouldBypassProcess c md w).2.
Proof.
  intros c Hs Hr Hp. apply dial_upstream. unfold goes_direct. rewrite Hs. cbn [orb].
  apply not_true_iff_false. rewrite isDirect_true, IsReserved_blocks by apply md_dst_wf.
  intros [H|(p & Hin & H)]; [congruence|]. rewrite Hp in H by done. done.
Qed.

(** C27: exclusions configured as bare addresses: with the list parsed from their
    printed forms, a flow is direct if and only if its destination is reserved
    or, after undoing IPv4 mapping, is one of the addresses that are not
    themselves IPv4-mapped; an entry written in the IPv4-mapped range matches
    no flow, not even one to that very address. *)
Theorem excluded_ips_exact upstream m log ips ps md :
  Forall (λ a, wf_addr a ∧ IsValid a = true ∧ hasZone a = false) ips →
  parsePrefixList (addr_String <$> ips) = Ok ps →
  isDirect (New slog_Default NewDirect upstream (mkOptions m ps log)) md = true ↔
  reserved_spec (md_DstIP md) = true ∨ ∃ a, a ∈ ips ∧ Is4In6 a = false ∧ Unmap (md_DstIP md) = a.
Proof.
  intros Hips Hps. rewrite (parsePrefixList_addrs ips Hips) in Hps. injection Hps as <-.
  assert ((∃ a, a ∈ ips ∧ Is4In6 a = false ∧ Unmap (md_DstIP md) = a) ↔ Unmap (md_DstIP md) ∈ ips) as ->.
  { split; [by intros (a & ? & _ & ->)|]. intros H. exists (Unmap (md_DstIP md)). by rewrite Unmap_not_mapped. }
  unfold isDirect. cbn [New ch_ExcludedPrefixes o_ExcludedPrefixes].
  rewrite existsb_full by (try done; apply Unmap_wf, md_dst_wf).
  rewrite Unmap_reserved, IsReserved_blocks by apply md_dst_wf.
  destruct (IsValid (Unmap (md_DstIP md))) eqn:Hv; cbn [negb].
  { destruct (reserved_spec _); [by split; [left|]|]. rewrite bool_decide_eq_true. naive_solver. }
  rewrite Unmap_IsValid in Hv. destruct (md_DstIP md) as [| |] eqn:Hd; [|done|done].
  cbn [Unmap reserved_spec]. split; [done|]. intros [|Hin]; [done|].
  rewrite Forall_forall in Hips. by destruct (Hips _ Hin) as (_ & ? & _).
Qed.

(** An exclusion written in the IPv4-mapped range has no effect at all:
    destinations are unmapped before they are compared, so no flow becomes
    direct because of it. *)
Theorem mapped_exclusion_is_dead upstream m log v n ps md :
  65535 * 2 ^ 32 ≤ v < 65536 * 2 ^ 32 → 96 ≤ n ≤ 128 →
  isDirect (New slog_Default NewDirect upstream (mkOptions m (mkPrefix (Addr6 v []) n :: ps) log)) md
  = isDirect (New slog_Default NewDirect upstream (mkOptions m ps log)) md.
Proof.
  intros Hv Hn. unfold isDirect. cbn [New ch_ExcludedPrefixes o_ExcludedPrefixes existsb].
  by rewrite Contains_mapped_Unmap by (try done; apply md_dst_wf).
Qed.
End Theorems.

(** ** Evaluation

    A world that records what happens, proxies that write their name in it and
    a matcher that skips the flows of source port 4000. *)
Module Example.
Import Flow.
Definition logproxy (name : gostring) : Proxy (list gostring) () gostring gostring () :=
  mkProxy (λ _ _ w, (Ok name, w ++ [name])) (λ _ w, (Ok name, w ++ [name])).
Definition logger : Logger (list gostring) := mkLogger (λ msg _ w, (tt, w ++ [msg])).
Definition skip4000 (md : Metadata) : st (list gostring) bool :=
  λ w, (bool_decide (fl_port md = 4000), w ++ [str "match"]).
Definition opts : Options (list gostring) :=
  mkOptions (Some skip4000) [mkPrefix (Addr4 (ip4 9 9 9 9)) 32] None.
Definition chain := New logger (logproxy "direct") (logproxy "up") opts.
Definition flow_to (a : Addr) : Metadata := mkFlow false (ip4 198 18 0 2) 5000 a.

Lemma runs :
  DialContext chain tt (flow_to (Addr4 (ip4 8 8 8 8))) [] = (Ok (str "up"), [str "match"; str "up"]) ∧
  DialContext chain tt (flow_to (mapped6 (ip4 10 0 0 1) [])) []
  = (Ok (str "direct"), [str "match"; str "chain: direct (reserved/excluded IP)"; str "direct"]).
Proof. by vm_compute. Qed.

Lemma chain_reserved_never_upstream_witness :
  DialContext (with_upstream chain (logproxy "other")) tt (flow_to (Addr4 (ip4 9 9 9 9))) []
  = DialContext chain tt (flow_to (Addr4 (ip4 9 9 9 9))) [].
Proof.
  refine (proj1 (chain_reserved_never_upstream chain (logproxy "other") tt
    (flow_to (Addr4 (ip4 9 9 9 9))) [] _)).
  right. exists (mkPrefix (Addr4 (ip4 9 9 9 9)) 32). split; [left|vm_compute; reflexivity].
Defined.

Lemma chain_excluded_process_never_upstream_witness :
  let md := mkFlow true 1 4000 (Addr4 (ip4 8 8 8 8)) in
  DialUDP (with_upstream chain (logproxy "other")) md [] = DialUDP chain md [].
Proof.
  refine (proj2 (chain_excluded_process_never_upstream chain (logproxy "other") tt
    (mkFlow true 1 4000 (Addr4 (ip4 8 8 8 8))) [] skip4000 eq_refl _)).
  vm_compute. reflexivity.
Defined.

Lemma chain_public_goes_upstream_witness :
  DialUDP chain (flow_to (Addr4 (ip4 8 8 8 8))) []
  = p_DialUDP (logproxy "up") (flow_to (Addr4 (ip4 8 8 8 8)))
      (shouldBypassProcess chain (flow_to (Addr4 (ip4 8 8 8 8))) []).2.
Proof.
  refine (proj2 (chain_public_goes_upstream logger (logproxy "direct") (logproxy "up") opts tt
    (flow_to (Addr4 (ip4 8 8 8 8))) [] _ _ _)); [vm_compute; reflexivity|vm_compute; reflexivity|].
  intros p Hp. apply list_elem_of_singleton in Hp. subst p. vm_compute. reflexivity.
Defined.

(** An excluded address, reached through its mapped form; and the mapped form as
    an entry, which does not match it. *)
Lemma excluded_ips_exact_witness :
  isDirect (New logger (logproxy "direct") (logproxy "up")
    (mkOptions None [mkPrefix (Addr4 (ip4 8 8 8 8)) 32] None)) (flow_to (mapped6 (ip4 8 8 8 8) [])) = true ∧
  isDirect (New logger (logproxy "direct") (logproxy "up")
    (mkOptions None [mkPrefix (mapped6 (ip4 8 8 8 8) []) 128] None)) (flow_to (mapped6 (ip4 8 8 8 8) [])) ≠ true.
Proof.
  split.
  - refine (proj2 (excluded_ips_exact logger (logproxy "direct") (logproxy "up") None None
      [Addr4 (ip4 8 8 8 8)] [mkPrefix (Addr4 (ip4 8 8 8 8)) 32] (flow_to (mapped6 (ip4 8 8 8 8) [])) _ _) _).
    + repeat constructor; by vm_compute.
    + vm_compute. reflexivity.
    + right. exists (Addr4 (ip4 8 8 8 8)). split; [left|by vm_compute].
  - intros H. destruct (proj1 (excluded_ips_exact logger (logproxy "direct") (logproxy "up") None None
      [mapped6 (ip4 8 8 8 8) []] [mkPrefix (mapped6 (ip4 8 8 8 8) []) 128] (flow_to (mapped6 (ip4 8 8 8 8) []))
      ltac:(repeat constructor; by vm_compute) ltac:(vm_compute; reflexivity)) H) as [Hr|(a & Ha & Hm & _)].
    + vm_compute in Hr. discriminate Hr.
    + apply list_elem_of_singleton in Ha. subst a. vm_compute in Hm. discriminate Hm.
Defined.

Lemma mapped_exclusion_is_dead_witness :
  isDirect (New logger (logproxy "direct") (logproxy "up")
    (mkOptions None [mkPrefix (Addr6 (65535 * 2 ^ 32 + 16843009) []) 128] None)) (flow_to (Addr4 (ip4 1 1 1 1)))
  = isDirect (New logger (logproxy "direct") (logproxy "up") (mkOptions None [] None))
      (flow_to (Addr4 (ip4 1 1 1 1))).
Proof.
  refine (mapped_exclusion_is_dead logger (logproxy "direct") (logproxy "up") None None
    (65535 * 2 ^ 32 + 16843009) 128 [] (flow_to (Addr4 (ip4 1 1 1 1))) _ _); lia.
Defined.
End Example.
