(* ===== verification/Exclude.v ===== *)
(** * Process exclusion (internal/exclude/matcher.go)

    The [Matcher] maps the source of a flow to the process that owns it, by
    scanning the operating system's connection tables, and tells whether that
    process is excluded.  What the operating system answers during one scan is
    a [Probe]; instants are nanoseconds since the Unix epoch on the clock that
    [time.Since] reads.

    The operations are first given one call at a time.  Module [Conc] cuts them
    at the points where the lock is taken and interleaves any number of callers
    with the refresh loop. *)

From S2P Require Import Prelude GoStrings Netip Procname Config Metadata.

(** ** Data *)

(** What the program reads of a [gnet.ConnectionStat]; the port is a [uint32],
    the process identifier an [int32]. *)
Record ConnectionStat : Type := mkConn {
  cs_Status : gostring;
  cs_IP : gostring;
  cs_Port : Z;
  cs_Pid : Z
}.

(** The answers of gopsutil during one scan: the connections of a kind ([None]
    is an error), whether a process can be opened, and its name. *)
Record Probe : Type := mkProbe {
  pr_Connections : gostring → option (list ConnectionStat);
  pr_NewProcess : Z → bool;
  pr_Name : Z → option gostring
}.

Record Matcher : Type := mkMatcher {
  targets : gset gostring;
  interval : Z;
  flowToPID : gmap gostring Z;
  pidNames : gmap Z gostring;
  lastScan : Z
}.

(** The zero [time.Time], January 1 of year 1. *)
Definition zero_time : Z := -62135596800 * second.

(** [now.Sub(t)], which saturates. *)
Definition Since (now t : Z) : Z := Z.max min_int64 (Z.min max_int64 (now - t)).

(** ** Operations *)

Section Operations.
Context {MD : MetadataOps}.

(** Building the target set. *)
Definition target_set (names : list gostring) : gset gostring :=
  foldl (λ s name, let clean := Normalize name in
                   if bool_decide (clean = []) then s else {[clean]} ∪ s) ∅ names.

(** [None] is the nil matcher. *)
Definition New (names : list gostring) (ival : Z) : option Matcher :=
  match names with
  | [] => None
  | _ => Some (mkMatcher (target_set names) (if ival <=? 0 then 15 * second else ival) ∅ ∅ zero_time)
  end.

Definition flowKey (network : Network) (ap : AddrPort) : gostring :=
  if negb (ap_IsValid ap) then []
  else network_String network ++ ":" ++ addrport_String ap.

Definition networkForKind (kind : gostring) : Network :=
  if HasPrefix kind "udp" then UDP else TCP.

Definition lookupPID (m : Matcher) (key : gostring) : Z := default 0 (flowToPID m !! key).
Definition lookupName (m : Matcher) (pid : Z) : gostring := default [] (pidNames m !! pid).

Definition scan_types : list gostring := [str "tcp4"; str "tcp6"; str "udp4"; str "udp6"].

(** The body of the inner loop of [scanOnce]: one connection of a kind. *)
Definition scan_conn (kind : gostring) (acc : gmap gostring Z * gset Z) (c : ConnectionStat)
    : gmap gostring Z * gset Z :=
  let '(nextFlow, pidSet) := acc in
  if negb (bool_decide (cs_Status c = "ESTABLISHED")) && HasPrefix kind "tcp" then acc
  else match ParseAddr (cs_IP c) with
  | None => acc
  | Some addr0 =>
      let addr := Unmap addr0 in
      if cs_Port c =? 0 then acc
      else
        let key := flowKey (networkForKind kind) (mkAddrPort addr (uint16 (cs_Port c))) in
        if bool_decide (key = []) then acc
        else (<[key := cs_Pid c]> nextFlow, {[cs_Pid c]} ∪ pidSet)
  end.

(** Both loops: a kind whose table cannot be read is skipped. *)
Definition scan_flows (p : Probe) : gmap gostring Z * gset Z :=
  foldl (λ acc kind, match pr_Connections p kind with
                     | None => acc
                     | Some conns => foldl (scan_conn kind) acc conns
                     end) (∅, ∅) scan_types.

(** The name of one process: the cached one, else the one the system gives. *)
Definition resolve_name (cached : gostring) (p : Probe) (pid : Z) : option gostring :=
  if pid =? 0 then None
  else if negb (bool_decide (cached = [])) then Some cached
  else if negb (pr_NewProcess p pid) then None
  else n ← pr_Name p pid; Some (Normalize n).

Definition resolveProcessNames (m : Matcher) (p : Probe) (pids : gset Z) : gmap Z gostring :=
  foldr (λ pid names, match resolve_name (lookupName m pid) p pid with
                      | None => names
                      | Some n => <[pid := n]> names
                      end) ∅ (elements pids).

(** The tables are replaced, and the scan is stamped with the time it ended. *)
Definition scanOnce (m : Matcher) (p : Probe) (now : Z) : Matcher :=
  let '(nextFlow, pidSet) := scan_flows p in
  let names := resolveProcessNames m p pidSet in
  mkMatcher (targets m) (interval m) nextFlow names now.

(** What a miss finds: the clock when it looks, the system's answers, the clock
    when the scan is done. *)
Record MissEnv : Type := mkMiss { me_now : Z; me_probe : Probe; me_end : Z }.

Definition stale (m : Matcher) (now : Z) : bool := Since now (lastScan m) >? second.

(** A call of [scanOnce], with the record that it was made. *)
Definition scanning (m : Matcher) (e : MissEnv) : Matcher * list MissEnv :=
  (scanOnce m (me_probe e) (me_end e), [e]).

(** The matcher afterwards and the scans made. *)
Definition refreshOnMiss (m : Matcher) (e : MissEnv) : Matcher * list MissEnv :=
  if negb (stale m (me_now e)) then (m, []) else scanning m e.

Definition is_target (m : Matcher) (raw : gostring) : bool :=
  let name := Normalize raw in
  if bool_decide (name = []) then false else bool_decide (name ∈ targets m).

(** The answer and the matcher afterwards, and the scans made. *)
Definition ShouldSkip_scans (om : option Matcher) (e : MissEnv) (md : Metadata) : (bool * option Matcher) * list MissEnv :=
  match om with
  | None => ((false, None), [])
  | Some m =>
      let key := flowKey (md_Network md) (md_SourceAddrPort md) in
      if bool_decide (key = []) then ((false, Some m), [])
      else
        let pid := lookupPID m key in
        if pid =? 0 then
          let '(m', scans) := refreshOnMiss m e in
          let pid' := lookupPID m' key in
          if pid' =? 0 then ((false, Some m'), scans) else ((is_target m' (lookupName m' pid'), Some m'), scans)
        else ((is_target m (lookupName m pid), Some m), [])
  end.
Definition ShouldSkip (om : option Matcher) (e : MissEnv) (md : Metadata) : bool * option Matcher :=
  (ShouldSkip_scans om e md).1.

(** The refresh loop: one scan at once, then one per tick until the context is
    cancelled. *)
Inductive LoopEvent : Type :=
| Cancelled
| Tick (p : Probe) (now : Z).

Fixpoint refresh_ticks (m : Matcher) (evs : list LoopEvent) : Matcher :=
  match evs with
  | [] | Cancelled :: _ => m
  | Tick p now :: evs' => refresh_ticks (scanOnce m p now) evs'
  end.

Definition refreshLoop (m : Matcher) (p0 : Probe) (now0 : Z) (evs : list LoopEvent) : Matcher :=
  refresh_ticks (scanOnce m p0 now0) evs.
End Operations.

(** ** Lemmas *)

Section Lemmas.
Context {MD : MetadataOps} {ML : MetadataLaws MD}.

(** *** Keys *)

Lemma flowKey_valid n ap : ap_IsValid ap = true → flowKey n ap = network_String n ++ ":"%byte :: addrport_String ap.
Proof. unfold flowKey. by intros ->. Qed.

Lemma flowKey_nil n ap : flowKey n ap = [] ↔ ap_IsValid ap = false.
Proof.
  unfold flowKey. destruct (ap_IsValid ap); cbn [negb]; [|done].
  split; [|done]. intros [_ H]%app_nil. done.
Qed.

(** Two flows share a key only when they are the same flow. *)
Lemma flowKey_inj n1 n2 a1 a2 : wf_addrport a1 → wf_addrport a2 → ap_IsValid a1 = true →
  flowKey n1 a1 = flowKey n2 a2 → n1 = n2 ∧ a1 = a2.
Proof.
  intros W1 W2 V1 E. destruct (ap_IsValid a2) eqn:V2.
  - rewrite !flowKey_valid in E by done.
    apply app_cons_not_elem in E as [E1 E2]; [|apply network_String_colon|apply network_String_colon].
    split; [by apply (inj network_String)|by apply addrport_String_inj].
  - apply (flowKey_nil n2) in V2. rewrite V2 in E. apply flowKey_nil in E. congruence.
Qed.

(** *** What a scan sees *)

(** The flow and the process a connection stands for, if the scan keeps it. *)
Definition conn_owner (kind : gostring) (c : ConnectionStat) : option (Network * AddrPort * Z) :=
  if negb (bool_decide (cs_Status c = "ESTABLISHED")) && HasPrefix kind "tcp" then None
  else a ← ParseAddr (cs_IP c);
       if cs_Port c =? 0 then None
       else Some (networkForKind kind, mkAddrPort (Unmap a) (uint16 (cs_Port c)), cs_Pid c).

Definition owners (p : Probe) : list (Network * AddrPort * Z) :=
  scan_types ≫= λ kind, match pr_Connections p kind with
                        | None => []
                        | Some conns => omap (conn_owner kind) conns
                        end.

(** The process that owns a flow: the one of the last connection the tables
    list for it. *)
Definition owner (p : Probe) (n : Network) (ap : AddrPort) (pid : Z) : Prop :=
  ∃ l1 l2, owners p = l1 ++ (n, ap, pid) :: l2 ∧ ∀ pid', (n, ap, pid') ∉ l2.

Definition add_owner (acc : gmap gostring Z * gset Z) (o : Network * AddrPort * Z) :=
  let '(n, ap, pid) := o in (<[flowKey n ap := pid]> acc.1, {[pid]} ∪ acc.2).

Lemma conn_owner_wf kind c n ap pid : conn_owner kind c = Some (n, ap, pid) →
  wf_addrport ap ∧ ap_IsValid ap = true.
Proof.
  unfold conn_owner. destruct (_ && _); [done|].
  destruct (ParseAddr (cs_IP c)) as [a|] eqn:Ea; [|done]. cbn [mbind option_bind].
  case_bool; [done|]. intros ?; simplify_eq. apply ParseAddr_wf in Ea as [Hw Hv].
  split; [split; cbn; [by apply Unmap_wf|apply uint16_range]|].
  unfold ap_IsValid. cbn. by rewrite Unmap_IsValid.
Qed.

Lemma scan_conn_owner kind acc c :
  scan_conn kind acc c = match conn_owner kind c with None => acc | Some o => add_owner acc o end.
Proof.
  destruct acc as [f s]. unfold scan_conn.
  destruct (conn_owner kind c) as [[[n ap] pid]|] eqn:E.
  - pose proof (conn_owner_wf _ _ _ _ _ E) as [_ Hv]. unfold conn_owner in E.
    destruct (_ && _); [done|]. destruct (ParseAddr (cs_IP c)); [|done].
    cbn [mbind option_bind] in E. case_bool; [done|]. simplify_eq.
    rewrite bool_decide_eq_false_2; [done|]. rewrite flowKey_nil. by rewrite Hv.
  - unfold conn_owner in E. destruct (_ && _); [done|]. destruct (ParseAddr (cs_IP c)); [|done].
    cbn [mbind option_bind] in E. by case_bool.
Qed.

Lemma foldl_scan_conn kind conns acc :
  foldl (scan_conn kind) acc conns = foldl add_owner acc (omap (conn_owner kind) conns).
Proof.
  revert acc. induction conns as [|c conns IH]; intros acc; [done|].
  cbn [foldl]. rewrite IH, scan_conn_owner. cbn [omap list_omap]. by destruct (conn_owner kind c).
Qed.

Lemma scan_flows_owners p : scan_flows p = foldl add_owner (∅, ∅) (owners p).
Proof.
  unfold scan_flows, owners. generalize (∅ : gmap gostring Z, ∅ : gset Z).
  induction scan_types as [|kind l IH]; intros acc; [done|].
  cbn [foldl]. rewrite bind_cons, foldl_app, IH. f_equal.
  destruct (pr_Connections p kind); [apply foldl_scan_conn|done].
Qed.

Lemma owners_wf p n ap pid : (n, ap, pid) ∈ owners p → wf_addrport ap ∧ ap_IsValid ap = true.
Proof.
  unfold owners. intros (kind & H & _)%list_elem_of_bind.
  destruct (pr_Connections p kind); [|by apply elem_of_nil in H].
  apply list_elem_of_omap in H as (c & _ & H). by eapply conn_owner_wf.
Qed.

(** *** Names *)

Lemma resolve_lookup m p pids pid :
  resolveProcessNames m p pids !! pid
  = if bool_decide (pid ∈ pids) then resolve_name (lookupName m pid) p pid else None.
Proof.
  assert (∀ l, NoDup l →
    foldr (λ pid names, match resolve_name (lookupName m pid) p pid with
                        | None => names | Some n => <[pid := n]> names end) (∅ : gmap Z gostring) l !! pid
    = if bool_decide (pid ∈ l) then resolve_name (lookupName m pid) p pid else None) as H.
  { induction 1 as [|q l Hq Hl IH]; cbn [foldr]; [by rewrite lookup_empty|].
    destruct (decide (pid = q)) as [->|Hne].
    - rewrite bool_decide_eq_true_2 by left. rewrite bool_decide_eq_false_2 in IH by done.
      destruct (resolve_name _ p q); [by rewrite lookup_insert_eq|exact IH].
    - assert (bool_decide (pid ∈ q :: l) = bool_decide (pid ∈ l)) as ->
        by (apply bool_decide_ext; set_solver).
      rewrite <- IH. destruct (resolve_name _ p q); [by rewrite lookup_insert_ne|done]. }
  unfold resolveProcessNames. rewrite H by apply NoDup_elements.
  by rewrite (bool_decide_ext _ (pid ∈ pids)) by apply elem_of_elements.
Qed.

Lemma scan_pids p pid : pid ∈ (scan_flows p).2 ↔ ∃ n ap, (n, ap, pid) ∈ owners p.
Proof.
  rewrite scan_flows_owners. induction (owners p) as [|[[n ap] q] l IH] using rev_ind.
  - cbn. set_solver.
  - rewrite foldl_snoc. destruct (foldl _ _ l) as [f s]. cbn in *.
    rewrite elem_of_union, elem_of_singleton, IH. setoid_rewrite elem_of_app.
    setoid_rewrite list_elem_of_singleton. naive_solver.
Qed.

(** The table a scan builds is the owner relation. *)
Lemma scan_lookup p n ap pid : wf_addrport ap → ap_IsValid ap = true →
  (scan_flows p).1 !! flowKey n ap = Some pid ↔ owner p n ap pid.
Proof.
  intros Hw Hv. unfold owner. rewrite scan_flows_owners. pose proof (owners_wf p) as Hall. revert Hall.
  induction (owners p) as [|[[n' ap'] q] l IH] using rev_ind; intros Hall.
  - cbn. rewrite lookup_empty. split; [done|]. by intros (l1 & l2 & H & _); destruct l1.
  - rewrite foldl_snoc. cbn [add_owner fst]. destruct (decide (flowKey n' ap' = flowKey n ap)) as [E|E].
    + rewrite E, lookup_insert_eq. apply flowKey_inj in E as [-> ->];
        [|by eapply (Hall n' ap' q); set_solver|done|by eapply (Hall n' ap' q); set_solver].
      split; [intros; simplify_eq; exists l, []; split; [done|intros ?; apply not_elem_of_nil]|].
      intros (l1 & l2 & H & Hl2). destruct l2 as [|x l2] using rev_ind.
      * apply app_inj_2 in H as [_ H]; [|done]. by simplify_eq.
      * rewrite app_comm_cons, app_assoc in H. apply app_inj_2 in H as [_ H]; [|done].
        simplify_eq. exfalso. eapply Hl2. apply elem_of_app. right. by apply list_elem_of_singleton.
    + rewrite lookup_insert_ne, IH by (try done; intros ??? H; by apply (Hall _ _ _ (proj2 (elem_of_app _ _ _) (or_introl H)))). split.
      * intros (l1 & l2 & -> & Hl2). exists l1, (l2 ++ [(n', ap', q)]). split; [by rewrite <- app_assoc|].
        intros pid' [H|H]%elem_of_app; [by eapply Hl2|]. apply list_elem_of_singleton in H. by simplify_eq.
      * intros (l1 & l2 & H & Hl2). destruct l2 as [|x l2 _] using rev_ind.
        { apply app_inj_2 in H as [_ H]; [|done]. by simplify_eq. }
        rewrite app_comm_cons, app_assoc in H. apply app_inj_2 in H as [-> H]; [|done]. simplify_eq.
        exists l1, l2. split; [done|]. intros pid' H'. eapply Hl2. apply elem_of_app. by left.
Qed.

Lemma owner_valid p n ap pid : owner p n ap pid → wf_addrport ap ∧ ap_IsValid ap = true.
Proof. intros (l1 & l2 & E & _). eapply (owners_wf p n ap pid). rewrite E. set_solver. Qed.

Lemma scan_key_owner p key pid : (scan_flows p).1 !! key = Some pid → ∃ n ap, key = flowKey n ap ∧ owner p n ap pid.
Proof.
  intros H. assert (∃ n ap, key = flowKey n ap ∧ ∃ q, (n, ap, q) ∈ owners p) as (n & ap & -> & q & Hin).
  { revert H. rewrite scan_flows_owners. induction (owners p) as [|[[n ap] q] l IH] using rev_ind; [done|].
    rewrite foldl_snoc. destruct (foldl _ _ l) as [f s]. cbn [add_owner fst] in *. setoid_rewrite elem_of_app.
    intros [[<- _]|[_ (n' & ap' & -> & q' & Hq)%IH]]%lookup_insert_Some; [|by eauto 8].
    exists n, ap. split; [done|]. exists q. right. by apply list_elem_of_singleton. }
  destruct (owners_wf _ _ _ _ Hin) as [Hw Hv]. exists n, ap. split; [done|]. by apply scan_lookup.
Qed.

Lemma scan_key_pid p key pid : (scan_flows p).1 !! key = Some pid → pid ∈ (scan_flows p).2.
Proof.
  rewrite scan_flows_owners. induction (owners p) as [|[[n ap] q] l IH] using rev_ind; [done|].
  rewrite foldl_snoc. destruct (foldl _ _ l) as [f s]. cbn [add_owner fst snd] in *.
  intros [[_ ->]|[_ H]]%lookup_insert_Some; [set_solver|]. apply IH in H. set_solver.
Qed.

Lemma add_owner_size l : (size (foldl add_owner (∅, ∅) l).2 ≤ length l)%nat ∧
  (size (foldl add_owner (∅, ∅) l).1 ≤ length l)%nat.
Proof.
  induction l as [|[[n ap] pid] l [IH1 IH2]] using rev_ind; [cbn [foldl fst snd]; by rewrite size_empty, map_size_empty|].
  rewrite foldl_snoc, length_app. destruct (foldl _ _ l) as [f s]. cbn [add_owner fst snd] in *.
  rewrite map_size_insert. split.
  - destruct (decide (pid ∈ s)).
    + replace ({[pid]} ∪ s) with s by set_solver. cbn. lia.
    + rewrite size_union, size_singleton by set_solver. cbn. lia.
  - unfold id, compose. cbn [length]. destruct (f !! _); lia.
Qed.

(** *** Targets *)

Lemma elem_of_target_set names x :
  x ∈ target_set names ↔ x ≠ [] ∧ ∃ t, t ∈ names ∧ Normalize t = x.
Proof.
  unfold target_set. induction names as [|t names IH] using rev_ind.
  - cbn. set_solver.
  - rewrite foldl_snoc. setoid_rewrite elem_of_app. setoid_rewrite list_elem_of_singleton. case_bool.
    + rewrite IH. split; intros (Hx & t' & Ht & E); (split; [done|]); [by eauto|].
      destruct Ht as [Ht| ->]; [by eauto|congruence].
    + rewrite elem_of_union, elem_of_singleton, IH. split.
      * intros [->|(Hx & t' & Ht & E)]; (split; [done|]); by eauto.
      * intros (Hx & t' & [Ht| ->] & E); [right; by eauto|by left].
Qed.

Lemma is_target_true m raw : is_target m raw = true ↔ Normalize raw ≠ [] ∧ Normalize raw ∈ targets m.
Proof.
  unfold is_target. destruct (bool_decide (Normalize raw = [])) eqn:E; b2p; [naive_solver|].
  rewrite bool_decide_eq_true. naive_solver.
Qed.

Lemma scanOnce_flow m p now key : lookupPID (scanOnce m p now) key = default 0 ((scan_flows p).1 !! key).
Proof. unfold scanOnce, lookupPID. by destruct (scan_flows p). Qed.

Lemma scanOnce_name m p now pid : pid ∈ (scan_flows p).2 →
  lookupName (scanOnce m p now) pid = default [] (resolve_name (lookupName m pid) p pid).
Proof.
  intros H. unfold scanOnce, lookupName at 1. destruct (scan_flows p) as [f s]. cbn [pidNames snd] in *.
  rewrite resolve_lookup. by rewrite bool_decide_eq_true_2.
Qed.

Lemma scanOnce_targets m p now : targets (scanOnce m p now) = targets m.
Proof. unfold scanOnce. by destruct (scan_flows p). Qed.

(** The matcher as created has never scanned. *)
Lemma stale_zero ts iv f ps now : 0 ≤ now → stale (mkMatcher ts iv f ps zero_time) now = true.
Proof.
  intros. unfold stale, Since, zero_time, second, max_int64, min_int64. cbn [lastScan].
  rewrite Z.gtb_ltb. apply Z.ltb_lt. lia.
Qed.

(** A flow the cache does not know, after the scan it triggers. *)
Lemma ShouldSkip_miss m e md : lookupPID m (flowKey (md_Network md) (md_SourceAddrPort md)) = 0 →
  stale m (me_now e) = true →
  (ShouldSkip (Some m) e md).1 = true ↔
  ∃ pid, owner (me_probe e) (md_Network md) (md_SourceAddrPort md) pid ∧ pid ≠ 0 ∧
    is_target m (default [] (resolve_name (lookupName m pid) (me_probe e) pid)) = true.
Proof.
  intros Hmiss Hst. unfold ShouldSkip, ShouldSkip_scans. rewrite Hmiss. unfold refreshOnMiss, scanning. rewrite Hst. cbn [negb].
  destruct (bool_decide (flowKey _ _ = [])) eqn:Ek; b2p.
  { split; [done|]. intros (pid & Ho & _). apply owner_valid in Ho as [_ Hv].
    apply flowKey_nil in Ek. congruence. }
  assert (ap_IsValid (md_SourceAddrPort md) = true) as Hv.
  { destruct (ap_IsValid _) eqn:E; [done|]. by rewrite flowKey_nil in Ek. }
  pose proof (λ pid, scan_lookup (me_probe e) (md_Network md) _ pid (md_source_wf md) Hv) as Hl.
  cbn [Z.eqb]. rewrite scanOnce_flow.
  destruct ((scan_flows (me_probe e)).1 !! _) as [pid|] eqn:E; cbn [default]; unfold id.
  - pose proof (proj1 (Hl pid) eq_refl) as Ho. pose proof (scan_key_pid _ _ _ E) as Hin.
    destruct (pid =? 0) eqn:E0; b2p; cbn [fst].
    + split; [done|]. intros (pid' & Ho' & Hne & _). apply Hl in Ho'. simplify_eq.
    + unfold is_target. rewrite scanOnce_name, scanOnce_targets by done.
      split; [by exists pid|]. intros (pid' & Ho' & _ & H). apply Hl in Ho'. by simplify_eq.
  - split; [done|]. intros (pid' & Ho' & _). by apply Hl in Ho'.
Qed.

(** The first lookup of a matcher built from the configuration. *)
Lemma configured_skip cfg ival e md :
  0 ≤ me_now e →
  (ShouldSkip (New (normalizeProcessList cfg) ival) e md).1 = true ↔
  ∃ pid raw entry,
    owner (me_probe e) (md_Network md) (md_SourceAddrPort md) pid ∧ pid ≠ 0 ∧
    pr_NewProcess (me_probe e) pid = true ∧ pr_Name (me_probe e) pid = Some raw ∧
    entry ∈ cfg ∧ Normalize (Normalize entry) = Normalize (Normalize raw) ∧
    Normalize (Normalize raw) ≠ [].
Proof.
  intros Hnow. destruct (normalizeProcessList cfg) as [|t0 l] eqn:Hcfg.
  { split; [done|]. intros (pid & raw & entry & _ & _ & _ & _ & Hin & Heq & Hne).
    assert (Normalize entry ∈ normalizeProcessList cfg) as H.
    { apply elem_of_normalizeProcessList. split; [|by eauto]. intros E. rewrite E in Heq. by rewrite <- Heq in Hne. }
    rewrite Hcfg in H. by apply elem_of_nil in H. }
  cbn [New]. rewrite ShouldSkip_miss; [|done|by apply stale_zero].
  f_equiv; intros pid. setoid_rewrite is_target_true. cbn [targets]. rewrite elem_of_target_set, <- Hcfg.
  setoid_rewrite elem_of_normalizeProcessList. unfold lookupName, resolve_name. cbn [pidNames].
  rewrite lookup_empty. cbn [default]. rewrite bool_decide_eq_true_2 by done. cbn [negb].
  split.
  - intros (Ho & Hp & Hne & _ & t & (Ht & entry & Hin & <-) & Heq).
    rewrite (proj2 (Z.eqb_neq _ _)) in * by done.
    destruct (pr_NewProcess _ pid) eqn:Hn; [|done]. cbn [negb] in *.
    destruct (pr_Name _ pid) as [raw|] eqn:Hr; [|done]. cbn in Hne, Heq. by exists raw, entry.
  - intros (raw & entry & Ho & Hp & Hn & Hr & Hin & Heq & Hne).
    rewrite (proj2 (Z.eqb_neq _ _)), Hn, Hr by done. cbn. split_and!; try done.
    exists (Normalize entry). split; [|done]. split; [|by eauto].
    intros E. rewrite E in Heq. by rewrite <- Heq in Hne.
Qed.
End Lemmas.

(** ** Theorems *)

Section Theorems.
Context {MD : MetadataOps} {ML : MetadataLaws MD}.

(** C5: process exclusion from the configuration to the flow: for a matcher
    built from the validated configuration and a first lookup, a flow is
    skipped if and only if the last connection the system lists for its
    network, source address and port belongs to a process (other than 0) that
    can be named, and that name equals a configured one up to case, spaces and
    [.exe] suffixes, taken off twice. *)
Theorem configured_process_skipped cfg ival e md :
  0 ≤ me_now e →
  (ShouldSkip (New (normalizeProcessList cfg) ival) e md).1 = true ↔
  ∃ pid raw entry,
    owner (me_probe e) (md_Network md) (md_SourceAddrPort md) pid ∧ pid ≠ 0 ∧
    pr_NewProcess (me_probe e) pid = true ∧ pr_Name (me_probe e) pid = Some raw ∧
    entry ∈ cfg ∧ Normalize (Normalize entry) = Normalize (Normalize raw) ∧
    Normalize (Normalize raw) ≠ [].
Proof. apply configured_skip. Qed.

(** A flow the cache knows is answered from the cache: no scan, the matcher
    unchanged, and the answer is whether the cached name of its process is a
    target. *)
Theorem ShouldSkip_cached m e md pid :
  ap_IsValid (md_SourceAddrPort md) = true → pid ≠ 0 →
  flowToPID m !! flowKey (md_Network md) (md_SourceAddrPort md) = Some pid →
  ShouldSkip_scans (Some m) e md
  = ((bool_decide (Normalize (lookupName m pid) ∈ targets m ∖ {[ [] ]}), Some m), []).
Proof.
  intros Hv Hp Hf. unfold ShouldSkip_scans, lookupPID. rewrite Hf. cbn [default]. unfold id.
  rewrite bool_decide_eq_false_2 by (rewrite flowKey_nil; by rewrite Hv).
  rewrite (proj2 (Z.eqb_neq _ _)) by done. do 2 f_equal. apply eq_true_iff_eq.
  rewrite is_target_true, bool_decide_eq_true. set_solver.
Qed.

(** C32: after a scan the tables hold that scan and nothing else.  A key of the
    flow table leads to a process exactly when it is the key of a flow the system
    lists, and then to the process of the last connection it lists for the flow;
    a process is named exactly when it is not 0, a kept connection belongs to it
    and its name is known, so names of processes without connections are
    evicted; both tables are at most as large as the number of kept
    connections, and the targets stay. *)
Theorem scanOnce_replaces m p now :
  (∀ key pid, flowToPID (scanOnce m p now) !! key = Some pid ↔ ∃ n ap, key = flowKey n ap ∧ owner p n ap pid) ∧
  (∀ pid name, pidNames (scanOnce m p now) !! pid = Some name ↔
     pid ≠ 0 ∧ (∃ n ap, (n, ap, pid) ∈ owners p) ∧ resolve_name (lookupName m pid) p pid = Some name) ∧
  (size (pidNames (scanOnce m p now)) ≤ length (owners p))%nat ∧
  (size (flowToPID (scanOnce m p now)) ≤ length (owners p))%nat ∧
  lastScan (scanOnce m p now) = now ∧ targets (scanOnce m p now) = targets m.
Proof.
  assert (∀ pid, pidNames (scanOnce m p now) !! pid = (if bool_decide (pid ∈ (scan_flows p).2)
    then resolve_name (lookupName m pid) p pid else None)) as Hn.
  { intros pid. unfold scanOnce. destruct (scan_flows p) as [f s]. cbn [pidNames snd]. apply resolve_lookup. }
  assert (flowToPID (scanOnce m p now) = (scan_flows p).1 ∧ lastScan (scanOnce m p now) = now) as [Ef El]
    by (unfold scanOnce; by destruct (scan_flows p)).
  assert (size (scan_flows p).2 ≤ length (owners p) ∧ size (scan_flows p).1 ≤ length (owners p))%nat as [Hs Hf].
  { rewrite scan_flows_owners. apply add_owner_size. }
  rewrite Ef. split_and!; [|intros pid name|  |done|done|apply scanOnce_targets].
  - intros key pid. split; [apply scan_key_owner|]. intros (n & ap & -> & Ho).
    destruct (owner_valid _ _ _ _ Ho) as [Hw Hv]. by apply scan_lookup.
  - rewrite Hn, <- scan_pids. case_bool; [|naive_solver].
    split; [|naive_solver]. intros H. split_and!; try done. intros ->. done.
  - etrans; [|exact Hs]. rewrite <- size_dom. apply subseteq_size. intros pid [name H]%elem_of_dom.
    rewrite Hn in H. by case_bool.
Qed.

(** A name is never looked up twice while its process keeps a connection:
    when one scan follows another and the process is in both, the second keeps
    the first's name whatever the system now answers, also if the identifier
    has been given to another process in between. *)
Theorem name_survives_pid_reuse m p1 p2 t1 t2 pid raw :
  pid ≠ 0 → lookupName m pid = [] → pr_NewProcess p1 pid = true → pr_Name p1 pid = Some raw →
  Normalize raw ≠ [] →
  (∃ n ap, (n, ap, pid) ∈ owners p1) → (∃ n ap, (n, ap, pid) ∈ owners p2) →
  lookupName (scanOnce (scanOnce m p1 t1) p2 t2) pid = Normalize raw.
Proof.
  intros Hp Hc Hn Hr Hne H1%scan_pids H2%scan_pids.
  assert (lookupName (scanOnce m p1 t1) pid = Normalize raw) as Hs.
  { rewrite scanOnce_name by done. unfold resolve_name.
    rewrite (proj2 (Z.eqb_neq _ _)), Hc, Hn, Hr by done. done. }
  rewrite scanOnce_name, Hs by done. unfold resolve_name.
  rewrite (proj2 (Z.eqb_neq _ _)), bool_decide_eq_false_2 by done. done.
Qed.

(** The scans a sequence of calls makes, one call after the other. *)
Fixpoint calls_scans (om : option Matcher) (calls : list (MissEnv * Metadata)) : list MissEnv :=
  match calls with
  | [] => []
  | (e, md) :: calls' =>
      let r := ShouldSkip_scans om e md in r.2 ++ calls_scans r.1.2 calls'
  end.

(** Each scan is begun more than a second after the one before it was done, the
    one before all having been done at [t]. *)
Fixpoint apart (t : Z) (l : list MissEnv) : Prop :=
  match l with [] => True | e :: l' => t + second < me_now e ∧ apart (me_end e) l' end.

Lemma apart_count t T l : apart t l → Forall (λ e, me_now e ≤ me_end e) l → Forall (λ e, me_now e ≤ T) l →
  l = [] ∨ Z.of_nat (length l) * second < T - t.
Proof.
  intros H Hc HT. destruct l as [|e l]; [by left|right]. revert e t H Hc HT.
  induction l as [|e' l IH]; intros e t [H1 H2] [Hc1 Hc2]%Forall_cons [HT1 HT2]%Forall_cons; [cbn [length]; lia|].
  specialize (IH e' (me_end e) H2 Hc2 HT2). cbn [length] in *. lia.
Qed.

Lemma stale_true m now : stale m now = true → lastScan m + second < now.
Proof.
  unfold stale, Since, second, max_int64, min_int64. rewrite Z.gtb_ltb, Z.ltb_lt. lia.
Qed.

(** C33: calls made one after the other scan at most once per second: every scan
    they make is begun more than a second after the scan before it was done, the
    matcher's last one for the first; so on a clock that does not go back during
    a scan they make fewer scans than seconds pass. *)
Theorem sequential_rate_limit m calls :
  let scans := calls_scans (Some m) calls in
  apart (lastScan m) scans ∧
  (Forall (λ e, me_now e ≤ me_end e) scans → ∀ T, Forall (λ e, me_now e ≤ T) scans →
     scans = [] ∨ Z.of_nat (length scans) * second < T - lastScan m).
Proof.
  assert (apart (lastScan m) (calls_scans (Some m) calls)) as H; [|by split; [|intros; by apply apart_count]].
  revert m. induction calls as [|[e md] calls IH]; intros m; [done|]. cbn [calls_scans ShouldSkip_scans].
  destruct (bool_decide (flowKey _ _ = [])); [apply IH|].
  destruct (lookupPID m _ =? 0); [|apply IH].
  unfold refreshOnMiss, scanning. destruct (stale m (me_now e)) eqn:Es; cbn [negb].
  - assert (lastScan (scanOnce m (me_probe e) (me_end e)) = me_end e) as Hl
      by (unfold scanOnce; by destruct (scan_flows _)).
    apply stale_true in Es.
    destruct (lookupPID (scanOnce m _ _) _ =? 0); cbn [fst snd app apart]; (split; [lia|]); rewrite <- Hl at 1; apply IH.
  - destruct (lookupPID m _ =? 0); apply IH.
Qed.
End Theorems.

(** ** Interleavings

    Callers of [ShouldSkip] and the refresh loop share the matcher and hold its
    lock only for single reads and for the final replacement of the tables.  A
    thread's state says what it does when it next takes the lock. *)
Module Conc.
Section Conc.
Context {MD : MetadataOps} {ML : MetadataLaws MD}.

(** Who scans: a caller for its key, or the refresh loop. *)
Inductive After : Type := ASkip (key : gostring) | ALoop.

Inductive Thread : Type :=
| TCall (key : gostring)                            (* first [lookupPID] *)
| TMiss (key : gostring)                            (* reads [lastScan] *)
| TScan (k : After)                                 (* reads the system tables *)
| TResolve (k : After) (p : Probe) (todo : list Z) (names : gmap Z gostring)
                                                    (* names a process, or replaces the tables *)
| TAgain (key : gostring)                           (* second [lookupPID] *)
| TName (key : gostring) (pid : Z)                  (* [lookupName] *)
| TWait                                             (* the loop, between ticks *)
| TStop                                             (* the loop, cancelled *)
| TRet (key : gostring) (b : bool).                 (* the caller has its answer *)

Definition after (k : After) : Thread := match k with ASkip key => TAgain key | ALoop => TWait end.

Record State : Type := mkState {
  now : Z;
  shared : Matcher;
  threads : list Thread;
  hist : list Probe;      (* the scans begun *)
  misses : list Z         (* when the on-demand scans were stored *)
}.

(** One step of a thread at time [t]: the matcher and thread after it, the scan
    begun and the on-demand scan stored, if any. *)
Inductive tstep (t : Z) (m : Matcher) : Thread → Matcher → Thread → list Probe → list Z → Prop :=
| s_hit key pid : lookupPID m key = pid → pid ≠ 0 → tstep t m (TCall key) m (TName key pid) [] []
| s_miss key : lookupPID m key = 0 → tstep t m (TCall key) m (TMiss key) [] []
| s_fresh key : stale m t = false → tstep t m (TMiss key) m (TAgain key) [] []
| s_stale key : stale m t = true → tstep t m (TMiss key) m (TScan (ASkip key)) [] []
| s_scan k p todo : todo ≡ₚ elements (scan_flows p).2 →
    tstep t m (TScan k) m (TResolve k p todo ∅) [p] []
| s_resolve k p pid todo names :
    tstep t m (TResolve k p (pid :: todo) names) m
      (TResolve k p todo (match resolve_name (lookupName m pid) p pid with
                          | None => names
                          | Some n => <[pid := n]> names
                          end)) [] []
| s_store k p names :
    tstep t m (TResolve k p [] names)
      (mkMatcher (targets m) (interval m) (scan_flows p).1 names t) (after k) []
      (match k with ASkip _ => [t] | ALoop => [] end)
| s_found key pid : lookupPID m key = pid → pid ≠ 0 → tstep t m (TAgain key) m (TName key pid) [] []
| s_unknown key : lookupPID m key = 0 → tstep t m (TAgain key) m (TRet key false) [] []
| s_name key pid : tstep t m (TName key pid) m (TRet key (is_target m (lookupName m pid))) [] []
| s_tick : tstep t m TWait m (TScan ALoop) [] []
| s_cancel : tstep t m TWait m TStop [] [].

(** A step of the system: a thread steps, or time passes. *)
Inductive step : State → State → Prop :=
| step_thread s i th m' th' ps ts : threads s !! i = Some th →
    tstep (now s) (shared s) th m' th' ps ts →
    step s (mkState (now s) m' (<[i := th']> (threads s)) (ps ++ hist s) (ts ++ misses s))
| step_time s t' : now s ≤ t' → step s (mkState t' (shared s) (threads s) (hist s) (misses s)).

(** The matcher as created, the loop about to scan and callers with their keys. *)
Definition init (m : Matcher) (t0 : Z) (keys : list gostring) : State :=
  mkState t0 m (TScan ALoop :: (TCall <$> keys)) [] [].

(** *** Invariant *)

(** The names of a table come from scans of the history. *)
Definition names_from (h : list Probe) (names : gmap Z gostring) : Prop :=
  ∀ pid name, names !! pid = Some name →
    pid ≠ 0 ∧ ∃ p raw, p ∈ h ∧ pr_Name p pid = Some raw ∧ name = Normalize raw.

(** The tables are those of one scan of the history, stored whole. *)
Definition tables_from (h : list Probe) (m : Matcher) : Prop :=
  (flowToPID m = ∅ ∧ pidNames m = ∅) ∨
  ∃ p, p ∈ h ∧ flowToPID m = (scan_flows p).1 ∧ dom (pidNames m) ⊆ (scan_flows p).2.

(** [key] belonged to [pid] in some scan. *)
Definition owned (h : list Probe) (key : gostring) (pid : Z) : Prop :=
  ∃ p, p ∈ h ∧ (scan_flows p).1 !! key = Some pid.

Definition thread_ok (ts : gset gostring) (h : list Probe) (th : Thread) : Prop :=
  match th with
  | TResolve _ p todo names =>
      p ∈ h ∧ names_from h names ∧ dom names ⊆ (scan_flows p).2 ∧ (∀ pid, pid ∈ todo → pid ∈ (scan_flows p).2)
  | TName key pid => pid ≠ 0 ∧ owned h key pid
  | TRet key true =>
      ∃ pid p raw, pid ≠ 0 ∧ owned h key pid ∧ p ∈ h ∧ pr_Name p pid = Some raw ∧
        Normalize (Normalize raw) ∈ ts ∧ Normalize (Normalize raw) ≠ []
  | _ => True
  end.

Definition inv (m0 : Matcher) (s : State) : Prop :=
  targets (shared s) = targets m0 ∧ interval (shared s) = interval m0 ∧
  tables_from (hist s) (shared s) ∧ names_from (hist s) (pidNames (shared s)) ∧
  Forall (thread_ok (targets m0) (hist s)) (threads s).

Lemma names_from_mono h h' names : h ⊆ h' → names_from h names → names_from h' names.
Proof. intros Hh H pid name Hn. destruct (H pid name Hn) as (? & p & raw & ? & ? & ?). split; [done|]. exists p, raw. auto. Qed.

Lemma owned_mono h h' key pid : h ⊆ h' → owned h key pid → owned h' key pid.
Proof. intros Hh (p & ? & ?). exists p. auto. Qed.

Lemma thread_ok_mono ts h h' th : h ⊆ h' → thread_ok ts h th → thread_ok ts h' th.
Proof.
  intros Hh. destruct th as [| | |k p todo names| |key pid| | |key []]; cbn; try done.
  - intros (? & ? & ? & ?). split_and!; try done; [by apply Hh|by eapply names_from_mono].
  - intros [? ?]. split; [done|by eapply owned_mono].
  - intros (pid & p & raw & ? & ? & ? & ?). exists pid, p, raw. split_and!; try done; [by eapply owned_mono|by apply Hh|naive_solver..].
Qed.

Lemma lookup_owned h m key : tables_from h m → lookupPID m key ≠ 0 → owned h key (lookupPID m key).
Proof.
  unfold lookupPID. intros [[E _]|(p & Hp & E & _)]; rewrite E; [by rewrite lookup_empty|].
  destruct ((scan_flows p).1 !! key) as [pid|] eqn:El; [|done]. intros _. by exists p.
Qed.

Lemma resolve_from h m p pid n : names_from h (pidNames m) → p ∈ h →
  resolve_name (lookupName m pid) p pid = Some n →
  pid ≠ 0 ∧ ∃ p raw, p ∈ h ∧ pr_Name p pid = Some raw ∧ n = Normalize raw.
Proof.
  intros Hm Hp. unfold resolve_name. case_bool; [done|]. case_bool.
  - unfold lookupName in *. destruct (pidNames m !! pid) as [c|] eqn:E; [|done].
    intros ?; simplify_eq/=. by apply Hm in E.
  - case_bool; [done|]. destruct (pr_Name p pid) as [raw|] eqn:E; [|done]. cbn.
    intros ?; simplify_eq. split; [done|]. by exists p, raw.
Qed.

Lemma tables_from_mono h h' m : h ⊆ h' → tables_from h m → tables_from h' m.
Proof. intros Hh [?|(p & ? & ?)]; [by left|right; exists p; auto]. Qed.

Lemma tstep_ok t m th m' th' ps ts h : tstep t m th m' th' ps ts →
  tables_from h m → names_from h (pidNames m) → thread_ok (targets m) h th →
  targets m' = targets m ∧ interval m' = interval m ∧ tables_from (ps ++ h) m' ∧
  names_from (ps ++ h) (pidNames m') ∧ thread_ok (targets m) (ps ++ h) th'.
Proof.
  assert (h ⊆ ps ++ h) as Hh by set_solver.
  intros Hstep Ht Hn Hth. destruct Hstep; cbn [app] in *; try (split_and!; done).
  - split_and!; try done. cbn. subst pid. split; [done|by apply lookup_owned].
  - split_and!; try done; [by eapply tables_from_mono|by eapply names_from_mono|].
    cbn. split_and!; [left|done|by rewrite dom_empty|].
    intros pid Hpid. rewrite H in Hpid. by apply elem_of_elements.
  - destruct Hth as (Hp & Hf & Hd & Htodo). split_and!; try done. cbn.
    pose proof (λ n, resolve_from h m p pid n Hn Hp) as Hr.
    destruct (resolve_name (lookupName m pid) p pid) as [n|] eqn:E.
    + split_and!; try done.
      * intros q name [[-> <-]|[_ Hq]]%lookup_insert_Some; [by apply Hr|by apply Hf].
      * rewrite dom_insert_L. intros q [->%elem_of_singleton|Hq]%elem_of_union; [apply Htodo; left|by apply Hd].
      * intros q Hq. apply Htodo. by right.
    + split_and!; try done. intros q Hq. apply Htodo. by right.
  - destruct Hth as (Hp & Hf & Hd & _). split_and!; try done; [|by destruct k].
    right. by exists p.
  - split_and!; try done. cbn. subst pid. split; [done|by apply lookup_owned].
  - split_and!; try done. destruct Hth as [Hpid Ho]. cbn [thread_ok].
    destruct (is_target m (lookupName m pid)) eqn:E; [|done].
    apply is_target_true in E as [Hne Hin]. unfold lookupName in *.
    destruct (pidNames m !! pid) as [c|] eqn:Ec; cbn [default] in *; unfold id in *; [|by vm_compute in Hne].
    apply Hn in Ec as (_ & p & raw & Hp & Hraw & ->). by exists pid, p, raw.
Qed.

Lemma step_inv m0 s s' : step s s' → inv m0 s → inv m0 s'.
Proof.
  intros Hs (Ht & Hi & Htab & Hn & Hth). destruct Hs as [s i th m' th' ps ts Hl Hstep|s t' Hle]; [|done].
  assert (thread_ok (targets (shared s)) (hist s) th) as Hok.
  { rewrite Ht. by eapply (Forall_lookup_1 _ _ _ _ Hth). }
  destruct (tstep_ok _ _ _ _ _ _ _ _ Hstep Htab Hn Hok) as (E1 & E2 & E3 & E4 & E5).
  split_and!; cbn; [congruence|congruence|done|done|].
  apply Forall_insert; [|by rewrite <- Ht].
  eapply Forall_impl; [exact Hth|]. intros th0. apply thread_ok_mono. set_solver.
Qed.

Lemma init_inv m t0 keys : flowToPID m = ∅ → pidNames m = ∅ → inv m (init m t0 keys).
Proof.
  intros Ef Ep. split_and!; cbn; try done.
  - by left.
  - rewrite Ep. intros pid name. by rewrite lookup_empty.
  - constructor; [done|]. apply Forall_fmap, Forall_true. done.
Qed.

(** C10: whatever the interleaving of callers and the refresh loop, the two
    tables are always those of one single scan, stored as a whole (never a mix
    of two), the targets never change, and a call answers to skip only if some
    scan had its flow owned by a process whose reported name normalises to a
    target. *)
Theorem interleavings_sound names ival m t0 keys s :
  New names ival = Some m → rtc step (init m t0 keys) s →
  tables_from (hist s) (shared s) ∧ targets (shared s) = target_set names ∧
  ∀ i key, threads s !! i = Some (TRet key true) →
    ∃ pid p raw, pid ≠ 0 ∧ owned (hist s) key pid ∧ p ∈ hist s ∧ pr_Name p pid = Some raw ∧
      Normalize (Normalize raw) ∈ target_set names.
Proof.
  intros Hm Hsteps. assert (m = mkMatcher (target_set names) (interval m) ∅ ∅ zero_time) as Em.
  { destruct names; [done|]. cbn [New] in Hm. by injection Hm as <-. }
  assert (inv m s) as (Ht & _ & Htab & _ & Hth).
  { refine (rtc_ind_r (inv m) (init m t0 keys) _ _ s Hsteps).
    - apply init_inv; by rewrite Em.
    - intros y z _ Hyz Hy. by eapply step_inv. }
  rewrite Em in Ht, Hth. cbn [targets] in *. split_and!; [done|done|].
  intros i key Hi. eapply Forall_lookup_1 in Hth; [|exact Hi].
  destruct Hth as (pid & p & raw & ? & ? & ? & ? & ? & _). by exists pid, p, raw.
Qed.

Lemma step_at t m l1 th l2 h ms m' th' ps ts s : tstep t m th m' th' ps ts →
  rtc step (mkState t m' (l1 ++ th' :: l2) (ps ++ h) (ts ++ ms)) s →
  rtc step (mkState t m (l1 ++ th :: l2) h ms) s.
Proof.
  intros Hstep. apply rtc_l.
  replace (l1 ++ th' :: l2) with (<[length l1 := th']> (l1 ++ th :: l2))
    by (rewrite insert_app_r_alt, Nat.sub_diag by lia; done).
  apply (step_thread (mkState t m (l1 ++ th :: l2) h ms) (length l1) th); [|done].
  cbn [threads]. by rewrite lookup_app_r, Nat.sub_diag by lia.
Qed.

(** A caller that finds the table empty and old scans and stores. *)
Lemma both_scan t m key p : lookupPID m key = 0 → stale m t = true → (scan_flows p).2 = ∅ →
  ∃ s, rtc step (init m t [key; key]) s ∧ misses s = [t; t].
Proof.
  intros Hl Hst Hp. assert ([] ≡ₚ elements (scan_flows p).2) as He by (by rewrite Hp).
  set (m' := mkMatcher (targets m) (interval m) (scan_flows p).1 ∅ t).
  exists (mkState t m' [TScan ALoop; TAgain key; TAgain key] [p; p] [t; t]). split; [|done].
  unfold init. cbn [fmap list_fmap].
  apply (step_at t m [TScan ALoop] _ [TCall key] [] [] m (TMiss key) [] []); [by constructor|].
  apply (step_at t m [TScan ALoop; TMiss key] _ [] [] [] m (TMiss key) [] []); [by constructor|].
  apply (step_at t m [TScan ALoop] _ [TMiss key] [] [] m (TScan (ASkip key)) [] []); [by constructor|].
  apply (step_at t m [TScan ALoop; TScan (ASkip key)] _ [] [] [] m (TScan (ASkip key)) [] []); [by constructor|].
  apply (step_at t m [TScan ALoop] _ [TScan (ASkip key)] [] [] m (TResolve (ASkip key) p [] ∅) [p] []);
    [by constructor|].
  apply (step_at t m [TScan ALoop; TResolve (ASkip key) p [] ∅] _ [] [p] [] m
    (TResolve (ASkip key) p [] ∅) [p] []); [by constructor|].
  apply (step_at t m [TScan ALoop] _ [TResolve (ASkip key) p [] ∅] [p; p] [] m' (TAgain key) [] [t]);
    [exact (s_store t m (ASkip key) p ∅)|].
  apply (step_at t m' [TScan ALoop; TAgain key] _ [] [p; p] [t] m' (TAgain key) [] [t]);
    [exact (s_store t m' (ASkip key) p ∅)|].
  apply rtc_refl.
Qed.

(** The limit of one on-demand scan per second does not hold between
    concurrent callers: two of them can both find the last scan old and both
    store a scan at the same instant. *)
Theorem concurrent_rate_limit_fails (key : gostring) (p : Probe) names ival m :
  New names ival = Some m → (scan_flows p).2 = ∅ →
  ∃ s, rtc step (init m 0 [key; key]) s ∧ misses s = [0; 0].
Proof.
  intros Hm Hp. assert (flowToPID m = ∅ ∧ lastScan m = zero_time) as [Ef El].
  { destruct names; [done|]. cbn [New] in Hm. by injection Hm as <-. }
  assert (lookupPID m key = 0) as Hl by (unfold lookupPID; by rewrite Ef).
  assert (stale m 0 = true) as Hst by (unfold stale; by rewrite El).
  by apply (both_scan 0 m key p).
Qed.

(** *** Termination of a call *)

(** A step of thread [i]. *)
Inductive turn (i : nat) : State → State → Prop :=
| turn_step s th m' th' ps ts : threads s !! i = Some th → tstep (now s) (shared s) th m' th' ps ts →
    turn i s (mkState (now s) m' (<[i := th']> (threads s)) (ps ++ hist s) (ts ++ misses s)).

(** Runs of the system with the number of steps thread [i] made in them. *)
Inductive counted (i : nat) : nat → State → State → Prop :=
| counted_nil s : counted i 0 s s
| counted_own n s s1 s2 : counted i n s s1 → turn i s1 s2 → counted i (S n) s s2
| counted_other n s s1 s2 : counted i n s s1 → step s1 s2 → threads s2 !! i = threads s1 !! i → counted i n s s2.

(** How far a caller can be after [n] steps; [k] is the number of processes its
    scan found. *)
Definition progress (h : list Probe) (n k : nat) (th : Thread) : Prop :=
  match th with
  | TCall _ => n ≤ 0
  | TMiss _ => n ≤ 1
  | TScan (ASkip _) => n ≤ 2
  | TResolve (ASkip _) p todo _ => p ∈ h ∧ k = size (scan_flows p).2 ∧ n + length todo ≤ 3 + k
  | TAgain _ => n ≤ 4 + k
  | TName _ _ => n ≤ 5 + k
  | TRet _ _ => n ≤ 6 + k
  | _ => False
  end%nat.

(** The processes of no scan, or of one of the history. *)
Definition scanned (h : list Probe) (k : nat) : Prop := k = 0%nat ∨ ∃ p, p ∈ h ∧ k = size (scan_flows p).2.

Lemma progress_mono h h' n k th : h ⊆ h' → progress h n k th → progress h' n k th.
Proof. intros Hh. destruct th as [| |[]|[]| | | | |]; cbn; try done. intros (? & ? & ?). auto. Qed.

Lemma scanned_mono h h' k : h ⊆ h' → scanned h k → scanned h' k.
Proof. intros Hh [->|(p & ? & ->)]; [by left|right; exists p; auto]. Qed.

Lemma progress_own t m th m' th' ps ts h n k : tstep t m th m' th' ps ts →
  scanned h k → progress h n k th → ∃ k', scanned (ps ++ h) k' ∧ progress (ps ++ h) (S n) k' th'.
Proof.
  intros Hstep Hk Hp. destruct Hstep as [| | | |c p todo Hperm|c p pid todo names|c p names| | | | |];
    cbn [progress app] in *; try (exists k; split; [done|]; cbn; lia).
  - destruct c as [key|]; [|done]. exists (size (scan_flows p).2). split; [right; exists p; split; [left|done]|].
    split_and!; [left|done|]. rewrite Hperm. change (length (elements (scan_flows p).2)) with (size (scan_flows p).2). lia.
  - exists k. split; [done|]. destruct c; [|done]. cbn in *. destruct Hp as (? & ? & ?). split_and!; [done..|lia].
  - exists k. split; [done|]. destruct c; [|done]. cbn in *. lia.
Qed.

Lemma counted_progress i n m t0 keys s key : counted i n (init m t0 keys) s →
  threads (init m t0 keys) !! i = Some (TCall key) →
  ∃ th k, threads s !! i = Some th ∧ scanned (hist s) k ∧ progress (hist s) n k th.
Proof.
  intros H. remember (init m t0 keys) as s0 eqn:E0.
  induction H as [s|n s s1 s2 H IH Hs|n s s1 s2 H IH Hs Ei]; intros Hi.
  - exists (TCall key), 0%nat. split_and!; [done|by left|cbn; lia].
  - destruct (IH E0 Hi) as (th & k & Eth & Hk & Hp). destruct Hs as [s1 th1 m' th' ps ts E1 Hstep].
    rewrite E1 in Eth. injection Eth as ->. destruct (progress_own _ _ _ _ _ _ _ _ _ _ Hstep Hk Hp) as (k' & Hk' & Hp').
    exists th', k'. split_and!; [|done|done]. cbn. apply list_lookup_insert_eq. by eapply lookup_lt_Some.
  - destruct (IH E0 Hi) as (th & k & Eth & Hk & Hp). exists th, k. rewrite Ei. split; [done|].
    assert (hist s1 ⊆ hist s2) as Hh by (destruct Hs; cbn; set_solver).
    split; [by eapply scanned_mono|by eapply progress_mono].
Qed.

(** One more step of thread [i], then the rest. *)
Lemma turn_more i s th m' th' ps ts (P : Thread → Prop) : threads s !! i = Some th →
  tstep (now s) (shared s) th m' th' ps ts →
  (∀ s', threads s' !! i = Some th' → ∃ s'' r, rtc (turn i) s' s'' ∧ threads s'' !! i = Some r ∧ P r) →
  ∃ s'' r, rtc (turn i) s s'' ∧ threads s'' !! i = Some r ∧ P r.
Proof.
  intros E Hs H. destruct (H (mkState (now s) m' (<[i := th']> (threads s)) (ps ++ hist s) (ts ++ misses s)))
    as (s'' & r & H1 & H2 & H3); [cbn; apply list_lookup_insert_eq; by eapply lookup_lt_Some|].
  exists s'', r. split_and!; [|done..]. eapply rtc_l; [|exact H1]. by apply (turn_step i s th).
Qed.

Definition answered (th : Thread) : Prop := match th with TRet _ _ => True | _ => False end.
Definition can_answer (i : nat) (s : State) : Prop := ∃ s' r, rtc (turn i) s s' ∧ threads s' !! i = Some r ∧ answered r.

Lemma answer_name i s key pid : threads s !! i = Some (TName key pid) → can_answer i s.
Proof.
  intros E. eapply turn_more; [exact E|constructor|]. intros s' E'. eexists s', _. by split_and!; [apply rtc_refl|exact E'|].
Qed.

Lemma answer_again i s key : threads s !! i = Some (TAgain key) → can_answer i s.
Proof.
  intros E. destruct (decide (lookupPID (shared s) key = 0)) as [Hz|Hz].
  - eapply turn_more; [exact E|by apply s_unknown|]. intros s' E'.
    eexists s', _. by split_and!; [apply rtc_refl|exact E'|].
  - eapply turn_more; [exact E|by apply s_found|]. intros s' E'. by eapply answer_name.
Qed.

Lemma answer_resolve i s key p todo names : threads s !! i = Some (TResolve (ASkip key) p todo names) → can_answer i s.
Proof.
  revert s names. induction todo as [|pid todo IH]; intros s names E.
  - eapply turn_more; [exact E|apply s_store|]. intros s' E'. by eapply answer_again.
  - eapply turn_more; [exact E|apply s_resolve|]. intros s' E'. by eapply IH.
Qed.

Lemma answer_miss i s key : threads s !! i = Some (TMiss key) ∨ threads s !! i = Some (TScan (ASkip key)) → can_answer i s.
Proof.
  assert (∀ s, threads s !! i = Some (TScan (ASkip key)) → can_answer i s) as Hscan.
  { intros s0 E. eapply turn_more; [exact E|by apply (s_scan _ _ _ (mkProbe (λ _, None) (λ _, false) (λ _, None)))|].
    intros s' E'. by eapply answer_resolve. }
  intros [E|E]; [|auto]. destruct (stale (shared s) (now s)) eqn:Es.
  - eapply turn_more; [exact E|by apply s_stale|]. intros s' E'. by apply Hscan.
  - eapply turn_more; [exact E|by apply s_fresh|]. intros s' E'. by eapply answer_again.
Qed.

Lemma answer_call i s key : threads s !! i = Some (TCall key) → can_answer i s.
Proof.
  intros E. destruct (decide (lookupPID (shared s) key = 0)) as [Hz|Hz].
  - eapply turn_more; [exact E|by apply s_miss|]. intros s' E'. eapply answer_miss. by left.
  - eapply turn_more; [exact E|by apply s_hit|]. intros s' E'. by eapply answer_name.
Qed.

(** C14: a call terminates, whatever the other callers and the refresh loop do:
    it makes at most six steps of its own and one for each process its single
    scan found, and at every moment it can go on by itself to its answer. *)
Theorem calls_terminate m t0 keys i n key s :
  keys !! i = Some key → counted (S i) n (init m t0 keys) s →
  (∃ k, scanned (hist s) k ∧ (n ≤ 6 + k)%nat) ∧ can_answer (S i) s.
Proof.
  intros Hi Hc.
  assert (threads (init m t0 keys) !! S i = Some (TCall key)) as H0.
  { change ((TCall <$> keys) !! i = Some (TCall key)). by rewrite list_lookup_fmap, Hi. }
  destruct (counted_progress _ _ _ _ _ _ _ Hc H0) as (th & k & Eth & Hk & Hp). split.
  - destruct th as [| |[]|[]| | | | |]; cbn in Hp; try done; try (exists k; split; [done|lia]).
  - destruct th as [| |[]|[]| | | | |]; cbn in Hp; try done;
      eauto using answer_call, answer_miss, answer_resolve, answer_again, answer_name.
    eexists s, _. by split_and!; [apply rtc_refl|exact Eth|].
Qed.
End Conc.
End Conc.

(** ** Histories of calls *)

(** A matcher used for many calls, one after the other: what it says rests on the
    scans made so far. *)
Section History.
Context {MD : MetadataOps} {ML : MetadataLaws MD}.
Import Conc.

(** The tables and names of [m] come from the scans [h]. *)
Definition seen (h : list Probe) (m : Matcher) : Prop := tables_from h m ∧ names_from h (pidNames m).

(** Some scan of [h] had the flow owned by a process, and some scan of [h] named
    that process so that it is one of [ts]. *)
Definition seen_excluded (ts : gset gostring) (h : list Probe) (md : Metadata) : Prop :=
  ∃ pid p q raw, pid ≠ 0 ∧ p ∈ h ∧ owner p (md_Network md) (md_SourceAddrPort md) pid ∧
    q ∈ h ∧ pr_Name q pid = Some raw ∧ Normalize (Normalize raw) ∈ ts.

Lemma seen_new names ival m : New names ival = Some m → seen [] m ∧ targets m = target_set names.
Proof.
  destruct names; [done|]. cbn [New]. intros [= <-]. split; [|done]. split; [by left|].
  intros pid name. cbn. by rewrite lookup_empty.
Qed.

Lemma seen_scan h m p t : seen h m → seen (p :: h) (scanOnce m p t) ∧ targets (scanOnce m p t) = targets m.
Proof.
  intros [_ Hn]. split; [|apply scanOnce_targets].
  assert (names_from (p :: h) (pidNames m)) as Hn' by (eapply names_from_mono; [|exact Hn]; set_solver).
  unfold scanOnce. destruct (scan_flows p) as [f s] eqn:E. split; cbn [flowToPID pidNames].
  - right. exists p. rewrite E. cbn [fst snd flowToPID pidNames]. split_and!; [left|done|].
    intros pid Hpid%elem_of_dom. destruct Hpid as [n Hpid]. rewrite resolve_lookup in Hpid. by case_bool.
  - intros pid n. rewrite resolve_lookup. case_bool; [|done]. intros H1. eapply resolve_from; [exact Hn'|left|exact H1].
Qed.

Lemma seen_skip h m md : seen h m →
  is_target m (lookupName m (lookupPID m (flowKey (md_Network md) (md_SourceAddrPort md)))) = true →
  flowKey (md_Network md) (md_SourceAddrPort md) ≠ [] →
  lookupPID m (flowKey (md_Network md) (md_SourceAddrPort md)) ≠ 0 → seen_excluded (targets m) h md.
Proof.
  intros [Ht Hn] [Hne Hin]%is_target_true Hk Hp. pose proof (lookup_owned h m _ Ht Hp) as (p & Hph & Ho).
  apply scan_lookup in Ho; [|apply md_source_wf|destruct (ap_IsValid _) eqn:E; [done|by rewrite flowKey_nil in Hk]].
  set (pid := lookupPID m _) in *. unfold lookupName in *.
  destruct (pidNames m !! pid) as [c|] eqn:Ec; cbn [default] in *; unfold id in *; [|by vm_compute in Hne].
  apply Hn in Ec as (_ & q & raw & Hq & Hraw & ->). by exists pid, p, q, raw.
Qed.

(** The last scan of [h] had the flow owned by a process it could name, and every
    scan of [h] that named the process named it as one of [ts]. *)
Definition always_excluded (ts : gset gostring) (h : list Probe) (md : Metadata) : Prop :=
  ∃ pid p, head h = Some p ∧ pid ≠ 0 ∧ owner p (md_Network md) (md_SourceAddrPort md) pid ∧
    pr_NewProcess p pid = true ∧ is_Some (pr_Name p pid) ∧
    ∀ q raw, q ∈ h → pr_Name q pid = Some raw → Normalize (Normalize raw) ∈ ts.

(** The tables are those of the last scan, and every process it could name has a
    name. *)
Definition latest (h : list Probe) (m : Matcher) : Prop :=
  ∀ p, head h = Some p → flowToPID m = (scan_flows p).1 ∧
    ∀ pid, pid ∈ (scan_flows p).2 → pid ≠ 0 → pr_NewProcess p pid = true → is_Some (pr_Name p pid) →
      is_Some (pidNames m !! pid).

Lemma latest_scan h m p t : latest (p :: h) (scanOnce m p t).
Proof.
  intros q [= <-]. unfold scanOnce. destruct (scan_flows p) as [f s] eqn:E. cbn [flowToPID pidNames fst snd]. split; [done|].
  intros pid Hin Hne Hnew [raw Hraw]. rewrite resolve_lookup, bool_decide_eq_true_2 by done.
  unfold resolve_name. rewrite (proj2 (Z.eqb_neq _ _)), Hnew, Hraw by done. cbn [negb]. by case_bool; eexists.
Qed.

Lemma latest_skip h m md : [] ∉ targets m → seen h m → latest h m → always_excluded (targets m) h md →
  lookupPID m (flowKey (md_Network md) (md_SourceAddrPort md)) ≠ 0 ∧
  is_target m (lookupName m (lookupPID m (flowKey (md_Network md) (md_SourceAddrPort md)))) = true.
Proof.
  intros H0 [_ Hn] Hl (pid & p & Hh & Hne & Ho & Hnew & Hname & Hall). destruct (Hl p Hh) as [Ef Hd].
  pose proof (owner_valid _ _ _ _ Ho) as [Hw Hv]. apply (scan_lookup p _ _ pid Hw Hv) in Ho as Hf.
  unfold lookupPID. rewrite Ef, Hf. cbn [default]. unfold id. split; [done|].
  destruct (Hd pid (scan_key_pid _ _ _ Hf) Hne Hnew Hname) as [n En]. unfold lookupName. rewrite En. cbn [default]. unfold id.
  destruct (Hn pid n En) as (_ & q & raw & Hq & Hr & ->). specialize (Hall q raw Hq Hr).
  apply is_target_true. split; [|done]. intros E. by rewrite E in Hall.
Qed.

(** One call, with the scans it made. *)
Lemma seen_call h m e md : [] ∉ targets m → seen h m → latest h m →
  let r := ShouldSkip_scans (Some m) e md in let h' := (me_probe <$> r.2) ++ h in
  ∃ m', r.1.2 = Some m' ∧ seen h' m' ∧ latest h' m' ∧ targets m' = targets m ∧
    (r.1.1 = true → seen_excluded (targets m) h' md) ∧ (always_excluded (targets m) h' md → r.1.1 = true) ∧
    (r.2 = [] ∨ r.2 = [e]).
Proof.
  intros H0 H L. cbn zeta. cbn [ShouldSkip_scans]. case_bool.
  { exists m. split_and!; try done; [|by left]. cbn [fst snd fmap list_fmap app]. intros (pid & p & _ & _ & Ho & _).
    apply owner_valid in Ho as [_ Hv]. by rewrite flowKey_nil, Hv in *. }
  case_bool.
  - set (r := refreshOnMiss m e).
    assert (seen ((me_probe <$> r.2) ++ h) r.1 ∧ latest ((me_probe <$> r.2) ++ h) r.1 ∧ targets r.1 = targets m ∧
      (r.2 = [] ∨ r.2 = [e])) as (Hs & Hl & Et & Hr).
    { unfold r, refreshOnMiss. destruct (negb _); [by auto|]. destruct (seen_scan h m (me_probe e) (me_end e) H).
      split_and!; [done|apply latest_scan|done|by right]. }
    destruct r as [m' scans]. cbn [fst snd] in *. pose proof (latest_skip ((me_probe <$> scans) ++ h) m' md) as Hc. rewrite Et in Hc. specialize (Hc H0 Hs Hl).
    destruct (lookupPID m' _ =? 0) eqn:E0; b2p; exists m'; split_and!; try done; cbn [fst]; [..|by intros []%Hc].
    + by intros [? _]%Hc.
    + intros Ht. rewrite <- Et. by apply seen_skip.
  - exists m. pose proof (latest_skip h m md H0 H L) as Hc. split_and!; try done; [..|by left]; cbn [fst snd fmap list_fmap app];
      [intros Ht; by apply seen_skip|by intros []%Hc].
Qed.
End History.

(** ** Evaluation *)

Module ExcludeExample.
Import Flow Conc.
Definition table (name : gostring) : Probe :=
  mkProbe (λ kind, if bool_decide (kind = "tcp6") then Some [mkConn "ESTABLISHED" "::ffff:198.18.0.2" 5000 42] else None)
    (λ _, true) (λ _, Some name).
Definition src : Z := 198 * 2 ^ 24 + 18 * 2 ^ 16 + 2.
Definition md : Metadata := mkFlow false src 5000 (Addr4 134744072).
Definition env (t : Z) (name : gostring) : MissEnv := mkMiss t (table name) t.
Definition cfg : list gostring := [str "Firefox.exe"; str " foo"].
Definition m0 : Matcher := mkMatcher (target_set (normalizeProcessList cfg)) (15 * second) ∅ ∅ zero_time.
Definition m1 : Matcher := scanOnce m0 (table "Foo.EXE") 0.
Definition key : gostring := "tcp:198.18.0.2:5000".

Lemma m0_New : New (normalizeProcessList cfg) 0 = Some m0.
Proof. vm_compute. reflexivity. Qed.

Lemma owner_42 name : owner (table name) (md_Network md) (md_SourceAddrPort md) 42.
Proof. exists [], []. split; [|intros ?; apply not_elem_of_nil]. vm_compute. reflexivity. Qed.

Lemma configured_process_skipped_witness :
  (ShouldSkip (New (normalizeProcessList cfg) 0) (env 0 "Foo.EXE") md).1 = true.
Proof.
  refine (proj2 (configured_process_skipped cfg 0 (env 0 "Foo.EXE") md _) _); [by vm_compute|].
  exists 42, (str "Foo.EXE"), (str " foo"). split; [apply owner_42|].
  split_and!; [lia|done|done| |vm_compute; reflexivity|vm_compute; discriminate].
  right. left.
Defined.

Lemma ShouldSkip_cached_witness : ShouldSkip_scans (Some m1) (env 0 "other") md = ((true, Some m1), []).
Proof.
  refine (eq_trans (ShouldSkip_cached m1 (env 0 "other") md 42 _ _ _) _);
    [vm_compute; reflexivity|lia|vm_compute; reflexivity|].
  reflexivity.
Defined.

Lemma scanOnce_replaces_witness :
  (size (pidNames (scanOnce m0 (table "Foo.EXE") 7)) ≤ length (owners (table "Foo.EXE")))%nat ∧
  lastScan (scanOnce m0 (table "Foo.EXE") 7) = 7.
Proof.
  destruct (scanOnce_replaces m0 (table "Foo.EXE") 7) as (_ & _ & H1 & _ & H2 & _). exact (conj H1 H2).
Defined.

Lemma name_survives_pid_reuse_witness :
  lookupName (scanOnce (scanOnce m0 (table "Foo.EXE") 0) (table "bar") second) 42 = str "foo".
Proof.
  refine (name_survives_pid_reuse m0 (table "Foo.EXE") (table "bar") 0 second 42 (str "Foo.EXE") _ _ _ _ _ _ _);
    [lia|by vm_compute|done|done|by vm_compute| |];
    destruct (owner_42 "bar") as (l1 & l2 & E & _); exists (md_Network md), (md_SourceAddrPort md);
    change (owners (table "Foo.EXE")) with (owners (table "bar")); rewrite E; apply elem_of_app; right; left.
Defined.

(** Two misses half a second apart, then one later: two scans. *)
Definition other : Metadata := mkFlow true src 6000 (Addr4 134744072).
Definition three : list (MissEnv * Metadata) :=
  [(env 0 "a", other); (env (second / 2) "a", other); (env (2 * second) "a", other)].
Lemma sequential_rate_limit_witness :
  calls_scans (Some m0) three = [env 0 "a"; env (2 * second) "a"] ∧
  (calls_scans (Some m0) three = [] ∨ Z.of_nat (length (calls_scans (Some m0) three)) * second < 3 * second - zero_time).
Proof.
  split; [vm_compute; reflexivity|].
  refine (proj2 (sequential_rate_limit m0 three) _ (3 * second) _);
    change (calls_scans (Some m0) three) with [env 0 "a"; env (2 * second) "a"]; repeat constructor; by vm_compute.
Defined.

(** The loop scans, then a caller finds its flow. *)
Lemma run_skip : ∃ s, rtc step (init m0 0 [key]) s ∧ threads s = [TWait; TRet key true].
Proof.
  set (p := table "Foo.EXE"). set (names := {[42 := str "foo"]} : gmap Z gostring).
  set (m' := mkMatcher (targets m0) (interval m0) (scan_flows p).1 names 0).
  exists (mkState 0 m' [TWait; TRet key true] [p] []). split; [|done].
  apply (step_at 0 m0 [] _ [TCall key] [] [] m0 (TResolve ALoop p [42] ∅) [p] []).
  { constructor. by replace (elements (scan_flows p).2) with [42] by (vm_compute; reflexivity). }
  apply (step_at 0 m0 [] _ [TCall key] [p] [] m0 (TResolve ALoop p [] names) [] []).
  { exact (s_resolve 0 m0 ALoop p 42 [] ∅). }
  apply (step_at 0 m0 [] _ [TCall key] [p] [] m' TWait [] []); [exact (s_store 0 m0 ALoop p names)|].
  apply (step_at 0 m' [TWait] _ [] [p] [] m' (TName key 42) [] []).
  { constructor; [vm_compute; reflexivity|lia]. }
  apply (step_at 0 m' [TWait] _ [] [p] [] m' (TRet key true) [] []); [|apply rtc_refl].
  replace true with (is_target m' (lookupName m' 42)) by (vm_compute; reflexivity). constructor.
Qed.

Lemma interleavings_sound_witness :
  ∃ h pid p raw, owned h key pid ∧ p ∈ h ∧ pr_Name p pid = Some raw ∧
    Normalize (Normalize raw) ∈ target_set (normalizeProcessList cfg).
Proof.
  destruct run_skip as (s & Hs & Ht).
  destruct (interleavings_sound (normalizeProcessList cfg) 0 m0 0 [key] s m0_New Hs) as (_ & _ & H).
  destruct (H 1%nat key) as (pid & p & raw & _ & H1 & H2 & H3 & H4); [by rewrite Ht|].
  exists (hist s), pid, p, raw. exact (conj H1 (conj H2 (conj H3 H4))).
Defined.

Lemma concurrent_rate_limit_fails_witness :
  ∃ s, rtc step (init m0 0 [key; key]) s ∧ misses s = [0; 0].
Proof.
  refine (concurrent_rate_limit_fails key (mkProbe (λ _, None) (λ _, false) (λ _, None))
    (normalizeProcessList cfg) 0 m0 m0_New _). vm_compute. reflexivity.
Defined.

(** A caller that has missed the table. *)
Lemma calls_terminate_witness : ∃ s, threads s = [TScan ALoop; TMiss key] ∧ can_answer 1 s.
Proof.
  set (s := mkState 0 m0 [TScan ALoop; TMiss key] [] []). exists s. split; [done|].
  refine (proj2 (calls_terminate m0 0 [key] 0 1 key s eq_refl _)).
  refine (counted_own 1 0 (init m0 0 [key]) (init m0 0 [key]) s (counted_nil _ _) _).
  exact (turn_step 1 (init m0 0 [key]) (TCall key) m0 (TMiss key) [] [] eq_refl (s_miss 0 m0 key eq_refl)).
Defined.
End ExcludeExample.
