(* ===== verification/Effects.v ===== *)
(** * Programs with effects

    Code that talks to the outside (commands, sockets, files, devices) is
    modelled as a tree of requests: each request has the type of answers the
    outside can give, and the program continues with the answer.  The outside
    is not modelled: a run of the program is its trace, the requests made with
    the answers received, and a theorem about all traces holds whatever the
    operating system, the network or the user does.  Trees are inductive, so
    every program here terminates by construction. *)

From S2P Require Import Prelude.

Section Io.
Context {E : Type} {R : E → Type}.

Inductive io (A : Type) : Type :=
| Ret (a : A)
| Vis (e : E) (k : R e → io A).
Arguments Ret {A} a.
Arguments Vis {A} e k.

(** A request with the answer it got. *)
Definition event : Type := {e : E & R e}.
Definition ev (e : E) (r : R e) : event := existT e r.

Fixpoint io_bind {A B} (m : io A) (k : A → io B) : io B :=
  match m with
  | Ret a => k a
  | Vis e f => Vis e (λ r, io_bind (f r) k)
  end.

Definition request (e : E) : io (R e) := Vis e Ret.

(** [runs m tr a]: [m] can make the requests of [tr], get the answers of [tr]
    and end with [a]. *)
Fixpoint runs {A} (m : io A) (tr : list event) (a : A) : Prop :=
  match m with
  | Ret a' => tr = [] ∧ a = a'
  | Vis e k => ∃ r tr', tr = ev e r :: tr' ∧ runs (k r) tr' a
  end.

(** The run in an environment that answers by what has happened so far. *)
Fixpoint exec {A} (h : list event → ∀ e, R e) (past : list event) (m : io A) : list event * A :=
  match m with
  | Ret a => (past, a)
  | Vis e k => let r := h past e in exec h (past ++ [ev e r]) (k r)
  end.

(** Every environment gives a run. *)
Lemma exec_runs {A} h past (m : io A) :
  ∃ tr, exec h past m = (past ++ tr, (exec h past m).2) ∧ runs m tr (exec h past m).2.
Proof.
  revert past. induction m as [a|e k IH]; intros past; cbn [exec].
  - exists []. split; [by rewrite app_nil_r|done].
  - destruct (IH (h past e) (past ++ [ev e (h past e)])) as (tr & E1 & E2).
    exists (ev e (h past e) :: tr). split; [|by exists (h past e), tr].
    rewrite E1 at 1. by rewrite <- app_assoc.
Qed.

Lemma exec_run {A} h (m : io A) : runs m (exec h [] m).1 (exec h [] m).2.
Proof. destruct (exec_runs h [] m) as (tr & E1 & H). rewrite E1. exact H. Qed.

Lemma exec_run_snd {A B} h (m : io (A * B)) b : (exec h [] m).2.2 = b →
  runs m (exec h [] m).1 ((exec h [] m).2.1, b).
Proof. intros <-. rewrite <- surjective_pairing. apply exec_run. Qed.

Lemma exec_run_unit h (m : io ()) : runs m (exec h [] m).1 tt.
Proof. pose proof (exec_run h m) as H. by destruct (exec h [] m).2. Qed.

Lemma runs_total {A} (m : io A) (h : ∀ e, R e) : ∃ tr a, runs m tr a.
Proof. destruct (exec_runs (λ _, h) [] m) as (tr & _ & H). eauto. Qed.

Lemma runs_ret_inv {A} (a : A) tr b : runs (Ret a) tr b → tr = [] ∧ b = a.
Proof. done. Qed.

Lemma runs_vis_inv {A} e (k : R e → io A) tr a : runs (Vis e k) tr a →
  ∃ r tr', tr = ev e r :: tr' ∧ runs (k r) tr' a.
Proof. done. Qed.

Lemma runs_bind_inv {A B} (m : io A) (k : A → io B) tr b : runs (io_bind m k) tr b →
  ∃ tr1 tr2 a, tr = tr1 ++ tr2 ∧ runs m tr1 a ∧ runs (k a) tr2 b.
Proof.
  revert tr. induction m as [a|e f IH]; intros tr H; cbn [io_bind] in H.
  - by exists [], tr, a.
  - apply runs_vis_inv in H as (r & tr' & -> & H). apply IH in H as (tr1 & tr2 & a & -> & H1 & H2).
    exists (ev e r :: tr1), tr2, a. split_and!; [done|by exists r, tr1|done].
Qed.

Lemma runs_bind {A B} (m : io A) (k : A → io B) tr1 tr2 a b :
  runs m tr1 a → runs (k a) tr2 b → runs (io_bind m k) (tr1 ++ tr2) b.
Proof.
  revert tr1. induction m as [a'|e f IH]; intros tr1; cbn [io_bind].
  - by intros [-> ->].
  - intros (r & tr' & -> & H1) H2. exists r, (tr' ++ tr2). auto.
Qed.

Lemma runs_request_inv e tr r : runs (request e) tr r → tr = [ev e r].
Proof.
  intros (r' & tr' & -> & H)%runs_vis_inv. by apply runs_ret_inv in H as [-> ->].
Qed.
End Io.
Arguments io {E} R A.
Arguments event {E} R.
Arguments Ret {E R A} a.
Arguments Vis {E R A} e k.

Notation "'do' x '<-' m ';' k" := (io_bind m (λ x, k))
  (at level 100, x pattern, m at level 90, k at level 200, right associativity) : stdpp_scope.
Notation "'do_' m ';' k" := (io_bind m (λ _, k))
  (at level 100, m at level 90, k at level 200, right associativity) : stdpp_scope.

(** [defer fin()] around the rest of a function. *)
Definition deferred {E} {R : E → Type} {A} (fin : io R ()) (body : io R A) : io R A :=
  do a <- body; do_ fin; Ret a.

Lemma runs_deferred {E} {R : E → Type} {A} (fin : io R ()) (body : io R A) tr a : runs (deferred fin body) tr a →
  ∃ tr1 tr2, tr = tr1 ++ tr2 ∧ runs body tr1 a ∧ runs fin tr2 tt.
Proof.
  intros (t1 & t2 & b & -> & H1 & H2)%runs_bind_inv.
  apply runs_bind_inv in H2 as (t3 & t4 & [] & -> & H3 & [-> ->]). exists t1, t3. by rewrite app_nil_r.
Qed.

(** [run_inv H] takes a run of a composed program apart. *)
Ltac run_inv H :=
  repeat match type of H with
  | runs (Ret _) _ _ => apply runs_ret_inv in H; destruct H as [-> H]
  | runs (@request ?E ?R ?e) ?tr ?r => apply (@runs_request_inv E R e tr r) in H; try subst tr
  | runs (Vis _ _) _ _ =>
      let r := fresh "r" in let tr := fresh "tr" in
      apply runs_vis_inv in H; destruct H as (r & tr & -> & H)
  | runs (io_bind _ _) _ _ =>
      let t1 := fresh "tr" in let t2 := fresh "tr" in let a := fresh "a" in
      let H1 := fresh "Hr" in
      apply runs_bind_inv in H; destruct H as (t1 & t2 & a & -> & H1 & H); run_inv H1
  end.
