(* ===== verification/Dns.v ===== *)
(** * The DNS relay (internal/gateway/dns.go, dns_mark_linux.go, dns_mark_other.go)

    [Handle] relays one query over UDP, [HandleTCP] one over TCP with its
    two-byte length prefix.  The client connection, the upstream socket and the
    log are outside: the relay is a program with effects, and the theorems hold
    for every trace. *)

From S2P Require Import Prelude GoStrings Netip Netaddr Config Effects.

(** ** Definitions *)

Definition dnsReadTimeout : Z := 5 * second.
Definition dnsForwardTimeout : Z := 5 * second.
Definition dnsBufSize : nat := 4096.

(** Where the program runs decides the mark of the upstream socket. *)
Inductive Platform : Type := Linux | OtherOS.
Definition nanotunMark (os : Platform) : Z := match os with Linux => 0x6e74 | OtherOS => 0 end.

(** The two ends of the relay. *)
Inductive peer : Type := Client | Upstream.

Definition peer_eqb (a b : peer) : bool :=
  match a, b with Client, Client | Upstream, Upstream => true | _, _ => false end.

Inductive net : Type :=
| Read (who : peer) (n : nat)                  (* at most [n] bytes *)
| Write (who : peer) (data : gostring)
| SetReadDeadline (who : peer) (d : Z)         (* [time.Now().Add(d)] *)
| SetWriteDeadline (who : peer) (d : Z)
| SetDeadline (who : peer) (d : Z)
| Dial (network : gostring) (mark : Z) (addr : gostring)
| Close (who : peer)
| Debug (msg : gostring).

(** A read gives bytes and whether there was an error; a write and a dial
    whether they succeeded. *)
Definition net_ans (e : net) : Type :=
  match e with
  | Read _ _ => gostring * bool
  | Write _ _ | Dial _ _ _ => bool
  | _ => ()
  end.

Definition relay := io net_ans.

Record DNSRelay : Type := newDNSRelay { upstream : AddrPort }.

Definition fail (msg : gostring) : relay () := request (Debug msg).

(** [io.ReadFull]: reads until the buffer is full; an error counts only when it
    is not.  A reader gives at least one byte or an error, so [n] reads are
    enough for [n] bytes. *)
Fixpoint read_full (fuel : nat) (who : peer) (need : nat) (acc : gostring) : relay (option gostring) :=
  match need, fuel with
  | O, _ => Ret (Some acc)
  | _, O => Ret None
  | _, S f =>
      do r <- (request (Read who need) : relay (gostring * bool));
      if (need <=? length r.1)%nat then Ret (Some (acc ++ r.1))
      else if r.2 then Ret None
      else read_full f who (need - length r.1) (acc ++ r.1)
  end.
Definition ReadFull (who : peer) (n : nat) : relay (option gostring) := read_full n who n [].

Definition Uint16 (b : gostring) : Z := be_value (bval <$> take 2 b).
Definition PutUint16 (v : Z) : gostring := [byte_of_Z (v / 256); byte_of_Z v].

(** The part of [Handle] after the query is read. *)
Definition forward_udp (os : Platform) (r : DNSRelay) (query : gostring) : relay () :=
  do ok <- (request (Dial "udp" (nanotunMark os) (addrport_String (upstream r))) : relay bool);
  if negb ok then fail "dns relay: dial upstream"
  else deferred (request (Close Upstream)) (
    do_ (request (SetDeadline Upstream dnsForwardTimeout) : relay ());
    do wok <- (request (Write Upstream query) : relay bool);
    if negb wok then fail "dns relay: write query to upstream"
    else
      do rs <- (request (Read Upstream dnsBufSize) : relay (gostring * bool));
      if rs.2 then fail "dns relay: read response from upstream"
      else
        do_ (request (SetWriteDeadline Client dnsReadTimeout) : relay ());
        do cok <- (request (Write Client rs.1) : relay bool);
        if negb cok then fail "dns relay: write response to client" else Ret tt).

Definition Handle (os : Platform) (r : DNSRelay) : relay () :=
  deferred (request (Close Client)) (
    do_ (request (SetReadDeadline Client dnsReadTimeout) : relay ());
    do rd <- (request (Read Client dnsBufSize) : relay (gostring * bool));
    if rd.2 then fail "dns relay: read query" else forward_udp os r rd.1).

(** A length-prefixed message is accepted when its length is 1 to 4096. *)
Definition bad_len (l : Z) : bool := (l =? 0) || (l >? Z.of_nat dnsBufSize).

(** The part of [HandleTCP] after the query is read. *)
Definition forward_tcp (os : Platform) (r : DNSRelay) (query : gostring) : relay () :=
  do ok <- (request (Dial "tcp" (nanotunMark os) (addrport_String (upstream r))) : relay bool);
  if negb ok then fail "dns relay tcp: dial upstream"
  else deferred (request (Close Upstream)) (
    do_ (request (SetDeadline Upstream dnsForwardTimeout) : relay ());
    let wire := PutUint16 (uint16 (Z.of_nat (length query))) ++ query in
    do wok <- (request (Write Upstream wire) : relay bool);
    if negb wok then fail "dns relay tcp: write query to upstream"
    else
      do respLenBuf <- ReadFull Upstream 2;
      match respLenBuf with
      | None => fail "dns relay tcp: read response length"
      | Some rb =>
          let respLen := Uint16 rb in
          if bad_len respLen then fail "dns relay tcp: invalid response length"
          else
            do resp <- ReadFull Upstream (Z.to_nat respLen);
            match resp with
            | None => fail "dns relay tcp: read response"
            | Some resp =>
                do_ (request (SetWriteDeadline Client dnsReadTimeout) : relay ());
                let respWire := PutUint16 (uint16 respLen) ++ resp in
                do cok <- (request (Write Client respWire) : relay bool);
                if negb cok then fail "dns relay tcp: write response to client" else Ret tt
            end
      end).

Definition HandleTCP (os : Platform) (r : DNSRelay) : relay () :=
  deferred (request (Close Client)) (
    do_ (request (SetReadDeadline Client dnsReadTimeout) : relay ());
    do lenBuf <- ReadFull Client 2;
    match lenBuf with
    | None => fail "dns relay tcp: read length prefix"
    | Some lb =>
        let msgLen := Uint16 lb in
        if bad_len msgLen then fail "dns relay tcp: invalid message length"
        else
          do query <- ReadFull Client (Z.to_nat msgLen);
          match query with
          | None => fail "dns relay tcp: read query"
          | Some query => forward_tcp os r query
          end
    end).

(** ** What a trace shows *)

Definition ev_read (who : peer) (x : event net_ans) : gostring :=
  match x with
  | existT (Read w _) r => if peer_eqb w who then r.1 else []
  | _ => []
  end.
Definition ev_write (who : peer) (x : event net_ans) : list gostring :=
  match x with
  | existT (Write w d) _ => if peer_eqb w who then [d] else []
  | _ => []
  end.
Definition ev_close (x : event net_ans) : list peer :=
  match x with existT (Close w) _ => [w] | _ => [] end.
Definition ev_dial (x : event net_ans) : list (gostring * Z * gostring * bool) :=
  match x with existT (Dial n m a) ok => [(n, m, a, ok)] | _ => [] end.

(** The bytes read from a peer, the writes to it, the connections closed and
    the dials, in order. *)
Definition bytes_read who (tr : list (event net_ans)) : gostring := tr ≫= ev_read who.
Definition writes who (tr : list (event net_ans)) : list gostring := tr ≫= ev_write who.
Definition closes (tr : list (event net_ans)) : list peer := tr ≫= ev_close.
Definition dials (tr : list (event net_ans)) := tr ≫= ev_dial.

(** A read gives no more than was asked for. *)
Definition read_ok (x : event net_ans) : Prop :=
  match x with existT (Read _ n) r => (length r.1 ≤ n)%nat | _ => True end.

(** ** Lemmas *)

Lemma bytes_read_app who a b : bytes_read who (a ++ b) = bytes_read who a ++ bytes_read who b.
Proof. apply bind_app. Qed.
Lemma writes_app who a b : writes who (a ++ b) = writes who a ++ writes who b.
Proof. apply bind_app. Qed.
Lemma closes_app a b : closes (a ++ b) = closes a ++ closes b.
Proof. apply bind_app. Qed.
Lemma dials_app a b : dials (a ++ b) = dials a ++ dials b.
Proof. apply bind_app. Qed.

Lemma bytes_read_cons who x l : bytes_read who (x :: l) = ev_read who x ++ bytes_read who l.
Proof. done. Qed.
Lemma writes_cons who x l : writes who (x :: l) = ev_write who x ++ writes who l.
Proof. done. Qed.
Lemma closes_cons x l : closes (x :: l) = ev_close x ++ closes l.
Proof. done. Qed.
Lemma dials_cons x l : dials (x :: l) = ev_dial x ++ dials l.
Proof. done. Qed.
Lemma summaries_nil : (∀ w, bytes_read w [] = []) ∧ (∀ w, writes w [] = []) ∧ closes [] = [] ∧ dials [] = [].
Proof. done. Qed.

#[export] Hint Rewrite bytes_read_app writes_app closes_app dials_app bytes_read_cons writes_cons closes_cons
  dials_cons (proj1 summaries_nil) (proj1 (proj2 summaries_nil)) (proj1 (proj2 (proj2 summaries_nil)))
  (proj2 (proj2 (proj2 summaries_nil))) : nanotun_rw.

(** The summaries of a trace that is written out. *)
Ltac summarise :=
  autorewrite with nanotun_rw; unfold ev; cbn [ev_read ev_write ev_close ev_dial peer_eqb];
  rewrite ?app_nil_r; cbn [app].

Lemma peer_eqb_refl w : peer_eqb w w = true.
Proof. by destruct w. Qed.

(** A trace that only reads from [who]. *)
Definition only_reads (who : peer) (tr : list (event net_ans)) : Prop :=
  (∀ w, writes w tr = []) ∧ closes tr = [] ∧ dials tr = [] ∧ ∀ w, w ≠ who → bytes_read w tr = [].

Lemma read_full_run f who need acc tr o : runs (read_full f who need acc) tr o → Forall read_ok tr →
  only_reads who tr ∧
  ∀ q, o = Some q → q = acc ++ bytes_read who tr ∧ length (bytes_read who tr) = need.
Proof.
  revert need acc tr. induction f as [|f IH]; intros [|need] acc tr H Hok; cbn [read_full] in H.
  1,3: destruct H as [-> ->]; split; [done|]; intros q [= ->]; by rewrite app_nil_r.
  1: by destruct H as [-> ->].
  apply runs_bind_inv in H as (t1 & t2 & r & -> & H1 & H2). run_inv H1.
  apply Forall_cons in Hok as [Hr Hok]. unfold ev in Hr. cbn [read_ok] in Hr.
  assert (∀ t, only_reads who t → only_reads who (ev (Read who (S need)) r :: t)) as Hcons.
  { intros t (A & B & C & D). split_and!; intros; summarise; [apply A|exact B|exact C|].
    destruct w, who; try done; by apply D. }
  destruct (S need <=? length r.1)%nat eqn:E.
  - destruct H2 as [-> ->]. split; [by apply Hcons|]. intros q [= <-]. apply Nat.leb_le in E.
    summarise. rewrite peer_eqb_refl, ?app_nil_r. split; [done|lia].
  - destruct r.2; [destruct H2 as [-> ->]; split; [by apply Hcons|done]|].
    apply IH in H2 as [Ho Hq]; [|done]. split; [by apply Hcons|]. intros q Eq.
    apply Hq in Eq as [-> Hl]. summarise. rewrite peer_eqb_refl.
    rewrite length_app, <- app_assoc, Hl. apply Nat.leb_gt in E. split; [done|lia].
Qed.

Lemma ReadFull_run who n tr o : runs (ReadFull who n) tr o → Forall read_ok tr →
  only_reads who tr ∧ ∀ q, o = Some q → bytes_read who tr = q ∧ length q = n.
Proof.
  intros H Hok. apply read_full_run in H as [Ho Hq]; [|done]. split; [done|].
  intros q Eq. apply Hq in Eq as [-> Hl]. done.
Qed.

(** *** Frames *)

Definition frame (q : gostring) : gostring := PutUint16 (Z.of_nat (length q)) ++ q.

Lemma Uint16_range b : 0 ≤ Uint16 b < 65536.
Proof.
  unfold Uint16. assert (Forall is_octet (bval <$> take 2 b)) as H.
  { apply Forall_fmap, Forall_true. intros x. apply bval_range. }
  apply be_value_range in H. rewrite length_fmap, length_take in H.
  assert (256 ^ Z.of_nat (2 `min` length b) ≤ 256 ^ 2) by (apply Z.pow_le_mono_r; lia). lia.
Qed.

Lemma Uint16_pair x y t : Uint16 (x :: y :: t) = bval x * 256 + bval y.
Proof. change (Uint16 (x :: y :: t)) with ((0 * 256 + bval x) * 256 + bval y). lia. Qed.

(** A prefix read back is the prefix written. *)
Lemma PutUint16_Uint16 b : length b = 2%nat → PutUint16 (Uint16 b) = b.
Proof.
  destruct b as [|x [|y [|]]]; [done|done| |done]. intros _. rewrite Uint16_pair. unfold PutUint16.
  pose proof (bval_range x). pose proof (bval_range y).
  replace ((bval x * 256 + bval y) / 256) with (bval x) by (rewrite Z.div_add_l, Z.div_small by lia; lia).
  rewrite byte_of_Z_bval. f_equal. f_equal. apply (inj bval). rewrite bval_byte_of_Z.
  rewrite Z.add_comm, Z_mod_plus_full. apply Z.mod_small. lia.
Qed.

Lemma Uint16_PutUint16 v t : 0 ≤ v < 65536 → Uint16 (PutUint16 v ++ t) = v.
Proof.
  intros Hv. unfold PutUint16. cbn [app]. rewrite Uint16_pair, !bval_byte_of_Z.
  assert (0 ≤ v / 256 < 256) by (split; [apply Z.div_pos; lia|apply Z.div_lt_upper_bound; lia]).
  rewrite (Z.mod_small (v / 256)) by lia. pose proof (Z.div_mod v 256 ltac:(lia)). lia.
Qed.

(** What [ReadFull] of a prefix and then of that many bytes reads is a frame. *)
Lemma read_frame b q : length b = 2%nat → bad_len (Uint16 b) = false →
  length q = Z.to_nat (Uint16 b) → b ++ q = frame q ∧ (1 ≤ length q ≤ dnsBufSize)%nat
    ∧ PutUint16 (uint16 (Uint16 b)) ++ q = frame q.
Proof.
  intros Hb Hl Hq. pose proof (Uint16_range b) as Hr. unfold bad_len in Hl. rewrite Z.gtb_ltb in Hl. b2p.
  rewrite uint16_small by lia. unfold frame. rewrite Hq, Z2Nat.id by lia.
  rewrite PutUint16_Uint16 by done. unfold dnsBufSize in *. split_and!; try done; lia.
Qed.

(** *** The forwarding half *)

(** What forwarding a query leaves in the trace: one dial; the upstream
    connection closed if it was opened; at most the query written upstream; and
    nothing written to the client but all that the upstream sent. *)
Definition forwarded (network : gostring) (os : Platform) (r : DNSRelay) (wire : gostring)
    (P : gostring → Prop) (tr : list (event net_ans)) : Prop :=
  (∃ ok, dials tr = [(network, nanotunMark os, addrport_String (upstream r), ok)] ∧
         closes tr = if ok then [Upstream] else []) ∧
  bytes_read Client tr = [] ∧
  (writes Upstream tr = [] ∨ writes Upstream tr = [wire]) ∧
  (writes Client tr = [] ∨
   writes Upstream tr = [wire] ∧ writes Client tr = [bytes_read Upstream tr] ∧ P (bytes_read Upstream tr)).

Definition framed (s : gostring) : Prop := ∃ a, s = frame a ∧ (1 ≤ length a ≤ dnsBufSize)%nat.

Lemma forward_udp_run os r q tr : runs (forward_udp os r q) tr tt → Forall read_ok tr →
  forwarded "udp" os r q (λ s, (length s ≤ dnsBufSize)%nat) tr.
Proof.
  unfold forward_udp, fail. intros H Hok. apply runs_bind_inv in H as (t0 & t1 & [] & -> & H0 & H); run_inv H0; cbn [negb] in H.
  2: { run_inv H. unfold forwarded. split; [exists false|]; summarise; auto. }
  apply runs_deferred in H as (t2 & t3 & -> & H & H3). run_inv H3.
  apply runs_bind_inv in H as (t4 & t5 & [] & -> & H4 & H). run_inv H4.
  apply runs_bind_inv in H as (t6 & t7 & [] & -> & H5 & H); run_inv H5; cbn [negb] in H.
  2: { run_inv H. unfold forwarded. split; [exists true|]; summarise; auto. }
  apply runs_bind_inv in H as (t8 & t9 & [bs []] & -> & H6 & H); run_inv H6; cbn [fst snd] in H.
  { run_inv H. unfold forwarded. split; [exists true|]; summarise; auto. }
  apply runs_bind_inv in H as (t10 & t11 & [] & -> & H7 & H). run_inv H7.
  rewrite !Forall_app in Hok. destruct Hok as (_ & (_ & _ & Hr & _) & _).
  apply Forall_cons in Hr as [Hr _]. cbn in Hr.
  apply runs_bind_inv in H as (t12 & t13 & [] & -> & H8 & H); run_inv H8; cbn [negb] in H; run_inv H;
    unfold forwarded; (split; [exists true|]); summarise; auto 6.
Qed.

Lemma forward_tcp_run os r q tr : runs (forward_tcp os r q) tr tt → Forall read_ok tr →
  (length q ≤ dnsBufSize)%nat → forwarded "tcp" os r (frame q) framed tr.
Proof.
  unfold forward_tcp, fail. intros H Hok Hq.
  replace (PutUint16 (uint16 (Z.of_nat (length q))) ++ q) with (frame q) in H
    by (unfold frame; rewrite uint16_small by (unfold dnsBufSize in Hq; lia); done).
  apply runs_bind_inv in H as (t0 & t1 & [] & -> & H0 & H); run_inv H0; cbn [negb] in H.
  2: { run_inv H. unfold forwarded. split; [exists false|]; summarise; auto. }
  apply runs_deferred in H as (t2 & t3 & -> & H & H3). run_inv H3.
  apply runs_bind_inv in H as (t4 & t5 & [] & -> & H4 & H). run_inv H4.
  apply runs_bind_inv in H as (t6 & t7 & [] & -> & H5 & H); run_inv H5; cbn [negb] in H.
  2: { run_inv H. unfold forwarded. split; [exists true|]; summarise; auto. }
  apply runs_bind_inv in H as (t8 & t9 & o & -> & H6 & H).
  rewrite !Forall_app in Hok. destruct Hok as (_ & (_ & _ & Hok8 & Hok) & _).
  apply ReadFull_run in H6 as [(W1 & C1 & D1 & B1) Hb]; [|done].
  assert (bytes_read Client t8 = []) as B1' by by apply B1.
  destruct o as [b|].
  2: { run_inv H. unfold forwarded. split; [exists true|]; summarise; rewrite ?W1, ?C1, ?D1, ?B1'; auto. }
  destruct (Hb b eq_refl) as [Eb Lb]. destruct (bad_len (Uint16 b)) eqn:Hbad.
  { run_inv H. unfold forwarded. split; [exists true|]; summarise; rewrite ?W1, ?C1, ?D1, ?B1'; auto. }
  apply runs_bind_inv in H as (t10 & t11 & o & -> & H7 & H). apply Forall_app in Hok as [Hok10 Hok].
  apply ReadFull_run in H7 as [(W2 & C2 & D2 & B2) Ha]; [|done].
  assert (bytes_read Client t10 = []) as B2' by by apply B2.
  destruct o as [a|].
  2: { run_inv H. unfold forwarded. split; [exists true|]; summarise; rewrite ?W1, ?C1, ?D1, ?B1', ?W2, ?C2, ?D2, ?B2'; auto. }
  destruct (Ha a eq_refl) as [Ea La]. destruct (read_frame b a Lb Hbad La) as (Ef & Hl & Ep).
  rewrite Ep in H. apply runs_bind_inv in H as (t12 & t13 & [] & -> & H8 & H). run_inv H8.
  apply runs_bind_inv in H as (t14 & t15 & [] & -> & H9 & H); run_inv H9; cbn [negb] in H; run_inv H;
    unfold forwarded; (split; [exists true|]); summarise;
    rewrite ?W1, ?C1, ?D1, ?B1', ?W2, ?C2, ?D2, ?B2', ?Eb, ?Ea; cbn [app]; rewrite ?app_nil_r;
    (split; [done|]); try (split; [by right|]); try done; right; rewrite Ef; split_and!; try done; by exists a.
Qed.

(** *** Both halves *)

(** What is common to the two protocols: nothing is dialled unless a query [q]
    was read, and then the query is forwarded. *)
Definition relayed (network : gostring) (os : Platform) (r : DNSRelay)
    (wire : gostring → gostring) (Q P : gostring → Prop) (tr : list (event net_ans)) : Prop :=
  ∃ tr0, tr = tr0 ++ [ev (Close Client) tt] ∧
    ((dials tr0 = [] ∧ closes tr0 = [] ∧ (∀ w, writes w tr0 = []) ∧ bytes_read Upstream tr0 = []) ∨
     ∃ t1 t2 q, tr0 = t1 ++ t2 ∧ only_reads Client t1 ∧ bytes_read Client t1 = wire q ∧ Q q ∧
       forwarded network os r (wire q) P t2).

Definition small (s : gostring) : Prop := (length s ≤ dnsBufSize)%nat.
Definition one_to_max (s : gostring) : Prop := (1 ≤ length s ≤ dnsBufSize)%nat.

Lemma Handle_relayed os r tr : runs (Handle os r) tr tt → Forall read_ok tr →
  relayed "udp" os r id small small tr.
Proof.
  unfold Handle, fail, relayed. intros H Hok. apply runs_deferred in H as (t1 & t2 & -> & H & H2). run_inv H2.
  exists t1. split; [done|]. apply Forall_app in Hok as [Hok _].
  apply runs_bind_inv in H as (t3 & t4 & [] & -> & H3 & H). run_inv H3.
  apply runs_bind_inv in H as (t5 & t6 & [bs err] & -> & H4 & H). run_inv H4. cbn [fst snd] in H.
  apply Forall_app in Hok as [_ Hok]. apply Forall_app in Hok as [Hb Hok].
  apply Forall_cons in Hb as [Hb _]. cbn in Hb. destruct err.
  - left. run_inv H. summarise. split_and!; try done; intros w; by summarise.
  - right. exists ([ev (SetReadDeadline Client dnsReadTimeout) tt] ++ [ev (Read Client dnsBufSize) (bs, false)]), t6, bs.
    split_and!; [by rewrite <- app_assoc| |by summarise|exact Hb|by apply forward_udp_run].
    split_and!; intros; summarise; try done; by destruct w.
Qed.

Lemma HandleTCP_relayed os r tr : runs (HandleTCP os r) tr tt → Forall read_ok tr →
  relayed "tcp" os r frame one_to_max framed tr.
Proof.
  unfold HandleTCP, fail, relayed. intros H Hok. apply runs_deferred in H as (t1 & t2 & -> & H & H2). run_inv H2.
  exists t1. split; [done|]. apply Forall_app in Hok as [Hok _].
  apply runs_bind_inv in H as (t3 & t4 & [] & -> & H3 & H). run_inv H3.
  apply runs_bind_inv in H as (t5 & t6 & o & -> & H4 & H).
  apply Forall_app in Hok as [_ Hok]. apply Forall_app in Hok as [Hb Hok].
  apply ReadFull_run in H4 as [(W1 & C1 & D1 & B1) Hlb]; [|done].
  assert (bytes_read Upstream t5 = []) as B1' by by apply B1.
  destruct o as [b|].
  2: { left. run_inv H. summarise. rewrite ?D1, ?C1, ?B1'. split_and!; try done; intros w; summarise; by rewrite W1. }
  destruct (Hlb b eq_refl) as [Eb Lb]. destruct (bad_len (Uint16 b)) eqn:Hbad.
  { left. run_inv H. summarise. rewrite ?D1, ?C1, ?B1'. split_and!; try done; intros w; summarise; by rewrite W1. }
  apply runs_bind_inv in H as (t7 & t8 & o & -> & H5 & H). apply Forall_app in Hok as [Hq Hok].
  apply ReadFull_run in H5 as [(W2 & C2 & D2 & B2) Hqb]; [|done].
  assert (bytes_read Upstream t7 = []) as B2' by by apply B2.
  destruct o as [q|].
  2: { left. run_inv H. summarise. rewrite ?D1, ?C1, ?B1', ?D2, ?C2, ?B2'. split_and!; try done;
       intros w; summarise; by rewrite W1, W2. }
  destruct (Hqb q eq_refl) as [Eq Lq]. destruct (read_frame b q Lb Hbad Lq) as (Ef & Hl & _).
  right. exists ([ev (SetReadDeadline Client dnsReadTimeout) tt] ++ t5 ++ t7), t8, q. split_and!.
  - by rewrite <- !app_assoc.
  - split_and!; intros; summarise; rewrite ?W1, ?W2, ?C1, ?C2, ?D1, ?D2; try done.
    destruct w; [done|]. by rewrite B1', B2'.
  - summarise. by rewrite Eb, Eq, Ef.
  - exact Hl.
  - apply forward_tcp_run; [done|done|apply Hl].
Qed.

(** Reading the result off. *)
Lemma relayed_transparent network os r wire Q P tr : relayed network os r wire Q P tr →
  (writes Upstream tr = [] ∨
   ∃ q, Q q ∧ bytes_read Client tr = wire q ∧ writes Upstream tr = [wire q]) ∧
  (writes Client tr = [] ∨
   P (bytes_read Upstream tr) ∧ writes Client tr = [bytes_read Upstream tr] ∧ writes Upstream tr ≠ []).
Proof.
  intros (tr0 & -> & [(D & C & W & B)|(t1 & t2 & q & -> & (W1 & C1 & D1 & B1) & Eq & HQ & (ok & D2 & C2) & B2 & WU & WC)]);
    summarise.
  - rewrite !W. auto.
  - rewrite !W1, Eq, B2, (B1 Upstream) by done. cbn [app]. rewrite !app_nil_r. split.
    + destruct WU as [->| ->]; [by left|right]. by exists q.
    + destruct WC as [->|(-> & -> & HP)]; [by left|right]. by split_and!.
Qed.

Lemma relayed_closes network os r wire Q P tr : relayed network os r wire Q P tr →
  ∃ tr0, tr = tr0 ++ [ev (Close Client) tt] ∧
    ((dials tr0 = [] ∧ closes tr0 = []) ∨
     ∃ ok, dials tr0 = [(network, nanotunMark os, addrport_String (upstream r), ok)] ∧
           closes tr0 = if ok then [Upstream] else []).
Proof.
  intros (tr0 & -> & [(D & C & _)|(t1 & t2 & q & -> & (_ & C1 & D1 & _) & _ & _ & (ok & D2 & C2) & _)]);
    eexists; (split; [reflexivity|]); [by left|right]. exists ok. summarise. rewrite C1, D1. by split.
Qed.

(** ** Theorems *)

(** C7: the TCP relay is transparent: whatever the client and the network do, it
    writes upstream nothing or exactly the one frame it read from the client,
    and to the client nothing or exactly the one frame it read from upstream,
    after having forwarded the query; both hold 1 to 4096 bytes. *)
Theorem relay_tcp_transparent os r tr : runs (HandleTCP os r) tr tt → Forall read_ok tr →
  (writes Upstream tr = [] ∨
   ∃ q, (1 ≤ length q ≤ 4096)%nat ∧ bytes_read Client tr = frame q ∧ writes Upstream tr = [frame q]) ∧
  (writes Client tr = [] ∨
   ∃ a, (1 ≤ length a ≤ 4096)%nat ∧ bytes_read Upstream tr = frame a ∧ writes Client tr = [frame a] ∧
        writes Upstream tr ≠ []).
Proof.
  intros H Hok. pose proof (HandleTCP_relayed os r tr H Hok) as Hr.
  apply relayed_transparent in Hr as [H1 [H2|((a & Ea & Ha) & H2 & H3)]]; (split; [exact H1|]); [by left|].
  right. exists a. by rewrite <- Ea.
Qed.

(** C22: in every run, on every path, the client connection is closed exactly
    once and last, the upstream connection exactly once if it was opened, and
    the only address ever dialled, at most once, is the configured resolver
    with the platform's mark. *)
Theorem relay_closes os r tr :
  (runs (Handle os r) tr tt ∨ runs (HandleTCP os r) tr tt) → Forall read_ok tr →
  ∃ tr0, tr = tr0 ++ [ev (Close Client) tt] ∧
    ((dials tr0 = [] ∧ closes tr0 = []) ∨
     ∃ network ok, dials tr0 = [(network, nanotunMark os, addrport_String (upstream r), ok)] ∧
           closes tr0 = if ok then [Upstream] else []).
Proof.
  intros [H|H] Hok; [apply Handle_relayed in H|apply HandleTCP_relayed in H]; try done;
    apply relayed_closes in H as (tr0 & -> & [?|(ok & ?)]); exists tr0; (split; [done|]); eauto.
Qed.

(** *** Delivery *)

(** Nothing fails: reads give at least a byte and no error, writes and dials
    succeed. *)
Definition no_failure (x : event net_ans) : Prop :=
  match x with
  | existT (Read _ n) r => (1 ≤ length r.1 ≤ n)%nat ∧ r.2 = false
  | existT (Write _ _) ok | existT (Dial _ _ _) ok => ok = true
  | _ => True
  end.

Lemma no_failure_read_ok tr : Forall no_failure tr → Forall read_ok tr.
Proof. intros H. eapply Forall_impl; [exact H|]. intros [[] ?]; cbn; try done. by intros [[_ ?] _]. Qed.

(** The reads [ReadFull] may make are enough when each gives a byte. *)
Lemma read_full_some f who need acc tr o : runs (read_full f who need acc) tr o → Forall no_failure tr →
  (need ≤ f)%nat → is_Some o.
Proof.
  revert need acc tr. induction f as [|f IH]; intros [|need] acc tr H Hok Hf; cbn [read_full] in H;
    [by destruct H as [-> ->]|lia|by destruct H as [-> ->]|].
  apply runs_bind_inv in H as (t1 & t2 & r & -> & H1 & H2). run_inv H1.
  apply Forall_cons in Hok as [Hr Hok]. cbn in Hr. destruct Hr as [Hr He].
  destruct (S need <=? length r.1)%nat; [by destruct H2 as [-> ->]|]. rewrite He in H2.
  eapply IH; [exact H2|done|lia].
Qed.

Lemma Uint16_app b t : length b = 2%nat → Uint16 (b ++ t) = Uint16 b.
Proof. intros H. unfold Uint16. rewrite take_app_le by lia. done. Qed.

Lemma forward_tcp_delivers os r q tr : runs (forward_tcp os r q) tr tt → Forall no_failure tr →
  bad_len (Uint16 (bytes_read Upstream tr)) = false → writes Client tr ≠ [].
Proof.
  unfold forward_tcp, fail. intros H Hok Hlen.
  apply runs_bind_inv in H as (t0 & t1 & ok & -> & H0 & H). run_inv H0.
  apply Forall_app in Hok as [Hd Hok]. apply Forall_cons in Hd as [Hd _]. cbn in Hd. subst ok. cbn [negb] in H.
  apply runs_deferred in H as (t2 & t3 & -> & H & H3). run_inv H3.
  apply runs_bind_inv in H as (t4 & t5 & [] & -> & H4 & H). run_inv H4.
  apply runs_bind_inv in H as (t6 & t7 & ok & -> & H5 & H). run_inv H5.
  rewrite !Forall_app in Hok. destruct Hok as ((_ & Hw & Hok) & _).
  apply Forall_cons in Hw as [Hw _]. cbn in Hw. subst ok. cbn [negb] in H.
  apply runs_bind_inv in H as (t8 & t9 & o & -> & H6 & H). apply Forall_app in Hok as [Hok8 Hok].
  pose proof (read_full_some _ _ _ _ _ _ H6 Hok8 (le_n _)) as [b ->].
  apply ReadFull_run in H6 as [_ Hb]; [|by apply no_failure_read_ok]. destruct (Hb b eq_refl) as [Eb Lb].
  revert Hlen. summarise. rewrite Eb, Uint16_app by done. intros Hlen. rewrite Hlen in H.
  apply runs_bind_inv in H as (t10 & t11 & o & -> & H7 & H). apply Forall_app in Hok as [Hok10 Hok].
  pose proof (read_full_some _ _ _ _ _ _ H7 Hok10 (le_n _)) as [a ->].
  apply runs_bind_inv in H as (t12 & t13 & [] & -> & H8 & H). run_inv H8.
  apply runs_bind_inv in H as (t14 & t15 & ok & -> & H9 & H). run_inv H9.
  summarise. intros E. apply app_eq_nil in E as [_ E]. by apply app_eq_nil in E as [_ E].
Qed.

(** C23: the TCP relay answers: in every run where reads, writes and the dial
    succeed and both announced lengths are 1 to 4096, the client's query goes
    upstream and the upstream's answer goes to the client. *)
Theorem relay_tcp_delivers os r tr : runs (HandleTCP os r) tr tt → Forall no_failure tr →
  1 ≤ Uint16 (bytes_read Client tr) ≤ 4096 → 1 ≤ Uint16 (bytes_read Upstream tr) ≤ 4096 →
  ∃ q a, bytes_read Client tr = frame q ∧ writes Upstream tr = [frame q] ∧
         bytes_read Upstream tr = frame a ∧ writes Client tr = [frame a].
Proof.
  intros H Hok HC HU. assert (∀ l, 1 ≤ l ≤ 4096 → bad_len l = false) as Hgood.
  { intros l Hl. unfold bad_len, dnsBufSize. rewrite Z.gtb_ltb, (proj2 (Z.eqb_neq _ _)), (proj2 (Z.ltb_ge _ _)) by lia. done. }
  apply Hgood in HC, HU. assert (writes Client tr ≠ []) as Hne.
  { revert HC HU. unfold HandleTCP, fail in H. apply runs_deferred in H as (t1 & t2 & -> & H & H2). run_inv H2.
    apply Forall_app in Hok as [Hok _].
    apply runs_bind_inv in H as (t3 & t4 & [] & -> & H3 & H). run_inv H3.
    apply runs_bind_inv in H as (t5 & t6 & o & -> & H4 & H).
    apply Forall_app in Hok as [_ Hok]. apply Forall_app in Hok as [Hb Hok].
    pose proof (read_full_some _ _ _ _ _ _ H4 Hb (le_n _)) as [b ->].
    apply ReadFull_run in H4 as [(W1 & _ & _ & B1) Hlb]; [|by apply no_failure_read_ok].
    destruct (Hlb b eq_refl) as [Eb Lb].
    summarise. rewrite Eb, Uint16_app by done. intros HC. rewrite HC in H.
    apply runs_bind_inv in H as (t7 & t8 & o & -> & H5 & H). apply Forall_app in Hok as [Hq Hok].
    pose proof (read_full_some _ _ _ _ _ _ H5 Hq (le_n _)) as [q ->].
    apply ReadFull_run in H5 as [(W2 & _ & _ & B2) _]; [|by apply no_failure_read_ok].
    summarise. rewrite (B1 Upstream), (B2 Upstream), W1, W2 by done. cbn [app]. intros HU.
    by eapply forward_tcp_delivers. }
  pose proof (HandleTCP_relayed os r tr H (no_failure_read_ok _ Hok)) as Hr.
  apply relayed_transparent in Hr as [H1 [H2|((a & Ea & Ha) & H2 & H3)]]; [done|].
  destruct H1 as [H1|(q & Hq & Eq & H1)]; [done|]. exists q, a. by rewrite <- Ea.
Qed.

(** No request fails; a datagram may be empty. *)
Definition no_error (x : event net_ans) : Prop :=
  match x with
  | existT (Read _ n) r => (length r.1 ≤ n)%nat ∧ r.2 = false
  | existT (Write _ _) ok | existT (Dial _ _ _) ok => ok = true
  | _ => True
  end.

Lemma no_error_read_ok tr : Forall no_error tr → Forall read_ok tr.
Proof. intros H. eapply Forall_impl; [exact H|]. intros [[] ?]; cbn; try done. by intros [? _]. Qed.

Lemma Handle_delivers os r tr : runs (Handle os r) tr tt → Forall no_error tr → writes Client tr ≠ [].
Proof.
  unfold Handle, forward_udp, fail. intros H Hok. apply runs_deferred in H as (t1 & t2 & -> & H & H2). run_inv H2.
  apply Forall_app in Hok as [Hok _]. apply runs_bind_inv in H as (t3 & t4 & [] & -> & H3 & H). run_inv H3.
  apply runs_bind_inv in H as (t5 & t6 & [q e] & -> & H5 & H). run_inv H5.
  apply Forall_app in Hok as [_ Hok]. apply Forall_app in Hok as [Hq Hok]. apply Forall_cons in Hq as [[_ Hq] _].
  cbn in Hq. subst e. cbn [fst snd] in H.
  apply runs_bind_inv in H as (t7 & t8 & ok & -> & H7 & H). run_inv H7.
  apply Forall_app in Hok as [Hd Hok]. apply Forall_cons in Hd as [Hd _]. cbn in Hd. subst ok. cbn [negb] in H.
  apply runs_deferred in H as (t9 & t10 & -> & H & H10). run_inv H10. apply Forall_app in Hok as [Hok _].
  apply runs_bind_inv in H as (t11 & t12 & [] & -> & H11 & H). run_inv H11.
  apply runs_bind_inv in H as (t13 & t14 & ok & -> & H13 & H). run_inv H13.
  apply Forall_app in Hok as [_ Hok]. apply Forall_app in Hok as [Hw Hok]. apply Forall_cons in Hw as [Hw _].
  cbn in Hw. subst ok. cbn [negb] in H.
  apply runs_bind_inv in H as (t15 & t16 & [a e] & -> & H15 & H). run_inv H15.
  apply Forall_app in Hok as [Hr Hok]. apply Forall_cons in Hr as [[_ Hr] _]. cbn in Hr. subst e. cbn [fst snd] in H.
  apply runs_bind_inv in H as (t17 & t18 & [] & -> & H17 & H). run_inv H17.
  apply runs_bind_inv in H as (t19 & t20 & ok & -> & H19 & H). run_inv H19.
  by summarise.
Qed.

(** C24: the UDP relay: in every run at most one datagram of up to 4096 bytes
    goes upstream, the one the client sent, and at most one comes back, the one
    the upstream sent, and only after the query went out; and in every run in
    which no request fails exactly one goes each way. *)
Theorem relay_udp_transparent os r tr : runs (Handle os r) tr tt → Forall read_ok tr →
  (writes Upstream tr = [] ∨
   (length (bytes_read Client tr) ≤ 4096)%nat ∧ writes Upstream tr = [bytes_read Client tr]) ∧
  (writes Client tr = [] ∨
   (length (bytes_read Upstream tr) ≤ 4096)%nat ∧ writes Client tr = [bytes_read Upstream tr] ∧
   writes Upstream tr ≠ []) ∧
  (Forall no_error tr →
   writes Upstream tr = [bytes_read Client tr] ∧ writes Client tr = [bytes_read Upstream tr]).
Proof.
  intros H Hok. pose proof (Handle_relayed os r tr H Hok) as Hr.
  apply relayed_transparent in Hr as [H1 H2].
  assert (writes Upstream tr = [] ∨
    (length (bytes_read Client tr) ≤ 4096)%nat ∧ writes Upstream tr = [bytes_read Client tr]) as H1'.
  { destruct H1 as [H1|(q & Hq & E & H1)]; [by left|right]. cbn in E, H1. by rewrite E. }
  split_and!; [done|exact H2|]. intros Hne. pose proof (Handle_delivers os r tr H Hne) as Hc.
  destruct H2 as [H2|(_ & H2 & Hu)]; [done|]. split; [|done]. by destruct H1' as [H1'|[_ H1']].
Qed.

(** ** Evaluation *)

Module DnsExample.
(** A client that sends a query of two bytes, an upstream that answers with
    one, both in pieces of at most one byte. *)
Definition source (who : peer) : gostring :=
  match who with Client => frame "ab" | Upstream => frame "z" end.
Definition env (past : list (event net_ans)) (e : net) : net_ans e :=
  match e with
  | Read who n => (take (min n 1) (drop (length (bytes_read who past)) (source who)), false)
  | Write _ _ | Dial _ _ _ => true
  | _ => tt
  end.
Definition relay0 : DNSRelay := newDNSRelay (MustParseAddrPort "8.8.8.8:53").
Definition tr_tcp := (exec env [] (HandleTCP Linux relay0)).1.
Definition tr_udp := (exec env [] (Handle OtherOS relay0)).1.

Lemma run_tcp : runs (HandleTCP Linux relay0) tr_tcp tt.
Proof. exact (exec_run env (HandleTCP Linux relay0)). Qed.
Lemma run_udp : runs (Handle OtherOS relay0) tr_udp tt.
Proof. exact (exec_run env (Handle OtherOS relay0)). Qed.

Definition good (x : event net_ans) : bool :=
  match x with
  | existT (Read _ n) r => (1 <=? length r.1)%nat && (length r.1 <=? n)%nat && negb r.2
  | existT (Write _ _) ok | existT (Dial _ _ _) ok => ok
  | _ => true
  end.
Lemma good_no_failure tr : forallb good tr = true → Forall no_failure tr.
Proof.
  rewrite forallb_forall. intros H. apply Forall_forall. intros x Hx%list_elem_of_In%H.
  destruct x as [[] r]; try done. unfold good in Hx. rewrite !andb_true_iff, !Nat.leb_le, negb_true_iff in Hx. exact Hx.
Qed.
Lemma ok_tcp : Forall no_failure tr_tcp.
Proof. apply good_no_failure. vm_compute. reflexivity. Qed.
Lemma ok_udp : Forall no_failure tr_udp.
Proof. apply good_no_failure. vm_compute. reflexivity. Qed.

Lemma relay_tcp_transparent_witness :
  writes Upstream tr_tcp = [] ∨
  ∃ q, (1 ≤ length q ≤ 4096)%nat ∧ bytes_read Client tr_tcp = frame q ∧ writes Upstream tr_tcp = [frame q].
Proof. exact (proj1 (relay_tcp_transparent Linux relay0 tr_tcp run_tcp (no_failure_read_ok _ ok_tcp))). Defined.

Lemma no_failure_no_error tr : Forall no_failure tr → Forall no_error tr.
Proof. intros H. eapply Forall_impl; [exact H|]. intros [[] ?]; cbn; try done. by intros [[_ ?] ?]. Qed.

Lemma relay_udp_transparent_witness :
  writes Upstream tr_udp = [bytes_read Client tr_udp] ∧ writes Client tr_udp = [bytes_read Upstream tr_udp].
Proof.
  exact (proj2 (proj2 (relay_udp_transparent OtherOS relay0 tr_udp run_udp (no_failure_read_ok _ ok_udp)))
    (no_failure_no_error _ ok_udp)).
Defined.

Lemma relay_closes_witness : ∃ tr0, tr_tcp = tr0 ++ [ev (Close Client) tt].
Proof.
  destruct (relay_closes Linux relay0 tr_tcp (or_intror run_tcp) (no_failure_read_ok _ ok_tcp)) as (tr0 & E & _).
  exact (ex_intro _ tr0 E).
Defined.

Lemma relay_tcp_delivers_witness :
  ∃ q a, bytes_read Client tr_tcp = frame q ∧ writes Upstream tr_tcp = [frame q] ∧
         bytes_read Upstream tr_tcp = frame a ∧ writes Client tr_tcp = [frame a].
Proof.
  refine (relay_tcp_delivers Linux relay0 tr_tcp run_tcp ok_tcp _ _); vm_compute; split; congruence.
Defined.

(** The marks: [0x6e74] on Linux. *)
Lemma dial_tcp : dials tr_tcp = [(str "tcp", 28276, str "8.8.8.8:53", true)] ∧ writes Client tr_tcp = [frame "z"].
Proof. by vm_compute. Qed.
End DnsExample.
