(* ===== verification/Gateway.v ===== *)
(** * The gateway handler (internal/gateway/handler.go)

    [Handler] sits between the packet stack and the tunnel: it answers DNS on
    the gateway address itself, drops other TCP to the gateway and LAN-only
    protocols, and hands everything else to the tunnel. *)

From S2P Require Import Prelude GoStrings Netip Netaddr Config Effects Dns.

(** ** Definitions *)

(** [stack.TransportEndpointID]: the destination of the flow is its local end.
    The address is the slice [AsSlice] gives. *)
Record EndpointID : Type := mkID { LocalAddress : gostring; LocalPort : Z }.

Definition lanOnlyTCPPorts (port : Z) : bool := bool_decide (port ∈ [139; 445]).
Definition lanOnlyUDPPorts (port : Z) : bool := bool_decide (port ∈ [137; 138; 445; 5353]).

Record Handler : Type := mkHandler { h_dns : DNSRelay; h_gw4 : Addr; h_gw6 : Addr }.

(** What the handler does with a connection. *)
Inductive gw : Type :=
| GoRelayTCP (r : DNSRelay)           (* [go h.dns.HandleTCP(conn)] *)
| GoRelayUDP (r : DNSRelay)           (* [go h.dns.Handle(conn)] *)
| CloseConn
| DebugDrop (msg : gostring) (port : Z) (dst : Addr)
| UpstreamTCP                         (* [h.upstream.HandleTCP(conn)] *)
| UpstreamUDP.                        (* [h.upstream.HandleUDP(conn)] *)
Definition gw_ans (_ : gw) : Type := ().
Definition handling := io gw_ans ().

Definition New (dnsUpstream : AddrPort) : Handler :=
  let dnsUpstream := if negb (ap_IsValid dnsUpstream) then DefaultUpstreamDNS else dnsUpstream in
  mkHandler (newDNSRelay dnsUpstream) GatewayIPv4 GatewayIPv6.

Definition addrFromTCPIP (b : gostring) : Addr :=
  match AddrFromSlice b with
  | None => AddrZero
  | Some addr => Unmap addr
  end.

Definition HandleTCP (h : Handler) (id : EndpointID) : handling :=
  let dst := addrFromTCPIP (LocalAddress id) in
  if bool_decide (dst = h_gw4 h) || bool_decide (dst = h_gw6 h) then
    if LocalPort id =? 53 then request (GoRelayTCP (h_dns h))
    else request CloseConn
  else if lanOnlyTCPPorts (LocalPort id) then
    do_ request (DebugDrop "gateway: drop LAN-only TCP" (LocalPort id) dst);
    request CloseConn
  else request UpstreamTCP.

Definition HandleUDP (h : Handler) (id : EndpointID) : handling :=
  let dst := addrFromTCPIP (LocalAddress id) in
  if (bool_decide (dst = h_gw4 h) || bool_decide (dst = h_gw6 h)) && (LocalPort id =? 53) then
    request (GoRelayUDP (h_dns h))
  else if lanOnlyUDPPorts (LocalPort id) then
    do_ request (DebugDrop "gateway: drop LAN-only UDP" (LocalPort id) dst);
    request CloseConn
  else request UpstreamUDP.

(** ** Specification on the wire *)

(** The three spellings of the gateway a packet can carry: the IPv4 address,
    its IPv4-mapped form and the IPv6 address. *)
Definition gateway4_bytes : gostring := byte_of_Z <$> [198; 18; 0; 1].
Definition gateway4in6_bytes : gostring := byte_of_Z <$> [0; 0; 0; 0; 0; 0; 0; 0; 0; 0; 255; 255; 198; 18; 0; 1].
Definition gateway6_bytes : gostring :=
  byte_of_Z <$> [0xfd; 0xfe; 0xdc; 0xba; 0x98; 0x76; 0; 0; 0; 0; 0; 0; 0; 0; 0; 1].
Definition is_gateway (b : gostring) : bool :=
  bool_decide (b ∈ [gateway4_bytes; gateway4in6_bytes; gateway6_bytes]).

(** ** Lemmas *)

Lemma be_value_inj l l' : length l = length l' → Forall is_octet l → Forall is_octet l' →
  be_value l = be_value l' → l = l'.
Proof.
  revert l'. induction l as [|x l IH] using rev_ind; intros l' Hlen Hl Hl' E.
  - by destruct l'.
  - destruct l' as [|y l' _] using rev_ind; [rewrite length_app in Hlen; cbn in Hlen; lia|].
    rewrite !length_app in Hlen. cbn in Hlen.
    apply Forall_app in Hl as [Hl Hx], Hl' as [Hl' Hy]. apply Forall_cons in Hx as [Hx _], Hy as [Hy _].
    rewrite !be_value_app in E. cbn in E. unfold is_octet in Hx, Hy.
    assert (x = y ∧ be_value l = be_value l') as [-> E'] by (cbn in E; lia).
    f_equal. apply IH; [lia|done|done|done].
Qed.

Lemma be_bytes_inj (b b' : gostring) : length b = length b' →
  be_value (bval <$> b) = be_value (bval <$> b') → b = b'.
Proof.
  intros Hl E. apply be_value_inj in E; [by apply (inj (fmap bval)) in E|by rewrite !length_fmap| |];
    apply Forall_fmap, Forall_true; intros x; apply bval_range.
Qed.

Lemma be_bytes_range (b : gostring) : 0 ≤ be_value (bval <$> b) < 256 ^ Z.of_nat (length b).
Proof.
  pose proof (be_value_range (bval <$> b)) as H. rewrite length_fmap in H. apply H.
  apply Forall_fmap, Forall_true. intros x. apply bval_range.
Qed.

(** The address comparison of the handler, as a test on bytes. *)
Lemma is_gateway_spec b :
  bool_decide (addrFromTCPIP b = GatewayIPv4) || bool_decide (addrFromTCPIP b = GatewayIPv6) = is_gateway b.
Proof.
  assert (GatewayIPv4 = Addr4 (be_value (bval <$> gateway4_bytes)) ∧
          GatewayIPv6 = Addr6 (be_value (bval <$> gateway6_bytes)) []) as [-> ->] by by vm_compute.
  assert (∀ v w, Addr4 v = Addr4 w → v = w) as I4 by congruence.
  assert (∀ v w, Addr6 v [] = Addr6 w [] → v = w) as I6 by congruence.
  apply eq_true_iff_eq. unfold is_gateway. rewrite orb_true_iff, !bool_decide_eq_true.
  rewrite !elem_of_cons, elem_of_nil. unfold addrFromTCPIP, AddrFromSlice.
  destruct (length b =? 4)%nat eqn:E4; [apply Nat.eqb_eq in E4|].
  { cbn [Unmap]. split.
    - intros [H%I4|H]; [|done]. left. by apply be_bytes_inj in H.
    - intros [->|[->|[->|[]]]]; [by left|done|done]. }
  destruct (length b =? 16)%nat eqn:E16; [apply Nat.eqb_eq in E16|].
  2: { apply Nat.eqb_neq in E4, E16. split; [by intros [H|H]|]. by intros [->|[->|[->|[]]]]. }
  pose proof (be_bytes_range b) as Hr. rewrite E16 in Hr. set (v := be_value (bval <$> b)) in *.
  unfold Unmap. destruct (Is4In6 (Addr6 v [])) eqn:Em.
  - apply Is4In6_value in Em; [|done]. split.
    + intros [H%I4|H]; [|done]. right; left. apply be_bytes_inj; [done|].
      fold v. rewrite Em, H. by vm_compute.
    + intros [->|[->|[->|[]]]]; [done|left; by vm_compute|exfalso; by vm_compute in Em].
  - split.
    + intros [H|H%I6]; [done|]. do 2 right. left. by apply be_bytes_inj in H.
    + intros [->|[->|[->|[]]]]; [done|exfalso; by vm_compute in Em|by right].
Qed.

(** The handler as a table. *)
Lemma dispatch dns id :
  let relay := newDNSRelay (if ap_IsValid dns then dns else mkAddrPort (Addr4 (ip4 8 8 8 8)) 53) in
  let drop msg := do_ request (DebugDrop msg (LocalPort id) (addrFromTCPIP (LocalAddress id)));
                  (request CloseConn : handling) in
  HandleTCP (New dns) id
  = (if is_gateway (LocalAddress id)
     then if LocalPort id =? 53 then request (GoRelayTCP relay) else request CloseConn
     else if bool_decide (LocalPort id ∈ [139; 445]) then drop "gateway: drop LAN-only TCP"
     else request UpstreamTCP) ∧
  HandleUDP (New dns) id
  = (if is_gateway (LocalAddress id) && (LocalPort id =? 53) then request (GoRelayUDP relay)
     else if bool_decide (LocalPort id ∈ [137; 138; 445; 5353]) then drop "gateway: drop LAN-only UDP"
     else request UpstreamUDP).
Proof.
  intros relay drop. assert (h_dns (New dns) = relay) as Hd.
  { unfold New, relay. cbn [h_dns]. destruct (ap_IsValid dns); [done|]. cbn [negb].
    by replace DefaultUpstreamDNS with (mkAddrPort (Addr4 (ip4 8 8 8 8)) 53) by by vm_compute. }
  unfold HandleTCP, HandleUDP, lanOnlyTCPPorts, lanOnlyUDPPorts. rewrite Hd.
  change (h_gw4 (New dns)) with GatewayIPv4. change (h_gw6 (New dns)) with GatewayIPv6.
  rewrite !is_gateway_spec. done.
Qed.

(** ** Theorems *)

(** The tunnel is reached in a trace. *)
Definition reaches_tunnel (tr : list (event gw_ans)) : bool :=
  existsb (λ x, match x with existT (UpstreamTCP | UpstreamUDP) _ => true | _ => false end) tr.
(** The connection is closed, or given to the relay, which closes it. *)
Definition disposed (tr : list (event gw_ans)) : bool :=
  existsb (λ x, match x with existT (CloseConn | GoRelayTCP _ | GoRelayUDP _) _ => true | _ => false end) tr.

(** C25: no connection leaks: in every run a flow either reaches the tunnel or is
    disposed of here, never both and never neither; and TCP to the gateway
    never reaches the tunnel. *)
Theorem gateway_no_leak dns id tr :
  runs (HandleTCP (New dns) id) tr tt ∨ runs (HandleUDP (New dns) id) tr tt →
  reaches_tunnel tr = negb (disposed tr) ∧
  (runs (HandleTCP (New dns) id) tr tt → is_gateway (LocalAddress id) = true → reaches_tunnel tr = false).
Proof.
  unfold HandleTCP, HandleUDP. change (h_gw4 (New dns)) with GatewayIPv4.
  change (h_gw6 (New dns)) with GatewayIPv6. rewrite !is_gateway_spec.
  assert (∀ (b1 b2 b3 : bool) t, runs ((if b1 then if b2 then request (GoRelayTCP (h_dns (New dns))) else request CloseConn
    else if b3 then do_ request (DebugDrop "gateway: drop LAN-only TCP" (LocalPort id) (addrFromTCPIP (LocalAddress id)));
      request CloseConn else request UpstreamTCP) : handling) t tt →
    reaches_tunnel t = negb (disposed t) ∧ (b1 = true → reaches_tunnel t = false)) as Htcp.
  { intros [] [] [] t H; run_inv H; done. }
  intros [H|H]; [by split; [apply Htcp in H as [? _]|intros ?; apply (Htcp _ _ _ _ H)]|].
  split; [|intros H'; by apply (Htcp _ _ _ _ H')].
  destruct (_ && _); [|destruct (lanOnlyUDPPorts _)]; run_inv H; done.
Qed.

Lemma gateway_no_leak_witness :
  reaches_tunnel [ev CloseConn tt] = negb (disposed [ev CloseConn tt]).
Proof.
  refine (proj1 (gateway_no_leak (mkAddrPort AddrZero 0) (mkID gateway4in6_bytes 80) [ev CloseConn tt] _)).
  left. vm_compute. by exists tt, [].
Defined.
