(* ===== verification/Exec.v ===== *)
(** * Running commands

    What the packages [autoroute] and [tunconf] ask of the outside: run a
    command, read its output, look for a tool, resolve a host name, write to
    the log.  The parts of the two packages that are the same on every platform
    are here too: [resolveProxyHost] and the list of clean-ups. *)

From S2P Require Import Prelude GoStrings Netip Netaddr Effects.

(** ** Requests *)

Inductive os : Type :=
| Run (cmd : list gostring)         (* [exec.Command(...).CombinedOutput()] *)
| Output (cmd : list gostring)      (* [exec.Command(...).Output()] *)
| LookPath (name : gostring)
| LookupHost (host : gostring)
| LogMsg (msg : gostring).

(** Whether a command succeeded; what it printed; whether a tool exists; the
    addresses of a host. *)
Definition os_ans (e : os) : Type :=
  match e with
  | Run _ | LookPath _ => bool
  | Output _ => option gostring
  | LookupHost _ => option (list gostring)
  | LogMsg _ => ()
  end.

Definition sys := io os_ans.

Definition run (cmd : list gostring) : sys bool := request (Run cmd).
Definition output (cmd : list gostring) : sys (option gostring) := request (Output cmd).
Definition log (msg : gostring) : sys () := request (LogMsg msg).
Definition toolExists (name : gostring) : sys bool := request (LookPath name).

(** A command line, its words separated by blanks, variables filled in. *)
Definition words (s : string) : list gostring := Split s " "%byte.

Definition nop : sys () := Ret tt.

(** [revert]: the clean-ups, last first. *)
Definition revert (cleanups : list (sys ())) : sys () :=
  foldl (λ rest c, do_ c; rest) (Ret tt) cleanups.

(** ** [resolveProxyHost] *)

(** [net.SplitHostPort], the host only. *)
Definition SplitHost (hostport : gostring) : option gostring :=
  i ← LastIndexByte hostport ":"%byte;
  if bool_decide (head hostport = Some "["%byte) then
    e ← IndexByte hostport "]"%byte;
    if negb (S e =? i)%nat then None
    else if bool_decide ("["%byte ∈ drop 1 hostport) || bool_decide ("]"%byte ∈ drop (S e) hostport) then None
    else Some (take (e - 1) (drop 1 hostport))
  else
    let host := take i hostport in
    if bool_decide (":"%byte ∈ host) then None
    else if bool_decide ("["%byte ∈ hostport) || bool_decide ("]"%byte ∈ hostport) then None
    else Some host.

(** The host part of a proxy URL. *)
Definition proxy_host (proxyAddr : gostring) : gostring :=
  let s := match Index proxyAddr "://" with Some i => drop (i + 3) proxyAddr | None => proxyAddr end in
  let s := match LastIndexByte s "@"%byte with Some i => drop (S i) s | None => s end in
  default s (SplitHost s).

(** [net.ParseIP] and [To4]: the dotted form of an IPv4 or IPv4-mapped address. *)
Definition ipv4_text (a : gostring) : option gostring :=
  ip ← ParseAddr a;
  if hasZone ip then None
  else match Unmap ip with Addr4 v => Some (string4 v) | _ => None end.

Definition resolveProxyHost (proxyAddr : gostring) : sys (list gostring) :=
  if bool_decide (proxyAddr = []) then Ret []
  else
    do addrs <- (request (LookupHost (proxy_host proxyAddr)) : sys (option (list gostring)));
    match addrs with
    | None => do_ log "autoroute: cannot resolve proxy host"; Ret []
    | Some addrs => Ret (omap ipv4_text addrs)
    end.

(** ** Reading output *)

Definition newline : byte := byte_of_Z 10.
Definition cr : byte := byte_of_Z 13.

(** The lines a [bufio.Scanner] gives: one carriage return is dropped from each,
    an empty last line is not given, and scanning ends at a line that does not
    fit in the 64 KiB buffer. *)
Fixpoint short_lines (lines : list gostring) : list gostring :=
  match lines with
  | [] => []
  | [l] => if bool_decide (l = []) || (65536 <=? Z.of_nat (length l)) then [] else [TrimSuffix l [cr]]
  | l :: rest => if 65536 <=? Z.of_nat (length l) then [] else TrimSuffix l [cr] :: short_lines rest
  end.
Definition scan_lines (out : gostring) : list gostring := short_lines (Split out newline).

(** The text after a label at the start of a line. *)
Definition label (prefix line : gostring) : option gostring :=
  if HasPrefix line prefix then Some (TrimSpace (TrimPrefix line prefix)) else None.

(** ** What a trace shows *)

(** The commands run, in order, and those that succeeded. *)
Definition ev_run (x : event os_ans) : list (list gostring) :=
  match x with existT (Run c) _ => [c] | _ => [] end.
Definition ev_done (x : event os_ans) : list (list gostring) :=
  match x with existT (Run c) ok => if ok : bool then [c] else [] | _ => [] end.
Definition attempted (tr : list (event os_ans)) : list (list gostring) := tr ≫= ev_run.
Definition succeeded (tr : list (event os_ans)) : list (list gostring) := tr ≫= ev_done.

Lemma attempted_app a b : attempted (a ++ b) = attempted a ++ attempted b.
Proof. apply bind_app. Qed.
Lemma succeeded_app a b : succeeded (a ++ b) = succeeded a ++ succeeded b.
Proof. apply bind_app. Qed.
Lemma attempted_cons x l : attempted (x :: l) = ev_run x ++ attempted l.
Proof. done. Qed.
Lemma succeeded_cons x l : succeeded (x :: l) = ev_done x ++ succeeded l.
Proof. done. Qed.
Lemma attempted_nil : attempted [] = [].
Proof. done. Qed.
Lemma succeeded_nil : succeeded [] = [].
Proof. done. Qed.

Create Rewrite HintDb exec_rw.
#[export] Hint Rewrite attempted_app succeeded_app attempted_cons succeeded_cons attempted_nil succeeded_nil : exec_rw.

Ltac cmds := autorewrite with exec_rw; unfold ev; cbn [ev_run ev_done]; rewrite ?app_nil_r; cbn [app].
Ltac cmds_in H := autorewrite with exec_rw in H; unfold ev in H; cbn [ev_run ev_done] in H; rewrite ?app_nil_r in H; cbn [app] in H.

Lemma succeeded_attempted tr c : c ∈ succeeded tr → c ∈ attempted tr.
Proof.
  induction tr as [|x tr IH]; [done|]. cmds. rewrite !elem_of_app.
  destruct x as [[cmd| | | |] r]; cbn [ev_run ev_done]; intros [H|H]; auto; [|by apply elem_of_nil in H..].
  left. destruct r; [done|by apply elem_of_nil in H].
Qed.

Lemma run_inv_run cmd tr ok : runs (run cmd) tr ok → tr = [ev (Run cmd) ok].
Proof. apply (runs_request_inv (R := os_ans) (Run cmd)). Qed.

(** A program that runs no command. *)
Definition quiet {A} (m : sys A) : Prop := ∀ tr a, runs m tr a → attempted tr = [] ∧ succeeded tr = [].

Lemma quiet_ret {A} (a : A) : quiet (Ret a : sys A).
Proof. intros tr b [-> _]. done. Qed.
Lemma quiet_bind {A B} (m : sys A) (k : A → sys B) : quiet m → (∀ a, quiet (k a)) → quiet (do x <- m; k x).
Proof.
  intros Hm Hk tr b (t1 & t2 & a & -> & H1 & H2)%runs_bind_inv.
  apply Hm in H1 as [E1 E2]. apply Hk in H2 as [E3 E4]. cmds. by rewrite E1, E2, E3, E4.
Qed.
Lemma quiet_log msg : quiet (log msg).
Proof. intros tr a H. apply (runs_request_inv (R := os_ans) (LogMsg msg)) in H as ->. done. Qed.
Lemma quiet_output cmd : quiet (output cmd).
Proof. intros tr a H. apply (runs_request_inv (R := os_ans) (Output cmd)) in H as ->. done. Qed.
Lemma quiet_tool name : quiet (toolExists name).
Proof. intros tr a H. apply (runs_request_inv (R := os_ans) (LookPath name)) in H as ->. done. Qed.

Lemma quiet_resolve p : quiet (resolveProxyHost p).
Proof.
  unfold resolveProxyHost. case_bool; [apply quiet_ret|].
  apply quiet_bind.
  - intros tr a H. apply (runs_request_inv (R := os_ans) (LookupHost _)) in H as ->. done.
  - intros [l|]; [apply quiet_ret|]. apply quiet_bind; [apply quiet_log|intros _; apply quiet_ret].
Qed.
#[export] Hint Resolve quiet_ret quiet_bind quiet_log quiet_output quiet_tool quiet_resolve : nanotun.

(** *** Clean-ups *)

(** [cleans c cmds]: the clean-up [c] tries exactly the commands [cmds]. *)
Definition cleans {A} (c : sys A) (cmds : list (list gostring)) : Prop :=
  ∀ tr a, runs c tr a → attempted tr = cmds.

(** A clean-up of the usual form: run a command, log if it fails. *)
Definition undo_cmd (cmd : list gostring) (msg : gostring) : sys () :=
  do ok <- run cmd; if ok then Ret tt else log msg.

Lemma undo_cmd_cleans cmd msg : cleans (undo_cmd cmd msg) [cmd].
Proof.
  intros tr a (t1 & t2 & ok & -> & H1%run_inv_run & H2)%runs_bind_inv. subst t1. cmds.
  destruct ok; [by destruct H2 as [-> _]|]. apply quiet_log in H2 as [-> _]. done.
Qed.

Lemma elem_of_concat_rev {A} (x : A) l : x ∈ concat (rev l) ↔ x ∈ concat l.
Proof. rewrite !list_elem_of_In, !in_concat. setoid_rewrite <- in_rev. done. Qed.

(** Reverting tries the commands of every clean-up, the last clean-up first. *)
Lemma revert_cleans cs cmdss : Forall2 cleans cs cmdss → cleans (revert cs) (concat (rev cmdss)).
Proof.
  intros H. unfold revert.
  assert (∀ (acc : sys ()) l, cleans acc l → cleans (foldl (λ rest c, do_ c; rest) acc cs) (concat (rev cmdss) ++ l)) as G.
  { induction H as [|c cmds cs cmdss Hc _ IH]; intros acc l Hacc; [done|]. cbn [foldl rev].
    rewrite concat_app, <- app_assoc. cbn [concat]. rewrite app_nil_r. apply IH.
    intros tr a (t1 & t2 & [] & -> & H1%Hc & H2%Hacc)%runs_bind_inv. cmds. by rewrite H1, H2. }
  specialize (G (Ret tt) []). rewrite app_nil_r in G. apply G. intros tr a [-> _]. done.
Qed.

(** *** Taking changes back *)

Section Undo.
(** The command that takes a successful command back, if there is one. *)
Context (undo : list gostring → option (list gostring)).

(** Every successful command of [tr] that can be taken back is so, by a command
    tried later in [tr] or by one of [cmds]. *)
Fixpoint undone (tr : list (event os_ans)) (cmds : list (list gostring)) : Prop :=
  match tr with
  | [] => True
  | x :: tr' =>
      (∀ c d, c ∈ ev_done x → undo c = Some d → d ∈ attempted tr' ∨ d ∈ cmds) ∧ undone tr' cmds
  end.

Lemma undone_app tr1 tr2 cmds1 cmds2 : undone tr1 cmds1 → undone tr2 cmds2 → undone (tr1 ++ tr2) (cmds1 ++ cmds2).
Proof.
  intros H1 H2. induction tr1 as [|x tr1 IH]; cbn [app undone] in *.
  - clear H1. induction tr2 as [|x tr2 IH]; [done|]. cbn [undone] in *. destruct H2 as [H2 H3].
    split; [|auto]. intros c d Hc Hd. rewrite elem_of_app. destruct (H2 c d Hc Hd); auto.
  - destruct H1 as [H1 H3]. split; [|auto]. intros c d Hc Hd. rewrite attempted_app, !elem_of_app.
    destruct (H1 c d Hc Hd); auto.
Qed.

Lemma undone_pre tr1 tr2 cmds : undone tr1 [] → undone tr2 cmds → undone (tr1 ++ tr2) cmds.
Proof. apply undone_app. Qed.
Lemma undone_post tr1 tr2 cmds : undone tr1 cmds → undone tr2 [] → undone (tr1 ++ tr2) cmds.
Proof. intros H1 H2. rewrite <- (app_nil_r cmds). by apply undone_app. Qed.

(** ... by a later part of the trace as well as by a clean-up. *)
Lemma undone_later tr1 tr2 cmds : undone tr1 (attempted tr2) → undone tr2 cmds → undone (tr1 ++ tr2) cmds.
Proof.
  intros H1 H2. induction tr1 as [|x tr1 IH]; cbn [app undone] in *; [done|].
  destruct H1 as [H1 H3]. split; [|auto]. intros c d Hc Hd. rewrite attempted_app, elem_of_app.
  destruct (H1 c d Hc Hd); auto.
Qed.

Lemma undone_mono tr cmds cmds' : (∀ d, d ∈ cmds → d ∈ cmds') → undone tr cmds → undone tr cmds'.
Proof.
  intros H. induction tr as [|x tr IH]; cbn [undone]; [done|]. intros [H1 H2]. split; [|auto].
  intros c d Hc Hd. destruct (H1 c d Hc Hd); auto.
Qed.

Lemma undone_none tr : (∀ c, c ∈ succeeded tr → undo c = None) → undone tr [].
Proof.
  induction tr as [|x tr IH]; cbn [undone]; [done|]. intros H. split.
  - intros c d Hc Hd. rewrite H in Hd; [done|]. cmds. apply elem_of_app. by left.
  - apply IH. intros c Hc. apply H. cmds. apply elem_of_app. by right.
Qed.

Lemma undone_in tr cmds c d : undone tr cmds → c ∈ succeeded tr → undo c = Some d → d ∈ attempted tr ∨ d ∈ cmds.
Proof.
  induction tr as [|x tr IH]; [intros _ Hc; by apply elem_of_nil in Hc|]. intros [H1 H2]. cmds. rewrite !elem_of_app.
  intros [Hc|Hc] Hd; [destruct (H1 c d Hc Hd)|destruct (IH H2 Hc Hd)]; auto.
Qed.

Lemma undone_quiet tr : succeeded tr = [] → undone tr [].
Proof. intros E. apply undone_none. rewrite E. intros c Hc. by apply elem_of_nil in Hc. Qed.

(** Steps that change nothing, before or after. *)
Lemma undone_quiet_pre tr1 tr2 cmds : succeeded tr1 = [] → undone tr2 cmds → undone (tr1 ++ tr2) cmds.
Proof. intros H1%undone_quiet. by apply undone_pre. Qed.
Lemma undone_quiet_post tr1 tr2 cmds : succeeded tr2 = [] → undone tr1 cmds → undone (tr1 ++ tr2) cmds.
Proof. intros H1%undone_quiet H2. by apply undone_post. Qed.

(** A phase of [Apply]: it takes the clean-ups so far and appends those that
    take its own changes back. *)
Definition phase (m : list (sys ()) → sys (list (sys ()))) : Prop :=
  ∀ cs cmdss tr cs', Forall2 cleans cs cmdss → runs (m cs) tr cs' →
    ∃ new, Forall2 cleans cs' (cmdss ++ new) ∧ undone tr (concat new) ∧
           Forall (λ c, undo c = None) (concat new).

Lemma phase_ret : phase (λ cs, Ret cs).
Proof. intros cs cmdss tr cs' H [-> ->]. exists []. rewrite app_nil_r. done. Qed.

Lemma phase_bind m k : phase m → phase k → phase (λ cs, do cs' <- m cs; k cs').
Proof.
  intros Hm Hk cs cmdss tr cs' H (t1 & t2 & cs1 & -> & H1 & H2)%runs_bind_inv.
  destruct (Hm _ _ _ _ H H1) as (n1 & F1 & U1 & N1). destruct (Hk _ _ _ _ F1 H2) as (n2 & F2 & U2 & N2).
  exists (n1 ++ n2). rewrite app_assoc, concat_app. split_and!; [done|by apply undone_app|by apply Forall_app].
Qed.

(** A step that changes nothing that can be taken back, before a phase. *)
Lemma phase_after {A} (m : sys A) (k : A → list (sys ()) → sys (list (sys ()))) :
  (∀ tr a, runs m tr a → undone tr []) → (∀ a, phase (k a)) → phase (λ cs, do a <- m; k a cs).
Proof.
  intros Hm Hk cs cmdss tr cs' H (t1 & t2 & a & -> & H1%Hm & H2)%runs_bind_inv.
  destruct (Hk a _ _ _ _ H H2) as (new & F & U & N). exists new. split_and!; [done|by apply (undone_app _ _ [])|done].
Qed.

Lemma quiet_undone {A} (m : sys A) : quiet m → ∀ tr a, runs m tr a → undone tr [].
Proof. intros Hm tr a [_ E]%Hm. by apply undone_quiet. Qed.

(** A command whose failure is only logged, with its clean-up. *)
Lemma phase_cmd c d (fin : sys ()) cmds (onfail onok : sys ()) k :
  (∀ d', undo c = Some d' → d' = d) → cleans fin cmds → d ∈ cmds → Forall (λ c, undo c = None) cmds → quiet onfail → quiet onok → phase k →
  phase (λ cs, do ok <- run c; if negb ok then do_ onfail; k cs else do_ onok; k (cs ++ [fin])).
Proof.
  intros Hu Hfin Hd HN Hf Hok Hk cs cmdss tr cs' H (t1 & t2 & ok & -> & H1%run_inv_run & H2)%runs_bind_inv.
  subst t1. destruct ok; cbn [negb] in H2; apply runs_bind_inv in H2 as (t3 & t4 & [] & -> & H3 & H4).
  - assert (Forall2 cleans (cs ++ [fin]) (cmdss ++ [cmds])) as F by by apply Forall2_app; [|constructor].
    destruct (Hk _ _ _ _ F H4) as (new & Fn & Un & Nn). exists (cmds :: new).
    rewrite <- app_assoc in Fn. split; [exact Fn|]. cbn [concat]. split; [|by apply Forall_app].
    apply (undone_app [_]); cbn [undone].
    + split; [|done]. intros c' d' Hc' Hd'. apply list_elem_of_singleton in Hc' as ->. right. by rewrite (Hu d').
    + apply Hok in H3 as [_ E]. by apply (undone_app _ _ []); [apply undone_quiet|].
  - destruct (Hk _ _ _ _ H H4) as (new & Fn & Un & Nn). exists new. split; [done|]. split; [|done].
    apply (undone_app [_] _ []); cbn [undone].
    + split; [|done]. intros c' d' Hc'. by apply elem_of_nil in Hc'.
    + apply Hf in H3 as [_ E]. by apply (undone_app _ _ []); [apply undone_quiet|].
Qed.

(** A step that may be taken back by the clean-up [fin], or has cleaned up after
    itself. *)
Lemma phase_step (m : sys bool) (fin : sys ()) cmds (onfail onok : sys ()) k :
  (∀ tr ok, runs m tr ok → undone tr (if ok : bool then cmds else [])) → cleans fin cmds → Forall (λ c, undo c = None) cmds →
  quiet onfail → quiet onok → phase k →
  phase (λ cs, do ok <- m; if negb ok then do_ onfail; k cs else do_ onok; k (cs ++ [fin])).
Proof.
  intros Hm Hfin HN Hf Hok Hk cs cmdss tr cs' H (t1 & t2 & ok & -> & H1%Hm & H2)%runs_bind_inv.
  destruct ok; cbn [negb] in H2; apply runs_bind_inv in H2 as (t3 & t4 & [] & -> & H3 & H4).
  - assert (Forall2 cleans (cs ++ [fin]) (cmdss ++ [cmds])) as F by by apply Forall2_app; [|constructor].
    destruct (Hk _ _ _ _ F H4) as (new & Fn & Un & Nn). exists (cmds :: new).
    rewrite <- app_assoc in Fn. split; [exact Fn|]. cbn [concat]. split; [|by apply Forall_app].
    apply undone_app; [done|]. apply Hok in H3 as [_ E]. by apply (undone_app _ _ []); [apply undone_quiet|].
  - destruct (Hk _ _ _ _ H H4) as (new & Fn & Un & Nn). exists new. split; [done|]. split; [|done].
    apply (undone_app _ _ []); [done|]. apply Hf in H3 as [_ E]. by apply (undone_app _ _ []); [apply undone_quiet|].
Qed.

(** A phase whose clean-ups may themselves look like changes: it can only come
    last. *)
Definition last_phase (m : list (sys ()) → sys (list (sys ()))) : Prop :=
  ∀ cs cmdss tr cs', Forall2 cleans cs cmdss → runs (m cs) tr cs' →
    ∃ new, Forall2 cleans cs' (cmdss ++ new) ∧ undone tr (concat new).

Lemma phase_last m k : phase m → last_phase k → last_phase (λ cs, do cs' <- m cs; k cs').
Proof.
  intros Hm Hk cs cmdss tr cs' H (t1 & t2 & cs1 & -> & H1 & H2)%runs_bind_inv.
  destruct (Hm _ _ _ _ H H1) as (n1 & F1 & U1 & _). destruct (Hk _ _ _ _ F1 H2) as (n2 & F2 & U2).
  exists (n1 ++ n2). rewrite app_assoc, concat_app. split; [done|by apply undone_app].
Qed.

Lemma phase_weaken m : phase m → last_phase m.
Proof. intros Hm cs cmdss tr cs' H H1. destruct (Hm _ _ _ _ H H1) as (new & F & U & _). eauto. Qed.

Lemma last_phase_revert m tr cs tr' a : last_phase m → runs (m []) tr cs → runs (revert cs) tr' a →
  undone tr (attempted tr').
Proof.
  intros Hm H1 H2. destruct (Hm [] [] tr cs ltac:(constructor) H1) as (new & F & U). cbn [app] in F.
  rewrite (revert_cleans cs new F tr' a H2). eapply undone_mono; [|exact U].
  intros d. by rewrite elem_of_concat_rev.
Qed.

(** A command that must succeed for the rest to be reached. *)
Lemma phase_must c d msg : undo c = Some d → undo d = None →
  ∀ cs cmdss tr, Forall2 cleans cs cmdss → runs (run c) tr true →
  Forall2 cleans (cs ++ [undo_cmd d msg]) (cmdss ++ [[d]]) ∧ undone tr (concat [[d]]) ∧
  Forall (λ c, undo c = None) (concat [[d]]).
Proof.
  intros Hu Hd cs cmdss tr H H1%run_inv_run. subst tr. split_and!.
  - apply Forall2_app; [done|]. constructor; [apply undo_cmd_cleans|constructor].
  - cbn [undone]. split; [|done]. intros c' d' Hc' Hd'. apply list_elem_of_singleton in Hc' as ->.
    rewrite Hu in Hd'. injection Hd' as <-. right. left.
  - by repeat constructor.
Qed.

(** The end of [Apply]: what the phases changed is taken back by reverting. *)
Lemma phase_revert m tr cs tr' a : phase m → runs (m []) tr cs → runs (revert cs) tr' a →
  undone tr (attempted tr') ∧ undone tr' [].
Proof.
  intros Hm H1 H2. destruct (Hm [] [] tr cs ltac:(constructor) H1) as (new & F & U & N). cbn [app] in F.
  pose proof (revert_cleans cs new F tr' a H2) as E. split.
  - rewrite E. eapply undone_mono; [|exact U]. intros d. by rewrite elem_of_concat_rev.
  - apply undone_none. intros c Hc%succeeded_attempted. rewrite E, elem_of_concat_rev in Hc.
    rewrite Forall_forall in N. by apply N.
Qed.
End Undo.

(** The changes of [undo] but for those of [P]. *)
Definition except (P : list gostring → bool) (undo : list gostring → option (list gostring)) (c : list gostring) :
    option (list gostring) :=
  if P c then None else undo c.

Lemma undone_except P undo tr cmds : (∀ c, c ∈ succeeded tr → P c = false) →
  undone (except P undo) tr cmds → undone undo tr cmds.
Proof.
  induction tr as [|x tr IH]; [done|]. intros HP [H1 H2]. cbn [undone]. split.
  - intros c d Hc Hd. apply (H1 c d Hc). unfold except. rewrite HP; [done|]. cmds. apply elem_of_app. by left.
  - apply IH; [|done]. intros c Hc. apply HP. cmds. apply elem_of_app. by right.
Qed.

(** *** The commands a program may try *)

(** Every command tried is one of [P], and the result one of [Q]. *)
Section Tries.
Context (P : list gostring → Prop).

Definition tries {A} (Q : A → Prop) (m : sys A) : Prop := ∀ tr a, runs m tr a → Forall P (attempted tr) ∧ Q a.

Lemma tries_ret {A} (Q : A → Prop) a : Q a → tries Q (Ret a).
Proof. intros H tr b [-> ->]. split; [constructor|done]. Qed.
Lemma tries_bind {A B} (Q : A → Prop) (Q' : B → Prop) (m : sys A) (k : A → sys B) :
  tries Q m → (∀ a, Q a → tries Q' (k a)) → tries Q' (do x <- m; k x).
Proof.
  intros Hm Hk tr b (t1 & t2 & a & -> & [F1 H1]%Hm & H2)%runs_bind_inv. destruct (Hk a H1 _ _ H2) as [F2 H].
  split; [|done]. rewrite attempted_app. by apply Forall_app.
Qed.
Lemma tries_seq {A B} (Q' : B → Prop) (m : sys A) (k : A → sys B) :
  tries (λ _, True) m → (∀ a, tries Q' (k a)) → tries Q' (do x <- m; k x).
Proof. intros Hm Hk. by eapply tries_bind; [exact Hm|]. Qed.
Lemma tries_run c : P c → tries (λ _, True) (run c).
Proof. intros H tr a ->%run_inv_run. split; [by repeat constructor|done]. Qed.
Lemma tries_quiet {A} (m : sys A) : quiet m → tries (λ _, True) m.
Proof. intros H tr a [E _]%H. by rewrite E. Qed.
Lemma tries_undo_cmd c msg : P c → tries (λ _, True) (undo_cmd c msg).
Proof. intros H. apply tries_seq; [by apply tries_run|]. intros []; [by apply tries_ret|apply tries_quiet, quiet_log]. Qed.

(** Clean-ups that keep to [P]. *)
Definition tidy : list (sys ()) → Prop := Forall (tries (λ _, True)).

Lemma tidy_snoc cs c : tidy cs → tries (λ _, True) c → tidy (cs ++ [c]).
Proof. intros H1 H2. apply Forall_app. split; [done|by constructor]. Qed.

Lemma tries_revert cs : tidy cs → tries (λ _, True) (revert cs).
Proof.
  intros H. unfold revert.
  assert (∀ acc : sys (), tries (λ _, True) acc → tries (λ _, True) (foldl (λ rest c, do_ c; rest) acc cs)) as G.
  { induction H as [|c cs Hc _ IH]; intros acc Ha; [done|]. cbn [foldl]. apply IH. by apply tries_seq. }
  apply G. by apply tries_ret.
Qed.
End Tries.

(** *** The shape of [Apply] on macOS and Windows

    The bypass routes, two routes that must succeed, best-effort routes, and the
    resolver last.  What takes back the change of the resolver depends on what
    the run read just before it, [x]. *)
Section Split.
Context {X : Type} (undo : X → list gostring → option (list gostring)).
Context (bypass best last : list (sys ()) → sys (list (sys ()))).
Context (c1 d1 c2 d2 : list gostring) (m1 m2 : gostring).
Context (R : list (event os_ans) → X → Prop).
Context (Hbypass : ∀ x, phase (undo x) bypass) (Hbest : ∀ x, phase (undo x) best)
        (Hc1 : ∀ x, undo x c1 = Some d1) (Hd1 : ∀ x, undo x d1 = None)
        (Hc2 : ∀ x, undo x c2 = Some d2) (Hd2 : ∀ x, undo x d2 = None)
        (Hlast : ∀ cs tr cs', runs (last cs) tr cs' → ∃ x, R tr x ∧ ∀ cmdss, Forall2 cleans cs cmdss →
           ∃ new, Forall2 cleans cs' (cmdss ++ new) ∧ undone (undo x) tr (concat new)).

(** Both routes could be added. *)
Lemma split_undone t1 t2 t3 t4 t5 cs1 cs2 cs3 :
  runs (bypass []) t1 cs1 → runs (run c1) t2 true → runs (run c2) t3 true →
  runs (best ((cs1 ++ [undo_cmd d1 m1]) ++ [undo_cmd d2 m2])) t4 cs2 → runs (last cs2) t5 cs3 →
  ∃ x cmdss, R t5 x ∧ Forall2 cleans cs3 cmdss ∧ undone (undo x) (t1 ++ t2 ++ t3 ++ t4 ++ t5) (concat cmdss).
Proof.
  intros H1 H2 H3 H4 H5. destruct (Hlast _ _ _ H5) as (x & HR & Hl).
  destruct (Hbypass x [] [] t1 cs1 ltac:(constructor) H1) as (n1 & F1 & U1 & _).
  destruct (phase_must (undo x) c1 d1 m1 (Hc1 x) (Hd1 x) _ _ _ F1 H2) as (F2 & U2 & _).
  destruct (phase_must (undo x) c2 d2 m2 (Hc2 x) (Hd2 x) _ _ _ F2 H3) as (F3 & U3 & _).
  destruct (Hbest x _ _ _ _ F3 H4) as (n4 & F4 & U4 & _). destruct (Hl _ F4) as (n5 & F5 & U5).
  eexists x, _. split_and!; [done|exact F5|]. cbn [app]. rewrite !concat_app, <- !app_assoc. do 4 (apply undone_app; [done|]). done.
Qed.

(** The second fails: what was done is taken back at once. *)
Lemma split_failed x t1 t2 cs1 : runs (bypass []) t1 cs1 → runs (run c1) t2 true →
  ∃ cmdss, Forall2 cleans (cs1 ++ [undo_cmd d1 m1]) cmdss ∧
    ∀ t3 extra, attempted t3 = concat (rev cmdss) ++ extra → Forall (λ c, undo x c = None) extra →
      undone (undo x) ((t1 ++ t2) ++ [ev (Run c2) false] ++ t3) [].
Proof.
  intros H1 H2. destruct (Hbypass x [] [] t1 cs1 ltac:(constructor) H1) as (n1 & F1 & U1 & N1).
  destruct (phase_must (undo x) c1 d1 m1 (Hc1 x) (Hd1 x) _ _ _ F1 H2) as (F2 & U2 & N2).
  eexists. split; [exact F2|]. intros t3 extra E Hx.
  assert (∀ d, d ∈ attempted t3 ↔ d ∈ concat n1 ++ concat [[d1]] ∨ d ∈ extra) as Hin.
  { intros d. rewrite E, elem_of_app, elem_of_concat_rev. cbn [app]. by rewrite concat_app. }
  apply undone_later.
  - apply (undone_mono _ _ (concat n1 ++ concat [[d1]])); [|by apply undone_app].
    intros d Hd. cmds. right. apply Hin. by left.
  - cbn [app undone]. split; [intros c d Hc; by apply elem_of_nil in Hc|].
    apply undone_none. intros c [Hc|Hc]%succeeded_attempted%Hin.
    + rewrite Forall_forall in N1. rewrite Forall_forall in N2. apply elem_of_app in Hc as [Hc|Hc]; auto.
    + rewrite Forall_forall in Hx. auto.
Qed.
End Split.

(** ** The host of the proxy *)

Lemma Index_scheme s t : ":"%byte ∉ s → Index (s ++ "://" ++ t) "://" = Some (length s).
Proof.
  induction s as [|b s IH]; intros Hs.
  - cbn [app length]. change (str "://" ++ t) with (":"%byte :: "/"%byte :: "/"%byte :: t). cbn [Index].
    change (":"%byte :: "/"%byte :: "/"%byte :: t) with (str "://" ++ t). by rewrite HasPrefix_app.
  - cbn [app Index]. destruct (HasPrefix (b :: s ++ str "://" ++ t) "://") eqn:E.
    + apply HasPrefix_true in E as [u E]. change (str "://" ++ u) with (":"%byte :: "/"%byte :: "/"%byte :: u) in E.
      injection E as -> _. exfalso. apply Hs. left.
    + rewrite IH by (intros H; apply Hs; by right). done.
Qed.

(** Characters that delimit the parts of a URL's authority. *)
Definition delims : list byte := [":"; "@"; "["; "]"]%byte.
Definition no_delims (s : gostring) : Prop := ∀ b, b ∈ delims → b ∉ s.

Lemma SplitHost_plain host port : no_delims host → no_delims port →
  SplitHost (host ++ ":"%byte :: port) = Some host.
Proof.
  intros Hh Hp. assert (":"%byte ∉ port) as Hc by (apply Hp; left). unfold SplitHost.
  rewrite LastIndexByte_app by done. cbn [mbind option_bind].
  assert (∀ b, b = "["%byte ∨ b = "]"%byte → b ∉ host ++ ":"%byte :: port) as Hb.
  { intros b Hbb [H|[->|H]%elem_of_cons]%elem_of_app.
    - apply (Hh b); [|done]. destruct Hbb as [->| ->]; [do 2 right; left|do 3 right; left].
    - by destruct Hbb.
    - apply (Hp b); [|done]. destruct Hbb as [->| ->]; [do 2 right; left|do 3 right; left]. }
  rewrite bool_decide_eq_false_2.
  2: { intros E. apply (Hb "["%byte); [by left|]. destruct (host ++ _); [done|]. injection E as ->. left. }
  rewrite take_app_length, bool_decide_eq_false_2 by (apply Hh; left).
  rewrite !bool_decide_eq_false_2 by (apply Hb; auto). done.
Qed.

Lemma proxy_host_scheme scheme rest : ":"%byte ∉ scheme → "@"%byte ∉ rest →
  proxy_host (scheme ++ "://" ++ rest) = default rest (SplitHost rest).
Proof.
  intros Hs Ha. unfold proxy_host. rewrite Index_scheme by done.
  replace (drop (length scheme + 3) (scheme ++ str "://" ++ rest)) with rest.
  - by rewrite (proj2 (LastIndexByte_None _ _)).
  - rewrite <- drop_drop, drop_app_length. done.
Qed.

Lemma proxy_host_user scheme user rest : ":"%byte ∉ scheme → "@"%byte ∉ rest →
  proxy_host (scheme ++ "://" ++ user ++ "@"%byte :: rest) = default rest (SplitHost rest).
Proof.
  intros Hs Ha. unfold proxy_host. rewrite Index_scheme by done.
  replace (drop (length scheme + 3) (scheme ++ str "://" ++ user ++ "@"%byte :: rest))
    with (user ++ "@"%byte :: rest).
  - rewrite LastIndexByte_app by done. by rewrite drop_at.
  - rewrite <- drop_drop, drop_app_length. done.
Qed.

Lemma no_delims_at host port : no_delims host → no_delims port → "@"%byte ∉ host ++ ":"%byte :: port.
Proof.
  intros Hh Hp [H|[H|H]%elem_of_cons]%elem_of_app; [|done|].
  - apply (Hh "@"%byte); [right; left|done].
  - apply (Hp "@"%byte); [right; left|done].
Qed.

(** The addresses used are IPv4 texts the resolver has answered. *)
Lemma resolve_ips p tr ips : p ≠ [] → runs (resolveProxyHost p) tr ips →
  ∃ ans, ev (LookupHost (proxy_host p)) ans ∈ tr ∧
    Forall (λ ip, ∃ v a, 0 ≤ v < 2 ^ 32 ∧ ip = string4 v ∧ a ∈ default [] ans ∧
                         Unmap <$> ParseAddr a = Some (Addr4 v)) ips.
Proof.
  intros Hp. unfold resolveProxyHost. rewrite bool_decide_eq_false_2 by done. intros (t1 & t2 & ans & -> & H1 & H2)%runs_bind_inv.
  apply (runs_request_inv (R := os_ans) (LookupHost _)) in H1 as ->. exists ans.
  split; [apply elem_of_app; left; left|]. destruct ans as [addrs|].
  - destruct H2 as [-> ->]. apply Forall_forall. intros ip (a & Ha & Hip)%list_elem_of_omap.
    unfold ipv4_text in Hip. destruct (ParseAddr a) as [x|] eqn:Ex; [|done]. cbn [mbind option_bind] in Hip.
    case_bool; [done|]. destruct (Unmap x) as [|v|] eqn:Ev; [done| |done]. injection Hip as <-.
    apply ParseAddr_wf in Ex as Hx. destruct Hx as [Hw _]. apply Unmap_wf in Hw. rewrite Ev in Hw.
    exists v, a. split; [exact Hw|]. split; [done|]. split; [exact Ha|]. rewrite Ex. cbn. by rewrite Ev.
  - apply runs_bind_inv in H2 as (t3 & t4 & [] & _ & _ & [_ ->]). constructor.
Qed.

Lemma tries_resolve P p : tries P (Forall (λ ip, ∃ v, 0 ≤ v < 2 ^ 32 ∧ ip = string4 v)) (resolveProxyHost p).
Proof.
  intros tr ips H. split; [destruct (quiet_resolve p _ _ H) as [-> _]; constructor|].
  destruct (decide (p = [])) as [->|Hp]; [by destruct H as [_ ->]|].
  apply resolve_ips in H as (ans & _ & H); [|done]. eapply Forall_impl; [exact H|]. intros ip (v & a & ? & ? & _). by exists v.
Qed.

(** C35: the host looked up for the bypass routes is the host of the proxy URL,
    with or without user information (which may contain any character), and
    whatever the resolver answers, every address used is the dotted form of an
    IPv4 address the resolver returned, IPv6 answers being dropped. *)
Theorem resolveProxyHost_spec scheme user host port tr ips :
  ":"%byte ∉ scheme → no_delims host → no_delims port →
  proxy_host (scheme ++ "://" ++ user ++ "@"%byte :: host ++ ":"%byte :: port) = host ∧
  proxy_host (scheme ++ "://" ++ host ++ ":"%byte :: port) = host ∧
  (runs (resolveProxyHost (scheme ++ "://" ++ host ++ ":"%byte :: port)) tr ips →
   ∃ ans, ev (LookupHost host) ans ∈ tr ∧
     Forall (λ ip, ∃ v a, 0 ≤ v < 2 ^ 32 ∧ ip = string4 v ∧ a ∈ default [] ans ∧
                          Unmap <$> ParseAddr a = Some (Addr4 v)) ips).
Proof.
  intros Hs Hh Hp. assert (proxy_host (scheme ++ "://" ++ host ++ ":"%byte :: port) = host) as E.
  { rewrite proxy_host_scheme, SplitHost_plain by eauto using no_delims_at. done. }
  split_and!; [by rewrite proxy_host_user, SplitHost_plain by eauto using no_delims_at|done|].
  intros H%resolve_ips; [by rewrite E in H|]. by intros [_ ?]%app_nil.
Qed.

Lemma resolveProxyHost_spec_witness :
  proxy_host "socks5://u:p@h@proxy.example:1080" = str "proxy.example".
Proof.
  refine (proj1 (resolveProxyHost_spec "socks5" "u:p@h" "proxy.example" "1080" [] [] _ _ _)).
  - intros H. repeat (apply elem_of_cons in H as [H|H]; [done|]). by apply elem_of_nil in H.
  - intros b Hb H. repeat (apply elem_of_cons in Hb as [->|Hb]; [apply (bool_decide_eq_true_2 _) in H; by vm_compute in H|]). by apply elem_of_nil in Hb.
  - intros b Hb H. repeat (apply elem_of_cons in Hb as [->|Hb]; [apply (bool_decide_eq_true_2 _) in H; by vm_compute in H|]). by apply elem_of_nil in Hb.
Defined.
