(* ===== verification/Url.v ===== *)
(** * URLs (the part of Go's net/url that reading a proxy address uses)

    [url.Parse] and the accessors [buildProxy] uses: scheme, user, host and
    path.  A host in square brackets is read by [ipLiteral], a parameter: Go
    releases differ in what they accept there. *)

From S2P Require Import Prelude GoStrings Netip.

(** ** Definitions *)

(** [strings.Cut] at a byte: before, after; everything and nothing without it. *)
Definition Cut (s : gostring) (c : byte) : gostring * gostring :=
  match IndexByte s c with Some i => (take i s, drop (S i) s) | None => (s, []) end.

Definition isAlpha (b : byte) : bool := in_range 97 122 (bval b) || in_range 65 90 (bval b).
Definition isAlnum (b : byte) : bool := isAlpha b || isDigit b.
Definition isCTL (b : byte) : bool := (bval b <? 32) || (bval b =? 127).

Inductive encoding : Type := encodePath | encodeUserPassword | encodeHost | encodeFragment.

(** [shouldEscape] for a host: every byte but letters, digits, marks and
    sub-delimiters. *)
Definition host_bytes : gostring := str "-_.~!$&'()*+,;=:[]<>" ++ [byte_of_Z 34].
Definition shouldEscapeHost (c : byte) : bool := negb (isAlnum c) && negb (bool_decide (c ∈ host_bytes)).

Fixpoint unescape (mode : encoding) (s : gostring) : option gostring :=
  match s with
  | [] => Some []
  | c :: s' =>
      let host := match mode with encodeHost => true | _ => false end in
      if bool_decide (c = "%"%byte) then
        match s' with
        | a :: b :: s'' =>
            match hexval a, hexval b with
            | Some x, Some y =>
                if host && (x <? 8) && negb (bool_decide (a = "2"%byte) && bool_decide (b = "5"%byte)) then None
                else cons (byte_of_Z (16 * x + y)) <$> unescape mode s''
            | _, _ => None
            end
        | _ => None
        end
      else if host && (bval c <? 128) && shouldEscapeHost c then None
      else cons c <$> unescape mode s'
  end.

(** The scheme and what follows its colon; no scheme is the empty one. *)
Fixpoint getScheme_go (i : nat) (rawURL rest : gostring) : option (gostring * gostring) :=
  match rest with
  | [] => Some ([], rawURL)
  | c :: rest' =>
      if isAlpha c then getScheme_go (S i) rawURL rest'
      else if isDigit c || bool_decide (c ∈ str "+-.") then
        if (i =? 0)%nat then Some ([], rawURL) else getScheme_go (S i) rawURL rest'
      else if bool_decide (c = ":"%byte) then
        if (i =? 0)%nat then None else Some (take i rawURL, rest')
      else Some ([], rawURL)
  end.
Definition getScheme (rawURL : gostring) : option (gostring * gostring) := getScheme_go 0 rawURL rawURL.

Definition validOptionalPort (port : gostring) : bool :=
  match port with
  | [] => true
  | c :: ds => bool_decide (c = ":"%byte) && forallb isDigit ds
  end.

Definition userinfo_bytes : gostring := "-._:~!$&'()*+,;=%@".
Definition validUserinfo (s : gostring) : bool := forallb (λ c, isAlnum c || bool_decide (c ∈ userinfo_bytes)) s.

Record URL : Type := mkURL {
  Scheme : gostring;
  User : option (gostring * option gostring);       (* the password may be absent *)
  Host : gostring;
  Path : gostring
}.

Definition Username (u : URL) : gostring := match User u with Some (n, _) => n | None => [] end.
Definition Password (u : URL) : gostring := match User u with Some (_, Some p) => p | _ => [] end.

Section Parse.
Context (ipLiteral : gostring → option gostring).

Definition parseHost (host : gostring) : option gostring :=
  if bool_decide ("["%byte ∈ host) then ipLiteral host
  else if match LastIndexByte host ":"%byte with
          | Some i => negb (validOptionalPort (drop i host))
          | None => false
          end then None
  else unescape encodeHost host.

Definition parseAuthority (authority : gostring) : option (option (gostring * option gostring) * gostring) :=
  match LastIndexByte authority "@"%byte with
  | None => host ← parseHost authority; Some (None, host)
  | Some i =>
      host ← parseHost (drop (S i) authority);
      let userinfo := take i authority in
      if negb (validUserinfo userinfo) then None
      else match IndexByte userinfo ":"%byte with
      | None => user ← unescape encodeUserPassword userinfo; Some (Some (user, None), host)
      | Some j =>
          user ← unescape encodeUserPassword (take j userinfo);
          pass ← unescape encodeUserPassword (drop (S j) userinfo);
          Some (Some (user, Some pass), host)
      end
  end.

(** [url.parse] without the fragment; the query is cut off. *)
Definition parse (rawURL : gostring) : option URL :=
  if existsb isCTL rawURL then None
  else if bool_decide (rawURL = "*") then Some (mkURL [] None [] "*")
  else
    '(scheme, rest) ← getScheme rawURL;
    let scheme := ToLower scheme in
    let rest := (Cut rest "?"%byte).1 in
    if negb (HasPrefix rest "/") && negb (bool_decide (scheme = [])) then Some (mkURL scheme None [] [])
    else if negb (HasPrefix rest "/") && bool_decide (":"%byte ∈ (Cut rest "/"%byte).1) then None
    else if (negb (bool_decide (scheme = [])) || negb (HasPrefix rest "///")) && HasPrefix rest "//" then
      let authority := drop 2 rest in
      let '(authority, rest) := match IndexByte authority "/"%byte with
                                | Some i => (take i authority, drop i authority)
                                | None => (authority, [])
                                end in
      '(user, host) ← parseAuthority authority;
      path ← unescape encodePath rest;
      Some (mkURL scheme user host path)
    else path ← unescape encodePath rest; Some (mkURL scheme None [] path).

Definition Parse (rawURL : gostring) : option URL :=
  let '(u, frag) := Cut rawURL "#"%byte in
  url ← parse u;
  if bool_decide (frag = []) then Some url
  else _ ← unescape encodeFragment frag; Some url.
End Parse.

(** ** Lemmas *)

(** A byte that [Parse] does not treat specially before the authority is read. *)
Definition clean (b : byte) : bool := negb (isCTL b) && negb (bool_decide (b ∈ str "#?/")).
Definition scheme_byte (b : byte) : bool := isAlnum b || bool_decide (b ∈ str "+-.").

Lemma Cut_not_in s c : c ∉ s → Cut s c = (s, []).
Proof. unfold Cut. by intros ->%IndexByte_None. Qed.

Lemma getScheme_go_app i s rest : Forall (λ b, scheme_byte b = true) s → (i = 0%nat → ∃ b t, s = b :: t ∧ isAlpha b = true) →
  ∀ raw, getScheme_go i raw (s ++ ":"%byte :: rest) = Some (take (i + length s) raw, rest).
Proof.
  revert i. induction s as [|b s IH]; intros i Hs Hi raw.
  - destruct i; [by destruct Hi as (? & ? & ? & _)|]. cbn. by rewrite Nat.add_0_r.
  - apply Forall_cons in Hs as [Hb Hs]. cbn [app getScheme_go].
    assert (getScheme_go (S i) raw (s ++ ":"%byte :: rest) = Some (take (i + S (length s)) raw, rest)) as E.
    { rewrite IH by done. do 2 f_equal. f_equal. lia. }
    unfold scheme_byte, isAlnum in Hb. destruct (isAlpha b) eqn:Ea; [exact E|]. cbn [orb] in Hb. rewrite Hb.
    destruct i; [|exact E]. destruct (Hi eq_refl) as (b' & t & [= <- <-] & Ha). congruence.
Qed.

Lemma getScheme_app s rest : Forall (λ b, scheme_byte b = true) s → (∃ b t, s = b :: t ∧ isAlpha b = true) →
  getScheme (s ++ ":"%byte :: rest) = Some (s, rest).
Proof. intros Hs Hh. unfold getScheme. rewrite getScheme_go_app by done. by rewrite Nat.add_0_l, take_app_length. Qed.

Lemma clean_not_in s c : Forall (λ b, clean b = true) s → clean c = false → c ∉ s.
Proof. intros Hs Hc Hin. rewrite Forall_forall in Hs. specialize (Hs c Hin). cbn in Hs. congruence. Qed.

Lemma clean_scheme_byte b : scheme_byte b = true → clean b = true.
Proof.
  assert (forallZ 256 (λ z, negb (scheme_byte (byte_of_Z z)) || clean (byte_of_Z z)) = true) as H by (vm_compute; done).
  intros Hb. pose proof (forallZ_spec _ _ H (bval b) ltac:(pose proof (bval_range b); lia)) as E. cbn beta in E.
  rewrite byte_of_Z_bval, Hb in E. exact E.
Qed.

Lemma Parse_authority lit scheme auth :
  Forall (λ b, scheme_byte b = true) scheme → (∃ b t, scheme = b :: t ∧ isAlpha b = true) →
  Forall (λ b, clean b = true) auth →
  Parse lit (scheme ++ "://" ++ auth)
  = '(user, host) ← parseAuthority lit auth; Some (mkURL (ToLower scheme) user host []).
Proof.
  intros Hs Hh Ha. assert (Forall (λ b, clean b = true ∨ b = "/"%byte) (scheme ++ "://" ++ auth)) as Hall.
  { apply Forall_app. split; [eapply Forall_impl; [exact Hs|]; intros b Hb; left; by apply clean_scheme_byte|].
    change (str "://" ++ auth) with (":"%byte :: "/"%byte :: "/"%byte :: auth).
    repeat (constructor; [by auto|]). eapply Forall_impl; [exact Ha|]. by left. }
  assert (∀ c, clean c = false → c ≠ "/"%byte → c ∉ scheme ++ "://" ++ auth) as Hn.
  { intros c Hc Hne Hin. rewrite Forall_forall in Hall. destruct (Hall c Hin); congruence. }
  unfold Parse. rewrite Cut_not_in by (apply Hn; done). rewrite bool_decide_true by done.
  assert (existsb isCTL (scheme ++ "://" ++ auth) = false) as Hctl.
  { apply not_true_iff_false. intros (b & Hb%list_elem_of_In & Hc)%existsb_exists.
    rewrite Forall_forall in Hall. destruct (Hall b Hb) as [H| ->]; [|done]. unfold clean in H. by rewrite Hc in H. }
  unfold parse. rewrite Hctl. destruct Hh as (b & t & -> & Hb).
  rewrite bool_decide_false.
  2: { intros E. apply (f_equal length) in E. rewrite !length_app in E. cbn in E. lia. }
  change ((b :: t) ++ str "://" ++ auth) with ((b :: t) ++ ":"%byte :: (str "//" ++ auth)).
  rewrite getScheme_app by (try done; by exists b, t). cbn [mbind option_bind].
  rewrite Cut_not_in.
  2: { intros H. apply (Hn "?"%byte); [done|done|]. apply elem_of_app. right. right. exact H. }
  cbn [fst]. assert (bool_decide (ToLower (b :: t) = []) = false) as ->.
  { apply bool_decide_eq_false_2. intros E. by apply ToLower_nil in E. }
  change (str "//" ++ auth) with ("/"%byte :: "/"%byte :: auth).
  change (HasPrefix ("/"%byte :: "/"%byte :: auth) "/") with true.
  change (HasPrefix ("/"%byte :: "/"%byte :: auth) "//") with true. cbn [negb andb orb drop]. rewrite drop_0.
  assert (IndexByte auth "/"%byte = None) as -> by (apply IndexByte_None, clean_not_in; done).
  destruct (parseAuthority lit auth) as [[u h]|]; done.
Qed.

(** *** Escapes *)

Definition unreserved (b : byte) : bool := isAlnum b || bool_decide (b ∈ str "-._~").
(** A text with every byte but the unreserved ones escaped. *)
Definition escape_byte (b : byte) : gostring :=
  if unreserved b then [b] else ["%"%byte; hexdigit (bval b `div` 16); hexdigit (bval b `mod` 16)].
Definition escape (s : gostring) : gostring := s ≫= escape_byte.

Lemma unescape_escape_byte mode b t : mode ≠ encodeHost →
  unescape mode (escape_byte b ++ t) = cons b <$> unescape mode t.
Proof.
  intros Hm. unfold escape_byte. assert (match mode with encodeHost => true | _ => false end = false) as Hh by by destruct mode.
  destruct (unreserved b) eqn:Eu.
  - cbn [app unescape]. rewrite Hh. cbn [andb]. rewrite bool_decide_false; [done|]. intros ->. done.
  - cbn [app unescape]. rewrite Hh, bool_decide_true by done. pose proof (bval_range b) as Hr.
    rewrite !hexval_hexdigit by (split; [apply Z.div_pos || apply Z.mod_pos_bound|apply Z.div_lt_upper_bound || apply Z.mod_pos_bound]; lia).
    cbn [andb]. rewrite <- Z.div_mod by lia. by rewrite byte_of_Z_bval.
Qed.

Lemma unescape_escape mode s : mode ≠ encodeHost → unescape mode (escape s) = Some s.
Proof.
  intros Hm. induction s as [|b s IH]; [done|]. unfold escape in *. rewrite bind_cons, unescape_escape_byte by done.
  by rewrite IH.
Qed.

(** What escaped text is made of. *)
Lemma escape_bytes s c : c ∈ escape s → unreserved c = true ∨ c = "%"%byte.
Proof.
  unfold escape. intros (b & Hc & _)%list_elem_of_bind. unfold escape_byte in Hc.
  assert (∀ d, 0 ≤ d < 16 → unreserved (hexdigit d) = true) as Hd.
  { assert (forallZ 16 (λ d, unreserved (hexdigit d)) = true) as H by (vm_compute; done).
    intros d Hd. apply (forallZ_spec _ _ H). lia. }
  pose proof (bval_range b) as Hr. destruct (unreserved b) eqn:Eu.
  - apply list_elem_of_singleton in Hc as ->. by left.
  - apply elem_of_cons in Hc as [->|Hc]; [by right|]. left.
    apply elem_of_cons in Hc as [->|Hc]; [apply Hd; split; [apply Z.div_pos; lia|apply Z.div_lt_upper_bound; lia]|].
    apply list_elem_of_singleton in Hc as ->. apply Hd. apply Z.mod_pos_bound. lia.
Qed.

(** *** Plain hosts *)

Definition host_byte (b : byte) : bool := isAlnum b || bool_decide (b ∈ str "-._").

Lemma byte_check (P : byte → bool) : forallZ 256 (λ z, P (byte_of_Z z)) = true → ∀ b, P b = true.
Proof.
  intros H b. pose proof (forallZ_spec _ _ H (bval b) ltac:(pose proof (bval_range b); lia)) as E.
  cbn beta in E. by rewrite byte_of_Z_bval in E.
Qed.

Lemma unescape_host s : Forall (λ b, host_byte b = true ∨ b = ":"%byte) s → unescape encodeHost s = Some s.
Proof.
  assert (∀ b, negb (host_byte b || bool_decide (b = ":"%byte)) ||
    (negb (bool_decide (b = "%"%byte)) && negb (shouldEscapeHost b)) = true) as H by (apply byte_check; vm_compute; done).
  induction 1 as [|b s Hb _ IH]; [done|]. cbn [unescape]. specialize (H b).
  replace (host_byte b || bool_decide (b = ":"%byte)) with true in H.
  2: { symmetry. apply orb_true_iff. destruct Hb as [->| ->]; auto. }
  cbn [negb orb] in H. apply andb_true_iff in H as [H1 H2]. apply negb_true_iff in H1, H2.
  rewrite H1, H2, andb_false_r, IH. done.
Qed.

Definition plain_host (host port : gostring) : Prop :=
  Forall (λ b, host_byte b = true) host ∧ Forall (λ b, isDigit b = true) port.

Lemma plain_not_in host port c : plain_host host port → host_byte c = false → c ≠ ":"%byte → isDigit c = false →
  c ∉ host ++ ":"%byte :: port.
Proof.
  intros [Hh Hp] H1 H2 H3 [H|[->|H]%elem_of_cons]%elem_of_app; [|done|].
  - rewrite Forall_forall in Hh. specialize (Hh c H). cbn in Hh. congruence.
  - by apply (digits_not_in port c) in H.
Qed.

Lemma parseHost_plain lit host port : plain_host host port →
  parseHost lit (host ++ ":"%byte :: port) = Some (host ++ ":"%byte :: port).
Proof.
  intros [Hh Hp]. unfold parseHost. rewrite bool_decide_eq_false_2 by by apply plain_not_in.
  rewrite LastIndexByte_app by by apply digits_not_in. rewrite drop_app_length. cbn [validOptionalPort].
  rewrite bool_decide_true by done. replace (forallb isDigit port) with true.
  2: { symmetry. apply forallb_forall. intros b Hb%list_elem_of_In. rewrite Forall_forall in Hp. by apply Hp. }
  cbn [andb negb]. apply unescape_host, Forall_app. split; [eapply Forall_impl; [exact Hh|]; by left|].
  constructor; [by right|]. eapply Forall_impl; [exact Hp|]. intros b Hb. left. unfold host_byte, isAlnum.
  cbn beta in Hb. rewrite Hb. by rewrite orb_true_r.
Qed.

Lemma parseAuthority_plain lit host port : plain_host host port →
  parseAuthority lit (host ++ ":"%byte :: port) = Some (None, host ++ ":"%byte :: port).
Proof.
  intros H. unfold parseAuthority.
  rewrite (proj2 (LastIndexByte_None _ _)) by by apply plain_not_in. by rewrite parseHost_plain.
Qed.

Lemma parseAuthority_user lit user pass host port : plain_host host port →
  parseAuthority lit (escape user ++ ":"%byte :: escape pass ++ "@"%byte :: host ++ ":"%byte :: port)
  = Some (Some (user, Some pass), host ++ ":"%byte :: port).
Proof.
  intros H. unfold parseAuthority. rewrite (app_comm_cons (escape pass)), app_assoc.
  set (info := escape user ++ ":"%byte :: escape pass).
  rewrite LastIndexByte_app by by apply plain_not_in. rewrite take_app_length.
  rewrite drop_at, parseHost_plain by done. cbn [mbind option_bind].
  assert (validUserinfo info = true) as ->.
  { apply forallb_forall. intros b Hb%list_elem_of_In.
    assert (∀ b, negb (unreserved b || bool_decide (b = "%"%byte) || bool_decide (b = ":"%byte)) ||
      (isAlnum b || bool_decide (b ∈ userinfo_bytes)) = true) as Hc by (apply byte_check; vm_compute; done).
    specialize (Hc b). apply orb_true_iff in Hc as [Hc|Hc]; [|done]. exfalso. apply negb_true_iff, orb_false_iff in Hc as [Hc H3].
    apply orb_false_iff in Hc as [H1 H2]. b2p. unfold info in Hb.
    apply elem_of_app in Hb as [Hb|[->|Hb]%elem_of_cons]; [|done|]; apply escape_bytes in Hb as [Hb|Hb]; congruence. }
  cbn [negb]. unfold info. rewrite IndexByte_app.
  2: { intros Hb. apply escape_bytes in Hb as [Hb|Hb]; done. }
  by rewrite take_app_length, drop_at, !unescape_escape.
Qed.
