(* ===== verification/AutorouteLinux.v ===== *)
(** * Default routes and DNS redirection on Linux (internal/autoroute/autoroute_linux.go)

    [Apply] captures the default gateway, adds bypass routes for the proxy, the
    default routes into the tunnel and the DNS redirection, and returns the
    function that takes it all back.  A fallible Go function returns here its
    value and, on failure, the message of its error. *)

From S2P Require Import Prelude GoStrings Netip Netaddr Effects Exec Dns.

(** ** Definitions *)

Definition nanotunMarkHex : gostring := "0x6e74".
Definition nftTable4 : gostring := "nanotun_dns".
Definition nftTable6 : gostring := "nanotun_dns6".

Definition gw4 : gostring := addr_String GatewayIPv4.
Definition gw6 : gostring := addr_String GatewayIPv6.

(** The words after [via] and [dev] in a line, the last of each. *)
Fixpoint via_dev (fields : list gostring) (gw dev : gostring) : gostring * gostring :=
  match fields with
  | [] => (gw, dev)
  | f :: rest =>
      let gw' := if bool_decide (f = "via") then default gw (head rest) else gw in
      let dev' := if bool_decide (f = "dev") then default dev (head rest) else dev in
      via_dev rest gw' dev'
  end.

Fixpoint scan_gateway (lines : list gostring) : option (gostring * gostring) :=
  match lines with
  | [] => None
  | line :: rest =>
      let '(gw, dev) := via_dev (Fields line) [] [] in
      if negb (bool_decide (gw = [])) && negb (bool_decide (dev = [])) then Some (gw, dev)
      else scan_gateway rest
  end.

Definition parse_gateway (out : gostring) : option (gostring * gostring) :=
  scan_gateway (Split out newline).

Definition defaultGateway4 : sys (result gostring (gostring * gostring)) :=
  do out <- output (words "ip route show default");
  Ret (match out with
       | None => Err (str "ip route show default")
       | Some out => match parse_gateway out with
                     | Some r => Ok r
                     | None => Err (str "no default route found")
                     end
       end).

Definition defaultGateway6 : sys (result gostring (gostring * gostring)) :=
  do out <- output (words "ip -6 route show default");
  Ret (match out with
       | None => Err (str "ip -6 route show default")
       | Some out => match parse_gateway out with
                     | Some r => Ok r
                     | None => Err (str "no ipv6 default route")
                     end
       end).

Definition resolveProxyHost : gostring → sys (list gostring) := Exec.resolveProxyHost.

(** *** Redirection rules *)

Definition nft_chain : gostring := "{ type nat hook output priority -100 ; policy accept ; }".

Definition nft_rule (ip table proto gw : gostring) : list gostring :=
  words "nft add rule" ++ [ip; table; str "output"; proto; str "dport"; str "53"; ip; str "daddr"; str "!="; gw;
    str "meta"; str "mark"; str "!="; nanotunMarkHex; str "dnat"; str "to"; gw].

Definition nft_cmds : list (list gostring) :=
  [ words "nft add table ip" ++ [nftTable4];
    words "nft add chain ip" ++ [nftTable4; str "output"; nft_chain];
    nft_rule "ip" nftTable4 "udp" gw4;
    nft_rule "ip" nftTable4 "tcp" gw4;
    words "nft add table ip6" ++ [nftTable6];
    words "nft add chain ip6" ++ [nftTable6; str "output"; nft_chain];
    nft_rule "ip6" nftTable6 "udp" gw6;
    nft_rule "ip6" nftTable6 "tcp" gw6 ].

(** Runs all the commands and tells whether all succeeded (the code returns the
    last error). *)
Fixpoint run_all (cmds : list (list gostring)) : sys bool :=
  match cmds with
  | [] => Ret true
  | c :: rest => do ok <- run c; do rest_ok <- run_all rest; Ret (ok && rest_ok)
  end.

(** Runs commands until one fails, then cleans up. *)
Fixpoint run_or (cmds : list (list gostring)) (cleanup : sys bool) : sys bool :=
  match cmds with
  | [] => Ret true
  | c :: rest =>
      do ok <- run c;
      if ok then run_or rest cleanup else do_ cleanup; Ret false
  end.

Definition cleanupNft : sys bool :=
  run_all [ words "nft delete table ip" ++ [nftTable4]; words "nft delete table ip6" ++ [nftTable6] ].

Definition applyNft : sys bool := run_or nft_cmds cleanupNft.

(** An iptables rule, inserted or deleted. *)
Definition ipt_rule (tool op proto gw : gostring) : list gostring :=
  [tool; str "-t"; str "nat"; op; str "OUTPUT"; str "-p"; proto; str "--dport"; str "53"; str "!"; str "-d"; gw;
   str "-m"; str "mark"; str "!"; str "--mark"; nanotunMarkHex; str "-j"; str "DNAT"; str "--to"; gw].

Definition cleanupIPTables : sys bool :=
  run_all [ ipt_rule "iptables" "-D" "udp" gw4; ipt_rule "iptables" "-D" "tcp" gw4;
            ipt_rule "ip6tables" "-D" "udp" gw6; ipt_rule "ip6tables" "-D" "tcp" gw6 ].

Definition applyIPTables : sys bool :=
  do ok <- run_or [ ipt_rule "iptables" "-I" "udp" gw4; ipt_rule "iptables" "-I" "tcp" gw4 ] cleanupIPTables;
  if negb ok then Ret false
  else
    do_ run (ipt_rule "ip6tables" "-I" "udp" gw6);
    do_ run (ipt_rule "ip6tables" "-I" "tcp" gw6);
    Ret true.

(** *** Apply *)

Definition bypass (op ip gw dev : gostring) : list gostring :=
  [str "ip"; str "route"; op; ip ++ "/32"; str "via"; gw; str "dev"; dev].
Definition default4 (op tun : gostring) : list gostring :=
  [str "ip"; str "route"; op; str "default"; str "via"; gw4; str "dev"; tun].
Definition default6 (op tun : gostring) : list gostring :=
  [str "ip"; str "-6"; str "route"; op; str "default"; str "via"; gw6; str "dev"; tun].
Definition bypass6 (ip gw dev : gostring) : list gostring :=
  [str "ip"; str "-6"; str "route"; str "add"; ip ++ "/128"; str "via"; gw; str "dev"; dev].

(** The bypass loop: the clean-ups of the routes that could be added. *)
Fixpoint add_bypass (ips : list gostring) (gw dev : gostring) (cleanups : list (sys ())) : sys (list (sys ())) :=
  match ips with
  | [] => Ret cleanups
  | ip :: rest =>
      do ok <- run (bypass "add" ip gw dev);
      if negb ok then do_ log "autoroute: add proxy bypass route"; add_bypass rest gw dev cleanups
      else
        do_ log "autoroute: proxy bypass route added";
        add_bypass rest gw dev
          (cleanups ++ [undo_cmd (bypass "del" ip gw dev) "autoroute: remove proxy bypass route"])
  end.

(** The IPv6 bypass loop: results are ignored. *)
Fixpoint add_bypass6 (ips : list gostring) (gw dev : gostring) : sys () :=
  match ips with
  | [] => Ret tt
  | ip :: rest => do_ run (bypass6 ip gw dev); add_bypass6 rest gw dev
  end.

(** A clean-up that runs several commands. *)
Definition undo_all (cleanup : sys bool) (msg : gostring) : sys () :=
  do ok <- cleanup; if ok then Ret tt else log msg.

Definition apply_dns (cleanups : list (sys ())) : sys (list (sys ())) :=
  do nft <- toolExists "nft";
  if nft then
    do ok <- applyNft;
    if negb ok then do_ log "autoroute: nft DNS redirect failed, DNS not redirected"; Ret cleanups
    else
      do_ log "autoroute: DNS redirect via nftables";
      Ret (cleanups ++ [undo_all cleanupNft "autoroute: cleanup nft tables"])
  else
    do ipt <- toolExists "iptables";
    if ipt then
      do ok <- applyIPTables;
      if negb ok then do_ log "autoroute: iptables DNS redirect failed, DNS not redirected"; Ret cleanups
      else
        do_ log "autoroute: DNS redirect via iptables";
        Ret (cleanups ++ [undo_all cleanupIPTables "autoroute: cleanup iptables rules"])
    else
      do_ log ("autoroute: neither nft nor iptables found; set system DNS to " ++ gw4 ++ " manually");
      Ret cleanups.

(** After the IPv4 default route is in. *)
Definition apply_rest (tunName : gostring) (proxyIPs : list gostring) (cleanups : list (sys ()))
    : sys (list (sys ())) :=
  do g6 <- defaultGateway6;
  do_ match g6 with
      | Ok (origGW6, origDev6) =>
          if bool_decide (origGW6 = []) then Ret tt else add_bypass6 proxyIPs origGW6 origDev6
      | Err _ => Ret tt
      end;
  do ok6 <- run (default6 "add" tunName);
  if negb ok6 then do_ log "autoroute: add ipv6 default route"; apply_dns cleanups
  else apply_dns (cleanups ++ [undo_cmd (default6 "del" tunName) "autoroute: remove ipv6 default route"]).

(** The clean-up function and the error, if any. *)
Definition Apply (tunName proxyAddr : gostring) : sys (sys () * option gostring) :=
  do g <- defaultGateway4;
  match g with
  | Err e => Ret (nop, Some (str "autoroute: detect current default gateway: " ++ e))
  | Ok (origGW4, origDev4) =>
      do_ log "autoroute: original gateway";
      do proxyIPs <- resolveProxyHost proxyAddr;
      do cleanups <- add_bypass proxyIPs origGW4 origDev4 [];
      do ok <- run (default4 "add" tunName);
      if negb ok then
        do_ revert cleanups;
        Ret (nop, Some (str "autoroute: add ipv4 default route"))
      else
        let cleanups := cleanups ++ [undo_cmd (default4 "del" tunName) "autoroute: remove ipv4 default route"] in
        do cleanups <- apply_rest tunName proxyIPs cleanups;
        do_ log "autoroute: default routes installed";
        Ret (revert cleanups, None)
  end.

(** ** Lemmas *)

(** The inverse of the commands that change the routing tables, the nftables
    tables and the iptables rules.  Chains and rules of nftables go with their
    table. *)
Definition strip (p c : list gostring) : option (list gostring) :=
  if bool_decide (take (length p) c = p) then Some (drop (length p) c) else None.

Definition undo (c : list gostring) : option (list gostring) :=
  match strip (words "ip route add") c, strip (words "ip -6 route add") c,
        strip (words "nft add table") c with
  | Some r, _, _ => Some (words "ip route del" ++ r)
  | _, Some r, _ => Some (words "ip -6 route del" ++ r)
  | _, _, Some r => Some (words "nft delete table" ++ r)
  | _, _, _ =>
      match c with
      | tool :: rest => r ← strip (words "-t nat -I") rest; Some (tool :: words "-t nat -D" ++ r)
      | [] => None
      end
  end.

(** An IPv6 route other than the default one. *)
Definition special (op : string) (c : list gostring) : bool :=
  match strip (words "ip -6 route" ++ [str op]) c with
  | Some (dest :: _) => negb (bool_decide (dest = "default"))
  | _ => false
  end.

(** The changes the code makes no provision to take back. *)
Definition stranded : list gostring → bool := special "add".

Abbreviation kept_undo := (except stranded undo).

Lemma undo_bypass ip gw dev : kept_undo (bypass "add" ip gw dev) = Some (bypass "del" ip gw dev).
Proof. reflexivity. Qed.
Lemma undo_default4 tun : kept_undo (default4 "add" tun) = Some (default4 "del" tun).
Proof. reflexivity. Qed.
Lemma undo_default6 tun : kept_undo (default6 "add" tun) = Some (default6 "del" tun).
Proof. reflexivity. Qed.

Lemma not_default (ip : gostring) : negb (bool_decide (ip ++ str "/128" = str "default")) = true.
Proof.
  rewrite bool_decide_eq_false_2; [done|]. intros H. apply (f_equal last) in H. by rewrite last_app in H.
Qed.
Lemma stranded_bypass6 ip gw dev : stranded (bypass6 ip gw dev) = true.
Proof. apply not_default. Qed.
Lemma undo_bypass6 ip gw dev : kept_undo (bypass6 ip gw dev) = None.
Proof. unfold except. by rewrite stranded_bypass6. Qed.
Lemma undo_special c d : stranded c = true → undo c = Some d → special "del" d = true.
Proof.
  unfold stranded, special, undo. destruct (strip (words "ip -6 route" ++ [str "add"]) c) as [[|dest r]|] eqn:E; try done.
  change (words "ip -6 route" ++ [str "add"]) with (words "ip -6 route add") in E. rewrite E.
  intros Hd. assert (strip (words "ip route add") c = None) as ->.
  { unfold strip in *. case_bool; [|done]. case_bool; [|done]. exfalso. destruct c as [|c0 [|c1 c]]; [done..|].
    apply (f_equal (λ l, l !! 1%nat)) in Heqb, Heqb0. change (Some c1 = Some (str "route")) in Heqb.
    change (Some c1 = Some (str "-6")) in Heqb0. rewrite Heqb in Heqb0. discriminate Heqb0. }
  by intros [= <-].
Qed.

(** *** Batches *)

Lemma run_all_cleans cmds : cleans (run_all cmds) cmds.
Proof.
  induction cmds as [|c cmds IH]; intros tr a H; cbn [run_all] in H; [by destruct H as [-> _]|].
  apply runs_bind_inv in H as (t1 & t2 & ok & -> & H1%run_inv_run & H). subst t1.
  apply runs_bind_inv in H as (t3 & t4 & ok' & -> & H3%IH & [-> _]). cmds. by rewrite H3.
Qed.

Lemma undo_all_cleans c cmds msg : cleans c cmds → cleans (undo_all c msg) cmds.
Proof.
  intros Hc tr a (t1 & t2 & ok & -> & H1%Hc & H2)%runs_bind_inv. cmds. rewrite H1.
  destruct ok; [destruct H2 as [-> _]|apply quiet_log in H2 as [-> _]]; by cmds.
Qed.

(** A batch takes back what it did when a command fails, and else leaves it to
    the clean-up. *)
Lemma run_or_undone cmds fin cl tr ok : cleans fin cl → Forall (λ c, kept_undo c = None) cl →
  Forall (λ c, ∀ d, kept_undo c = Some d → d ∈ cl) cmds → runs (run_or cmds fin) tr ok →
  undone kept_undo tr (if ok : bool then cl else []).
Proof.
  intros Hfin Hcl Hcmds. revert tr. induction Hcmds as [|c cmds Hc _ IH]; intros tr H; cbn [run_or] in H.
  - by destruct H as [-> ->].
  - apply runs_bind_inv in H as (t1 & t2 & ok1 & -> & H1%run_inv_run & H). subst t1. destruct ok1.
    + specialize (IH t2 H). cbn [app undone]. split; [|done].
      intros c' d Hc' Hd. apply list_elem_of_singleton in Hc' as ->.
      destruct ok; [right; by apply Hc|]. left. clear IH. revert t2 H.
      induction cmds as [|c2 cmds IH2]; intros t2 H; [by destruct H|]. cbn [run_or] in H.
      apply runs_bind_inv in H as (t1 & t3 & ok1 & -> & H1 & H). cmds. apply elem_of_app. right.
      destruct ok1; [by apply IH2|]. apply runs_bind_inv in H as (t4 & t5 & b & -> & H4%Hfin & [-> _]).
      cmds. rewrite H4. by apply Hc.
    + apply runs_bind_inv in H as (t4 & t5 & b & -> & H4%Hfin & [-> ->]).
      apply (undone_app kept_undo [_] _ [] []).
      * cbn [undone]. split; [|done]. intros c' d' Hc'. by apply elem_of_nil in Hc'.
      * rewrite app_nil_r. apply undone_none. intros c' Hc'%succeeded_attempted. rewrite H4 in Hc'.
        rewrite Forall_forall in Hcl. by apply Hcl.
Qed.

Definition nft_clean : list (list gostring) :=
  [ words "nft delete table ip" ++ [nftTable4]; words "nft delete table ip6" ++ [nftTable6] ].
Definition ipt_clean : list (list gostring) :=
  [ ipt_rule "iptables" "-D" "udp" gw4; ipt_rule "iptables" "-D" "tcp" gw4;
    ipt_rule "ip6tables" "-D" "udp" gw6; ipt_rule "ip6tables" "-D" "tcp" gw6 ].

(** Checks over the closed command lists. *)
Definition undo_in (cl : list (list gostring)) (c : list gostring) : bool :=
  match kept_undo c with None => true | Some d => bool_decide (d ∈ cl) end.

Lemma undo_in_spec cl cmds : forallb (undo_in cl) cmds = true →
  Forall (λ c, ∀ d, kept_undo c = Some d → d ∈ cl) cmds.
Proof.
  rewrite forallb_forall. intros H. apply Forall_forall. intros c Hc%list_elem_of_In%H d Hd.
  unfold undo_in in Hc. rewrite Hd in Hc. by b2p.
Qed.

Lemma undo_none_spec cl : forallb (λ c, bool_decide (kept_undo c = None)) cl = true → Forall (λ c, kept_undo c = None) cl.
Proof.
  rewrite forallb_forall. intros H. apply Forall_forall. intros c Hc%list_elem_of_In%H. by b2p.
Qed.

Lemma applyNft_undone tr ok : runs applyNft tr ok → undone kept_undo tr (if ok : bool then nft_clean else []).
Proof.
  apply run_or_undone; [apply run_all_cleans| |].
  - apply undo_none_spec. vm_compute. reflexivity.
  - apply undo_in_spec. vm_compute. reflexivity.
Qed.

Lemma applyIPTables_undone tr ok : runs applyIPTables tr ok → undone kept_undo tr (if ok : bool then ipt_clean else []).
Proof.
  intros (t1 & t2 & ok1 & -> & H1 & H2)%runs_bind_inv.
  apply (run_or_undone _ _ ipt_clean) in H1; [|apply run_all_cleans|apply undo_none_spec; vm_compute; reflexivity
    |apply undo_in_spec; vm_compute; reflexivity].
  destruct ok1; cbn [negb] in H2; [|destruct H2 as [-> ->]; by rewrite app_nil_r].
  apply runs_bind_inv in H2 as (t3 & t4 & o3 & -> & H3%run_inv_run & H2). subst t3.
  apply runs_bind_inv in H2 as (t5 & t6 & o5 & -> & H5%run_inv_run & [-> ->]). subst t5.
  eapply (undone_mono kept_undo _ (ipt_clean ++ ipt_clean)); [set_solver|].
  apply undone_app; [done|]. cbn [app undone]. split_and!; [| |done].
  all: intros c d Hc Hd; right; cbn [ev ev_done] in Hc.
  all: destruct o3, o5; try (by apply elem_of_nil in Hc); apply list_elem_of_singleton in Hc; subst c.
  all: revert d Hd; apply (Forall_singleton (λ c, ∀ d, kept_undo c = Some d → d ∈ ipt_clean)).
  all: apply undo_in_spec; vm_compute; reflexivity.
Qed.

(** *** Phases *)

Lemma linux_bypass_phase ips gw dev : phase kept_undo (add_bypass ips gw dev).
Proof.
  induction ips as [|ip ips IH]; [apply phase_ret|]. cbn [add_bypass].
  apply (phase_cmd kept_undo (bypass "add" ip gw dev) (bypass "del" ip gw dev) _ [bypass "del" ip gw dev]);
    eauto with nanotun.
  - intros d'. rewrite undo_bypass. by intros [= <-].
  - apply undo_cmd_cleans.
  - left.
Qed.

Lemma add_bypass6_undone ips gw dev tr a : runs (add_bypass6 ips gw dev) tr a → undone kept_undo tr [].
Proof.
  revert tr. induction ips as [|ip ips IH]; intros tr H; [by destruct H as [-> _]|]. cbn [add_bypass6] in H.
  apply runs_bind_inv in H as (t1 & t2 & ok & -> & H1%run_inv_run & H2%IH). subst t1.
  cbn [app undone]. split; [|done]. intros c d Hc Hd. destruct ok; cbn [ev ev_done] in Hc;
    [apply list_elem_of_singleton in Hc; subst c; by rewrite undo_bypass6 in Hd|by apply elem_of_nil in Hc].
Qed.

Lemma quiet_phase msg : phase kept_undo (λ cs, do_ log msg; Ret cs).
Proof. apply phase_after; [apply quiet_undone, quiet_log|intros _; apply phase_ret]. Qed.

Lemma apply_dns_phase : phase kept_undo apply_dns.
Proof.
  unfold apply_dns. apply phase_after; [apply quiet_undone, quiet_tool|]. intros [].
  - apply (phase_step kept_undo applyNft _ nft_clean); eauto using applyNft_undone, phase_ret with nanotun.
    { apply undo_all_cleans, run_all_cleans. }
    apply undo_none_spec. vm_compute. reflexivity.
  - apply phase_after; [apply quiet_undone, quiet_tool|]. intros []; [|apply quiet_phase].
    apply (phase_step kept_undo applyIPTables _ ipt_clean); eauto using applyIPTables_undone, phase_ret with nanotun.
    { apply undo_all_cleans, run_all_cleans. }
    apply undo_none_spec. vm_compute. reflexivity.
Qed.

Lemma apply_rest_phase tun ips : phase kept_undo (apply_rest tun ips).
Proof.
  unfold apply_rest. apply phase_after.
  { apply quiet_undone. apply quiet_bind; [apply quiet_output|intros; apply quiet_ret]. }
  intros g6. apply phase_after.
  { intros tr a H. destruct g6 as [[gw dev]|]; [|by destruct H as [-> _]].
    case_bool; [by destruct H as [-> _]|by eapply add_bypass6_undone]. }
  intros _. apply (phase_cmd kept_undo (default6 "add" tun) (default6 "del" tun)
    (undo_cmd (default6 "del" tun) "autoroute: remove ipv6 default route") [default6 "del" tun]
    (log "autoroute: add ipv6 default route") (Ret tt) apply_dns); eauto using apply_dns_phase with nanotun.
  - intros d'. rewrite undo_default6. by intros [= <-].
  - apply undo_cmd_cleans.
  - left.
Qed.

(** Everything after the gateway is known, as one phase when it succeeds. *)
Lemma apply_all_phase tun ips gw dev : phase kept_undo (λ cs,
  do cs <- add_bypass ips gw dev cs;
  do ok <- run (default4 "add" tun);
  if negb ok then do_ Ret tt; Ret cs
  else do_ Ret tt; apply_rest tun ips (cs ++ [undo_cmd (default4 "del" tun) "autoroute: remove ipv4 default route"])).
Proof.
  apply phase_bind; [apply linux_bypass_phase|].
  intros cs cmdss tr cs' H Hr. apply runs_bind_inv in Hr as (t1 & t2 & ok & -> & H1%run_inv_run & H2). subst t1.
  destruct ok; cbn [negb io_bind] in H2.
  - assert (Forall2 cleans (cs ++ [undo_cmd (default4 "del" tun) "autoroute: remove ipv4 default route"])
      (cmdss ++ [[default4 "del" tun]])) as F.
    { apply Forall2_app; [done|]. constructor; [apply undo_cmd_cleans|constructor]. }
    destruct (apply_rest_phase tun ips _ _ _ _ F H2) as (new & Fn & Un & Nn).
    exists ([default4 "del" tun] :: new). rewrite <- app_assoc in Fn. split; [done|].
    split; [|by constructor].
    apply (undone_app kept_undo [_] _ [default4 "del" tun]); [|done]. cbn [undone]. split; [|done].
    intros c d Hc Hd. apply list_elem_of_singleton in Hc as ->. rewrite undo_default4 in Hd. injection Hd as <-. right. left.
  - destruct H2 as [-> ->]. exists []. rewrite app_nil_r. split_and!; [done| |done]. cbn. split; [|done].
    intros c d Hc. by apply elem_of_nil in Hc.
Qed.

Lemma Apply_undone tun proxy tr c err tr' :
  runs (Apply tun proxy) tr (c, err) → runs c tr' tt →
  undone kept_undo tr (attempted tr') ∧ undone kept_undo tr' [] ∧ (err ≠ None → tr' = []).
Proof.
  intros H Hc. unfold Apply in H. apply runs_bind_inv in H as (t1 & t2 & g & -> & H1 & H).
  assert (undone kept_undo t1 []) as U1.
  { eapply quiet_undone; [|exact H1]. apply quiet_bind; [apply quiet_output|intros; apply quiet_ret]. }
  destruct g as [[gw dev]|e].
  2: { destruct H as [-> [= -> ->]]. destruct Hc as [-> _]. rewrite app_nil_r. done. }
  apply runs_bind_inv in H as (t3 & t4 & [] & -> & H3%quiet_log & H). destruct H3 as [_ H3].
  apply runs_bind_inv in H as (t5 & t6 & ips & -> & H5%quiet_resolve & H). destruct H5 as [_ H5].
  apply runs_bind_inv in H as (t7 & t8 & cs & -> & H7 & H).
  apply runs_bind_inv in H as (t9 & t10 & ok & -> & H9%run_inv_run & H). subst t9.
  apply (undone_quiet kept_undo) in H3, H5.
  destruct ok; cbn [negb] in H.
  - apply runs_bind_inv in H as (t11 & t12 & cs' & -> & H11 & H).
    apply runs_bind_inv in H as (t13 & t14 & [] & -> & H13%quiet_log & [-> [= -> ->]]). destruct H13 as [_ H13].
    apply (undone_quiet kept_undo) in H13.
    assert (runs (do cs <- add_bypass ips gw dev [];
      do ok <- run (default4 "add" tun);
      if negb ok then do_ Ret tt; Ret cs
      else do_ Ret tt; apply_rest tun ips (cs ++ [undo_cmd (default4 "del" tun) "autoroute: remove ipv4 default route"]))
      (t7 ++ [ev (Run (default4 "add" tun)) true] ++ t11) cs') as Hall.
    { eapply runs_bind; [exact H7|]. by eexists _, _. }
    pose proof (phase_revert kept_undo _ _ _ _ _ (apply_all_phase tun ips gw dev) Hall Hc) as [U UC].
    split_and!; [|done|done].
    replace (t7 ++ [ev (Run (default4 "add" tun)) true] ++ t11 ++ t13 ++ [])
      with ((t7 ++ [ev (Run (default4 "add" tun)) true] ++ t11) ++ t13) by (rewrite app_nil_r, <- !app_assoc; done).
    repeat (apply undone_pre; [assumption|]). by apply undone_post.
  - apply runs_bind_inv in H as (t11 & t12 & [] & -> & H11 & [-> [= -> ->]]). destruct Hc as [-> _].
    pose proof (phase_revert kept_undo _ _ _ _ _ (linux_bypass_phase ips gw dev) H7 H11) as [U U'].
    split_and!; [|done|done]. rewrite app_nil_r. cbn [app]. repeat (apply undone_pre; [assumption|]). apply undone_later.
    + eapply undone_mono; [|exact U]. intros d Hd. cmds. by right.
    + cbn [undone]. split; [intros c d Hc; by apply elem_of_nil in Hc|done].
Qed.

(** *** What may be tried *)

(** Of the special IPv6 routes, those to IPv4 addresses are added, and none is
    deleted. *)
Definition usual (c : list gostring) : Prop :=
  (stranded c = true → ∃ v gw dev, 0 ≤ v < 2 ^ 32 ∧ c = bypass6 (string4 v) gw dev) ∧ special "del" c = false.

Abbreviation harmless := (tries usual (λ _, True)).

Lemma usual_plain c : stranded c = false → special "del" c = false → usual c.
Proof. intros H1 H2. split; [|done]. by rewrite H1. Qed.
Lemma usual_bypass6 v gw dev : 0 ≤ v < 2 ^ 32 → usual (bypass6 (string4 v) gw dev).
Proof. intros H. split; [|reflexivity]. intros _. by exists v, gw, dev. Qed.

Lemma usual_all cmds : forallb (λ c, negb (stranded c) && negb (special "del" c)) cmds = true → Forall usual cmds.
Proof.
  rewrite forallb_forall. intros H. apply Forall_forall. intros c Hc%list_elem_of_In%H.
  apply andb_true_iff in Hc as [H1%negb_true_iff H2%negb_true_iff]. by apply usual_plain.
Qed.

Lemma tries_run_all P cmds : Forall P cmds → tries P (λ _, True) (run_all cmds).
Proof.
  induction 1 as [|c cmds Hc _ IH]; [by apply tries_ret|]. apply tries_seq; [by apply tries_run|]. intros ok.
  apply tries_seq; [exact IH|]. intros ok'. by apply tries_ret.
Qed.
Lemma tries_run_or P cmds fin : Forall P cmds → tries P (λ _, True) fin → tries P (λ _, True) (run_or cmds fin).
Proof.
  intros H Hf. induction H as [|c cmds Hc _ IH]; [by apply tries_ret|]. apply tries_seq; [by apply tries_run|].
  intros []; [exact IH|]. apply tries_seq; [exact Hf|]. intros _. by apply tries_ret.
Qed.

Lemma cleanupNft_usual : harmless cleanupNft.
Proof. apply tries_run_all, usual_all. vm_compute. reflexivity. Qed.
Lemma applyNft_usual : harmless applyNft.
Proof. apply tries_run_or; [apply usual_all; vm_compute; reflexivity|apply cleanupNft_usual]. Qed.
Lemma cleanupIPTables_usual : harmless cleanupIPTables.
Proof. apply tries_run_all, usual_all. vm_compute. reflexivity. Qed.
Lemma applyIPTables_usual : harmless applyIPTables.
Proof.
  apply tries_seq; [apply tries_run_or; [apply usual_all; vm_compute; reflexivity|apply cleanupIPTables_usual]|].
  intros []; [|by apply tries_ret]. cbn [negb].
  do 2 (apply tries_seq; [apply tries_run, usual_plain; vm_compute; reflexivity|intros _]). by apply tries_ret.
Qed.

Lemma log_usual msg : harmless (log msg).
Proof. apply tries_quiet, quiet_log. Qed.
Lemma undo_cmd_usual c msg : stranded c = false → special "del" c = false → harmless (undo_cmd c msg).
Proof. intros H1 H2. by apply tries_undo_cmd, usual_plain. Qed.
Lemma undo_all_usual c msg : harmless c → harmless (undo_all c msg).
Proof. intros H. apply tries_seq; [exact H|]. intros []; [by apply tries_ret|apply log_usual]. Qed.
Create HintDb usual.
#[local] Hint Resolve cleanupNft_usual applyNft_usual cleanupIPTables_usual applyIPTables_usual log_usual undo_cmd_usual
  undo_all_usual tidy_snoc tries_quiet tries_run usual_plain : usual.

Lemma add_bypass_usual ips gw dev cs : tidy usual cs → tries usual (tidy usual) (add_bypass ips gw dev cs).
Proof.
  revert cs. induction ips as [|ip ips IH]; intros cs H; [by apply tries_ret|]. cbn [add_bypass].
  apply tries_seq; [by auto with usual|]. intros []; (apply tries_seq; [apply log_usual|intros _; auto with usual]).
Qed.

Lemma add_bypass6_usual ips gw dev : Forall (λ ip, ∃ v, 0 ≤ v < 2 ^ 32 ∧ ip = string4 v) ips →
  harmless (add_bypass6 ips gw dev).
Proof.
  induction 1 as [|ip ips (v & Hv & ->) _ IH]; [by apply tries_ret|].
  apply tries_seq; [by apply tries_run, usual_bypass6|]. intros _. exact IH.
Qed.

Lemma apply_dns_usual cs : tidy usual cs → tries usual (tidy usual) (apply_dns cs).
Proof.
  intros H. unfold apply_dns.
  assert (∀ msg fin, harmless fin → tries usual (tidy usual) (do_ log msg; Ret (cs ++ [fin]))) as Hend.
  { intros msg fin Hf. apply tries_seq; [apply log_usual|]. intros _. apply tries_ret. by apply tidy_snoc. }
  assert (∀ msg, tries usual (tidy usual) (do_ log msg; Ret cs)) as Hno.
  { intros msg. apply tries_seq; [apply log_usual|]. intros _. by apply tries_ret. }
  apply tries_seq; [auto with usual nanotun|]. intros [].
  - apply tries_seq; [apply applyNft_usual|]. intros []; [apply Hend; auto with usual|apply Hno].
  - apply tries_seq; [auto with usual nanotun|]. intros []; [|apply Hno].
    apply tries_seq; [apply applyIPTables_usual|]. intros []; [apply Hend; auto with usual|apply Hno].
Qed.

Lemma apply_rest_usual tun ips cs : Forall (λ ip, ∃ v, 0 ≤ v < 2 ^ 32 ∧ ip = string4 v) ips → tidy usual cs →
  tries usual (tidy usual) (apply_rest tun ips cs).
Proof.
  intros Hips H. unfold apply_rest. apply tries_seq; [apply tries_quiet; unfold defaultGateway6; auto with nanotun|].
  intros g6. apply tries_seq.
  { destruct g6 as [[gw dev]|]; [|by apply tries_ret]. case_bool; [by apply tries_ret|by apply add_bypass6_usual]. }
  intros _. apply tries_seq; [by auto with usual|]. intros []; [apply apply_dns_usual; auto with usual|].
  apply tries_seq; [apply log_usual|]. intros _. by apply apply_dns_usual.
Qed.

(** Also the clean-up returned keeps to the usual commands. *)
Lemma Apply_usual tun proxy : tries usual (λ r, harmless r.1) (Apply tun proxy).
Proof.
  unfold Apply. apply tries_seq; [apply tries_quiet; unfold defaultGateway4; auto with nanotun|].
  intros [[gw dev]|e]; [|by apply tries_ret, tries_ret]. apply tries_seq; [apply log_usual|]. intros _.
  eapply tries_bind; [apply tries_resolve|]. intros ips Hips.
  eapply tries_bind; [apply add_bypass_usual; constructor|]. intros cs Hcs. apply tries_seq; [by auto with usual|].
  intros []; cbn [negb].
  - eapply tries_bind; [apply apply_rest_usual; auto with usual|]. intros cs' Hcs'.
    apply tries_seq; [apply log_usual|]. intros _. by apply tries_ret, tries_revert.
  - apply tries_seq; [by apply tries_revert|]. intros _. by apply tries_ret, tries_ret.
Qed.

(** ** Theorems *)

(** C8: what [Apply] changes on Linux is taken back, on any path and whatever
    commands fail, with one exception.  Every successful change to the IPv4
    routes, the IPv6 default route, the nftables tables and the iptables rules
    is followed by the command that takes it back, either in [Apply] itself or
    in the clean-up it returns; and when [Apply] fails the clean-up it returns
    does nothing, so the change was taken back before.  The exception are the
    IPv6 bypass routes: such a route is only ever asked for an IPv4 address of
    the proxy, and the command that would delete it is never run; in a run in
    which none of these additions succeeds, everything is taken back. *)
Theorem linux_changes_undone tun proxy tr c err tr' :
  runs (Apply tun proxy) tr (c, err) → runs c tr' tt →
  undone (except stranded undo) tr (attempted tr') ∧
  (err ≠ None → tr' = []) ∧
  (∀ b, b ∈ attempted tr → stranded b = true →
     ∃ v gw dev, 0 ≤ v < 2 ^ 32 ∧ b = bypass6 (string4 v) gw dev ∧
       ∀ d, undo b = Some d → d ∉ attempted (tr ++ tr')) ∧
  ((∀ b, b ∈ succeeded tr → stranded b = false) → undone undo tr (attempted tr')).
Proof.
  intros H Hc. destruct (Apply_undone _ _ _ _ _ _ H Hc) as (U & _ & E).
  destruct (Apply_usual _ _ _ _ H) as [F1 Hfin]. destruct (Hfin _ _ Hc) as [F2 _].
  rewrite Forall_forall in F1, F2. split_and!; [done|done| |intros Hs; by eapply undone_except].
  intros b Hb Hs. destruct (proj1 (F1 b Hb) Hs) as (v & gw & dev & Hv & Eb). exists v, gw, dev. split; [exact Hv|]. split; [exact Eb|].
  intros d Hd. rewrite attempted_app, elem_of_app. pose proof (undo_special b d Hs Hd) as Hdel.
  intros [[_ Hno]%F1|[_ Hno]%F2]; congruence.
Qed.

(** *** The redirection rules *)

(** The value a hexadecimal literal [0x...] denotes. *)
Definition hex_value (s : gostring) : option Z :=
  if HasPrefix s "0x" then foldl (λ acc b, a ← acc; d ← hexval b; Some (a * 16 + d)) (Some 0) (drop 2 s)
  else None.

Lemma run_or_attempted cmds fin cl tr ok c : cleans fin cl → runs (run_or cmds fin) tr ok →
  c ∈ attempted tr → c ∈ cmds ++ cl.
Proof.
  intros Hfin. revert tr. induction cmds as [|c0 cmds IH]; intros tr H Hc; cbn [run_or] in H.
  - destruct H as [-> _]. by apply elem_of_nil in Hc.
  - apply runs_bind_inv in H as (t1 & t2 & ok1 & -> & H1%run_inv_run & H). subst t1.
    revert Hc. cmds. intros [->|Hc]%elem_of_cons; [left|]. destruct ok1.
    + right. by apply (IH t2).
    + apply runs_bind_inv in H as (t4 & t5 & b & -> & H4%Hfin & [-> _]). revert Hc. cmds. rewrite H4.
      intros Hc. right. apply elem_of_app. by right.
Qed.

(** What a command that installs a redirection must say: spare the gateway
    itself, spare packets with the relay's mark. *)
Definition spares (c : list gostring) : bool :=
  if bool_decide (str "dnat" ∈ c) then
    existsb (λ n, bool_decide (take 5 (drop n c) = words "meta mark !=" ++ [nanotunMarkHex; str "dnat"])) (seq 0 20)
    && existsb (λ gw, existsb (λ n, bool_decide (take 3 (drop n c) = [str "daddr"; str "!="; gw])
                                    && bool_decide (last c = Some gw)) (seq 0 20)) [gw4; gw6]
  else if bool_decide (str "DNAT" ∈ c) then
    existsb (λ n, bool_decide (take 4 (drop n c) = words "mark ! --mark" ++ [nanotunMarkHex])) (seq 0 20)
    && existsb (λ gw, existsb (λ n, bool_decide (take 3 (drop n c) = [str "!"; str "-d"; gw])
                                    && bool_decide (last c = Some gw)) (seq 0 20)) [gw4; gw6]
  else true.

(** C17: no forwarding loop: whatever succeeds or fails, every DNAT rule the
    program installs with nft or iptables redirects to the gateway, spares
    packets to the gateway and spares packets that carry the mark the DNS relay
    puts on its own sockets. *)
Theorem redirect_rules_spare_relay tr ok c :
  runs applyNft tr ok ∨ runs applyIPTables tr ok → c ∈ attempted tr →
  spares c = true ∧ hex_value nanotunMarkHex = Some (Dns.nanotunMark Dns.Linux).
Proof.
  intros H Hc. split; [|vm_compute; reflexivity].
  assert (forallb spares (nft_cmds ++ nft_clean) = true ∧
    forallb spares ([ipt_rule "iptables" "-I" "udp" gw4; ipt_rule "iptables" "-I" "tcp" gw4;
      ipt_rule "ip6tables" "-I" "udp" gw6; ipt_rule "ip6tables" "-I" "tcp" gw6] ++ ipt_clean) = true)
    as [Hn Hi] by (vm_compute; done).
  rewrite !forallb_forall in Hn, Hi. destruct H as [H|H].
  - apply Hn. apply list_elem_of_In. apply (run_or_attempted _ cleanupNft _ tr ok); try done. apply run_all_cleans.
  - apply Hi. apply list_elem_of_In. apply runs_bind_inv in H as (t1 & t2 & ok1 & -> & H1 & H2).
    cmds_in Hc. apply elem_of_app in Hc as [Hc|Hc].
    + apply (run_or_attempted _ _ ipt_clean) with (c := c) in H1; [|apply run_all_cleans|done].
      apply elem_of_app in H1 as [H1|H1]; apply elem_of_app; [left|by right].
      apply elem_of_cons in H1 as [->|H1]; [left|]. apply list_elem_of_singleton in H1 as ->. right; left.
    + apply elem_of_app. left. destruct ok1; cbn [negb] in H2; [|destruct H2 as [-> _]; by apply elem_of_nil in Hc].
      apply runs_bind_inv in H2 as (t3 & t4 & o3 & -> & H3%run_inv_run & H2). subst t3.
      apply runs_bind_inv in H2 as (t5 & t6 & o5 & -> & H5%run_inv_run & [-> _]). subst t5.
      cmds_in Hc. apply elem_of_cons in Hc as [->|Hc]; [do 2 right; left|].
      apply list_elem_of_singleton in Hc as ->. do 3 right; left.
Qed.

(** ** Evaluation *)

Module LinuxExample.
(** A host with a default route, nft but no IPv6 routes; every command
    succeeds but the IPv6 default route. *)
Definition table : gostring := str "default via 192.168.1.1 dev eth0 proto dhcp metric 100" ++ [newline].
Definition env (past : list (event os_ans)) (e : os) : os_ans e :=
  match e with
  | Run c => negb (bool_decide (c = default6 "add" "nano0"))
  | Output c => if bool_decide (c = words "ip route show default") then Some table else None
  | LookPath n => bool_decide (n = "nft")
  | LookupHost h => if bool_decide (h = "proxy.example") then Some [str "203.0.113.7"; str "2001:db8::1"] else None
  | LogMsg _ => tt
  end.
Definition proxy : gostring := "socks5://u:p@proxy.example:1080".
Definition tr := (exec env [] (Apply "nano0" proxy)).1.
Definition cleanup := (exec env [] (Apply "nano0" proxy)).2.1.
Definition tr' := (exec env [] cleanup).1.

Lemma run_linux_apply : runs (Apply "nano0" proxy) tr (cleanup, None).
Proof. exact (exec_run env (Apply "nano0" proxy)). Qed.
Lemma run_cleanup : runs cleanup tr' tt.
Proof. exact (exec_run env cleanup). Qed.

Lemma changes : attempted tr = [bypass "add" "203.0.113.7" "192.168.1.1" "eth0"; default4 "add" "nano0";
    default6 "add" "nano0"] ++ nft_cmds ∧
  attempted tr' = nft_clean ++ [default4 "del" "nano0"; bypass "del" "203.0.113.7" "192.168.1.1" "eth0"].
Proof. by vm_compute. Qed.

Lemma linux_changes_undone_witness : undone undo tr (attempted tr').
Proof.
  refine (proj2 (proj2 (proj2 (linux_changes_undone "nano0" proxy tr cleanup None tr' run_linux_apply run_cleanup))) _).
  intros b Hb%list_elem_of_In. apply negb_true_iff. revert b Hb.
  apply (proj1 (forallb_forall (λ b, negb (stranded b)) (succeeded tr))). vm_compute. reflexivity.
Defined.

(** On a host that has an IPv6 default route and takes the additions, they stay. *)
Definition env6 (past : list (event os_ans)) (e : os) : os_ans e :=
  match e with
  | Run c => true
  | Output c => Some (str "default via fe80::1 dev eth0" ++ [newline])
  | e => env past e
  end.
Definition tr6 := (exec env6 [] (Apply "nano0" proxy)).1.
Definition tr6' := (exec env6 [] (exec env6 [] (Apply "nano0" proxy)).2.1).1.
Definition b6 : list gostring := bypass6 "203.0.113.7" "fe80::1" "eth0".
Definition b6_del : list gostring := words "ip -6 route del" ++ drop 4 b6.
Lemma b6_runs : bool_decide (b6 ∈ succeeded tr6) = true ∧ bool_decide (b6_del ∈ attempted tr6) = false ∧
  bool_decide (b6_del ∈ attempted tr6') = false ∧ bool_decide (undo b6 = Some b6_del) = true.
Proof. vm_compute. done. Qed.
Lemma bypass6_stays : b6 ∈ succeeded tr6 ∧ ¬ undone undo tr6 (attempted tr6').
Proof.
  destruct b6_runs as (H1 & H2 & H3 & H4). apply bool_decide_eq_true_1 in H1, H4. apply bool_decide_eq_false_1 in H2, H3.
  split; [exact H1|]. intros U. destruct (undone_in undo tr6 _ b6 b6_del U H1 H4) as [H|H]; [exact (H2 H)|exact (H3 H)].
Qed.

Lemma redirect_rules_spare_relay_witness : spares (nft_rule "ip" nftTable4 "udp" gw4) = true.
Proof.
  refine (proj1 (redirect_rules_spare_relay (exec env [] applyNft).1 true _ (or_introl (exec_run env applyNft)) _)).
  vm_compute. do 2 right. left.
Defined.
End LinuxExample.
