(* ===== verification/AutorouteDarwin.v ===== *)
(** * Default routes and DNS on macOS (internal/autoroute/autoroute_darwin.go) *)

From S2P Require Import Prelude GoStrings Netip Netaddr Effects Exec.

(** ** Definitions *)

Definition gw4 : gostring := addr_String GatewayIPv4.
Definition gw6 : gostring := addr_String GatewayIPv6.

Fixpoint find_gateway (lines : list gostring) : option gostring :=
  match lines with
  | [] => None
  | l :: rest =>
      match label "gateway:" (TrimSpace l) with
      | Some gw => if bool_decide (gw = []) then find_gateway rest else Some gw
      | None => find_gateway rest
      end
  end.

Definition defaultDarwinGateway4 : sys (result gostring gostring) :=
  do out <- output (words "route get 8.8.8.8");
  Ret (match out with
       | None => Err (str "route get 8.8.8.8")
       | Some out => match find_gateway (scan_lines out) with
                     | Some gw => Ok gw
                     | None => Err (str "gateway not found in 'route get 8.8.8.8' output")
                     end
       end).

Definition resolveProxyHost : gostring → sys (list gostring) := Exec.resolveProxyHost.

(** The first line that names the interface, also when it names none. *)
Fixpoint find_interface (lines : list gostring) : gostring :=
  match lines with
  | [] => []
  | l :: rest => match label "interface:" (TrimSpace l) with
                 | Some iface => iface
                 | None => find_interface rest
                 end
  end.

Fixpoint find_service (lines : list gostring) (iface curService : gostring) : option gostring :=
  match lines with
  | [] => None
  | l :: rest =>
      let line := TrimSpace l in
      match label "Hardware Port:" line with
      | Some svc => find_service rest iface svc
      | None =>
          match label "Device:" line with
          | Some dev => if bool_decide (dev = iface) && negb (bool_decide (curService = [])) then Some curService
                        else find_service rest iface curService
          | None => find_service rest iface curService
          end
      end
  end.

Definition serviceForInterface (iface : gostring) : sys (result gostring gostring) :=
  do out <- output (words "networksetup -listallhardwareports");
  Ret (match out with
       | None => Err (str "networksetup -listallhardwareports")
       | Some out => match find_service (scan_lines out) iface [] with
                     | Some svc => Ok svc
                     | None => Err (str "no networksetup service found for interface " ++ iface)
                     end
       end).

Definition dns_servers (lines : list gostring) : list gostring :=
  omap (λ l, let line := TrimSpace l in
             if bool_decide (line = []) || Contains line "aren't any" then None else Some line) lines.

Definition currentDNS (svc : gostring) : sys (result gostring (list gostring)) :=
  do out <- output [str "networksetup"; str "-getdnsservers"; svc];
  Ret (match out with
       | None => Err (str "networksetup -getdnsservers")
       | Some out => Ok (dns_servers (scan_lines out))
       end).

(** The service and its servers; an error reading the servers leaves none. *)
Definition detectNetworkService : sys (result gostring (gostring * list gostring)) :=
  do out <- output (words "route get 8.8.8.8");
  match out with
  | None => Ret (Err (str "route get"))
  | Some out =>
      let iface := find_interface (scan_lines out) in
      if bool_decide (iface = []) then Ret (Err (str "could not parse active interface from 'route get 8.8.8.8'"))
      else
        do svc <- serviceForInterface iface;
        match svc with
        | Err e => Ret (Err e)
        | Ok svc =>
            do old <- currentDNS svc;
            Ret (Ok (svc, match old with Ok l => l | Err _ => [] end))
        end
  end.

(** *** Apply *)

Definition host_route (op ip gw : gostring) : list gostring := [str "route"; op; str "-host"; ip; gw].
Definition net_route (op dst : gostring) : list gostring := [str "route"; op; str "-net"; dst; gw4].
Definition net6_route (op dst : gostring) : list gostring := [str "route"; op; str "-inet6"; dst; gw6].
Definition set_dns (svc : gostring) (servers : list gostring) : list gostring :=
  [str "networksetup"; str "-setdnsservers"; svc] ++ servers.

Fixpoint add_bypass (ips : list gostring) (gw : gostring) (cleanups : list (sys ())) : sys (list (sys ())) :=
  match ips with
  | [] => Ret cleanups
  | ip :: rest =>
      do ok <- run (host_route "add" ip gw);
      if negb ok then do_ log "autoroute: add proxy bypass route"; add_bypass rest gw cleanups
      else
        do_ log "autoroute: proxy bypass route added";
        add_bypass rest gw (cleanups ++ [undo_cmd (host_route "delete" ip gw) "autoroute: remove proxy bypass route"])
  end.

Definition apply_dns (cleanups : list (sys ())) : sys (list (sys ())) :=
  do det <- detectNetworkService;
  match det with
  | Err _ => do_ log "autoroute: DNS not configured (cannot detect active service)"; Ret cleanups
  | Ok (svc, oldDNS) =>
      do ok <- run (set_dns svc [gw4]);
      if negb ok then do_ log "autoroute: set DNS"; Ret cleanups
      else
        do_ log "autoroute: DNS set";
        let restoreDNS := match oldDNS with [] => [str "empty"] | _ => oldDNS end in
        Ret (cleanups ++ [undo_cmd (set_dns svc restoreDNS) "autoroute: restore DNS"])
  end.

(** The IPv6 routes, best effort, and the resolver. *)
Definition apply_v6 (cleanups : list (sys ())) : sys (list (sys ())) :=
  do ok <- run (net6_route "add" "::/1");
  if negb ok then do_ log "autoroute: add ipv6 default route"; Ret cleanups
  else do_ Ret tt; Ret (cleanups ++ [undo_cmd (net6_route "delete" "::/1") "autoroute: remove ipv6 default route"]).
Definition apply_v6_high (cleanups : list (sys ())) : sys (list (sys ())) :=
  do ok <- run (net6_route "add" "8000::/1");
  if negb ok then do_ log "autoroute: add ipv6 default route (8000/1)"; Ret cleanups
  else do_ Ret tt;
       Ret (cleanups ++ [undo_cmd (net6_route "delete" "8000::/1") "autoroute: remove ipv6 default route (8000/1)"]).

Definition Apply (tunName proxyAddr : gostring) : sys (sys () * option gostring) :=
  do g <- defaultDarwinGateway4;
  match g with
  | Err e => Ret (nop, Some (str "autoroute: detect current default gateway: " ++ e))
  | Ok origGW4 =>
      do_ log "autoroute: original gateway";
      do proxyIPs <- resolveProxyHost proxyAddr;
      do cleanups <- add_bypass proxyIPs origGW4 [];
      do ok <- run (net_route "add" "0.0.0.0/1");
      if negb ok then Ret (nop, Some (str "autoroute: add ipv4 default route"))
      else
        let cleanups := cleanups ++ [undo_cmd (net_route "delete" "0.0.0.0/1") "autoroute: remove ipv4 default route"] in
        do ok <- run (net_route "add" "128.0.0.0/1");
        if negb ok then
          do_ revert cleanups; Ret (nop, Some (str "autoroute: add ipv4 default route (128/1)"))
        else
          let cleanups := cleanups
            ++ [undo_cmd (net_route "delete" "128.0.0.0/1") "autoroute: remove ipv4 default route (128/1)"] in
          do cleanups <- apply_v6 cleanups;
          do cleanups <- apply_v6_high cleanups;
          do cleanups <- apply_dns cleanups;
          do_ log "autoroute: default routes installed";
          Ret (revert cleanups, None)
  end.

(** ** Lemmas *)

(** The inverse of the commands that add routes and set the resolver, [old]
    being the servers the service had. *)
Definition restore (old : list gostring) : list gostring := match old with [] => [str "empty"] | _ => old end.

Definition undo (old : list gostring) (c : list gostring) : option (list gostring) :=
  match c with
  | a :: b :: r =>
      if bool_decide (a = "route") && bool_decide (b = "add") then Some (str "route" :: str "delete" :: r)
      else if bool_decide (a = "networksetup") && bool_decide (b = "-setdnsservers") then
        match r with
        | [svc; g] => if bool_decide (g = gw4) then Some (set_dns svc (restore old)) else None
        | _ => None
        end
      else None
  | _ => None
  end.

Lemma undo_route old r : undo old (str "route" :: str "add" :: r) = Some (str "route" :: str "delete" :: r).
Proof. reflexivity. Qed.
Lemma undo_delete old r : undo old (str "route" :: str "delete" :: r) = None.
Proof. reflexivity. Qed.

Lemma undo_dns old svc : undo old (set_dns svc [gw4]) = Some (set_dns svc (restore old)).
Proof.
  unfold undo, set_dns. cbn [app]. rewrite (bool_decide_eq_true_2 (gw4 = gw4)) by done. reflexivity.
Qed.

(** A route added with its failure only logged, as a phase. *)
Lemma route_phase old r msg (onfail onok : sys ()) k : quiet onfail → quiet onok → phase (undo old) k →
  phase (undo old) (λ cs, do ok <- run (str "route" :: str "add" :: r);
    if negb ok then do_ onfail; k cs
    else do_ onok; k (cs ++ [undo_cmd (str "route" :: str "delete" :: r) msg])).
Proof.
  intros Hf Ho Hk. apply (phase_cmd _ _ (str "route" :: str "delete" :: r) _ [str "route" :: str "delete" :: r]); try done.
  - intros d'. rewrite undo_route. by intros [= <-].
  - apply undo_cmd_cleans.
  - left.
  - by repeat constructor.
Qed.

Lemma darwin_bypass_phase old ips gw : phase (undo old) (add_bypass ips gw).
Proof.
  induction ips as [|ip ips IH]; [apply phase_ret|]. apply route_phase; eauto with nanotun.
Qed.

Lemma apply_v6_phase old : phase (undo old) (λ cs, do cs <- apply_v6 cs; apply_v6_high cs).
Proof. apply phase_bind; apply route_phase; eauto using phase_ret with nanotun. Qed.

Lemma quiet_detect : quiet detectNetworkService.
Proof.
  unfold detectNetworkService, serviceForInterface, currentDNS. apply quiet_bind; [apply quiet_output|].
  intros [out|]; [|apply quiet_ret]. case_bool; [apply quiet_ret|].
  apply quiet_bind; [eauto with nanotun|]. intros [svc|e]; eauto with nanotun.
Qed.

Definition old_of (det : result gostring (gostring * list gostring)) : list gostring :=
  match det with Ok (_, old) => old | Err _ => [] end.

(** A run of the last part has read [old]. *)
Definition servers_read (tr : list (event os_ans)) (old : list gostring) : Prop :=
  ∃ t1 t2 det, tr = t1 ++ t2 ∧ runs detectNetworkService t1 det ∧ old = old_of det.

Lemma apply_dns_undone cs tr cs' : runs (apply_dns cs) tr cs' →
  ∃ old, servers_read tr old ∧ ∀ cmdss, Forall2 cleans cs cmdss →
    ∃ new, Forall2 cleans cs' (cmdss ++ new) ∧ undone (undo old) tr (concat new).
Proof.
  intros (t1 & t2 & det & -> & H1 & H2)%runs_bind_inv. exists (old_of det). split; [by exists t1, t2, det|].
  intros cmdss H.
  pose proof (undone_quiet (undo (old_of det)) _ (proj2 (quiet_detect _ _ H1))) as U1.
  destruct det as [[svc old]|e]; cbn [old_of] in *.
  - apply runs_bind_inv in H2 as (t3 & t4 & ok & -> & H3%run_inv_run & H2). subst t3. destruct ok; cbn [negb] in H2;
      apply runs_bind_inv in H2 as (t5 & t6 & [] & -> & H5%quiet_log & [-> ->]); destruct H5 as [_ H5%(undone_quiet (undo old))].
    + exists [[set_dns svc (restore old)]]. split.
      { apply Forall2_app; [done|]. constructor; [apply undo_cmd_cleans|constructor]. }
      rewrite app_nil_r. apply undone_pre; [done|]. apply undone_post; [|done].
      cbn [undone concat]. split; [|done].
      intros c d Hc Hd. apply list_elem_of_singleton in Hc as ->. right. rewrite undo_dns in Hd. injection Hd as <-. left.
    + exists []. rewrite !app_nil_r. split; [done|]. apply undone_pre; [done|]. apply undone_pre; [|done].
      cbn [undone]. split; [intros c d Hc; by apply elem_of_nil in Hc|done].
  - apply runs_bind_inv in H2 as (t5 & t6 & [] & -> & H5%quiet_log & [-> ->]). destruct H5 as [_ H5%(undone_quiet (undo []))].
    exists []. rewrite !app_nil_r. split; [done|]. by apply undone_pre.
Qed.

Lemma quiet_darwin_gateway : quiet defaultDarwinGateway4.
Proof. apply quiet_bind; eauto with nanotun. Qed.

(** ** Theorems *)

Lemma darwin_apply_undone tun proxy tr c err tr' :
  runs (Apply tun proxy) tr (c, err) → runs c tr' tt →
  err ≠ Some (str "autoroute: add ipv4 default route") →
  ∃ old, undone (undo old) tr (attempted tr') ∧
    (err = None → ∃ t1 t2 t3 det, tr = t1 ++ t2 ++ t3 ∧ runs detectNetworkService t2 det ∧ old = old_of det).
Proof.
  intros H Hc Hin. unfold Apply in H. apply runs_bind_inv in H as (t1 & t2 & g & -> & H1%quiet_darwin_gateway & H).
  destruct H1 as [_ H1]. destruct g as [gw|e].
  2: { destruct H as [-> [= -> ->]]. exists []. split; [|done]. rewrite app_nil_r.
       apply (undone_mono _ _ []); [intros d Hd; by apply elem_of_nil in Hd|by apply undone_quiet]. }
  apply runs_bind_inv in H as (t3 & t4 & [] & -> & H3%quiet_log & H). destruct H3 as [_ H3].
  apply runs_bind_inv in H as (t5 & t6 & ips & -> & H5%quiet_resolve & H). destruct H5 as [_ H5].
  apply runs_bind_inv in H as (t7 & t8 & cs & -> & H7 & H).
  apply runs_bind_inv in H as (t9 & t10 & ok & -> & H9 & H).
  destruct ok; cbn [negb] in H.
  2: { exfalso. apply Hin. by destruct H as [_ [= _ ->]]. }
  apply runs_bind_inv in H as (t11 & t12 & ok & -> & H11 & H). destruct ok; cbn [negb] in H.
  - apply runs_bind_inv in H as (t13 & t14 & cs1 & -> & H13 & H).
    apply runs_bind_inv in H as (t15 & t16 & cs2 & -> & H15 & H).
    apply runs_bind_inv in H as (t17 & t18 & cs3 & -> & H17 & H).
    apply runs_bind_inv in H as (t19 & t20 & [] & -> & H19%quiet_log & [-> [= -> ->]]). destruct H19 as [_ H19].
    destruct (split_undone undo (add_bypass ips gw) (λ cs, do cs <- apply_v6 cs; apply_v6_high cs) apply_dns
      (net_route "add" "0.0.0.0/1") (net_route "delete" "0.0.0.0/1")
      (net_route "add" "128.0.0.0/1") (net_route "delete" "128.0.0.0/1") _ _
      servers_read (λ x, darwin_bypass_phase x ips gw) apply_v6_phase (λ _, eq_refl) (λ _, eq_refl)
      (λ _, eq_refl) (λ _, eq_refl) apply_dns_undone _ _ _ _ _ _ _ _ H7 H9 H11 (runs_bind _ _ _ _ _ _ H13 H15) H17)
      as (old & cmdss & (s1 & s2 & det & -> & Hdet & ->) & F & U).
    exists (old_of det). rewrite app_nil_r. split.
    + rewrite (revert_cleans _ _ F tr' tt Hc).
      apply (undone_mono _ _ (concat cmdss)); [intros d Hd; by rewrite elem_of_concat_rev|].
      do 3 (apply undone_quiet_pre; [done|]). rewrite !app_assoc. apply undone_quiet_post; [done|].
      rewrite <- !app_assoc in U. by rewrite <- !app_assoc.
    + intros _. exists (t1 ++ t3 ++ t5 ++ t7 ++ t9 ++ t11 ++ t13 ++ t15), s1, (s2 ++ t19), det.
      by rewrite <- !app_assoc.
  - apply runs_bind_inv in H as (t13 & t14 & [] & -> & H13 & [-> [= -> ->]]). exists []. split; [|done].
    destruct Hc as [-> _]. rewrite attempted_nil, app_nil_r. apply run_inv_run in H11 as ->.
    destruct (split_failed undo (add_bypass ips gw)
      (net_route "add" "0.0.0.0/1") (net_route "delete" "0.0.0.0/1") (net_route "add" "128.0.0.0/1")
      "autoroute: remove ipv4 default route"
      (λ x, darwin_bypass_phase x ips gw) (λ _, eq_refl) (λ _, eq_refl) [] _ _ _ H7 H9) as (cmdss & F & U).
    do 3 (apply undone_quiet_pre; [done|]). rewrite (app_assoc t7). apply (U t13 []); [|constructor].
    rewrite app_nil_r. by apply (revert_cleans _ _ F t13 tt).
Qed.

(** C16: on macOS, unless the very first default route cannot be added, nothing
    is left behind: every route added is deleted again and the resolver is set
    back to the servers [detectNetworkService] read in this run (or to none),
    in [Apply] itself when the second route fails, else in the clean-up. *)
Theorem darwin_changes_undone tun proxy tr c err tr' :
  runs (Apply tun proxy) tr (c, err) → runs c tr' tt →
  err ≠ Some (str "autoroute: add ipv4 default route") →
  ∃ old, undone (undo old) tr (attempted tr') ∧
    (err = None → ∃ t1 t2 t3 det, tr = t1 ++ t2 ++ t3 ∧ runs detectNetworkService t2 det ∧ old = old_of det).
Proof. apply darwin_apply_undone. Qed.

Lemma darwin_bypass_attempts ips gw cs tr cs' : runs (add_bypass ips gw cs) tr cs' →
  Forall (λ c, take 2 c = [str "route"; str "add"]) (attempted tr).
Proof.
  revert cs tr. induction ips as [|ip ips IH]; intros cs tr H; cbn [add_bypass] in H; [by destruct H as [-> _]|].
  apply runs_bind_inv in H as (t1 & t2 & ok & -> & H1%run_inv_run & H). subst t1.
  destruct ok; cbn [negb] in H; apply runs_bind_inv in H as (t3 & t4 & [] & -> & H3%quiet_log & H%IH);
    destruct H3 as [H3 _]; cmds; rewrite H3; by constructor.
Qed.

(** When the first default route cannot be added, [Apply] gives up without
    taking the bypass routes back: it has only ever run commands that add
    routes, and the clean-up it returns does nothing. *)
Theorem darwin_first_failure_leaks tun proxy tr c :
  runs (Apply tun proxy) tr (c, Some (str "autoroute: add ipv4 default route")) →
  c = nop ∧ Forall (λ cmd, take 2 cmd = [str "route"; str "add"]) (attempted tr).
Proof.
  intros H. unfold Apply in H. apply runs_bind_inv in H as (t1 & t2 & g & -> & H1%quiet_darwin_gateway & H).
  destruct H1 as [H1 _]. destruct g as [gw|e]; [|by destruct H].
  apply runs_bind_inv in H as (t3 & t4 & [] & -> & H3%quiet_log & H). destruct H3 as [H3 _].
  apply runs_bind_inv in H as (t5 & t6 & ips & -> & H5%quiet_resolve & H). destruct H5 as [H5 _].
  apply runs_bind_inv in H as (t7 & t8 & cs & -> & H7%darwin_bypass_attempts & H).
  apply runs_bind_inv in H as (t9 & t10 & ok & -> & H9%run_inv_run & H). subst t9.
  destruct ok; cbn [negb] in H.
  - exfalso. apply runs_bind_inv in H as (t11 & t12 & ok & -> & _ & H). destruct ok; cbn [negb] in H.
    + apply runs_bind_inv in H as (? & ? & ? & _ & _ & H). apply runs_bind_inv in H as (? & ? & ? & _ & _ & H).
      apply runs_bind_inv in H as (? & ? & ? & _ & _ & H). by apply runs_bind_inv in H as (? & ? & ? & _ & _ & [_ H]).
    + by apply runs_bind_inv in H as (? & ? & ? & _ & _ & [_ H]).
  - destruct H as [-> [= ->]]. split; [done|]. cmds. rewrite H1, H3, H5. cbn [app].
    apply Forall_app. split; [done|]. by constructor.
Qed.

(** ** Evaluation *)

Module DarwinExample.
Definition nl : gostring := [newline].
Definition route_out : gostring :=
  str "   route to: 8.8.8.8" ++ nl ++ str "    gateway: 192.168.1.1" ++ nl ++ str "  interface: en0" ++ nl.
Definition ports_out : gostring := str "Hardware Port: Wi-Fi" ++ nl ++ str "Device: en0" ++ nl.
(** A Mac on Wi-Fi; [bad] is the command that fails. *)
Definition env (bad : list gostring) (past : list (event os_ans)) (e : os) : os_ans e :=
  match e with
  | Run c => negb (bool_decide (c = bad))
  | Output c => if bool_decide (c = words "route get 8.8.8.8") then Some route_out
                else if bool_decide (c = words "networksetup -listallhardwareports") then Some ports_out
                else Some (str "1.1.1.1" ++ nl ++ str "9.9.9.9" ++ nl)
  | LookPath _ => true
  | LookupHost _ => Some [str "203.0.113.7"]
  | LogMsg _ => tt
  end.
Definition run_of (bad : list gostring) := exec (env bad) [] (Apply "utun7" "socks5://proxy.example:1080").
Definition cleanup := (run_of []).2.1.
Definition tr := (run_of []).1.
Definition tr' := (exec (env []) [] cleanup).1.
Definition bad := net_route "add" "0.0.0.0/1".

Lemma run_darwin_apply : runs (Apply "utun7" "socks5://proxy.example:1080") tr (cleanup, None).
Proof. exact (exec_run (env []) (Apply "utun7" "socks5://proxy.example:1080")). Qed.

Lemma run_darwin_failed : runs (Apply "utun7" "socks5://proxy.example:1080") (run_of bad).1
  (nop, Some (str "autoroute: add ipv4 default route")).
Proof. exact (exec_run (env bad) (Apply "utun7" "socks5://proxy.example:1080")). Qed.

(** The clean-up restores the two servers; a failed start leaves the bypass route. *)
Lemma restored : attempted tr' = [set_dns "Wi-Fi" [str "1.1.1.1"; str "9.9.9.9"];
  net6_route "delete" "8000::/1"; net6_route "delete" "::/1"; net_route "delete" "128.0.0.0/1";
  net_route "delete" "0.0.0.0/1"; host_route "delete" "203.0.113.7" "192.168.1.1"] ∧
  succeeded (run_of bad).1 = [host_route "add" "203.0.113.7" "192.168.1.1"].
Proof. by vm_compute. Qed.

Lemma darwin_changes_undone_witness : ∃ old, undone (undo old) tr (attempted tr').
Proof.
  destruct (darwin_changes_undone "utun7" "socks5://proxy.example:1080" tr cleanup None tr' run_darwin_apply
    (exec_run (env []) cleanup) ltac:(discriminate)) as (old & H & _).
  exact (ex_intro _ old H).
Defined.

Lemma darwin_first_failure_leaks_witness :
  Forall (λ cmd, take 2 cmd = [str "route"; str "add"]) (attempted (run_of bad).1).
Proof. exact (proj2 (darwin_first_failure_leaks "utun7" "socks5://proxy.example:1080" (run_of bad).1 nop run_darwin_failed)). Defined.
End DarwinExample.
