(* ===== verification/AutorouteWindows.v ===== *)
(** * Default routes and DNS on Windows (internal/autoroute/autoroute_windows.go,
      powershell.go, routeparse.go), and the other platforms (autoroute_other.go) *)

From S2P Require Import Prelude GoStrings Netip Netaddr Effects Exec.

(** ** PowerShell scripts *)

Definition withPowerShellUnicode (script : gostring) : gostring :=
  "$OutputEncoding = [Console]::OutputEncoding = [System.Text.Encoding]::Unicode; " ++ TrimSpace script.

Definition quote : byte := "'"%byte.
Definition psQuote (s : gostring) : gostring := [quote] ++ ReplaceAll s quote [quote; quote] ++ [quote].

Definition buildAddIPv4HostRouteScript (ip nextHop : gostring) : gostring :=
  "$ifIndex = (Get-NetRoute -AddressFamily IPv4 -DestinationPrefix '0.0.0.0/0' -NextHop " ++ psQuote nextHop ++
  " -ErrorAction SilentlyContinue | Sort-Object RouteMetric | Select-Object -First 1).InterfaceIndex; " ++
  "if (-not $ifIndex) { throw 'failed to resolve interface index for default route' }; " ++
  "New-NetRoute -AddressFamily IPv4 " ++
  "-DestinationPrefix " ++ psQuote (ip ++ "/32") ++ " " ++
  "-InterfaceIndex $ifIndex " ++
  "-NextHop " ++ psQuote nextHop ++ " " ++
  "-RouteMetric 1 -PolicyStore ActiveStore -ErrorAction Stop".

Definition buildAddLocalhostRouteScript (loopbackAddr loopbackPrefix nextHopOnLink : gostring) : gostring :=
  "$ifIndex = (Get-NetIPAddress -AddressFamily IPv4 -IPAddress " ++ psQuote loopbackAddr ++ " -ErrorAction Stop | " ++
  "Select-Object -First 1).InterfaceIndex; " ++
  "$existing = Get-NetRoute -AddressFamily IPv4 -DestinationPrefix " ++ psQuote loopbackPrefix ++ " " ++
  "-InterfaceIndex $ifIndex -NextHop " ++ psQuote nextHopOnLink
    ++ " -ErrorAction SilentlyContinue | Select-Object -First 1; " ++
  "if (-not $existing) { " ++
  "New-NetRoute -AddressFamily IPv4 -DestinationPrefix " ++ psQuote loopbackPrefix ++ " " ++
  "-InterfaceIndex $ifIndex -NextHop " ++ psQuote nextHopOnLink
    ++ " -RouteMetric 1 -PolicyStore ActiveStore -ErrorAction Stop }".

Definition runPowerShell (script : gostring) : list gostring :=
  words "powershell -NoProfile -NonInteractive -Command" ++ [withPowerShellUnicode script].

Definition addIPv4HostRoutePS (ip nextHop : gostring) : list gostring :=
  runPowerShell (buildAddIPv4HostRouteScript ip nextHop).

Definition removeIPv4HostRoutePS (ip nextHop : gostring) : list gostring :=
  runPowerShell ("Remove-NetRoute -AddressFamily IPv4 " ++
    "-DestinationPrefix " ++ psQuote (ip ++ "/32") ++ " " ++
    "-NextHop " ++ psQuote nextHop ++ " " ++
    "-PolicyStore ActiveStore -Confirm:$false -ErrorAction Stop").

Definition addLocalhostRoutePS : list gostring :=
  runPowerShell (buildAddLocalhostRouteScript "127.0.0.1" "127.0.0.0/8" "0.0.0.0").

Definition removeLocalhostRoutePS : list gostring :=
  runPowerShell ("Remove-NetRoute -AddressFamily IPv4 -DestinationPrefix " ++ psQuote "127.0.0.0/8" ++ " " ++
    "-NextHop " ++ psQuote "0.0.0.0" ++ " " ++
    "-PolicyStore ActiveStore -Confirm:$false -ErrorAction Stop").

(** ** Reading the system *)

(** [routeparse.go] *)
Fixpoint find_default (lines : list gostring) : gostring :=
  match lines with
  | [] => []
  | l :: rest =>
      match Fields l with
      | a :: b :: gw :: _ => if bool_decide (a = "0.0.0.0") && bool_decide (b = "0.0.0.0") then gw else find_default rest
      | _ => find_default rest
      end
  end.
Definition parseDefaultGatewayFromRoutePrint (out : gostring) : gostring := find_default (Split out newline).

Definition psScript : gostring :=
  "(Get-NetRoute -DestinationPrefix '0.0.0.0/0' -ErrorAction SilentlyContinue | " ++
  "Sort-Object RouteMetric | Select-Object -First 1).NextHop".

Definition route_print : sys (result gostring gostring) :=
  do out <- output (words "route print 0.0.0.0 mask 0.0.0.0");
  Ret (match out with
       | None => Err (str "route print")
       | Some out =>
           let gw := parseDefaultGatewayFromRoutePrint out in
           if bool_decide (gw = []) then Err (str "no default route found (tried PowerShell Get-NetRoute and route print)")
           else Ok gw
       end).

Definition defaultWindowsGateway4 : sys (result gostring gostring) :=
  do out <- output (runPowerShell psScript);
  match out with
  | Some out =>
      let gw := TrimSpace out in
      if negb (bool_decide (gw = [])) && negb (bool_decide (gw = "::")) then Ret (Ok gw) else route_print
  | None => route_print
  end.

(** The address of a line [label: address]. *)
Definition dns_line (l : gostring) : option gostring :=
  let line := TrimSpace l in
  i ← IndexByte line ":"%byte;
  let addr := TrimSpace (drop (S i) line) in
  if negb (bool_decide (addr = [])) && negb (bool_decide (addr = "None")) && negb (Contains addr " ") then Some addr
  else None.

Definition currentDNS (ifaceName : gostring) : sys gostring :=
  do out <- output (words "netsh interface ipv4 show dnsservers" ++ [str "name=" ++ ifaceName]);
  Ret (match out with
       | None => []
       | Some out => default [] (head (omap dns_line (Split out newline)))
       end).

Definition resolveProxyHost : gostring → sys (list gostring) := Exec.resolveProxyHost.

(** ** Apply *)

Definition gw4 : gostring := addr_String GatewayIPv4.
Definition gw6 : gostring := addr_String GatewayIPv6.

Definition netsh (family op : gostring) (rest : list gostring) : list gostring :=
  [str "netsh"; str "interface"; family; op; str "route"] ++ rest.
Definition add_route (family dst tun gw : gostring) : list gostring :=
  netsh family "add" [dst; tun; gw; str "metric=1"; str "store=active"].
Definition delete_route (family dst tun gw : gostring) : list gostring := netsh family "delete" [dst; tun; gw].
Definition set_dns (tun : gostring) (rest : list gostring) : list gostring :=
  words "netsh interface ipv4 set dnsservers" ++ [str "name=" ++ tun] ++ rest.
Definition set_static (tun addr : gostring) : list gostring :=
  set_dns tun [str "source=static"; str "address=" ++ addr; str "validate=no"].

(** [revert] also flushes the resolver cache. *)
Definition revert (cleanups : list (sys ())) : sys () :=
  do_ Exec.revert cleanups;
  do_ run (words "ipconfig /flushdns");
  Ret tt.

Fixpoint add_bypass (ips : list gostring) (gw : gostring) (cleanups : list (sys ())) : sys (list (sys ())) :=
  match ips with
  | [] => Ret cleanups
  | ip :: rest =>
      do ok <- run (addIPv4HostRoutePS ip gw);
      if negb ok then do_ log "autoroute: add proxy bypass route"; add_bypass rest gw cleanups
      else
        do_ log "autoroute: proxy bypass route added";
        add_bypass rest gw (cleanups ++ [undo_cmd (removeIPv4HostRoutePS ip gw) "autoroute: remove proxy bypass route"])
  end.

Definition apply_localhost (cleanups : list (sys ())) : sys (list (sys ())) :=
  do ok <- run addLocalhostRoutePS;
  if negb ok then do_ log "autoroute: add localhost route"; Ret cleanups
  else do_ Ret tt; Ret (cleanups ++ [undo_cmd removeLocalhostRoutePS "autoroute: remove localhost route"]).

Definition apply_v6 (tun dst msg_add msg_del : gostring) (cleanups : list (sys ())) : sys (list (sys ())) :=
  do ok <- run (add_route "ipv6" dst tun gw6);
  if negb ok then do_ log msg_add; Ret cleanups
  else do_ Ret tt; Ret (cleanups ++ [undo_cmd (delete_route "ipv6" dst tun gw6) msg_del]).

(** The clean-up of the resolver ignores its result. *)
Definition restore_cmd (tun oldDNS : gostring) : list gostring :=
  if bool_decide (oldDNS = []) then set_dns tun [str "source=dhcp"] else set_static tun oldDNS.
Definition restore_dns (tun oldDNS : gostring) : sys () := do_ run (restore_cmd tun oldDNS); Ret tt.

Definition apply_dns (tun : gostring) (cleanups : list (sys ())) : sys (list (sys ())) :=
  do oldDNS <- currentDNS tun;
  do ok <- run (set_static tun gw4);
  if negb ok then do_ log "autoroute: set ipv4 DNS"; Ret cleanups
  else do_ log "autoroute: DNS set"; Ret (cleanups ++ [restore_dns tun oldDNS]).

Definition Apply (tunName proxyAddr : gostring) : sys (sys () * option gostring) :=
  do g <- defaultWindowsGateway4;
  match g with
  | Err e => Ret (nop, Some (str "autoroute: detect current default gateway: " ++ e))
  | Ok origGW4 =>
      do_ log "autoroute: original gateway";
      do proxyIPs <- resolveProxyHost proxyAddr;
      do cleanups <- add_bypass proxyIPs origGW4 [];
      do cleanups <- apply_localhost cleanups;
      do ok <- run (add_route "ipv4" "0.0.0.0/1" tunName gw4);
      if negb ok then Ret (nop, Some (str "autoroute: add ipv4 default route (0/1)"))
      else
        let cleanups := cleanups ++ [undo_cmd (delete_route "ipv4" "0.0.0.0/1" tunName gw4)
                                       "autoroute: remove ipv4 default route (0/1)"] in
        do ok <- run (add_route "ipv4" "128.0.0.0/1" tunName gw4);
        if negb ok then
          do_ revert cleanups; Ret (nop, Some (str "autoroute: add ipv4 default route (128/1)"))
        else
          let cleanups := cleanups ++ [undo_cmd (delete_route "ipv4" "128.0.0.0/1" tunName gw4)
                                         "autoroute: remove ipv4 default route (128/1)"] in
          do cleanups <- apply_v6 tunName "::/1" "autoroute: add ipv6 default route (::/1)"
                           "autoroute: remove ipv6 default route (::/1)" cleanups;
          do cleanups <- apply_v6 tunName "8000::/1" "autoroute: add ipv6 default route (8000::/1)"
                           "autoroute: remove ipv6 default route (8000::/1)" cleanups;
          do cleanups <- apply_dns tunName cleanups;
          do_ log "autoroute: default routes installed";
          Ret (revert cleanups, None)
  end.

(** On other platforms. *)
Definition Apply_other (tunName proxyAddr : gostring) : sys (sys () * option gostring) :=
  Ret (nop, Some (str "autoDefaultRoute is not supported on this platform")).

(** ** Quoting *)

(** The inverse of [psQuote]: the value, and what follows. *)
Fixpoint unquote_body (s : gostring) : option (gostring * gostring) :=
  match s with
  | [] => None
  | b :: s' =>
      if bool_decide (b = quote) then
        match s' with
        | c :: s'' => if bool_decide (c = quote) then prod_map (cons quote) id <$> unquote_body s'' else Some ([], s')
        | [] => Some ([], [])
        end
      else prod_map (cons b) id <$> unquote_body s'
  end.

Lemma ReplaceAll_cons b s c new :
  ReplaceAll (b :: s) c new = (if bool_decide (b = c) then new else [b]) ++ ReplaceAll s c new.
Proof. done. Qed.

Lemma ReplaceAll_app a b c new : ReplaceAll (a ++ b) c new = ReplaceAll a c new ++ ReplaceAll b c new.
Proof. apply bind_app. Qed.
Lemma ReplaceAll_none s c new : c ∉ s → ReplaceAll s c new = s.
Proof.
  induction s as [|b s IH]; [done|]. rewrite not_elem_of_cons. intros [Hb Hs].
  by rewrite ReplaceAll_cons, IH, bool_decide_eq_false_2 by done.
Qed.

Lemma unquote_doubled s rest : head rest ≠ Some quote →
  unquote_body (ReplaceAll s quote [quote; quote] ++ quote :: rest) = Some (s, rest).
Proof.
  intros H. induction s as [|b s IH].
  - change (ReplaceAll [] quote [quote; quote]) with (@nil byte). cbn [app unquote_body].
    rewrite bool_decide_eq_true_2 by done. destruct rest as [|c rest]; [done|].
    rewrite bool_decide_eq_false_2; [done|]. intros ->. by apply H.
  - rewrite ReplaceAll_cons, <- app_assoc. case_bool.
    + subst b. cbn [app unquote_body]. rewrite !bool_decide_eq_true_2 by done. by rewrite IH.
    + cbn [app unquote_body]. rewrite bool_decide_eq_false_2 by done. by rewrite IH.
Qed.

Lemma psQuote_inj s s' rest rest' : head rest ≠ Some quote → head rest' ≠ Some quote →
  psQuote s ++ rest = psQuote s' ++ rest' → s = s' ∧ rest = rest'.
Proof.
  intros H H' E. unfold psQuote in E. cbn [app] in E. injection E as E. rewrite <- !app_assoc in E.
  pose proof (unquote_doubled s rest H) as E1. cbn [app] in *. rewrite E, unquote_doubled in E1 by done.
  by injection E1 as -> ->.
Qed.

(** *** As PowerShell sees it *)

(** The single quotes of PowerShell's language: the apostrophe and four
    typographic marks. *)
Definition apostrophe : Z := 39.
Definition typographic : list Z := [8216; 8217; 8218; 8219].
Definition single_quotes : list Z := apostrophe :: typographic.
Definition unquoted (cs : list Z) : Prop := ∀ c, head cs = Some c → c ∉ single_quotes.

(** The characters of [ReplaceAll s "'" "''"]. *)
Definition double (c : Z) : list Z := if c =? apostrophe then [c; c] else [c].

Lemma double_id cs : apostrophe ∉ cs → cs ≫= double = cs.
Proof.
  induction cs as [|c cs IH]; [done|]. rewrite not_elem_of_cons. intros [Hc Hcs]. rewrite bind_cons, IH by done.
  unfold double. by rewrite (proj2 (Z.eqb_neq _ _)).
Qed.

Lemma runes_quote_cons t : runes (quote :: t) = apostrophe :: runes t.
Proof. unfold runes. by rewrite chunks_cons_ascii. Qed.

Lemma no_apostrophe s : quote ∉ s → apostrophe ∉ runes s.
Proof. intros Hs H. apply runes_small in H as (c & Hc & E); [|done]. apply Hs. by apply (inj bval c quote) in E as ->. Qed.

Lemma runes_doubled s rest :
  runes (ReplaceAll s quote [quote; quote] ++ quote :: rest) = (runes s ≫= double) ++ apostrophe :: runes rest.
Proof.
  induction s as [s IH] using (induction_ltof1 _ (@length byte)); unfold ltof in IH.
  destruct (decide (quote ∈ s)) as [Hin|Hn].
  - apply list_elem_of_split_l in Hin as (a & b & -> & Ha).
    rewrite ReplaceAll_app, (ReplaceAll_none a), ReplaceAll_cons, bool_decide_eq_true_2 by done.
    rewrite <- !app_assoc. cbn [app].
    rewrite !runes_app_ascii, !runes_quote_cons by done. rewrite IH by (rewrite length_app; cbn [length]; lia).
    rewrite bind_app, bind_cons, (double_id (runes a)) by by apply no_apostrophe. cbn [app]. by rewrite <- app_assoc.
  - rewrite (ReplaceAll_none s), runes_app_ascii, runes_quote_cons, double_id by first [done | by apply no_apostrophe]. done.
Qed.

Section PowerShell.
(** How PowerShell reads the characters after an opening single quote: the value
    and what follows the closing quote.  Its language has five single-quote
    characters: any of them closes the string unless another follows it, two
    apostrophes are one apostrophe, and any other character is itself. *)
Context (read : list Z → option (list Z * list Z))
  (read_close : ∀ q rest, q ∈ single_quotes → unquoted rest → read (q :: rest) = Some ([], rest))
  (read_doubled : ∀ rest, read (apostrophe :: apostrophe :: rest) = prod_map (cons apostrophe) id <$> read rest)
  (read_other : ∀ c rest, c ∉ single_quotes → read (c :: rest) = prod_map (cons c) id <$> read rest).

Lemma read_plain cs rest : (∀ c, c ∈ cs → c ∉ typographic) →
  read ((cs ≫= double) ++ rest) = prod_map (app cs) id <$> read rest.
Proof.
  induction cs as [|c cs IH]; intros Hcs.
  - cbn [mbind list_bind app]. by destruct (read rest) as [[? ?]|].
  - assert (read ((cs ≫= double) ++ rest) = prod_map (app cs) id <$> read rest) as E
      by (apply IH; intros c' Hc'; apply Hcs; by right).
    rewrite bind_cons, <- app_assoc. unfold double at 1. destruct (Z.eqb_spec c apostrophe) as [->|Hc]; cbn [app].
    + rewrite read_doubled, E. by destruct (read rest) as [[? ?]|].
    + rewrite read_other, E by (apply not_elem_of_cons; split; [done|apply Hcs; left]). by destruct (read rest) as [[? ?]|].
Qed.

(** C34: a quoted value without typographic quotes cannot escape: PowerShell
    reads back exactly the value, whatever apostrophes it contains, and goes on
    exactly after it.  The guard is needed: a value with a typographic quote
    (not followed by another quote) is cut off there, and the rest of it is read
    as part of the command. *)
Theorem psQuote_literal s rest : unquoted (runes rest) →
  ∃ body, runes (psQuote s ++ rest) = apostrophe :: body ∧
    ((∀ c, c ∈ runes s → c ∉ typographic) → read body = Some (runes s, runes rest)) ∧
    (∀ a q c b, runes s = a ++ q :: c :: b → (∀ c, c ∈ a → c ∉ typographic) → q ∈ typographic → c ∉ single_quotes →
       read body = Some (a, c :: (b ≫= double) ++ apostrophe :: runes rest)).
Proof.
  intros Hrest. eexists. split.
  { unfold psQuote. cbn [app]. rewrite <- app_assoc. cbn [app]. by rewrite runes_quote_cons, runes_doubled. }
  split.
  - intros Hs. rewrite read_plain, read_close by (done || left). cbn. by rewrite app_nil_r.
  - intros a q c b -> Ha Hq Hc. rewrite bind_app, !bind_cons, <- !app_assoc, read_plain by done.
    assert (double q = [q]) as -> by (unfold double; destruct (Z.eqb_spec q apostrophe) as [->|]; [by apply (bool_decide_eq_true_2 _) in Hq|done]).
    assert (double c = [c]) as -> by (unfold double; destruct (Z.eqb_spec c apostrophe) as [->|]; [destruct Hc; left|done]).
    cbn [app]. rewrite read_close; [|by right|by intros ? [= <-]]. cbn. by rewrite app_nil_r.
Qed.
End PowerShell.

(** A reader of that kind: of two quotes the second is kept. *)
Module PsExample.
Fixpoint read (cs : list Z) : option (list Z * list Z) :=
  match cs with
  | [] => None
  | c :: rest =>
      if bool_decide (c ∈ single_quotes) then
        match rest with
        | c' :: rest' => if bool_decide (c' ∈ single_quotes) then prod_map (cons c') id <$> read rest' else Some ([], rest)
        | [] => Some ([], [])
        end
      else prod_map (cons c) id <$> read rest
  end.

Lemma read_close q rest : q ∈ single_quotes → unquoted rest → read (q :: rest) = Some ([], rest).
Proof.
  intros Hq Hr. cbn [read]. rewrite bool_decide_eq_true_2 by done. destruct rest as [|c rest]; [done|].
  by rewrite bool_decide_eq_false_2 by by apply Hr.
Qed.
Lemma read_other c rest : c ∉ single_quotes → read (c :: rest) = prod_map (cons c) id <$> read rest.
Proof. intros Hc. cbn [read]. by rewrite bool_decide_eq_false_2. Qed.

(** [1'; x] is read back; [1], U+2019, [; x] is read as [1], and [; x] is left
    to the command. *)
Definition value : gostring := "1'; x".
Definition bad : gostring := EncodeRune 49 ++ EncodeRune 8217 ++ str "; x".
Lemma psQuote_literal_witness :
  (∃ body, runes (psQuote value ++ " -x") = apostrophe :: body ∧ read body = Some (runes value, runes " -x")) ∧
  (∃ body, runes (psQuote bad ++ " -x") = apostrophe :: body ∧ read body = Some (runes "1", runes "; x' -x")).
Proof.
  assert (unquoted (runes " -x")) as H by (intros c [= <-]; by apply (bool_decide_eq_false_1 _)).
  split.
  - destruct (psQuote_literal read read_close (λ _, eq_refl) read_other value " -x" H) as (body & E & Hok & _).
    exists body. split; [exact E|]. apply Hok. intros c Hc%list_elem_of_In.
    apply (bool_decide_eq_false_1 _), negb_true_iff. revert c Hc.
    apply (proj1 (forallb_forall (λ c, negb (bool_decide (c ∈ typographic))) (runes value))). vm_compute. reflexivity.
  - destruct (psQuote_literal read read_close (λ _, eq_refl) read_other bad " -x" H) as (body & E & _ & Hbad).
    exists body. split; [exact E|]. refine (Hbad (runes "1") 8217 59 (runes " x") _ _ _ _).
    + vm_compute. reflexivity.
    + intros c Hc. vm_compute in Hc. apply list_elem_of_singleton in Hc as ->. by apply (bool_decide_eq_false_1 _).
    + right. left.
    + by apply (bool_decide_eq_false_1 _).
Defined.
End PsExample.

(** ** Taking changes back *)

(** The scripts begin and end with printable characters, so they are run as
    they are written. *)
Definition unicode_prefix : gostring :=
  "$OutputEncoding = [Console]::OutputEncoding = [System.Text.Encoding]::Unicode; ".

Definition ends_printable (s : gostring) : Prop :=
  ∃ m z, s = m ++ [z] ∧ bval z < 128 ∧ IsSpace (bval z) = false.

Lemma ends_app x y : ends_printable y → ends_printable (x ++ y).
Proof. intros (m & z & -> & ?). exists (x ++ m), z. by rewrite app_assoc. Qed.

Definition script_of (c : list gostring) : gostring := drop (length unicode_prefix) (List.nth 4 c []).

Lemma script_run a s : head s = Some a → bval a < 128 → IsSpace (bval a) = false → ends_printable s →
  script_of (runPowerShell s) = s.
Proof.
  intros H1 H2 H3 (m & z & E & H4 & H5). destruct s as [|b s]; [done|]. injection H1 as ->.
  unfold runPowerShell, withPowerShellUnicode. rewrite (TrimSpace_ends a s m z) by done.
  apply (drop_app_length unicode_prefix).
Qed.

Lemma script_add ip gw : script_of (addIPv4HostRoutePS ip gw) = buildAddIPv4HostRouteScript ip gw.
Proof. apply (script_run "$"%byte); [done..|]. do 12 apply ends_app.
  by exists (str "-RouteMetric 1 -PolicyStore ActiveStore -ErrorAction Sto"), "p"%byte. Qed.

Lemma script_remove ip gw : script_of (removeIPv4HostRoutePS ip gw) =
  "Remove-NetRoute -AddressFamily IPv4 " ++ "-DestinationPrefix " ++ psQuote (ip ++ "/32") ++ " " ++
    "-NextHop " ++ psQuote gw ++ " " ++ "-PolicyStore ActiveStore -Confirm:$false -ErrorAction Stop".
Proof. apply (script_run "R"%byte); [done..|]. do 7 apply ends_app.
  by exists (str "-PolicyStore ActiveStore -Confirm:$false -ErrorAction Sto"), "p"%byte. Qed.

(** Quoting makes the commands of different routes different. *)
Lemma add_inj ip gw ip' gw' : addIPv4HostRoutePS ip gw = addIPv4HostRoutePS ip' gw' → ip = ip' ∧ gw = gw'.
Proof.
  intros E. apply (f_equal script_of) in E. rewrite !script_add in E. unfold buildAddIPv4HostRouteScript in E.
  apply app_inv_head in E. apply psQuote_inj in E as [-> E]; [|done..]. split; [|done].
  do 4 apply app_inv_head in E. apply psQuote_inj in E as [E _]; [|done..]. by apply app_inv_tail in E.
Qed.

(** The command that takes a change back: the bypass route of [ip] over [gw],
    the localhost route, a route of a tunnel, and the resolver of a tunnel, [old]
    being the server it had. *)
Definition dns_tun (c : list gostring) : gostring := TrimPrefix (List.nth 5 c []) "name=".
Definition undo (ip gw old : gostring) (c : list gostring) : option (list gostring) :=
  if bool_decide (c = addIPv4HostRoutePS ip gw) then Some (removeIPv4HostRoutePS ip gw)
  else if bool_decide (c = addLocalhostRoutePS) then Some removeLocalhostRoutePS
  else if bool_decide (c = set_static (dns_tun c) gw4) then Some (restore_cmd (dns_tun c) old)
  else match c with
       | [a; b; family; op; r; dst; t; g; metric; store] =>
           if bool_decide ([a; b; op; r] = words "netsh interface add route") then Some (delete_route family dst t g)
           else None
       | _ => None
       end.

(** Commands of different kinds differ in their first words. *)
Definition kind (c : list gostring) : gostring * gostring := (default [] (head c), take 16 (script_of c)).
Lemma kind_add ip gw : kind (addIPv4HostRoutePS ip gw) = (str "powershell", str "$ifIndex = (Get-").
Proof. unfold kind. rewrite script_add. reflexivity. Qed.
Lemma kind_localhost : kind addLocalhostRoutePS = (str "powershell", str "$ifIndex = (Get-").
Proof. vm_compute. reflexivity. Qed.
Lemma kind_remove ip gw : kind (removeIPv4HostRoutePS ip gw) = (str "powershell", str "Remove-NetRoute ").
Proof. unfold kind. rewrite script_remove. reflexivity. Qed.

Lemma add_not_localhost ip gw : addIPv4HostRoutePS ip gw ≠ addLocalhostRoutePS.
Proof.
  intros E. apply (f_equal (λ c, take 25 (script_of c))) in E. rewrite script_add in E. vm_compute in E. discriminate.
Qed.

Section Undo.
Context (ip gw old : gostring).

Lemma undo_adds c : kind c ≠ (str "powershell", str "$ifIndex = (Get-") → c ≠ set_static (dns_tun c) gw4 → length c ≠ 10%nat →
  undo ip gw old c = None.
Proof.
  intros H1 H2 H3. unfold undo. rewrite !bool_decide_eq_false_2; [| |intros ->..].
  - by do 11 (destruct c as [|? c]; [done|]).
  - done.
  - apply H1, kind_localhost.
  - apply H1, kind_add.
Qed.

Lemma undo_add ip' gw' d : undo ip gw old (addIPv4HostRoutePS ip' gw') = Some d → d = removeIPv4HostRoutePS ip' gw'.
Proof.
  unfold undo. case_bool; [|rewrite !bool_decide_eq_false_2; [done|discriminate|apply add_not_localhost]].
  match goal with H : _ = _ |- _ => apply add_inj in H as [-> ->] end. by intros [= <-].
Qed.

Lemma undo_remove ip' gw' : undo ip gw old (removeIPv4HostRoutePS ip' gw') = None.
Proof. apply undo_adds; [rewrite kind_remove|..]; discriminate. Qed.

Lemma undo_localhost : undo ip gw old addLocalhostRoutePS = Some removeLocalhostRoutePS.
Proof.
  unfold undo. rewrite bool_decide_eq_false_2, bool_decide_eq_true_2; [done|done|].
  apply not_eq_sym, add_not_localhost.
Qed.

Lemma undo_remove_localhost : undo ip gw old removeLocalhostRoutePS = None.
Proof. apply undo_adds; [vm_compute|..]; discriminate. Qed.

Lemma windows_undo_route family dst tun' g : undo ip gw old (add_route family dst tun' g) = Some (delete_route family dst tun' g).
Proof. unfold undo. rewrite !bool_decide_eq_false_2 by discriminate. reflexivity. Qed.

Lemma windows_undo_delete family dst tun' g : undo ip gw old (delete_route family dst tun' g) = None.
Proof. apply undo_adds; discriminate. Qed.

Lemma windows_undo_dns tun : undo ip gw old (set_static tun gw4) = Some (restore_cmd tun old).
Proof.
  assert (dns_tun (set_static tun gw4) = tun) as E by apply (TrimPrefix_app "name=").
  unfold undo. rewrite E, !bool_decide_eq_false_2, bool_decide_eq_true_2 by (done || discriminate). reflexivity.
Qed.

Lemma undo_flush : undo ip gw old (words "ipconfig /flushdns") = None.
Proof. apply undo_adds; discriminate. Qed.
End Undo.

(** ** Failure *)

Lemma quiet_windows_gateway : quiet defaultWindowsGateway4.
Proof.
  assert (quiet route_print) as Hp by (apply quiet_bind; eauto with nanotun).
  apply quiet_bind; [apply quiet_output|]. intros [out|]; [|done]. cbn zeta.
  destruct (_ && _); [apply quiet_ret|done].
Qed.

(** *** The phases of [Apply] *)

(** A command whose failure is only logged, with its clean-up. *)
Lemma windows_cmd_phase u c d msg (onfail onok : sys ()) k :
  (∀ d', u c = Some d' → d' = d) → u d = None → quiet onfail → quiet onok → phase u k →
  phase u (λ cs, do ok <- run c; if negb ok then do_ onfail; k cs else do_ onok; k (cs ++ [undo_cmd d msg])).
Proof.
  intros Hu Hd Hf Ho Hk. apply (phase_cmd u c d _ [d]); [done|apply undo_cmd_cleans|left|by repeat constructor|done..].
Qed.

Lemma windows_bypass_phase ip gw old ips gw' : phase (undo ip gw old) (add_bypass ips gw').
Proof.
  induction ips as [|ip' ips IH]; [apply phase_ret|].
  apply windows_cmd_phase; eauto using undo_add, undo_remove with nanotun.
Qed.

Lemma windows_localhost_phase ip gw old : phase (undo ip gw old) apply_localhost.
Proof.
  apply windows_cmd_phase; eauto using undo_remove_localhost, phase_ret with nanotun.
  intros d. rewrite undo_localhost. by intros [= <-].
Qed.

Lemma windows_v6_phase ip gw old tun' dst m1 m2 : phase (undo ip gw old) (apply_v6 tun' dst m1 m2).
Proof.
  apply windows_cmd_phase; eauto using windows_undo_delete, phase_ret with nanotun.
  intros d. rewrite windows_undo_route. by intros [= <-].
Qed.

(** The server the run read from the tunnel's interface. *)
Definition server_read (tun : gostring) (tr : list (event os_ans)) (old : gostring) : Prop :=
  ∃ t1 t2, tr = t1 ++ t2 ∧ runs (currentDNS tun) t1 old.

Lemma restore_cleans tun old : cleans (restore_dns tun old) [restore_cmd tun old].
Proof. intros tr a (t1 & t2 & ok & -> & ->%run_inv_run & [-> _])%runs_bind_inv. by cmds. Qed.

Lemma windows_dns_undone ip gw tun cs tr cs' : runs (apply_dns tun cs) tr cs' →
  ∃ old, server_read tun tr old ∧ ∀ cmdss, Forall2 cleans cs cmdss →
    ∃ new, Forall2 cleans cs' (cmdss ++ new) ∧ undone (undo ip gw old) tr (concat new).
Proof.
  intros (t1 & t2 & old & -> & H1 & H2)%runs_bind_inv. exists old. split; [by exists t1, t2|]. intros cmdss F.
  assert (quiet (currentDNS tun)) as Hq by (apply quiet_bind; eauto with nanotun).
  destruct (Hq _ _ H1) as [_ Q1]. apply runs_bind_inv in H2 as (t3 & t4 & ok & -> & ->%run_inv_run & H2).
  destruct ok; cbn [negb] in H2;
    apply runs_bind_inv in H2 as (t5 & t6 & [] & -> & H5%quiet_log & [-> ->]); destruct H5 as [_ Q5].
  - exists [[restore_cmd tun old]]. split; [apply Forall2_app; [done|]; constructor; [apply restore_cleans|constructor]|].
    rewrite app_nil_r. apply undone_quiet_pre; [done|]. apply undone_quiet_post; [done|].
    cbn [undone concat app]. split; [|done]. intros c d ->%list_elem_of_singleton. rewrite windows_undo_dns. intros [= <-].
    right. left.
  - exists []. rewrite !app_nil_r. split; [done|]. apply undone_quiet. cmds. by rewrite Q1.
Qed.

(** Reverting, with the flush of the resolver's cache at the end. *)
Lemma windows_revert_cleans cs cmdss : Forall2 cleans cs cmdss →
  cleans (revert cs) (concat (rev cmdss) ++ [words "ipconfig /flushdns"]).
Proof.
  intros F tr a (t1 & t2 & [] & -> & H1 & H2)%runs_bind_inv.
  apply runs_bind_inv in H2 as (t3 & t4 & ok & -> & ->%run_inv_run & [-> _]).
  cmds. by rewrite (revert_cleans _ _ F t1 tt H1).
Qed.

(** The parts of [Apply] before and after the two routes that must succeed. *)
Definition before (ips : list gostring) (gw : gostring) (cs : list (sys ())) : sys (list (sys ())) :=
  do cs <- add_bypass ips gw cs; apply_localhost cs.
Definition best_effort (tun : gostring) (cs : list (sys ())) : sys (list (sys ())) :=
  do cs <- apply_v6 tun "::/1" "autoroute: add ipv6 default route (::/1)" "autoroute: remove ipv6 default route (::/1)" cs;
  apply_v6 tun "8000::/1" "autoroute: add ipv6 default route (8000::/1)"
    "autoroute: remove ipv6 default route (8000::/1)" cs.

Lemma before_phase ip gw ips gw' old : phase (undo ip gw old) (before ips gw').
Proof. apply phase_bind; [apply windows_bypass_phase|apply windows_localhost_phase]. Qed.
Lemma best_effort_phase ip gw tun' old : phase (undo ip gw old) (best_effort tun').
Proof. apply phase_bind; apply windows_v6_phase. Qed.

Definition low (tun : gostring) : gostring → list gostring := add_route "ipv4" "0.0.0.0/1" tun.
Definition high (tun : gostring) : gostring → list gostring := add_route "ipv4" "128.0.0.0/1" tun.

Lemma windows_installed ip gw tun ips gw' t1 t2 t3 t4 t5 cs1 cs2 cs3 tr' m1 m2 :
  runs (before ips gw' []) t1 cs1 → runs (run (low tun gw4)) t2 true → runs (run (high tun gw4)) t3 true →
  runs (best_effort tun ((cs1 ++ [undo_cmd (delete_route "ipv4" "0.0.0.0/1" tun gw4) m1])
                          ++ [undo_cmd (delete_route "ipv4" "128.0.0.0/1" tun gw4) m2])) t4 cs2 →
  runs (apply_dns tun cs2) t5 cs3 → runs (revert cs3) tr' tt →
  ∃ old, server_read tun t5 old ∧ undone (undo ip gw old) (t1 ++ t2 ++ t3 ++ t4 ++ t5) (attempted tr').
Proof.
  intros H1 H2 H3 H4 H5 Hc.
  destruct (split_undone (undo ip gw) (before ips gw') (best_effort tun) (apply_dns tun) _ _ _ _ m1 m2 (server_read tun)
    (before_phase _ _ _ _) (best_effort_phase _ _ _) (λ x, windows_undo_route _ _ x _ _ _ _) (λ x, windows_undo_delete _ _ x _ _ _ _)
    (λ x, windows_undo_route _ _ x _ _ _ _) (λ x, windows_undo_delete _ _ x _ _ _ _) (windows_dns_undone ip gw tun)
    _ _ _ _ _ _ _ _ H1 H2 H3 H4 H5) as (old & cmdss & HR & F & U).
  exists old. split; [done|]. rewrite (windows_revert_cleans _ _ F tr' tt Hc).
  apply (undone_mono _ _ (concat cmdss)); [|done]. intros d Hd. apply elem_of_app. left. by rewrite elem_of_concat_rev.
Qed.

Lemma windows_second_failure ip gw tun ips gw' t1 t2 t3 cs1 m1 :
  runs (before ips gw' []) t1 cs1 → runs (run (low tun gw4)) t2 true →
  runs (revert (cs1 ++ [undo_cmd (delete_route "ipv4" "0.0.0.0/1" tun gw4) m1])) t3 tt →
  undone (undo ip gw []) ((t1 ++ t2) ++ [ev (Run (high tun gw4)) false] ++ t3) [].
Proof.
  intros H1 H2 H3. destruct (split_failed (undo ip gw) (before ips gw') _ _ (high tun gw4) m1 (before_phase _ _ _ _)
    (λ x, windows_undo_route _ _ x _ _ _ _) (λ x, windows_undo_delete _ _ x _ _ _ _) [] _ _ _ H1 H2) as (cmdss & F & U).
  apply (U t3 [words "ipconfig /flushdns"]); [by apply (windows_revert_cleans _ _ F t3 tt)|].
  constructor; [apply undo_flush|constructor].
Qed.

Lemma windows_apply_undone ip gw tun proxy tr c err tr' :
  runs (Apply tun proxy) tr (c, err) → runs c tr' tt →
  err ≠ Some (str "autoroute: add ipv4 default route (0/1)") →
  ∃ old, undone (undo ip gw old) tr (attempted tr') ∧
    (err = None → ∃ t1 t2 t3, tr = t1 ++ t2 ++ t3 ∧ runs (currentDNS tun) t2 old).
Proof.
  intros H Hc Hin. unfold Apply in H. apply runs_bind_inv in H as (t1 & t2 & g & -> & H1%quiet_windows_gateway & H).
  destruct H1 as [_ H1]. destruct g as [gw'|e].
  2: { destruct H as [-> [= -> ->]]. exists []. split; [|done]. rewrite app_nil_r. destruct Hc as [-> _]. by apply undone_quiet. }
  apply runs_bind_inv in H as (t3 & t4 & [] & -> & H3%quiet_log & H). destruct H3 as [_ H3].
  apply runs_bind_inv in H as (t5 & t6 & ips & -> & H5%quiet_resolve & H). destruct H5 as [_ H5].
  apply runs_bind_inv in H as (t7 & t8 & cs & -> & H7 & H). apply runs_bind_inv in H as (t9 & t10 & cs1 & -> & H9 & H).
  pose proof (runs_bind _ _ _ _ _ _ H7 H9 : runs (before ips gw' []) _ _) as Hby.
  apply runs_bind_inv in H as (t11 & t12 & ok & -> & H11 & H).
  destruct ok; cbn [negb] in H; [|exfalso; apply Hin; by destruct H as [_ [= _ ->]]].
  apply runs_bind_inv in H as (t13 & t14 & ok & -> & H13 & H). destruct ok; cbn [negb] in H.
  - apply runs_bind_inv in H as (t15 & t16 & cs2 & -> & H15 & H). apply runs_bind_inv in H as (t17 & t18 & cs3 & -> & H17 & H).
    apply runs_bind_inv in H as (t19 & t20 & cs4 & -> & H19 & H).
    apply runs_bind_inv in H as (t21 & t22 & [] & -> & H21%quiet_log & [-> [= -> ->]]). destruct H21 as [_ H21].
    destruct (windows_installed ip gw tun ips gw' _ _ _ _ _ _ _ _ _ _ _ Hby H11 H13 (runs_bind _ _ _ _ _ _ H15 H17) H19 Hc)
      as (old & (s1 & s2 & -> & Hdns) & U).
    exists old. rewrite app_nil_r. split.
    + do 3 (apply undone_quiet_pre; [done|]). rewrite !app_assoc. apply undone_quiet_post; [done|].
      rewrite <- !app_assoc in U. by rewrite <- !app_assoc.
    + intros _. exists (t1 ++ t3 ++ t5 ++ t7 ++ t9 ++ t11 ++ t13 ++ t15 ++ t17), s1, (s2 ++ t21).
      by rewrite <- !app_assoc.
  - apply runs_bind_inv in H as (t15 & t16 & [] & -> & H15 & [-> [= -> ->]]). exists []. split; [|done].
    destruct Hc as [-> _]. rewrite attempted_nil, app_nil_r. apply run_inv_run in H13 as ->.
    do 3 (apply undone_quiet_pre; [done|]). rewrite (app_assoc t7), (app_assoc (t7 ++ t9)).
    by eapply windows_second_failure.
Qed.

(** C15: on Windows, unless the very first default route cannot be added, nothing
    is left behind: whatever bypass route, localhost route or route of the
    tunnel was added is removed by the command for that route, and the resolver
    of the tunnel's interface is set back to the server this run read (or to
    DHCP), in [Apply] itself when the second route fails, else in the clean-up. *)
Theorem windows_changes_undone ip gw tun proxy tr c err tr' :
  runs (Apply tun proxy) tr (c, err) → runs c tr' tt →
  err ≠ Some (str "autoroute: add ipv4 default route (0/1)") →
  ∃ old, undone (undo ip gw old) tr (attempted tr') ∧
    (err = None → ∃ t1 t2 t3, tr = t1 ++ t2 ++ t3 ∧ runs (currentDNS tun) t2 old).
Proof. apply windows_apply_undone. Qed.

Lemma windows_bypass_attempts ips gw cs tr cs' : runs (add_bypass ips gw cs) tr cs' →
  attempted tr = (λ ip, addIPv4HostRoutePS ip gw) <$> ips.
Proof.
  revert cs tr. induction ips as [|ip ips IH]; intros cs tr H; cbn [add_bypass] in H; [by destruct H as [-> _]|].
  apply runs_bind_inv in H as (t1 & t2 & ok & -> & H1%run_inv_run & H). subst t1.
  destruct ok; cbn [negb] in H; apply runs_bind_inv in H as (t3 & t4 & [] & -> & H3%quiet_log & H%IH);
    destruct H3 as [H3 _]; cmds; by rewrite H3, H.
Qed.

(** When the first default route cannot be added, [Apply] gives up without
    taking anything back: it has run exactly the commands that add the bypass
    routes, the localhost route and the failed route, and the clean-up it
    returns does nothing. *)
Theorem windows_first_failure_leaks tun proxy tr c :
  runs (Apply tun proxy) tr (c, Some (str "autoroute: add ipv4 default route (0/1)")) →
  c = nop ∧ ∃ gw ips, attempted tr
    = ((λ ip, addIPv4HostRoutePS ip gw) <$> ips) ++ [addLocalhostRoutePS; add_route "ipv4" "0.0.0.0/1" tun gw4].
Proof.
  intros H. unfold Apply in H. apply runs_bind_inv in H as (t1 & t2 & g & -> & H1%quiet_windows_gateway & H).
  destruct H1 as [H1 _]. destruct g as [gw|e]; [|by destruct H].
  apply runs_bind_inv in H as (t3 & t4 & [] & -> & H3%quiet_log & H). destruct H3 as [H3 _].
  apply runs_bind_inv in H as (t5 & t6 & ips & -> & H5%quiet_resolve & H). destruct H5 as [H5 _].
  apply runs_bind_inv in H as (t7 & t8 & cs & -> & H7%windows_bypass_attempts & H).
  apply runs_bind_inv in H as (t7' & t8' & cs' & -> & H7' & H).
  assert (attempted t7' = [addLocalhostRoutePS]) as E7.
  { apply runs_bind_inv in H7' as (s1 & s2 & o & -> & S1%run_inv_run & H7'). subst s1.
    destruct o; cbn [negb io_bind] in H7'; [destruct H7' as [-> _]; by cmds|].
    apply runs_bind_inv in H7' as (s3 & s4 & [] & -> & S3%quiet_log & [-> _]). cmds. by rewrite (proj1 S3). }
  apply runs_bind_inv in H as (t9 & t10 & ok & -> & H9%run_inv_run & H). subst t9.
  destruct ok; cbn [negb] in H.
  - exfalso. apply runs_bind_inv in H as (t11 & t12 & ok & -> & _ & H). destruct ok; cbn [negb] in H.
    + do 3 apply runs_bind_inv in H as (? & ? & ? & _ & _ & H). by apply runs_bind_inv in H as (? & ? & ? & _ & _ & [_ H]).
    + by apply runs_bind_inv in H as (? & ? & ? & _ & _ & [_ H]).
  - destruct H as [-> [= ->]]. split; [done|]. exists gw, ips. cmds. by rewrite H1, H3, H5, H7, E7.
Qed.

(** ** Evaluation *)

Module WindowsExample.
(** A host whose tunnel interface refuses routes. *)
Definition env (past : list (event os_ans)) (e : os) : os_ans e :=
  match e with
  | Run c => negb (bool_decide (head c = Some (str "netsh")))
  | Output c => if bool_decide (head c = Some (str "route"))
                then Some (str "  Network Destination Netmask Gateway" ++ [newline] ++
                           str "    0.0.0.0   0.0.0.0   192.168.1.1   192.168.1.10   35" ++ [cr; newline])
                else None
  | LookPath _ => true
  | LookupHost _ => Some [str "203.0.113.7"]
  | LogMsg _ => tt
  end.
Definition proxy : gostring := "proxy.example:1080".
Definition tr := (exec env [] (Apply "nano0" proxy)).1.

Lemma run_windows_failed : runs (Apply "nano0" proxy) tr (nop, Some (str "autoroute: add ipv4 default route (0/1)")).
Proof. exact (exec_run env (Apply "nano0" proxy)). Qed.

Lemma leaked : succeeded tr = [addIPv4HostRoutePS "203.0.113.7" "192.168.1.1"; addLocalhostRoutePS].
Proof. by vm_compute. Qed.

Lemma windows_first_failure_leaks_witness : ∃ gw ips, attempted tr
  = ((λ ip, addIPv4HostRoutePS ip gw) <$> ips) ++ [addLocalhostRoutePS; add_route "ipv4" "0.0.0.0/1" "nano0" gw4].
Proof. exact (proj2 (windows_first_failure_leaks "nano0" proxy tr nop run_windows_failed)). Defined.

(** A host where everything works; the tunnel had no server of its own. *)
Definition good_env (past : list (event os_ans)) (e : os) : os_ans e :=
  match e with Run c => true | e => env past e end.
Abbreviation good_run := (exec good_env [] (Apply "nano0" proxy)).
Abbreviation cleanup := good_run.2.1.
Abbreviation tr' := (exec good_env [] cleanup).1.

Lemma good_ok : good_run.2.2 = None.
Proof. vm_compute. reflexivity. Qed.

Lemma run_windows_ok : runs (Apply "nano0" proxy) good_run.1 (cleanup, None).
Proof. exact (exec_run_snd good_env (Apply "nano0" proxy) None good_ok). Qed.

Lemma windows_restored : attempted tr' = [set_dns "nano0" [str "source=dhcp"];
  delete_route "ipv6" "8000::/1" "nano0" gw6; delete_route "ipv6" "::/1" "nano0" gw6;
  delete_route "ipv4" "128.0.0.0/1" "nano0" gw4; delete_route "ipv4" "0.0.0.0/1" "nano0" gw4;
  removeLocalhostRoutePS; removeIPv4HostRoutePS "203.0.113.7" "192.168.1.1"; words "ipconfig /flushdns"].
Proof. by vm_compute. Qed.

Lemma windows_changes_undone_witness :
  ∃ old, undone (undo "203.0.113.7" "192.168.1.1" old) good_run.1 (attempted tr').
Proof.
  destruct (windows_changes_undone "203.0.113.7" "192.168.1.1" "nano0" proxy good_run.1 cleanup None tr' run_windows_ok
    (exec_run_unit good_env cleanup) ltac:(discriminate)) as (old & H & _).
  exists old. exact H.
Defined.
End WindowsExample.
