(* ===== verification/Driver.v ===== *)
(** * Interface set-up and the packet drivers (internal/tunconf, internal/stack)

    [tunconf.Configure] on the three platforms, and the two drivers: [Run] opens
    the device, configures it, installs the routes, builds the packet stack,
    waits for cancellation, and releases everything through its deferred
    calls.  The device, the gVisor stack and the operating system are outside. *)

From S2P Require Import Prelude GoStrings Netip Netaddr Config Effects Exec AutorouteLinux.

(** ** Interface configuration *)

Definition Configure_linux (name : gostring) : sys (option gostring) :=
  do ok <- run (words "ip addr add" ++ [prefix_String PrefixIPv4; str "dev"; name]);
  if negb ok then Ret (Some (str "tunconf: set ipv4"))
  else
    do_ run (words "ip -6 addr add" ++ [prefix_String PrefixIPv6; str "dev"; name]);
    do up <- run (words "ip link set" ++ [name; str "up"]);
    Ret (if negb up then Some (str "tunconf: bring up") else None).

Definition Configure_darwin (name : gostring) : sys (option gostring) :=
  let gw4 := addr_String GatewayIPv4 in
  do ok <- run [str "ifconfig"; name; str "inet"; gw4; gw4; str "up"];
  if negb ok then Ret (Some (str "tunconf: set ipv4"))
  else
    do_ run [str "ifconfig"; name; str "inet6"; addr_String GatewayIPv6; str "prefixlen"; Itoa (p_bits PrefixIPv6); str "up"];
    Ret None.

Definition mask4 : gostring := "255.255.255.252".
Definition Configure_windows (name : gostring) : sys (option gostring) :=
  do ok <- run (words "netsh interface ipv4 set address" ++
      [str "name=" ++ name; str "source=static"; str "address=" ++ addr_String GatewayIPv4; str "mask=" ++ mask4]);
  if negb ok then Ret (Some (str "tunconf: set ipv4"))
  else
    do_ run (words "netsh interface ipv6 add address" ++
      [str "interface=" ++ name; str "address=" ++ addr_String GatewayIPv6 ++ "/" ++ Itoa (p_bits PrefixIPv6)]);
    Ret None.

(** ** Drivers *)

Inductive drv : Type :=
| Sys (e : os)
| OpenTun (name : gostring) (mtu : Z)                  (* the device's name, or an error *)
| CloseTun
| CreateStack                                          (* [core.CreateStack] *)
| NewStack (ipv6 : bool)                               (* [stack.New] *)
| CreateNIC
| SetPromiscuousMode
| SetSpoofing
| NICInfo                                              (* some interface, 0 for none *)
| AddProtocolAddress (nic : Z) (addr : Addr) (bits : Z)
| SetRouteTable (ipv6 : bool)
| RegisterTCPForwarder
| RegisterUDPForwarder
| CloseStack
| GoWait                                               (* [go func() { s.Wait(); close(done) }()] *)
| AwaitDone (timeout : Z)                              (* the [select]: whether [done] came before the timeout *)
| Info (msg : gostring)
| Done.                                                (* [<-ctx.Done()], then [ctx.Err()] *)

Definition drv_ans (e : drv) : Type :=
  match e with
  | Sys e => os_ans e
  | OpenTun _ _ => option gostring
  | CreateStack | CreateNIC | SetPromiscuousMode | SetSpoofing | AwaitDone _ => bool
  | NICInfo => Z
  | Done => gostring
  | _ => ()
  end.
Definition driver := io drv_ans.
Definition ask (e : drv) : driver (drv_ans e) := request e.

Fixpoint lift {A} (m : sys A) : driver A :=
  match m with
  | Ret a => Ret a
  | Vis e k => Vis (Sys e) (λ r, lift (k r))
  end.

Record Options : Type := mkOptions {
  TunName : gostring;
  MTU : Z;
  HasHandler : bool;
  EnableIPv6 : bool;
  AutoDefaultRoute : bool;
  ProxyAddr : gostring
}.

(** [New] of both drivers: a handler is required. *)
Definition New (opts : Options) : result gostring Options :=
  if negb (HasHandler opts) then Err (str "transport handler is required") else Ok opts.

(** [gStack.Close(); waitWithTimeout(gStack, 2*time.Second)] *)
Definition waitWithTimeout (timeout : Z) : driver () :=
  do_ (ask GoWait : driver ());
  do_ (ask (AwaitDone timeout) : driver bool);
  Ret tt.
Definition stop_stack : driver () := do_ (ask CloseStack : driver ()); waitWithTimeout (2 * second).

(** [addGatewayAddresses] of the gVisor driver. *)
Definition gvisor_addresses : driver () :=
  do nic <- (ask NICInfo : driver Z);
  if nic =? 0 then Ret tt
  else
    do_ (ask (AddProtocolAddress nic GatewayIPv4 (p_bits PrefixIPv4)) : driver ());
    ask (AddProtocolAddress nic GatewayIPv6 (p_bits PrefixIPv6)).

(** [buildStack] and [addGatewayAddresses] of the simple driver; interface 1 is
    the first a new stack gives out. *)
Definition simple_addresses (nic : Z) (ipv6 : bool) : driver () :=
  do_ (ask (AddProtocolAddress nic GatewayIPv4 (p_bits PrefixIPv4)) : driver ());
  if ipv6 then ask (AddProtocolAddress nic GatewayIPv6 (p_bits PrefixIPv6)) else Ret tt.

Definition buildStack (nic : Z) (ipv6 : bool) : driver (option gostring) :=
  do_ (ask (NewStack ipv6) : driver ());
  do ok <- (ask CreateNIC : driver bool);
  if negb ok then Ret (Some (str "create nic"))
  else
    do ok <- (ask SetPromiscuousMode : driver bool);
    if negb ok then Ret (Some (str "promiscuous"))
    else
      do ok <- (ask SetSpoofing : driver bool);
      if negb ok then Ret (Some (str "spoofing"))
      else
        do_ simple_addresses nic ipv6;
        do_ (ask (SetRouteTable ipv6) : driver ());
        do_ (ask RegisterTCPForwarder : driver ());
        do_ (ask RegisterUDPForwarder : driver ());
        Ret None.

Section Run.
(** The platform's set-up of the interface and of the routes. *)
Context (Configure : gostring → sys (option gostring))
        (Apply : gostring → gostring → sys (sys () * option gostring)).

(** Build the stack, wait, stop it: what differs between the drivers. *)
Definition gvisor_serve (opts : Options) : driver gostring :=
  do ok <- (ask CreateStack : driver bool);
  if negb ok then Ret (str "create stack")
  else deferred stop_stack (
    do_ gvisor_addresses;
    do_ (ask (Info "gvisor backend ready") : driver ());
    do err <- (ask Done : driver gostring);
    do_ (ask (Info "gvisor backend stopping") : driver ());
    Ret err).

Definition simple_serve (opts : Options) : driver gostring :=
  do e <- buildStack 1 (EnableIPv6 opts);
  match e with
  | Some e => Ret e
  | None => deferred stop_stack (
      do_ (ask (Info "simple backend ready") : driver ());
      do err <- (ask Done : driver gostring);
      do_ (ask (Info "simple backend stopping") : driver ());
      Ret err)
  end.

(** [Run]: the error it returns. *)
Definition Run_with (serve : Options → driver gostring) (opts : Options) : driver gostring :=
  do dev <- (ask (OpenTun (TunName opts) (uint32 (MTU opts))) : driver (option gostring));
  match dev with
  | None => Ret (str "open tun")
  | Some dev => deferred (ask CloseTun) (
      do e <- lift (Configure dev);
      match e with
      | Some e => Ret (str "configure tun: " ++ e)
      | None =>
          if AutoDefaultRoute opts then
            do r <- lift (Apply dev (ProxyAddr opts));
            let '(cleanupRoutes, err) := r in
            match err with
            | Some e => Ret (str "autoroute: " ++ e)
            | None => deferred (lift cleanupRoutes) (serve opts)
            end
          else serve opts
      end)
  end.

Definition gvisor_Run : Options → driver gostring := Run_with gvisor_serve.
Definition simple_Run : Options → driver gostring := Run_with simple_serve.
End Run.

(** ** What a trace shows *)

(** The requests to the operating system. *)
Definition ev_os (x : event drv_ans) : list (event os_ans) :=
  match x with existT (Sys e) r => [ev e r] | _ => [] end.
Definition os_part (tr : list (event drv_ans)) : list (event os_ans) := tr ≫= ev_os.

(** The life of the device and of the stack: the device is there when it could be
    opened, the stack once [core.CreateStack] has succeeded or [stack.New] has
    returned; [BuildFailed] is a step of [buildStack] that failed after that. *)
Inductive stage : Type := DeviceOpened | StackUp | BuildFailed | StackDown | DeviceClosed.
Definition ev_life (x : event drv_ans) : list stage :=
  match x with
  | existT (OpenTun _ _) (Some _) => [DeviceOpened]
  | existT CreateStack ok => if ok : bool then [StackUp] else []
  | existT (NewStack _) _ => [StackUp]
  | existT (CreateNIC | SetPromiscuousMode | SetSpoofing) ok => if ok : bool then [] else [BuildFailed]
  | existT CloseStack _ => [StackDown]
  | existT CloseTun _ => [DeviceClosed]
  | _ => []
  end.
Definition life (tr : list (event drv_ans)) : list stage := tr ≫= ev_life.

Lemma os_part_app a b : os_part (a ++ b) = os_part a ++ os_part b.
Proof. apply bind_app. Qed.
Lemma life_app a b : life (a ++ b) = life a ++ life b.
Proof. apply bind_app. Qed.

Lemma lift_runs {A} (m : sys A) tr a : runs (lift m) tr a → runs m (os_part tr) a ∧ life tr = [].
Proof.
  revert tr. induction m as [b|e k IH]; intros tr; cbn [lift].
  - by intros [-> ->].
  - intros (r & tr' & -> & H%IH). destruct H as [H1 H2]. split; [by exists r, (os_part tr')|exact H2].
Qed.

(** ** Lemmas *)

Lemma run_ask e tr r : runs (ask e) tr r → tr = [ev e r].
Proof. apply runs_request_inv. Qed.

(** A program that neither talks to the system nor starts or stops anything. *)
Definition calm {A} (m : driver A) : Prop := ∀ tr a, runs m tr a → os_part tr = [] ∧ life tr = [].

Lemma calm_ret {A} (a : A) : calm (Ret a : driver A).
Proof. by intros tr b [-> _]. Qed.
Lemma calm_bind {A B} (m : driver A) (k : A → driver B) : calm m → (∀ a, calm (k a)) → calm (do x <- m; k x).
Proof.
  intros Hm Hk tr b (t1 & t2 & a & -> & H1 & H2)%runs_bind_inv.
  apply Hm in H1 as [E1 E2]. apply Hk in H2 as [E3 E4]. by rewrite os_part_app, life_app, E1, E2, E3, E4.
Qed.
Lemma calm_ask e : (∀ r, ev_os (ev e r) = [] ∧ ev_life (ev e r) = []) → calm (ask e).
Proof.
  intros H tr r ->%run_ask. destruct (H r) as [E1 E2]. unfold os_part, life. rewrite !bind_cons, E1, E2. done.
Qed.
Ltac calm := repeat first [apply calm_ret | apply calm_bind; [|intros ?] | apply (calm_ask (Info _)); done | apply (calm_ask Done); done | apply (calm_ask (AddProtocolAddress _ _ _)); done].

(** The errors of a set-up that did not succeed. *)
Definition build_errors : list gostring := [str "create nic"; str "promiscuous"; str "spoofing"].
Definition stack_errors : list gostring := str "create stack" :: build_errors.
Definition setup_error (e : gostring) : bool :=
  bool_decide (e ∈ str "open tun" :: stack_errors) || HasPrefix e "configure tun: " || HasPrefix e "autoroute: ".

(** A driver's part between the set-up and the clean-up of the routes: it makes
    no request to the system; a stack that is up is taken down, unless ([leaks])
    a step of building it has failed; and if it never came up there is an
    error. *)
Definition serves (leaks : bool) (m : driver gostring) : Prop :=
  ∀ tr a, runs m tr a → os_part tr = [] ∧
    (a ∈ stack_errors ∧ (life tr = [] ∨ leaks = true ∧ life tr = [StackUp; BuildFailed] ∧ a ∈ build_errors) ∨
     life tr = [StackUp; StackDown]).

Lemma stop_stack_run tr a : runs stop_stack tr a → os_part tr = [] ∧ life tr = [StackDown].
Proof.
  intros (t1 & t2 & [] & -> & ->%run_ask & H2)%runs_bind_inv.
  apply runs_bind_inv in H2 as (t3 & t4 & [] & -> & ->%run_ask & H2).
  by apply runs_bind_inv in H2 as (t5 & t6 & ok & -> & ->%run_ask & [-> _]).
Qed.

Lemma gvisor_addresses_calm : calm gvisor_addresses.
Proof.
  unfold gvisor_addresses. apply calm_bind; [by apply (calm_ask NICInfo)|]. intros nic. destruct (nic =? 0); calm.
Qed.

Lemma gvisor_serves opts : serves false (gvisor_serve opts).
Proof.
  intros tr a (t1 & t2 & ok & -> & H1%run_ask & H2)%runs_bind_inv. subst t1.
  destruct ok; cbn [negb] in H2; [|destruct H2 as [-> ->]; split; [done|left; split; [left|by left]]].
  apply runs_deferred in H2 as (t3 & t4 & -> & H3 & H4%stop_stack_run). destruct H4 as [O4 L4].
  assert (os_part t3 = [] ∧ life t3 = []) as [O3 L3].
  { eapply (calm_bind gvisor_addresses); [apply gvisor_addresses_calm| |exact H3]. intros []. calm. }
  rewrite !os_part_app, !life_app, O3, O4, L3, L4. by split; [|right].
Qed.

Lemma buildStack_run nic v6 tr e : runs (buildStack nic v6) tr e →
  os_part tr = [] ∧ life tr = (match e with None => [StackUp] | Some _ => [StackUp; BuildFailed] end) ∧
  (∀ x, e = Some x → x ∈ build_errors).
Proof.
  intros H. apply runs_bind_inv in H as (t1 & t2 & [] & -> & H1%run_ask & H). subst t1.
  apply runs_bind_inv in H as (t3 & t4 & ok & -> & H3%run_ask & H). subst t3.
  destruct ok; cbn [negb] in H; [|destruct H as [-> ->]; split_and!; [done..|]; intros x [= <-]; left].
  apply runs_bind_inv in H as (t5 & t6 & ok & -> & H5%run_ask & H). subst t5.
  destruct ok; cbn [negb] in H; [|destruct H as [-> ->]; split_and!; [done..|]; intros x [= <-]; right; left].
  apply runs_bind_inv in H as (t7 & t8 & ok & -> & H7%run_ask & H). subst t7.
  destruct ok; cbn [negb] in H; [|destruct H as [-> ->]; split_and!; [done..|]; intros x [= <-]; do 2 right; left].
  apply runs_bind_inv in H as (t9 & t10 & [] & -> & H9 & H).
  assert (os_part t9 = [] ∧ life t9 = []) as [O9 L9].
  { assert (calm (simple_addresses nic v6)) as Hc; [|by apply (Hc _ tt)].
    unfold simple_addresses. calm. destruct v6; calm. }
  apply runs_bind_inv in H as (t11 & t12 & [] & -> & H11%run_ask & H). subst t11.
  apply runs_bind_inv in H as (t13 & t14 & [] & -> & H13%run_ask & H). subst t13.
  apply runs_bind_inv in H as (t15 & t16 & [] & -> & H15%run_ask & [-> ->]). subst t15.
  rewrite !os_part_app, !life_app, O9, L9. done.
Qed.

Lemma simple_serves opts : serves true (simple_serve opts).
Proof.
  intros tr a (t1 & t2 & e & -> & H1%buildStack_run & H2)%runs_bind_inv. destruct H1 as (O1 & L1 & E1).
  rewrite os_part_app, life_app, O1, L1. destruct e as [e|].
  { destruct H2 as [-> ->]. specialize (E1 e eq_refl). split; [done|left]. split; [by right|by right]. }
  apply runs_deferred in H2 as (t3 & t4 & -> & H3 & H4%stop_stack_run). destruct H4 as [O4 L4].
  assert (os_part t3 = [] ∧ life t3 = []) as [O3 L3].
  { eapply (calm_bind (ask (Info "simple backend ready"))); [by apply (calm_ask (Info _))| |exact H3].
    intros []. calm. }
  rewrite os_part_app, life_app, O3, O4, L3, L4. by split; [|right].
Qed.

(** Everything that was opened has been closed, the last first; or the device has
    been closed over a stack that could not be built and stays. *)
Definition closed (tr : list (event drv_ans)) : Prop :=
  life tr = [] ∨ life tr = [DeviceOpened; DeviceClosed] ∨
  life tr = [DeviceOpened; StackUp; StackDown; DeviceClosed].
Definition leaked (tr : list (event drv_ans)) : Prop := life tr = [DeviceOpened; StackUp; BuildFailed; DeviceClosed].

(** What [Run] does, given how its parts behave. *)
Section RunLemmas.
Context (Configure : gostring → sys (option gostring))
        (Apply : gostring → gostring → sys (sys () * option gostring))
        (leaks : bool) (serve : Options → driver gostring) (opts : Options) (Hserve : serves leaks (serve opts)).

Lemma runs_life tr err : runs (Run_with Configure Apply serve opts) tr err →
  closed tr ∨ leaks = true ∧ leaked tr ∧ err ∈ build_errors.
Proof.
  intros (t1 & t2 & dev & -> & H1%run_ask & H)%runs_bind_inv. subst t1.
  destruct dev as [dev|]; [|destruct H as [-> _]; by left; left].
  apply runs_deferred in H as (t3 & t4 & -> & H & H4%run_ask). subst t4.
  enough (life t3 = [] ∨ leaks = true ∧ life t3 = [StackUp; BuildFailed] ∧ err ∈ build_errors ∨ life t3 = [StackUp; StackDown]) as G.
  { unfold closed, leaked. rewrite !life_app. destruct G as [-> |[(-> & -> & ?)| ->]]; [left|right|left]; auto. }
  apply runs_bind_inv in H as (t5 & t6 & e & -> & H5%lift_runs & H). destruct H5 as [_ L5].
  rewrite life_app, L5. cbn [app]. destruct e as [e|]; [destruct H as [-> _]; by left|].
  assert (∀ t, runs (serve opts) t err →
    life t = [] ∨ leaks = true ∧ life t = [StackUp; BuildFailed] ∧ err ∈ build_errors ∨ life t = [StackUp; StackDown]) as Hs.
  { intros t Ht. apply Hserve in Ht. tauto. }
  destruct (AutoDefaultRoute opts); [|by apply Hs].
  apply runs_bind_inv in H as (t7 & t8 & [c [e|]] & -> & H7%lift_runs & H); destruct H7 as [_ L7];
    rewrite life_app, L7; cbn [app]; [destruct H as [-> _]; by left|].
  apply runs_deferred in H as (t9 & t10 & -> & H9%Hs & H10%lift_runs).
  destruct H10 as [_ L10]. by rewrite life_app, L10, app_nil_r.
Qed.

(** Either everything was brought up and taken down, or the error says which
    part of the set-up failed. *)
Lemma runs_error tr err : runs (Run_with Configure Apply serve opts) tr err →
  life tr = [DeviceOpened; StackUp; StackDown; DeviceClosed] ∨ setup_error err = true.
Proof.
  assert (∀ e, e ∈ str "open tun" :: stack_errors → setup_error e = true) as Hin.
  { intros e He. unfold setup_error. by rewrite bool_decide_true. }
  intros (t1 & t2 & dev & -> & H1%run_ask & H)%runs_bind_inv. subst t1.
  destruct dev as [dev|]; [|destruct H as [-> ->]; right; apply Hin; left].
  apply runs_deferred in H as (t3 & t4 & -> & H & H4%run_ask). subst t4.
  enough (life t3 = [StackUp; StackDown] ∨ setup_error err = true) as [G|G]; [left; by rewrite !life_app, G|by right|].
  apply runs_bind_inv in H as (t5 & t6 & e & -> & H5%lift_runs & H). destruct H5 as [_ L5].
  rewrite life_app, L5. cbn [app]. destruct e as [e|].
  { destruct H as [-> ->]. right. unfold setup_error. rewrite HasPrefix_app, orb_true_r. done. }
  assert (∀ t, runs (serve opts) t err → life t = [StackUp; StackDown] ∨ setup_error err = true) as Hs.
  { intros t Ht. apply Hserve in Ht as [_ [[E _]|E]]; [right; apply Hin; by right|by left]. }
  destruct (AutoDefaultRoute opts); [|by apply Hs].
  apply runs_bind_inv in H as (t7 & t8 & [c [e|]] & -> & H7%lift_runs & H); destruct H7 as [_ L7];
    rewrite life_app, L7; cbn [app].
  { destruct H as [-> ->]. right. unfold setup_error. rewrite HasPrefix_app. apply orb_true_r. }
  apply runs_deferred in H as (t9 & t10 & -> & H9%Hs & H10%lift_runs). destruct H10 as [_ L10].
  by rewrite life_app, L10, app_nil_r.
Qed.

Context (undo : list gostring → option (list gostring))
  (HC : ∀ name tr e, runs (Configure name) tr e → undone undo tr [])
  (HA : ∀ tun proxy tr c err tr', runs (Apply tun proxy) tr (c, err) → runs c tr' tt →
        undone undo tr (attempted tr') ∧ undone undo tr' [] ∧ (err ≠ None → tr' = []))
  (HT : ∀ tun proxy tr c e, runs (Apply tun proxy) tr (c, Some e) → c = nop).

Lemma runs_undone tr err : runs (Run_with Configure Apply serve opts) tr err → undone undo (os_part tr) [].
Proof.
  intros (t1 & t2 & dev & -> & H1%run_ask & H)%runs_bind_inv. subst t1.
  destruct dev as [dev|]; [|by destruct H as [-> _]].
  apply runs_deferred in H as (t3 & t4 & -> & H & H4%run_ask). subst t4.
  rewrite !os_part_app. cbn [os_part mbind list_bind ev_os ev app]. rewrite app_nil_r.
  apply runs_bind_inv in H as (t5 & t6 & e & -> & H5%lift_runs & H). destruct H5 as [H5%HC _].
  rewrite os_part_app. apply undone_pre; [done|]. destruct e as [e|]; [by destruct H as [-> _]|].
  destruct (AutoDefaultRoute opts); [|apply Hserve in H as [-> _]; done].
  apply runs_bind_inv in H as (t7 & t8 & [c [e|]] & -> & H7%lift_runs & H); destruct H7 as [H7 _]; rewrite os_part_app.
  - destruct H as [-> _]. pose proof (HT _ _ _ _ _ H7) as ->. rewrite app_nil_r.
    by apply (HA _ _ _ _ _ [] H7).
  - apply runs_deferred in H as (t9 & t10 & -> & H9%Hserve & H10%lift_runs).
    destruct H9 as [O9 _], H10 as [H10 _]. rewrite os_part_app, O9.
    destruct (HA _ _ _ _ _ _ H7 H10) as (U1 & U2 & _). by apply undone_later.
Qed.
End RunLemmas.

(** On Linux: the changes that are taken back. *)
Lemma Configure_linux_undone name tr e : runs (Configure_linux name) tr e → undone kept_undo tr [].
Proof.
  intros H. apply undone_none. intros c Hc%succeeded_attempted.
  assert (c = words "ip addr add" ++ [prefix_String PrefixIPv4; str "dev"; name] ∨
          c = words "ip -6 addr add" ++ [prefix_String PrefixIPv6; str "dev"; name] ∨
          c = words "ip link set" ++ [name; str "up"]) as E.
  { apply runs_bind_inv in H as (t1 & t2 & ok & -> & H1%run_inv_run & H). subst t1. cmds_in Hc.
    apply elem_of_cons in Hc as [->|Hc]; [by left|].
    destruct ok; cbn [negb] in H; [|destruct H as [-> _]; by apply elem_of_nil in Hc].
    apply runs_bind_inv in H as (t3 & t4 & ok & -> & H3%run_inv_run & H). subst t3. cmds_in Hc.
    apply elem_of_cons in Hc as [->|Hc]; [by right; left|].
    apply runs_bind_inv in H as (t5 & t6 & up & -> & H5%run_inv_run & [-> _]). subst t5. cmds_in Hc.
    apply list_elem_of_singleton in Hc as ->. by right; right. }
  destruct E as [->|[->| ->]]; reflexivity.
Qed.

Lemma Apply_fails_nop tun proxy tr c e : runs (AutorouteLinux.Apply tun proxy) tr (c, Some e) → c = nop.
Proof.
  unfold AutorouteLinux.Apply. intros (t1 & t2 & g & -> & _ & H)%runs_bind_inv.
  destruct g as [[gw dev]|e']; [|by destruct H as [_ [= -> _]]].
  do 4 apply runs_bind_inv in H as (? & ? & ? & _ & _ & H). case_bool.
  - by apply runs_bind_inv in H as (? & ? & ? & _ & _ & _ & [= -> _]).
  - by do 2 apply runs_bind_inv in H as (? & ? & ? & _ & _ & H); destruct H as [_ H].
Qed.

Lemma linux_undone opts tr err :
  runs (gvisor_Run Configure_linux AutorouteLinux.Apply opts) tr err ∨
  runs (simple_Run Configure_linux AutorouteLinux.Apply opts) tr err →
  undone kept_undo (os_part tr) [].
Proof.
  intros [H|H]; (eapply (runs_undone _ _ _ _ opts); [|exact Configure_linux_undone|exact AutorouteLinux.Apply_undone
    |exact Apply_fails_nop|exact H]); [exact (gvisor_serves opts)|exact (simple_serves opts)].
Qed.

(** ** Theorems *)

(** C18: what [Run] opens it closes, in the reverse order, on every path and
    whatever the platform's set-up does, with one exception.  The gVisor driver
    either opened nothing, or opened and closed the device, or also brought the
    stack up and took it down before the device was closed.  The simple driver
    does the same exactly as long as no step of building the stack fails; when
    one fails, the stack that [stack.New] made is never closed. *)
Theorem driver_lifecycle Configure Apply opts tr err :
  (runs (gvisor_Run Configure Apply opts) tr err → closed tr) ∧
  (runs (simple_Run Configure Apply opts) tr err →
     closed tr ∧ BuildFailed ∉ life tr ∨
     leaked tr ∧ StackDown ∉ life tr ∧ err ∈ build_errors).
Proof.
  split.
  - intros H. by apply (runs_life _ _ false) in H as [H|[H _]]; [done|discriminate H|apply gvisor_serves].
  - intros H. apply (runs_life _ _ true) in H as [H|(_ & H & He)]; [left|right|apply simple_serves].
    + split; [done|]. destruct H as [-> |[-> | ->]]; set_solver.
    + split; [done|]. unfold leaked in H. rewrite H. split; [set_solver|done].
Qed.

(** ** Evaluation *)

Module DriverExample.
(** The Linux host of [LinuxExample], a device that opens, a stack that comes
    up. *)
Definition env (past : list (event drv_ans)) (e : drv) : drv_ans e :=
  match e with
  | Sys e => AutorouteLinux.LinuxExample.env (os_part past) e
  | OpenTun name _ => Some name
  | CreateStack | CreateNIC | SetPromiscuousMode | SetSpoofing | AwaitDone _ => true
  | NICInfo => 1
  | Done => str "context canceled"
  | _ => tt
  end.
Definition opts : Options := mkOptions "nano0" 1500 true true true AutorouteLinux.LinuxExample.proxy.
Definition prog := gvisor_Run Configure_linux AutorouteLinux.Apply opts.
Definition tr := (exec env [] prog).1.

Lemma run_prog : runs prog tr (exec env [] prog).2.
Proof. exact (exec_run env prog). Qed.

Lemma tr_life : life tr = [DeviceOpened; StackUp; StackDown; DeviceClosed].
Proof. by vm_compute. Qed.

Lemma driver_lifecycle_witness : closed tr.
Proof. exact (proj1 (driver_lifecycle _ _ opts tr _) run_prog). Defined.

(** The simple driver when the stack cannot be made promiscuous. *)
Definition env_leak (past : list (event drv_ans)) (e : drv) : drv_ans e :=
  match e with SetPromiscuousMode => false | e => env past e end.
Definition leak_run := exec env_leak [] (simple_Run Configure_linux AutorouteLinux.Apply opts).
Lemma leak_shown : life leak_run.1 = [DeviceOpened; StackUp; BuildFailed; DeviceClosed] ∧ leak_run.2 = str "promiscuous".
Proof. by vm_compute. Qed.
End DriverExample.
