(* ===== verification/Platform.v ===== *)
(** * Platforms

    What a packet driver relies on when it configures the interface and
    installs the routes ([tunconf.Configure] and [autoroute.Apply]): the
    operations as one class, the promise to take changes back as another, with
    the three platforms as instances.  A driver's own theorem is proved against
    the promise. *)

From S2P Require Import Prelude GoStrings Netip Netaddr Config Effects Exec.
From S2P Require Import AutorouteLinux AutorouteDarwin AutorouteWindows Driver.

(** ** Interface *)

Class Platform : Type := {
  Configure : gostring → sys (option gostring);
  Apply : gostring → gostring → sys (sys () * option gostring)
}.

(** [undo g x c] is the command that takes [c] back, for any target [g] and for
    what a run has read, [x]; [stranded c] are the changes the platform makes
    no provision for; [gives_up e] are the errors after which [Apply] leaves
    changes behind. *)
Class Restores (P : Platform) : Type := {
  target : Type;
  reading : Type;
  no_reading : reading;
  read_in : gostring → list (event os_ans) → reading → Prop;
  undo : target → reading → list gostring → option (list gostring);
  stranded : list gostring → bool;
  gives_up : gostring → bool;
  configure_neutral g x name tr e : runs (Configure name) tr e →
    undone (except stranded (undo g x)) tr [];
  apply_restores g tun proxy tr c err tr' : runs (Apply tun proxy) tr (c, err) → runs c tr' tt →
    (∀ e, err = Some e → gives_up e = false) →
    ∃ x, undone (except stranded (undo g x)) tr (attempted tr') ∧ (err = None → read_in tun tr x);
  apply_fails tun proxy tr c e : runs (Apply tun proxy) tr (c, Some e) → c = nop
}.
Arguments target P {_}.
Arguments reading P {_}.
Arguments no_reading P {_}.

(** ** Linux, macOS, Windows *)

Definition Linux : Platform := {| Configure := Configure_linux; Apply := AutorouteLinux.Apply |}.
Definition Darwin : Platform := {| Configure := Configure_darwin; Apply := AutorouteDarwin.Apply |}.
Definition Windows : Platform := {| Configure := Configure_windows; Apply := AutorouteWindows.Apply |}.

#[export, refine] Instance Linux_restores : Restores Linux := {|
  target := ();
  reading := ();
  no_reading := tt;
  read_in _ _ _ := True;
  undo _ _ := AutorouteLinux.undo;
  stranded := AutorouteLinux.stranded;
  gives_up _ := false
|}.
Proof.
  - intros _ _. apply Configure_linux_undone.
  - intros _ tun proxy tr c err tr' H Hc _. exists tt. split; [|done]. by apply (Apply_undone tun proxy _ _ _ _ H Hc).
  - apply Apply_fails_nop.
Defined.

(** A program that only runs commands of a list. *)
Definition only {A} (m : sys A) (cmds : list (list gostring)) : Prop := ∀ tr a, runs m tr a → attempted tr ⊆ cmds.

Lemma only_neutral {A} (m : sys A) cmds u : only m cmds → Forall (λ c, u c = None) cmds → ∀ tr a, runs m tr a → undone u tr [].
Proof.
  intros Ho Hu tr a H%Ho. apply undone_none. intros c Hc%succeeded_attempted%H. rewrite Forall_forall in Hu. auto.
Qed.

Lemma configure_two c1 c2 e1 :
  only (do ok <- run c1; if negb ok then Ret (Some e1) else do_ run c2; Ret (@None gostring)) [c1; c2].
Proof.
  intros tr a (t1 & t2 & ok & -> & ->%run_inv_run & H)%runs_bind_inv. destruct ok; cbn [negb] in H.
  - apply runs_bind_inv in H as (t3 & t4 & ok & -> & ->%run_inv_run & [-> _]). cmds. done.
  - destruct H as [-> _]. cmds. set_solver.
Qed.

Lemma darwin_fails_nop tun proxy tr c e : runs (AutorouteDarwin.Apply tun proxy) tr (c, Some e) → c = nop.
Proof.
  unfold AutorouteDarwin.Apply. intros (t1 & t2 & g & -> & _ & H)%runs_bind_inv.
  destruct g as [gw|e']; [|by destruct H as [_ [= -> _]]].
  do 4 apply runs_bind_inv in H as (? & ? & ? & _ & _ & H). case_bool; [by destruct H as [_ [= -> _]]|].
  apply runs_bind_inv in H as (? & ? & ? & _ & _ & H). case_bool.
  - by apply runs_bind_inv in H as (? & ? & ? & _ & _ & _ & [= -> _]).
  - by do 4 apply runs_bind_inv in H as (? & ? & ? & _ & _ & H); destruct H as [_ H].
Qed.

Lemma windows_fails_nop tun proxy tr c e : runs (AutorouteWindows.Apply tun proxy) tr (c, Some e) → c = nop.
Proof.
  unfold AutorouteWindows.Apply. intros (t1 & t2 & g & -> & _ & H)%runs_bind_inv.
  destruct g as [gw|e']; [|by destruct H as [_ [= -> _]]].
  do 5 apply runs_bind_inv in H as (? & ? & ? & _ & _ & H). case_bool; [by destruct H as [_ [= -> _]]|].
  apply runs_bind_inv in H as (? & ? & ? & _ & _ & H). case_bool.
  - by apply runs_bind_inv in H as (? & ? & ? & _ & _ & _ & [= -> _]).
  - by do 4 apply runs_bind_inv in H as (? & ? & ? & _ & _ & H); destruct H as [_ H].
Qed.

(** On macOS [x] are the resolvers of the active service. *)
#[export, refine] Instance Darwin_restores : Restores Darwin := {|
  target := ();
  reading := list gostring;
  no_reading := [];
  read_in _ tr old := ∃ t1 t2 t3 det, tr = t1 ++ t2 ++ t3 ∧ runs detectNetworkService t2 det ∧ old = old_of det;
  undo _ old := AutorouteDarwin.undo old;
  stranded _ := false;
  gives_up e := bool_decide (e = str "autoroute: add ipv4 default route")
|}.
Proof.
  - intros _ x name. eapply only_neutral; [apply configure_two|]. by repeat constructor.
  - intros _ tun proxy tr c err tr' H Hc He. apply (darwin_apply_undone tun proxy _ _ _ _ H Hc). intros ->.
    specialize (He _ eq_refl). by rewrite bool_decide_true in He.
  - apply darwin_fails_nop.
Defined.

(** On Windows the target is a bypass route, by address and gateway, and [x] is
    the resolver of the tunnel's interface. *)
#[export, refine] Instance Windows_restores : Restores Windows := {|
  target := gostring * gostring;
  reading := gostring;
  no_reading := [];
  read_in tun tr old := ∃ t1 t2 t3, tr = t1 ++ t2 ++ t3 ∧ runs (AutorouteWindows.currentDNS tun) t2 old;
  undo g old := AutorouteWindows.undo g.1 g.2 old;
  stranded _ := false;
  gives_up e := bool_decide (e = str "autoroute: add ipv4 default route (0/1)")
|}.
Proof.
  - intros g x name. eapply only_neutral; [apply configure_two|].
    repeat constructor; apply undo_adds; discriminate.
  - intros g tun proxy tr c err tr' H Hc He. apply (windows_apply_undone g.1 g.2 tun proxy _ _ _ _ H Hc). intros ->.
    specialize (He _ eq_refl). by rewrite bool_decide_true in He.
  - apply windows_fails_nop.
Defined.

(** ** Drivers on any platform *)

Section Restored.
Context {P : Platform} {R : Restores P}.

(** The commands of a run have been taken back: those of the clean-up that
    [Apply] returned come last, and take back all that came before but the
    stranded changes; if no stranded change was made, all of it. *)
Definition restored (g : target P) (tr : list (event os_ans)) : Prop :=
  ∃ x pre post, tr = pre ++ post ∧ undone (except stranded (undo g x)) pre (attempted post) ∧
    ((∀ c, c ∈ succeeded tr → stranded c = false) → undone (undo g x) pre (attempted post)) ∧
    (post = [] ∨ ∃ s1 s2 tun proxy c, pre = s1 ++ s2 ∧ runs (Apply tun proxy) s2 (c, None) ∧ runs c post tt ∧ read_in tun s2 x).

Lemma restored_intro g x pre post : undone (except stranded (undo g x)) pre (attempted post) →
  (post = [] ∨ ∃ s1 s2 tun proxy c, pre = s1 ++ s2 ∧ runs (Apply tun proxy) s2 (c, None) ∧ runs c post tt ∧ read_in tun s2 x) →
  restored g (pre ++ post).
Proof.
  intros U H. exists x, pre, post. split_and!; [done..| |done]. intros Hs. apply (undone_except stranded); [|done].
  intros c Hc. apply Hs. rewrite succeeded_app. apply elem_of_app. by left.
Qed.

Lemma restored_none g tr : (∀ x, undone (except stranded (undo g x)) tr []) → restored g tr.
Proof. intros H. rewrite <- (app_nil_r tr). apply (restored_intro g (no_reading P)); [apply H|by left]. Qed.

Lemma runs_restored leaks serve opts tr err g : serves leaks (serve opts) → runs (Run_with Configure Apply serve opts) tr err →
  (∀ e, err = str "autoroute: " ++ e → gives_up e = false) → restored g (os_part tr).
Proof.
  intros Hserve (t1 & t2 & dev & -> & H1%run_ask & H)%runs_bind_inv Herr. subst t1.
  destruct dev as [dev|]; [|destruct H as [-> _]; by apply restored_none].
  apply runs_deferred in H as (t3 & t4 & -> & H & H4%run_ask). subst t4.
  rewrite !os_part_app. cbn [os_part mbind list_bind ev_os ev app]. rewrite app_nil_r.
  apply runs_bind_inv in H as (t5 & t6 & e & -> & H5%lift_runs & H). destruct H5 as [H5 _].
  pose proof (λ x, configure_neutral g x _ _ _ H5) as N5. rewrite os_part_app.
  destruct e as [e|]; [destruct H as [-> _]; rewrite app_nil_r; by apply restored_none|].
  destruct (AutoDefaultRoute opts); [|apply Hserve in H as [-> _]; rewrite app_nil_r; by apply restored_none].
  apply runs_bind_inv in H as (t7 & t8 & [c [e|]] & -> & H7%lift_runs & H); destruct H7 as [H7 _]; rewrite os_part_app.
  - destruct H as [-> ->]. pose proof (apply_fails _ _ _ _ _ H7) as ->.
    destruct (apply_restores g _ _ _ _ _ [] H7) as (x & U & _); [done|intros e' [= <-]; by apply Herr|].
    change (os_part []) with (@nil (event os_ans)). rewrite app_assoc. apply (restored_intro g x); [by apply undone_pre|by left].
  - apply runs_deferred in H as (t9 & t10 & -> & H9%Hserve & H10%lift_runs).
    destruct H9 as [O9 _], H10 as [H10 _]. rewrite os_part_app, O9.
    destruct (apply_restores g _ _ _ _ _ _ H7 H10) as (x & U & HR); [done|].
    rewrite app_assoc. apply (restored_intro g x); [by apply undone_pre|].
    right. eexists _, _, _, _, c. split_and!; [done|exact H7|done|by apply HR].
Qed.
End Restored.
