(* ===== verification/Logger.v ===== *)
(** * The log (internal/logger)

    The rotating writer: one file per day and per [maxSize] bytes in a log
    directory, files of old days removed.  The directory is modelled as a Unix
    directory: names lead to files, and an open file stays open, and keeps its
    content, when its name is removed.  Every system call can fail: the [n]-th
    call succeeds or fails as [fault] says, and the [n]-th reading of the clock
    gives [clock n].  Nobody else writes to the directory. *)

From S2P Require Import Prelude GoStrings Config.

(** ** Levels *)

Definition LevelDebug : Z := -4.
Definition LevelInfo : Z := 0.
Definition LevelWarn : Z := 4.
Definition LevelError : Z := 8.

Definition parseLevel (v : gostring) : Z :=
  let v := ToLower (TrimSpace v) in
  if bool_decide (v = "debug") then LevelDebug
  else if bool_decide (v = "warn") then LevelWarn
  else if bool_decide (v = "error") then LevelError
  else if bool_decide (v = "none") || bool_decide (v = "silent") then LevelError + 10
  else LevelInfo.

(** ** Dates *)

(** A calendar date; [time.Time.Format] and [time.Parse] with the layout
    [2006-01-02]. *)
Record date : Type := mkDate { d_year : Z; d_month : Z; d_day : Z }.

Definition isLeap (y : Z) : bool := (y `mod` 4 =? 0) && (negb (y `mod` 100 =? 0) || (y `mod` 400 =? 0)).
Definition daysIn (m y : Z) : Z :=
  if m =? 2 then (if isLeap y then 29 else 28)
  else if (m =? 4) || (m =? 6) || (m =? 9) || (m =? 11) then 30 else 31.
Definition valid_date (d : date) : bool :=
  in_range 0 9999 (d_year d) && in_range 1 12 (d_month d) && in_range 1 (daysIn (d_month d) (d_year d)) (d_day d).

Definition appendInt (x : Z) (width : nat) : gostring :=
  let pad s := replicate (width - length s) "0"%byte ++ s in
  if x <? 0 then "-"%byte :: pad (FormatUint (- x)) else pad (FormatUint x).
Definition Format (d : date) : gostring :=
  appendInt (d_year d) 4 ++ "-"%byte :: appendInt (d_month d) 2 ++ "-"%byte :: appendInt (d_day d) 2.

(** [n] digits at the start of the text; the separator. *)
Definition getnum (n : nat) (s : gostring) : option (Z * gostring) :=
  if (length (take n s) =? n)%nat then v ← digits_val 0 (take n s); Some (v, drop n s) else None.
Definition skip (s : gostring) : option gostring :=
  match s with b :: r => if bool_decide (b = "-"%byte) then Some r else None | [] => None end.
Definition Parse (s : gostring) : option date :=
  '(y, s) ← getnum 4 s; s ← skip s;
  '(m, s) ← getnum 2 s; s ← skip s;
  '(d, s) ← getnum 2 s;
  if valid_date (mkDate y m d) && bool_decide (s = []) then Some (mkDate y m d) else None.

(** ** The writer and the directory *)

Record rotatingFileWriter : Type := mkWriter {
  prefix : gostring;
  maxSize : Z;
  maxAge : Z;
  file : option nat;                       (* the open file *)
  currentDate : gostring;
  seq : Z;
  size : Z
}.

Record world : Type := mkWorld {
  writer : rotatingFileWriter;
  names : gmap gostring (option nat);      (* [None] for a directory *)
  files : list gostring;                   (* the contents of the files *)
  tick : nat
}.

Definition op (A : Type) : Type := st world A.

Definition set_writer (w : rotatingFileWriter) : op () := λ s, (tt, mkWorld w (names s) (files s) (tick s)).
Definition get_writer : op rotatingFileWriter := λ s, (writer s, s).

Definition set_file (f : option nat) (w : rotatingFileWriter) : rotatingFileWriter :=
  mkWriter (prefix w) (maxSize w) (maxAge w) f (currentDate w) (seq w) (size w).
Definition set_seq (n : Z) (w : rotatingFileWriter) : rotatingFileWriter :=
  mkWriter (prefix w) (maxSize w) (maxAge w) (file w) (currentDate w) n (size w).
Definition set_size (n : Z) (w : rotatingFileWriter) : rotatingFileWriter :=
  mkWriter (prefix w) (maxSize w) (maxAge w) (file w) (currentDate w) (seq w) n.
Definition set_open (f : nat) (date : gostring) (n : Z) (w : rotatingFileWriter) : rotatingFileWriter :=
  mkWriter (prefix w) (maxSize w) (maxAge w) (Some f) date (seq w) n.

(** ** File names *)

Definition fileName (w : rotatingFileWriter) (date : gostring) (seq : Z) : gostring :=
  if seq <=? 0 then prefix w ++ "-"%byte :: date ++ ".log"
  else prefix w ++ "-"%byte :: date ++ "."%byte :: Itoa seq ++ ".log".

Definition parseFileName (w : rotatingFileWriter) (name : gostring) : option (gostring * Z) :=
  let prefix := prefix w ++ str "-" in
  if negb (HasPrefix name prefix) || negb (HasSuffix name ".log") then None
  else
    let base := TrimSuffix (TrimPrefix name prefix) ".log" in
    match Split base "."%byte with
    | [] => None
    | date :: rest =>
        match Parse date with
        | None => None
        | Some _ =>
            match rest with
            | [] => Some (date, 0)
            | [t] => match Atoi t with
                     | None => None
                     | Some n => if n <? 0 then None else Some (date, n)
                     end
            | _ => None
            end
        end
    end.

Section Writer.
Context (fault : nat → option nat)         (* the call fails; a write first writes that much *)
        (clock : nat → Z)                  (* nanoseconds since the epoch *)
        (civil : Z → date)                 (* the local date of an instant *)
        (midnight : date → Z).             (* the instant a local date begins *)

(** ** System calls *)

Definition call : op (option nat) :=
  λ s, (fault (tick s), mkWorld (writer s) (names s) (files s) (S (tick s))).
Definition now : op Z :=
  λ s, (clock (tick s), mkWorld (writer s) (names s) (files s) (S (tick s))).

(** Entries: the name and whether it is a directory. *)
Definition ReadDir : op (option (list (gostring * bool))) :=
  let! f := call in
  match f with
  | Some _ => st_ret None
  | None => λ s, (Some ((λ e : gostring * option nat, (e.1, negb (bool_decide (is_Some e.2)))) <$> map_to_list (names s)), s)
  end.

(** Create or append. *)
Definition OpenFile (name : gostring) : op (option nat) :=
  let! f := call in
  match f with
  | Some _ => st_ret None
  | None => λ s,
      match names s !! name with
      | Some (Some i) => (Some i, s)
      | Some None => (None, s)
      | None => (Some (length (files s)),
                 mkWorld (writer s) (<[name := Some (length (files s))]> (names s)) (files s ++ [[]]) (tick s))
      end
  end.

Definition content (s : world) (i : nat) : gostring := default [] (files s !! i).

Definition Stat (i : nat) : op (option Z) :=
  let! f := call in
  match f with
  | Some _ => st_ret None
  | None => λ s, (Some (Z.of_nat (length (content s i))), s)
  end.

(** The number of bytes written and whether all were. *)
Definition file_Write (i : nat) (p : gostring) : op (nat * bool) :=
  let! f := call in λ s,
    let n := match f with Some k => (k `min` length p)%nat | None => length p end in
    ((n, negb (bool_decide (is_Some f))),
     mkWorld (writer s) (names s) (<[i := content s i ++ take n p]> (files s)) (tick s)).

Definition file_Close (i : nat) : op bool :=
  let! f := call in st_ret (negb (bool_decide (is_Some f))).

Definition Remove (name : gostring) : op () :=
  let! f := call in
  match f with
  | Some _ => st_ret tt
  | None => λ s, (tt, mkWorld (writer s) (delete name (names s)) (files s) (tick s))
  end.

(** ** Operations *)

Definition max_seq (w : rotatingFileWriter) (date : gostring) (entries : list (gostring * bool)) : Z :=
  foldl (λ maxSeq e,
    if (e : gostring * bool).2 then maxSeq
    else match parseFileName w e.1 with
         | None => maxSeq
         | Some (fileDate, seq) =>
             if negb (bool_decide (fileDate = date)) then maxSeq
             else if maxSeq <? seq then seq else maxSeq
         end) (-1) entries.

Definition nextSeq (date : gostring) : op (option Z) :=
  let! entries := ReadDir in
  match entries with
  | None => st_ret None
  | Some entries => let! w := get_writer in st_ret (Some (int64 (max_seq w date entries + 1)))
  end.

(** [now.Sub(t)]: saturating. *)
Definition Sub (a b : Z) : Z := Z.max min_int64 (Z.min max_int64 (a - b)).

(** Whether a file is removed: its name has a date more than [maxAge] ago. *)
Definition too_old (w : rotatingFileWriter) (now : Z) (e : gostring * bool) : bool :=
  if e.2 then false
  else match parseFileName w e.1 with
       | None => false
       | Some (fileDate, _) =>
           match Parse fileDate with
           | None => false
           | Some d => maxAge w <? Sub now (midnight d)
           end
       end.

Fixpoint remove_old (w : rotatingFileWriter) (now : Z) (entries : list (gostring * bool)) : op () :=
  match entries with
  | [] => st_ret tt
  | e :: rest =>
      let! _ := if too_old w now e then Remove e.1 else st_ret tt in
      remove_old w now rest
  end.

Definition cleanupOldLocked (now : Z) : op () :=
  let! entries := ReadDir in
  match entries with
  | None => st_ret tt
  | Some entries => let! w := get_writer in remove_old w now entries
  end.

(** Whether it succeeded. *)
Definition rotate (date : gostring) : op bool :=
  let! w := get_writer in
  let! _ := match file w with
            | Some f => let! _ := file_Close f in set_writer (set_file None w)
            | None => st_ret tt
            end in
  let! w := get_writer in
  let! ok := if negb (bool_decide (currentDate w = date)) then
               let! next := nextSeq date in
               match next with
               | None => st_ret false
               | Some next => let! _ := set_writer (set_seq next w) in st_ret true
               end
             else let! _ := set_writer (set_seq (int64 (seq w + 1)) w) in st_ret true in
  if negb ok then st_ret false
  else
    let! w := get_writer in
    let! f := OpenFile (fileName w date (seq w)) in
    match f with
    | None => st_ret false
    | Some f =>
        let! info := Stat f in
        match info with
        | None => let! _ := file_Close f in st_ret false
        | Some n =>
            let! _ := set_writer (set_open f date n w) in
            let! t := now in
            let! _ := cleanupOldLocked t in
            st_ret true
        end
    end.

Definition ensureFile (date : gostring) (incoming : Z) : op bool :=
  let! w := get_writer in
  if bool_decide (is_Some (file w)) && bool_decide (currentDate w = date) && (int64 (size w + incoming) <=? maxSize w)
  then st_ret true
  else rotate date.

(** The number of bytes written and whether there was no error. *)
Definition Write (p : gostring) : op (nat * bool) :=
  if bool_decide (p = []) then st_ret (0%nat, true)
  else
    let! t := now in
    let! ok := ensureFile (Format (civil t)) (Z.of_nat (length p)) in
    if negb ok then st_ret (0%nat, false)
    else
      let! w := get_writer in
      match file w with
      | None => st_ret (0%nat, false)
      | Some f =>
          let! r := file_Write f p in
          let! _ := set_writer (set_size (int64 (size w + Z.of_nat r.1)) w) in
          st_ret r
      end.

Definition Close : op bool :=
  let! w := get_writer in
  match file w with
  | None => st_ret true
  | Some f => let! ok := file_Close f in let! _ := set_writer (set_file None w) in st_ret ok
  end.

(** [None] when the directory cannot be made. *)
Definition MkdirAll : op bool := let! f := call in st_ret (negb (bool_decide (is_Some f))).
Definition defaultMaxFileSize : Z := 2 ^ 20.
Definition defaultMaxAge : Z := 72 * 60 * minute.
(** The writer made when the directory is there. *)
Definition new_writer (prefix : gostring) (maxSize maxAge : Z) : rotatingFileWriter :=
  let maxSize := if maxSize <=? 0 then defaultMaxFileSize else maxSize in
  let maxAge := if maxAge <=? 0 then defaultMaxAge else maxAge in
  mkWriter prefix maxSize maxAge None [] (-1) 0.
Definition newRotatingFileWriter (prefix : gostring) (maxSize maxAge : Z) : op (option rotatingFileWriter) :=
  let! ok := MkdirAll in
  if negb ok then st_ret None else st_ret (Some (new_writer prefix maxSize maxAge)).
End Writer.

(** ** Names *)

Lemma appendInt_digits :
  forallZ (100 * 100) (λ v, bool_decide (length (appendInt v 4) = 4%nat ∧ digits_val 0 (appendInt v 4) = Some v)) = true ∧
  forallZ 100 (λ v, bool_decide (length (appendInt v 2) = 2%nat ∧ digits_val 0 (appendInt v 2) = Some v)) = true.
Proof. vm_compute. done. Qed.

Lemma appendInt_4 v : 0 ≤ v ≤ 9999 → length (appendInt v 4) = 4%nat ∧ digits_val 0 (appendInt v 4) = Some v.
Proof. intros Hv. apply (proj1 (bool_decide_eq_true _)), (forallZ_spec (100 * 100) _ (proj1 appendInt_digits)). lia. Qed.
Lemma appendInt_2 v : 0 ≤ v ≤ 99 → length (appendInt v 2) = 2%nat ∧ digits_val 0 (appendInt v 2) = Some v.
Proof. intros Hv. apply (proj1 (bool_decide_eq_true _)), (forallZ_spec 100 _ (proj2 appendInt_digits)). lia. Qed.

Lemma getnum_app n s v r : length s = n → digits_val 0 s = Some v → getnum n (s ++ r) = Some (v, r).
Proof.
  intros <- Hv. unfold getnum. rewrite take_app_length, Nat.eqb_refl, Hv, drop_app_length. done.
Qed.

Lemma daysIn_le m y : daysIn m y ≤ 31.
Proof. unfold daysIn. repeat case_match; lia. Qed.

Lemma Parse_Format d : valid_date d = true → Parse (Format d) = Some d.
Proof.
  intros Hd. pose proof Hd as Hv. unfold valid_date in Hv. destruct d as [y m dd]. cbn [d_year d_month d_day] in Hv.
  b2p. pose proof (daysIn_le m y). unfold Parse, Format. cbn [d_year d_month d_day].
  destruct (appendInt_4 y), (appendInt_2 m), (appendInt_2 dd); [lia..|].
  rewrite (getnum_app 4 _ y) by done. cbn [mbind option_bind skip]. rewrite bool_decide_true by done.
  cbn [mbind option_bind]. rewrite (getnum_app 2 _ m) by done. cbn [mbind option_bind skip].
  rewrite bool_decide_true by done. cbn [mbind option_bind].
  rewrite <- (app_nil_r (appendInt dd 2)), (getnum_app 2 _ dd) by done. cbn [mbind option_bind].
  by rewrite Hd, bool_decide_true.
Qed.

Lemma digits_val_digits s acc v : digits_val acc s = Some v → Forall (λ b, isDigit b = true) s.
Proof.
  revert acc. induction s as [|b s IH]; intros acc H; [constructor|]. cbn [digits_val] in H.
  destruct (isDigit b) eqn:E; [|done]. constructor; eauto.
Qed.

Lemma getnum_inv n s v r c : getnum n s = Some (v, r) → isDigit c = false → c ∈ s → c ∈ r.
Proof.
  unfold getnum. case_bool; [|done]. destruct (digits_val 0 (take n s)) eqn:E; [|done]. intros [= -> <-] Hc.
  apply digits_val_digits in E. rewrite <- (take_drop n s) at 1. rewrite elem_of_app. intros [H|H]; [|done].
  by apply (digits_not_in _ c) in E.
Qed.

Lemma skip_inv s r c : skip s = Some r → c ≠ "-"%byte → c ∈ s → c ∈ r.
Proof.
  destruct s as [|b s]; [done|]. cbn [skip]. case_bool; [|done]. intros [= <-] Hc. subst b.
  intros [H|H]%elem_of_cons; done.
Qed.

(** A date has no dot. *)
Lemma Parse_no_dot s d : Parse s = Some d → "."%byte ∉ s.
Proof.
  unfold Parse. intros H Hs.
  destruct (getnum 4 s) as [[y s1]|] eqn:E1; [|done]. cbn [mbind option_bind] in H.
  destruct (skip s1) as [s2|] eqn:E2; [|done]. cbn [mbind option_bind] in H.
  destruct (getnum 2 s2) as [[m s3]|] eqn:E3; [|done]. cbn [mbind option_bind] in H.
  destruct (skip s3) as [s4|] eqn:E4; [|done]. cbn [mbind option_bind] in H.
  destruct (getnum 2 s4) as [[dd s5]|] eqn:E5; [|done]. cbn [mbind option_bind] in H.
  destruct (valid_date _ && _) eqn:E; [|done]. b2p. subst s5.
  eapply elem_of_nil, (getnum_inv 2 _ _ _ "."%byte E5 eq_refl), (skip_inv _ _ "."%byte E4 ltac:(done)),
    (getnum_inv 2 _ _ _ "."%byte E3 eq_refl), (skip_inv _ _ "."%byte E2 ltac:(done)),
    (getnum_inv 4 _ _ _ "."%byte E1 eq_refl), Hs.
Qed.

Lemma parse_fileName w date d n : Parse date = Some d → 0 ≤ n ≤ max_int64 →
  parseFileName w (fileName w date n) = Some (date, n).
Proof.
  intros Hd Hn. pose proof (Parse_no_dot _ _ Hd) as Hdot.
  assert (∀ base, parseFileName w ((prefix w ++ str "-") ++ base ++ ".log") =
    match Split base "."%byte with
    | [] => None
    | date :: rest => match Parse date with
        | None => None
        | Some _ => match rest with
            | [] => Some (date, 0)
            | [t] => match Atoi t with None => None | Some n => if n <? 0 then None else Some (date, n) end
            | _ => None
            end
        end
    end) as E.
  { intros base. unfold parseFileName. rewrite HasPrefix_app. cbn [negb orb].
    rewrite (app_assoc _ base), HasSuffix_app. cbn [negb]. by rewrite <- app_assoc, TrimPrefix_app, TrimSuffix_app. }
  unfold fileName. case_bool.
  - replace (prefix w ++ "-"%byte :: date ++ ".log") with ((prefix w ++ str "-") ++ date ++ ".log")
      by (rewrite <- app_assoc; done).
    rewrite E, Split_not_in, Hd by done. do 2 f_equal. lia.
  - replace (prefix w ++ "-"%byte :: date ++ "."%byte :: Itoa n ++ ".log")
      with ((prefix w ++ str "-") ++ (date ++ "."%byte :: Itoa n) ++ ".log")
      by (rewrite <- !app_assoc; done).
    rewrite E, Split_app, Hd, Itoa_nonneg, Split_not_in by (done || lia || (apply FormatUint_not_in; [unfold max_int64 in *; lia|done])).
    rewrite Atoi_FormatUint by lia. rewrite (proj2 (Z.ltb_ge _ _)) by lia. done.
Qed.

(** ** Postconditions *)

(** [wp m Q s]: run in [s], [m] ends with a result and a world that satisfy
    [Q]. *)
Definition wp {A} (m : op A) (Q : A → world → Prop) (s : world) : Prop := Q (m s).1 (m s).2.

Lemma wp_bind {A B} (m : op A) (k : A → op B) Q s : wp m (λ a, wp (k a) Q) s → wp (st_bind m k) Q s.
Proof. unfold wp, st_bind. destruct (m s) as [a s']. done. Qed.
Lemma wp_ret {A} (a : A) (Q : A → world → Prop) s : Q a s → wp (st_ret a) Q s.
Proof. done. Qed.
Lemma wp_mono {A} (m : op A) (P Q : A → world → Prop) s : wp m P s → (∀ a s', P a s' → Q a s') → wp m Q s.
Proof. unfold wp. auto. Qed.
Lemma wp_get (Q : rotatingFileWriter → world → Prop) s : Q (writer s) s → wp get_writer Q s.
Proof. done. Qed.
Lemma wp_set w (Q : () → world → Prop) s : Q tt (mkWorld w (names s) (files s) (tick s)) → wp (set_writer w) Q s.
Proof. done. Qed.

Definition tock (s : world) : world := mkWorld (writer s) (names s) (files s) (S (tick s)).

(** [wp_step] runs the next operation of the goal. *)
Ltac wp_step :=
  lazymatch goal with
  | |- wp (st_bind _ _) _ _ => apply wp_bind
  | |- wp (st_ret _) _ _ => apply wp_ret
  | |- wp get_writer _ _ => apply wp_get
  | |- wp (set_writer _) _ _ => apply wp_set
  end.
Ltac wp_steps := repeat (wp_step; cbn beta iota).

Section WriterLemmas.
Context (fault : nat → option nat) (clock : nat → Z) (civil : Z → date) (midnight : date → Z).

Lemma wp_call (Q : option nat → world → Prop) s : Q (fault (tick s)) (tock s) → wp (call fault) Q s.
Proof. done. Qed.
Lemma wp_now (Q : Z → world → Prop) s : Q (clock (tick s)) (tock s) → wp (now clock) Q s.
Proof. done. Qed.

Lemma wp_ReadDir (Q : option (list (gostring * bool)) → world → Prop) s :
  Q None (tock s) →
  Q (Some ((λ e : gostring * option nat, (e.1, negb (bool_decide (is_Some e.2)))) <$> map_to_list (names s))) (tock s) →
  wp (ReadDir fault) Q s.
Proof. intros H1 H2. apply wp_bind, wp_call. destruct (fault _); done. Qed.

Lemma wp_OpenFile name (Q : option nat → world → Prop) s :
  Q None (tock s) →
  (∀ i, names s !! name = Some (Some i) → Q (Some i) (tock s)) →
  (names s !! name = None →
   Q (Some (length (files s)))
     (mkWorld (writer s) (<[name := Some (length (files s))]> (names s)) (files s ++ [[]]) (S (tick s)))) →
  wp (OpenFile fault name) Q s.
Proof.
  intros H1 H2 H3. apply wp_bind, wp_call. destruct (fault _); [done|]. unfold wp.
  change (names (tock s)) with (names s). destruct (names s !! name) as [[i|]|] eqn:E; cbn [fst snd]; auto.
Qed.

Lemma wp_Stat i (Q : option Z → world → Prop) s :
  Q None (tock s) → Q (Some (Z.of_nat (length (content s i)))) (tock s) → wp (Stat fault i) Q s.
Proof. intros H1 H2. apply wp_bind, wp_call. destruct (fault _); done. Qed.

Lemma wp_file_Write i p (Q : nat * bool → world → Prop) s :
  (∀ n ok, (n ≤ length p)%nat → (ok = true → n = length p) →
   Q (n, ok) (mkWorld (writer s) (names s) (<[i := content s i ++ take n p]> (files s)) (S (tick s)))) →
  wp (file_Write fault i p) Q s.
Proof.
  intros H. apply wp_bind, wp_call. unfold wp. cbn [fst snd]. apply H.
  - destruct (fault _); lia.
  - destruct (fault _); [|done]. by rewrite bool_decide_true by eauto.
Qed.

Lemma wp_file_Close i (Q : bool → world → Prop) s : (∀ ok, Q ok (tock s)) → wp (file_Close fault i) Q s.
Proof. intros H. apply wp_bind, wp_call. apply H. Qed.

Lemma wp_Remove name (Q : () → world → Prop) s :
  Q tt (tock s) → Q tt (mkWorld (writer s) (delete name (names s)) (files s) (S (tick s))) →
  wp (Remove fault name) Q s.
Proof. intros H1 H2. apply wp_bind, wp_call. destruct (fault _); done. Qed.

(** *** Cleaning up *)

(** What cleaning up at [t] leaves of the directory [N]. *)
Definition cleaned (w : rotatingFileWriter) (t : Z) (N N' : gmap gostring (option nat)) : Prop :=
  N' ⊆ N ∧ ∀ n v, N !! n = Some v → N' !! n = None → too_old midnight w t (n, negb (bool_decide (is_Some v))) = true.

Lemma cleaned_refl w t N : cleaned w t N N.
Proof. split; [done|]. intros n v H1 H2. by rewrite H1 in H2. Qed.

Lemma wp_remove_old w t es s N (Q : () → world → Prop) : cleaned w t N (names s) →
  (∀ n d v, (n, d) ∈ es → N !! n = Some v → d = negb (bool_decide (is_Some v))) →
  (∀ N' T, cleaned w t N N' → (tick s ≤ T)%nat → Q tt (mkWorld (writer s) N' (files s) T)) →
  wp (remove_old fault midnight w t es) Q s.
Proof.
  revert s. induction es as [|[n d] es IH]; intros s HN Hes HQ; cbn [remove_old].
  - apply wp_ret. destruct s as [sw sn sf st]. apply HQ; [done|cbn; lia].
  - apply wp_bind. destruct (too_old midnight w t (n, d)) eqn:Et; cbn [fst].
    + apply wp_Remove.
      * apply IH; [done| |]; [intros n' d' v Hin; apply Hes; by right|]. intros N' T H HT. apply HQ; [done|cbn in HT; lia].
      * apply IH.
        -- cbn [names]. destruct HN as [H1 H2]. split; [etrans; [apply delete_subseteq|done]|].
           intros n' v' Hn' Hd. destruct (decide (n' = n)) as [->|Hne].
           ++ rewrite <- (Hes n d v') by (done || left). done.
           ++ rewrite lookup_delete_ne in Hd by done. by apply H2.
        -- intros n' d' v Hin. apply Hes. by right.
        -- intros N' T H HT. apply HQ; [done|cbn in HT; lia].
    + apply wp_ret, IH; [done| |done]. intros n' d' v Hin. apply Hes. by right.
Qed.

Lemma wp_cleanup t s (Q : () → world → Prop) :
  (∀ N' T, cleaned (writer s) t (names s) N' → (tick s ≤ T)%nat → Q tt (mkWorld (writer s) N' (files s) T)) →
  wp (cleanupOldLocked fault midnight t) Q s.
Proof.
  intros HQ. apply wp_bind. apply wp_ReadDir.
  - apply wp_ret. apply HQ; [apply cleaned_refl|lia].
  - apply wp_bind, wp_get. eapply wp_remove_old; [apply cleaned_refl| |].
    + intros n d v Hin Hn. apply list_elem_of_fmap in Hin as ([n' v'] & E & Hin%elem_of_map_to_list).
      apply pair_equal_spec in E as [-> ->]. cbn [fst snd] in *. change (names (tock s)) with (names s) in *. rewrite Hn in Hin. by injection Hin as ->.
    + intros N' T H HT. apply HQ; [done|cbn in HT; lia].
Qed.
End WriterLemmas.

(** *** The next number *)

Lemma max_seq_mono w date es acc acc' : acc ≤ acc' →
  let step := λ maxSeq (e : gostring * bool),
    if e.2 then maxSeq
    else match parseFileName w e.1 with
         | None => maxSeq
         | Some (fileDate, seq) =>
             if negb (bool_decide (fileDate = date)) then maxSeq
             else if maxSeq <? seq then seq else maxSeq
         end in
  acc ≤ foldl step acc es ∧
  (∀ n q, (n, false) ∈ es → parseFileName w n = Some (date, q) → q ≤ foldl step acc' es) ∧
  (∀ b, acc ≤ b → (∀ n q, (n, false) ∈ es → parseFileName w n = Some (date, q) → q ≤ b) → foldl step acc es ≤ b).
Proof.
  intros Hacc step. revert acc acc' Hacc. induction es as [|[n d] es IH]; intros acc acc' Hacc; cbn [foldl].
  { split; [lia|]. split; [|auto]. intros n q H. by apply elem_of_nil in H. }
  assert (∀ a, a ≤ step a (n, d) ∧ (d = false → ∀ q, parseFileName w n = Some (date, q) → q ≤ step a (n, d)) ∧
    (∀ b, a ≤ b → (d = false → ∀ q, parseFileName w n = Some (date, q) → q ≤ b) → step a (n, d) ≤ b)) as Hstep.
  { intros a. unfold step. cbn [fst snd]. destruct d; [split_and!; [lia|done|auto]|].
    destruct (parseFileName w n) as [[fd q]|]; [|split_and!; [lia|done|auto]].
    destruct (bool_decide (fd = date)) eqn:E; cbn [negb]; b2p.
    - subst fd. split_and!; [case_bool; lia| |].
      + intros _ q' [= <-]. case_bool; lia.
      + intros b Ha Hb. case_bool; [by apply Hb|done].
    - split_and!; [lia| |auto]. intros _ q' [= -> _]. done. }
  destruct (Hstep acc) as (H1 & H2 & H3). destruct (Hstep acc') as (H1' & H2' & _).
  destruct (IH (step acc (n, d)) (step acc (n, d)) ltac:(lia)) as (I1 & I2 & I3).
  destruct (IH (step acc' (n, d)) (step acc' (n, d)) ltac:(lia)) as (J1 & J2 & _).
  split_and!; [lia| |].
  - intros n' q [[= -> <-]|Hin]%elem_of_cons Hq; [|by eapply J2]. etrans; [by apply H2'|done].
  - intros b Hb Hall. apply I3.
    + apply H3; [done|]. intros -> q. apply Hall. left.
    + intros n' q Hin. apply Hall. by right.
Qed.

Lemma max_seq_spec w date es b :
  -1 ≤ max_seq w date es ∧
  (∀ n q, (n, false) ∈ es → parseFileName w n = Some (date, q) → q ≤ max_seq w date es) ∧
  (-1 ≤ b → (∀ n q, (n, false) ∈ es → parseFileName w n = Some (date, q) → q ≤ b) → max_seq w date es ≤ b).
Proof. destruct (max_seq_mono w date es (-1) (-1) ltac:(lia)) as (H1 & H2 & H3). split_and!; eauto. Qed.

Lemma elem_of_entries (N : gmap gostring (option nat)) n i : N !! n = Some (Some i) →
  (n, false) ∈ (λ e : gostring * option nat, (e.1, negb (bool_decide (is_Some e.2)))) <$> map_to_list N.
Proof.
  intros H. apply list_elem_of_fmap. exists (n, Some i). split; [|by apply elem_of_map_to_list].
  cbn [fst snd]. by rewrite bool_decide_true by eauto.
Qed.

Lemma entries_elem (N : gmap gostring (option nat)) n :
  (n, false) ∈ (λ e : gostring * option nat, (e.1, negb (bool_decide (is_Some e.2)))) <$> map_to_list N →
  ∃ i, N !! n = Some (Some i).
Proof.
  intros ([n' v] & E & H%elem_of_map_to_list)%list_elem_of_fmap. apply pair_equal_spec in E as [-> E].
  cbn [fst snd] in *. symmetry in E. apply negb_false_iff, bool_decide_eq_true in E as [i ->]. eauto.
Qed.

(** A bound on the numbers in use. *)
Definition numbers_below (w : rotatingFileWriter) (N : gmap gostring (option nat)) (b : Z) : Prop :=
  ∀ n i d q, N !! n = Some (Some i) → parseFileName w n = Some (d, q) → q ≤ b.

Lemma wp_nextSeq fault date (Q : option Z → world → Prop) s b :
  -1 ≤ b < max_int64 → numbers_below (writer s) (names s) b →
  Q None (tock s) →
  (∀ next, 0 ≤ next ≤ b + 1 →
    (∀ n i q, names s !! n = Some (Some i) → parseFileName (writer s) n = Some (date, q) → q < next) →
    Q (Some next) (tock s)) →
  wp (nextSeq fault date) Q s.
Proof.
  intros Hb Hall H1 H2. apply wp_bind, wp_ReadDir; [done|]. apply wp_bind, wp_get, wp_ret.
  change (writer (tock s)) with (writer s).
  destruct (max_seq_spec (writer s) date
    ((λ e : gostring * option nat, (e.1, negb (bool_decide (is_Some e.2)))) <$> map_to_list (names s)) b)
    as (L1 & L2 & L3).
  set (m := max_seq _ _ _) in *.
  assert (m ≤ b) as Hm.
  { apply L3; [lia|]. intros n q [i Hi]%entries_elem Hq. by eapply Hall. }
  rewrite int64_small by (unfold min_int64; lia). apply H2; [lia|].
  intros n i q Hn%elem_of_entries Hq. pose proof (L2 n q Hn Hq). lia.
Qed.

(** ** The log as a whole *)

Section Log.
Context (fault : nat → option nat) (clock : nat → Z) (civil : Z → date) (midnight : date → Z).

(** The date shown by the [k]-th reading of the clock. *)
Definition fmt (k : nat) : gostring := Format (civil (clock k)).

Context (Hcivil : ∀ t, valid_date (civil t) = true)
        (Hclock : ∀ i j k, (i ≤ j ≤ k)%nat → fmt i = fmt k → fmt j = fmt k)
        (mx : Z) (F0 : list gostring) (B : Z) (msgs : list gostring)
        (Hmx : 0 ≤ mx < 2 ^ 62)
        (Hmsgs : Forall (λ p, Z.of_nat (length p) < 2 ^ 62) msgs).

(** A file within the size, or with one message only. *)
Definition bounded (c : gostring) : Prop := Z.of_nat (length c) ≤ mx ∨ ∃ p, p ∈ msgs ∧ c `prefix_of` p.

(** After [n] writes that wrote [acc] in all. *)
Record Inv (n : nat) (acc : gostring) (w : rotatingFileWriter) (N : gmap gostring (option nat))
    (F : list gostring) (t : nat) : Prop := {
  inv_max : maxSize w = mx;
  inv_below : numbers_below w N (B + Z.of_nat n);
  inv_seq : -1 ≤ seq w ≤ B + Z.of_nat n;
  inv_date : currentDate w = [] ∨ ∃ k, (k < t)%nat ∧ currentDate w = fmt k;
  inv_fresh : (∀ n i q, N !! n = Some (Some i) → parseFileName w n = Some (currentDate w, q) → q ≤ seq w) ∨
              (file w = None ∧ ∀ k, (t ≤ k)%nat → fmt k ≠ currentDate w);
  inv_file : ∀ f, file w = Some f → S f = length F ∧ (length F0 ≤ f)%nat ∧
                                    size w = Z.of_nat (length (default [] (F !! f)));
  inv_old : ∃ G, F = F0 ++ G ∧ concat G = acc ∧ Forall bounded G
}.

Lemma fmt_nil k : fmt k ≠ [].
Proof. unfold fmt, Format. intros [_ H]%app_nil. done. Qed.

Lemma Parse_fmt k : Parse (fmt k) = Some (civil (clock k)).
Proof. apply Parse_Format, Hcivil. Qed.

Lemma fmt_eq k : Format (civil (clock k)) = fmt k.
Proof. reflexivity. Qed.

#[local] Opaque fmt.

(** Time passes; the file is closed; names disappear. *)
Lemma Inv_later n acc w N F t t' : (t ≤ t')%nat → Inv n acc w N F t → Inv n acc w N F t'.
Proof.
  intros Ht [H1 H2 H3 H4 H5 H6 H7]. split; try done.
  - destruct H4 as [H4|(k & Hk & H4)]; [by left|right; exists k]. split; [lia|done].
  - destruct H5 as [H5|[H5 H8]]; [by left|right]. split; [done|]. intros k Hk. apply H8. lia.
Qed.

Lemma Inv_close n acc w N F t : Inv n acc w N F t → Inv n acc (set_file None w) N F t.
Proof. intros [H1 H2 H3 H4 H5 H6 H7]. split; try done. cbn. destruct H5 as [H5|[_ H5]]; [by left|by right]. Qed.

Lemma Inv_names n acc w N N' F t : N' ⊆ N → Inv n acc w N F t → Inv n acc w N' F t.
Proof.
  intros HN [H1 H2 H3 H4 H5 H6 H7]. split; try done.
  - intros m i d q Hm. apply (H2 m i d q). by eapply lookup_weaken.
  - destruct H5 as [H5|H5]; [left|by right]. intros m i q Hm. apply (H5 m i q). by eapply lookup_weaken.
Qed.

Lemma Inv_more n acc w N F t : Inv n acc w N F t → Inv (S n) acc w N F t.
Proof.
  intros [H1 H2 H3 H4 H5 H6 H7]. split; try done; [|lia].
  intros m i d q Hm Hq. pose proof (H2 m i d q Hm Hq). lia.
Qed.

(** Another day: the date of the last file will not come back. *)
Lemma Inv_other_day n acc w N F t : Inv n acc w N F t → currentDate w ≠ fmt t →
  ∀ k, (t ≤ k)%nat → fmt k ≠ currentDate w.
Proof.
  intros H Hne k Hk E. destruct (inv_date _ _ _ _ _ _ H) as [H4|(j & Hj & H4)].
  - rewrite H4 in E. by apply fmt_nil in E.
  - apply Hne. rewrite H4 in E |- *. rewrite <- E. symmetry. apply (Hclock j t k); [lia|]. symmetry. exact E.
Qed.

(** A new number, above the numbers of the date; [w'] is the writer with it. *)
Lemma Inv_number n acc w N F t next :
  Inv n acc (set_file None w) N F t → next ≤ B + Z.of_nat (S n) → 0 ≤ next →
  (currentDate w = fmt t → seq w ≤ next) →
  Inv (S n) acc (set_seq next (set_file None w)) N F (S t).
Proof.
  intros H Hn H0 Hseq. pose proof (Inv_more _ _ _ _ _ _ H) as HS.
  apply (Inv_later _ _ _ _ _ t (S t)) in HS; [|lia]. destruct HS as [H1 H2 H3 H4 H5 H6 H7].
  split; [exact H1|exact H2|cbn; lia|exact H4| |exact H6|exact H7]. cbn [set_seq set_file currentDate file seq].
  destruct (decide (currentDate w = fmt t)) as [E|E].
  - destruct (inv_fresh _ _ _ _ _ _ H) as [Hf|[_ Hf]].
    + left. intros m i q Hm Hq. specialize (Hf m i q Hm Hq). cbn in Hf. specialize (Hseq E). lia.
    + exfalso. apply (Hf t); [lia|done].
  - right. split; [done|]. intros k Hk. apply (Inv_other_day _ _ _ _ _ _ H E). lia.
Qed.

(** The new file, named and opened or only named. *)
Lemma Inv_create n acc w N F t name k :
  Inv n acc w N F t → file w = None → name = fileName w (fmt k) (seq w) → 0 ≤ seq w ≤ max_int64 →
  Inv n acc w (<[name := Some (length F)]> N) (F ++ [[]]) t.
Proof.
  intros [H1 H2 H3 H4 H5 H6 H7] Hf -> Hs.
  pose proof (parse_fileName w (fmt k) _ _ (Parse_fmt k) Hs) as Hp. split; try done.
  - intros m i d q [[<- _]|[_ Hm]]%lookup_insert_Some Hq; [rewrite Hp in Hq; injection Hq as <- <-; lia|by eapply H2].
  - destruct H5 as [H5|H5]; [left|by right]. intros m i q [[<- _]|[_ Hm]]%lookup_insert_Some Hq.
    + rewrite Hp in Hq. injection Hq as _ <-. lia.
    + by eapply H5.
  - intros f Hf'. congruence.
  - destruct H7 as (G & -> & HG & HB). exists (G ++ [[]]). rewrite <- app_assoc. split_and!; [done| |].
    + rewrite concat_app, HG. cbn. by rewrite app_nil_r.
    + apply Forall_app. split; [done|]. constructor; [left; cbn; lia|constructor].
Qed.

(** The new file, opened. *)
Lemma Inv_open n acc w N F t k :
  Inv n acc w N (F ++ [[]]) t → (k < t)%nat → (length F0 ≤ length F)%nat →
  (∀ n i q, N !! n = Some (Some i) → parseFileName w n = Some (fmt k, q) → q ≤ seq w) →
  Inv n acc (set_open (length F) (fmt k) 0 w) N (F ++ [[]]) t.
Proof.
  intros [H1 H2 H3 H4 H5 H6 H7] Hk HF Hf.
  split; [exact H1|exact H2|exact H3|right; by exists k|left; exact Hf| |exact H7].
  intros f Hof. injection Hof as <-. rewrite list_lookup_middle by done. rewrite length_app. cbn. split_and!; lia.
Qed.

Lemma last_insert {A} (F : list A) f x : S f = length F →
  ∃ G c, F = G ++ [c] ∧ F !! f = Some c ∧ <[f := x]> F = G ++ [x].
Proof.
  destruct F as [|c G _] using rev_ind; [done|]. rewrite length_app. cbn [length]. intros E.
  assert (f = length G) as -> by lia. exists G, c. split; [done|]. rewrite list_lookup_middle by done.
  split; [done|]. rewrite insert_app_r_alt by lia. by rewrite Nat.sub_diag.
Qed.

(** A piece of a message goes to the open file, which has room for it or is
    empty. *)
Lemma Inv_append n acc w N F t f p k :
  Inv n acc w N F t → file w = Some f → p ∈ msgs → (k ≤ length p)%nat →
  size w + Z.of_nat (length p) ≤ mx ∨ default [] (F !! f) = [] →
  Inv n (acc ++ take k p) (set_size (int64 (size w + Z.of_nat k)) w) N
    (<[f := default [] (F !! f) ++ take k p]> F) t.
Proof.
  intros [H1 H2 H3 H4 H5 H6 H7] Hf Hp Hk Hroom. destruct (H6 f Hf) as (Hlen & Hold & Hsize).
  destruct (last_insert F f (default [] (F !! f) ++ take k p) Hlen) as (G & c & EF & Ec & ->).
  rewrite Ec in *. cbn [default id] in *.
  assert (length (take k p) = k) as Ek by (rewrite length_take; lia).
  assert (Z.of_nat (length p) < 2 ^ 62) as Hp62 by (rewrite Forall_forall in Hmsgs; by apply Hmsgs).
  destruct H7 as (G7 & E7 & HG & HB).
  assert (∃ G', G7 = G' ++ [c] ∧ G = F0 ++ G') as (G' & -> & ->).
  { destruct G7 as [|c' G' _] using rev_ind.
    - rewrite app_nil_r in E7. subst F. lia.
    - rewrite E7, app_assoc in EF. apply app_inj_tail in EF as [<- ->]. by exists G'. }
  apply Forall_app in HB as [HB1 HB2]. rewrite Forall_singleton in HB2.
  assert (Z.of_nat (length c) < 2 ^ 62) as Hc62.
  { destruct HB2 as [HB2|(p' & Hp' & HB2%prefix_length)]; [lia|].
    rewrite Forall_forall in Hmsgs. specialize (Hmsgs p' Hp'). cbn in Hmsgs. lia. }
  split; [exact H1|exact H2|exact H3|exact H4|exact H5| |].
  - intros f' Hf'. change (file w = Some f') in Hf'. rewrite Hf in Hf'. injection Hf' as <-.
    rewrite length_app. cbn [length]. rewrite EF, length_app in Hlen. cbn [length] in Hlen.
    assert (f = length (F0 ++ G')) as -> by lia. rewrite list_lookup_middle by done. cbn [default id size set_size].
    split_and!; [lia|done|]. rewrite int64_small, length_app, Ek by (unfold min_int64, max_int64; lia). lia.
  - exists (G' ++ [c ++ take k p]). rewrite <- app_assoc. split; [done|]. split.
    + rewrite concat_app, <- HG, concat_app. cbn. by rewrite !app_nil_r, <- !app_assoc.
    + apply Forall_app. split; [done|]. apply Forall_singleton. destruct Hroom as [Hroom|Hroom].
      * left. rewrite length_app, Ek. lia.
      * right. exists p. split; [done|]. rewrite Hroom. cbn [app]. exists (drop k p). by rewrite take_drop.
Qed.

(** *** Rotation *)

Definition close_current : op () :=
  let! w := get_writer in
  match file w with
  | Some f => let! _ := file_Close fault f in set_writer (set_file None w)
  | None => st_ret tt
  end.
Definition take_number (date : gostring) : op bool :=
  let! w := get_writer in
  if negb (bool_decide (currentDate w = date)) then
    let! next := nextSeq fault date in
    match next with
    | None => st_ret false
    | Some next => let! _ := set_writer (set_seq next w) in st_ret true
    end
  else let! _ := set_writer (set_seq (int64 (seq w + 1)) w) in st_ret true.
Definition open_next (date : gostring) : op bool :=
  let! w := get_writer in
  let! f := OpenFile fault (fileName w date (seq w)) in
  match f with
  | None => st_ret false
  | Some f =>
      let! info := Stat fault f in
      match info with
      | None => let! _ := file_Close fault f in st_ret false
      | Some n =>
          let! _ := set_writer (set_open f date n w) in
          let! t := now clock in
          let! _ := cleanupOldLocked fault midnight t in
          st_ret true
      end
  end.

(** [rotate] in three parts. *)
Lemma rotate_parts date s : rotate fault clock midnight date s =
  (let! _ := close_current in let! ok := take_number date in
   if negb ok then st_ret false else open_next date) s.
Proof.
  unfold rotate, close_current, take_number, open_next, get_writer, set_writer, st_bind, st_ret.
  destruct (file (writer s)); reflexivity.
Qed.

Lemma set_file_None w : file w = None → set_file None w = w.
Proof. by destruct w; cbn; intros ->. Qed.

Lemma wp_close_current (Q : () → world → Prop) s :
  (∀ t, (tick s ≤ t)%nat → Q tt (mkWorld (set_file None (writer s)) (names s) (files s) t)) → wp close_current Q s.
Proof.
  intros HQ. apply wp_bind, wp_get. destruct (file (writer s)) as [f|] eqn:Ef.
  - apply wp_bind, wp_file_Close. intros _. apply wp_set. apply (HQ (S (tick s))). lia.
  - apply wp_ret. specialize (HQ (tick s) ltac:(lia)). rewrite set_file_None in HQ by done. by destruct s.
Qed.

(** The number is above all numbers of the date. *)
Lemma wp_take_number n acc s k :
  Inv n acc (writer s) (names s) (files s) k → file (writer s) = None → (k < tick s)%nat →
  -1 ≤ B → B + Z.of_nat n < max_int64 →
  wp (take_number (fmt k)) (λ ok s',
    files s' = files s ∧ names s' = names s ∧ (k < tick s')%nat ∧ file (writer s') = None ∧
    Inv (S n) acc (writer s') (names s) (files s) (tick s') ∧
    (ok = true → 0 ≤ seq (writer s') ≤ max_int64 ∧
       ∀ m i q, names s !! m = Some (Some i) → parseFileName (writer s') m = Some (fmt k, q) → q < seq (writer s'))) s.
Proof.
  intros H Hf Hk HB1 HB. assert (set_file None (writer s) = writer s) as Ew by by apply set_file_None.
  assert (∀ next t, (k < t)%nat → 0 ≤ next ≤ B + Z.of_nat (S n) → (currentDate (writer s) = fmt k → seq (writer s) ≤ next) →
    Inv (S n) acc (set_seq next (writer s)) (names s) (files s) t) as Hnum.
  { intros next t Ht Hn Hc. apply (Inv_later _ _ _ _ _ (S k)); [lia|]. rewrite <- Ew. apply Inv_number; [by rewrite Ew|lia..|done]. }
  apply wp_bind, wp_get. destruct (bool_decide (currentDate (writer s) = fmt k)) eqn:Ed; cbn [negb]; b2p.
  - apply wp_bind, wp_set, wp_ret. destruct (inv_seq _ _ _ _ _ _ H) as [S1 S2].
    rewrite int64_small by (unfold min_int64; lia). cbn [writer names files tick file set_seq seq].
    split_and!; [done..|apply Hnum; lia|]. intros _. split; [lia|]. intros m i q Hm Hq.
    destruct (inv_fresh _ _ _ _ _ _ H) as [Hfr|[_ Hfr]]; [|by exfalso; apply (Hfr k); [lia|]].
    rewrite <- Ed in Hq. specialize (Hfr m i q Hm Hq). lia.
  - apply wp_bind. apply (wp_nextSeq fault _ _ _ (B + Z.of_nat n)); [lia|apply (inv_below _ _ _ _ _ _ H)| |].
    + apply wp_ret. cbn [tock writer names files tick]. split_and!; [done|done|lia|done| |done].
      apply (Inv_later _ _ _ _ _ k); [lia|]. by apply Inv_more.
    + intros next Hn Hfr. apply wp_bind, wp_set, wp_ret. cbn [writer names files tick file set_seq seq tock].
      split_and!; [done|done|lia|done|apply Hnum; [lia|lia|done]|]. intros _. split; [lia|]. exact Hfr.
Qed.

Lemma wp_open_next n acc s k :
  Inv n acc (writer s) (names s) (files s) (tick s) → file (writer s) = None → (k < tick s)%nat →
  0 ≤ seq (writer s) ≤ max_int64 →
  (∀ m i q, names s !! m = Some (Some i) → parseFileName (writer s) m = Some (fmt k, q) → q < seq (writer s)) →
  wp (open_next (fmt k)) (λ ok s',
    Inv n acc (writer s') (names s') (files s') (tick s') ∧
    (ok = true → ∃ f, file (writer s') = Some f ∧ content s' f = [])) s.
Proof.
  intros H Hf Hk Hs Hfr. apply wp_bind, wp_get, wp_bind. set (name := fileName _ _ _).
  pose proof (parse_fileName (writer s) (fmt k) _ _ (Parse_fmt k) Hs : parseFileName _ name = _) as Hp.
  assert (∀ t, (tick s ≤ t)%nat → Inv n acc (writer s) (names s) (files s) t) as Hlater
    by (intros t Ht; by apply (Inv_later _ _ _ _ _ (tick s))).
  apply wp_OpenFile.
  - apply wp_ret. split; [apply Hlater; cbn; lia|done].
  - intros i Hi. specialize (Hfr name i _ Hi Hp). lia.
  - intros Hnone. set (s1 := mkWorld _ _ _ _).
    assert (∀ t, (tick s ≤ t)%nat → Inv n acc (writer s1) (names s1) (files s1) t) as Hs1.
    { intros t Ht. apply (Inv_create _ _ _ _ _ _ _ k); auto. }
    apply wp_bind, wp_Stat.
    + apply wp_bind, wp_file_Close. intros _. apply wp_ret. split; [apply Hs1; cbn; lia|done].
    + assert (content s1 (length (files s)) = []) as Ec by (unfold content, s1; cbn [files]; by rewrite list_lookup_middle).
      rewrite Ec. apply wp_bind, wp_set, wp_bind, wp_now, wp_bind, wp_cleanup. intros N' T [HN _] HT. apply wp_ret.
      cbn [writer names files tick tock] in *. split.
      * apply (Inv_names _ _ _ (names s1)); [done|]. apply Inv_open; [apply Hs1; cbn in HT; lia|cbn in HT; lia| |].
        -- destruct (inv_old _ _ _ _ _ _ H) as (G & -> & _). rewrite length_app. lia.
        -- intros m i q Hm Hq. cbn [names s1] in Hm. apply lookup_insert_Some in Hm as [[<- _]|[_ Hm]];
             [|specialize (Hfr m i q Hm Hq); cbn; lia].
           change (parseFileName (writer s) name = Some (fmt k, q)) in Hq. rewrite Hp in Hq. injection Hq as <-. done.
      * intros _. exists (length (files s)). split; [done|exact Ec].
Qed.

Lemma wp_rotate n acc s :
  Inv n acc (writer s) (names s) (files s) (tick s) → -1 ≤ B → B + Z.of_nat n < max_int64 →
  wp (rotate fault clock midnight (fmt (tick s))) (λ ok s',
    Inv (S n) acc (writer s') (names s') (files s') (tick s') ∧
    (ok = true → ∃ f, file (writer s') = Some f ∧ content s' f = [])) (tock s).
Proof.
  intros H HB1 HB. unfold wp. rewrite rotate_parts. apply wp_bind, wp_close_current. intros t Ht. cbn [tock tick] in Ht.
  apply wp_bind. eapply wp_mono.
  { apply (wp_take_number n acc); cbn [writer names files tick tock]; [by apply Inv_close|done|lia|done|done]. }
  intros ok s' (E1 & E2 & Hk & Hf & Hi & Hok). cbn [names files tock writer] in *. rewrite <- E1, <- E2 in Hi.
  destruct ok; cbn [negb]; [|by apply wp_ret]. destruct (Hok eq_refl) as [Hs Hfr]. rewrite <- E2 in Hfr.
  by apply wp_open_next.
Qed.

Lemma wp_ensureFile n acc s p :
  Inv n acc (writer s) (names s) (files s) (tick s) → p ∈ msgs → -1 ≤ B → B + Z.of_nat n < max_int64 →
  wp (ensureFile fault clock midnight (fmt (tick s)) (Z.of_nat (length p))) (λ ok s',
    Inv (S n) acc (writer s') (names s') (files s') (tick s') ∧
    (ok = true → ∃ f, file (writer s') = Some f ∧
       (size (writer s') + Z.of_nat (length p) ≤ mx ∨ content s' f = []))) (tock s).
Proof.
  intros H Hp HB1 HB. apply wp_bind, wp_get. change (writer (tock s)) with (writer s).
  destruct (bool_decide _ && bool_decide _ && _) eqn:E.
  - b2p. apply wp_ret. cbn [tock writer names files tick]. split.
    { apply (Inv_later _ _ _ _ _ (tick s)); [lia|]. by apply Inv_more. }
    intros _. match goal with H : is_Some _ |- _ => destruct H as [f Hf] end. exists f. split; [done|left].
    destruct (inv_file _ _ _ _ _ _ H f Hf) as (Hl & Ho & Hsz).
    assert (0 ≤ size (writer s) < 2 ^ 62) as Hb.
    { rewrite Hsz. split; [lia|]. destruct (inv_old _ _ _ _ _ _ H) as (G & EF & _ & HG). rewrite EF in *.
      rewrite lookup_app_r by done. destruct (G !! (f - length F0)%nat) as [c|] eqn:Ec; [|cbn; lia].
      rewrite Forall_lookup in HG. destruct (HG _ _ Ec) as [Hc|(p' & Hp' & Hc%prefix_length)]; cbn [default id]; [lia|].
      rewrite Forall_forall in Hmsgs. specialize (Hmsgs p' Hp'). cbn in Hmsgs. lia. }
    rewrite Forall_forall in Hmsgs. specialize (Hmsgs p Hp). cbn in Hmsgs.
    rewrite int64_small in * by (unfold min_int64, max_int64; lia). by rewrite <- (inv_max _ _ _ _ _ _ H).
  - eapply wp_mono; [by apply wp_rotate|]. intros ok s' [H1 H2]. split; [done|]. intros Hok.
    destruct (H2 Hok) as (f & Hf & Hc). eauto.
Qed.

(** What a write did with its message. *)
Definition result_ok (p : gostring) (r : nat * bool) : Prop := (r.1 ≤ length p)%nat ∧ (r.2 = true → r.1 = length p).

Lemma wp_Write n acc s p :
  Inv n acc (writer s) (names s) (files s) (tick s) → p ∈ msgs → -1 ≤ B → B + Z.of_nat n < max_int64 →
  wp (Write fault clock civil midnight p) (λ r s',
    Inv (S n) (acc ++ take r.1 p) (writer s') (names s') (files s') (tick s') ∧ result_ok p r) s.
Proof.
  intros H Hp HB1 HB. unfold Write, result_ok. case_bool.
  { subst p. apply wp_ret. cbn [fst snd]. rewrite app_nil_r. split; [by apply Inv_more|done]. }
  apply wp_bind, wp_now. rewrite fmt_eq. apply wp_bind. eapply wp_mono; [by eapply wp_ensureFile|].
  intros ok s' [Hi Hok]. destruct ok; cbn [negb].
  2: { apply wp_ret. cbn [fst snd]. rewrite take_0, app_nil_r. split; [done|]. split; [lia|done]. }
  destruct (Hok eq_refl) as (f & Hf & Hroom). apply wp_bind, wp_get. rewrite Hf.
  apply wp_bind, wp_file_Write. intros k ok Hk Hall. apply wp_bind, wp_set, wp_ret.
  cbn [fst snd writer names files tick]. split; [|done].
  apply (Inv_later _ _ _ _ _ (tick s')); [lia|]. by apply Inv_append.
Qed.

Lemma wp_Close n acc s :
  Inv n acc (writer s) (names s) (files s) (tick s) →
  wp (Close fault) (λ _ s', Inv n acc (writer s') (names s') (files s') (tick s')) s.
Proof.
  intros H. apply wp_bind, wp_get. destruct (file (writer s)) as [f|]; [|by apply wp_ret].
  apply wp_bind, wp_file_Close. intros ok. apply wp_bind, wp_set, wp_ret. cbn [writer names files tick tock].
  apply (Inv_later _ _ _ _ _ (tick s)); [lia|]. by apply Inv_close.
Qed.
End Log.

(** A new writer, which has no date yet: every date is another. *)
Lemma Inv_start clock civil mx F0 B msgs w N t :
  numbers_below w N B → -1 ≤ B → maxSize w = mx → file w = None → currentDate w = [] → seq w = -1 →
  Inv clock civil mx F0 B msgs 0 [] w N F0 t.
Proof.
  intros H1 H2 H3 H4 H5 H6. split; [done|by rewrite Z.add_0_r|lia|by left| | |].
  - right. split; [done|]. intros k _. rewrite H5. apply fmt_nil.
  - intros f Hf. congruence.
  - exists []. rewrite app_nil_r. split_and!; [done..|constructor].
Qed.

(** *** Runs *)

(** The writer in use: messages and closings, in any order. *)
Inductive use : Type := Msg (p : gostring) | Shut.
Definition text (u : use) : gostring := match u with Msg p => p | Shut => [] end.

Section Runs.
Context (fault : nat → option nat) (clock : nat → Z) (civil : Z → date) (midnight : date → Z).

Definition use_one (u : use) : op (nat * bool) :=
  match u with
  | Msg p => Write fault clock civil midnight p
  | Shut => let! ok := Close fault in st_ret (0%nat, ok)
  end.
Fixpoint use_all (us : list use) : op (list (nat * bool)) :=
  match us with
  | [] => st_ret []
  | u :: us => let! r := use_one u in let! rs := use_all us in st_ret (r :: rs)
  end.
End Runs.

(** The bytes the writer says it has written, in order. *)
Definition accepted (us : list use) (rs : list (nat * bool)) : gostring :=
  concat (zip_with (λ u r, take (fst r) (text u)) us rs).

Lemma wp_use_all fault clock civil midnight mx F0 B us :
  (∀ t, valid_date (civil t) = true) →
  (∀ i j k, (i ≤ j ≤ k)%nat → fmt clock civil i = fmt clock civil k → fmt clock civil j = fmt clock civil k) →
  0 ≤ mx < 2 ^ 62 → -1 ≤ B →
  ∀ msgs, Forall (λ p, Z.of_nat (length p) < 2 ^ 62) msgs → (∀ u, u ∈ us → text u ∈ [] :: msgs) →
  ∀ n acc s, Inv clock civil mx F0 B msgs n acc (writer s) (names s) (files s) (tick s) →
  B + Z.of_nat (n + length us) ≤ max_int64 →
  wp (use_all fault clock civil midnight us) (λ rs s',
    (∃ G, files s' = F0 ++ G ∧ concat G = acc ++ accepted us rs ∧ Forall (bounded mx msgs) G) ∧
    Forall2 (λ u, result_ok (text u)) us rs) s.
Proof.
  intros Hcivil Hclock Hmx HB msgs Hmsgs. induction us as [|u us IH]; intros Hus n acc s H Hn; cbn [use_all].
  { apply wp_ret. unfold accepted. cbn. rewrite app_nil_r. split; [apply (inv_old _ _ _ _ _ _ _ _ _ _ _ _ H)|constructor]. }
  apply wp_bind. cbn [length] in Hn.
  assert (wp (use_one fault clock civil midnight u) (λ r s',
    Inv clock civil mx F0 B msgs (S n) (acc ++ take r.1 (text u)) (writer s') (names s') (files s') (tick s') ∧
    result_ok (text u) r) s) as H1.
  { destruct u as [p|]; cbn [use_one text].
    - destruct (decide (p = [])) as [->|Hp].
      + unfold Write. rewrite bool_decide_true by done. apply wp_ret. cbn [fst snd]. rewrite app_nil_r.
        split; [by apply Inv_more|done].
      + eapply wp_Write; eauto; [|lia]. specialize (Hus (Msg p) ltac:(left)). cbn [text] in Hus.
        by apply elem_of_cons in Hus as [->|Hus].
    - apply wp_bind. eapply wp_mono; [by apply wp_Close|]. intros ok s' H'. apply wp_ret. cbn [fst].
      rewrite take_nil, app_nil_r. split; [by apply Inv_more|done]. }
  eapply wp_mono; [exact H1|]. intros r s' [Hi Hr]. apply wp_bind. eapply wp_mono.
  { apply (IH ltac:(intros u' Hu'; apply Hus; by right) (S n) _ s' Hi). lia. }
  intros rs s'' [(G & E1 & E2 & E3) Hrs]. apply wp_ret. split; [|by constructor].
  exists G. split_and!; [done| |done]. rewrite E2, <- app_assoc. done.
Qed.

(** ** Theorems *)

(** C4: the log is the messages.  A new writer, in any directory, whatever system
    calls fail, used for any messages and closings: the files that were there
    are unchanged; the files made since, read one after the other, hold exactly
    the bytes the writer reported as written, in order and nothing else; and
    each of them is within [maxSize] or holds a part of a single message.  The
    clock may do anything but return to a date it has left, and numbers and
    sizes stay below the machine limits. *)
Theorem log_is_messages fault clock civil midnight pfx msize age B us s0 w s1 rs s' :
  newRotatingFileWriter fault pfx msize age s0 = (Some w, s1) →
  (∀ t, valid_date (civil t) = true) →
  (∀ i j k, (i ≤ j ≤ k)%nat → fmt clock civil i = fmt clock civil k → fmt clock civil j = fmt clock civil k) →
  msize < 2 ^ 62 → Forall (λ u, Z.of_nat (length (text u)) < 2 ^ 62) us →
  -1 ≤ B → numbers_below w (names s0) B → B + Z.of_nat (length us) ≤ max_int64 →
  use_all fault clock civil midnight us (mkWorld w (names s1) (files s1) (tick s1)) = (rs, s') →
  Forall2 (λ u, result_ok (text u)) us rs ∧
  ∃ G, files s' = files s0 ++ G ∧ concat G = accepted us rs ∧
       Forall (λ c, Z.of_nat (length c) ≤ maxSize w ∨ ∃ p, Msg p ∈ us ∧ c `prefix_of` p) G.
Proof.
  intros Hnew Hcivil Hclock Hsize Hus HB Hbelow Hn Hrun.
  unfold newRotatingFileWriter, new_writer, MkdirAll, call, st_bind, st_ret in Hnew. destruct (fault (tick s0)); [done|].
  cbn in Hnew. injection Hnew as <- <-. set (w := mkWriter _ _ _ _ _ _ _) in *. cbn [names files tick] in *.
  set (msgs := text <$> us).
  assert (∀ c, bounded (maxSize w) msgs c →
    Z.of_nat (length c) ≤ maxSize w ∨ ∃ p, Msg p ∈ us ∧ c `prefix_of` p) as Hbd.
  { intros c [Hc|(p & Hp & Hc)]; [by left|]. apply list_elem_of_fmap in Hp as ([q|] & -> & Hu); [right; eauto|].
    apply prefix_nil_inv in Hc as ->. left. cbn. unfold defaultMaxFileSize. case_bool; lia. }
  assert (wp (use_all fault clock civil midnight us) (λ rs s',
    (∃ G, files s' = files s0 ++ G ∧ concat G = accepted us rs ∧ Forall (bounded (maxSize w) msgs) G) ∧
    Forall2 (λ u, result_ok (text u)) us rs) (mkWorld w (names s0) (files s0) (S (tick s0)))) as H.
  { eapply (wp_use_all fault clock civil midnight (maxSize w) (files s0) B us Hcivil Hclock) with (n := 0%nat) (acc := []) (msgs := msgs);
      [cbn; unfold defaultMaxFileSize; case_bool; lia|done| | |by apply Inv_start|lia].
    - by apply Forall_fmap.
    - intros u Hu. right. by apply list_elem_of_fmap_2. }
  unfold wp in H. rewrite Hrun in H. destruct H as [(G & E1 & E2 & E3) Hrs]. split; [done|]. exists G.
  split_and!; [done..|]. eapply Forall_impl; [exact E3|exact Hbd].
Qed.

(** Without failures everything too old goes. *)
Lemma remove_old_all fault midnight w t es s : (∀ k, fault k = None) →
  wp (remove_old fault midnight w t es) (λ _ s',
    ∀ n, names s' !! n = if existsb (λ e, bool_decide (e.1 = n) && too_old midnight w t e) es then None
                         else names s !! n) s.
Proof.
  intros Hf. revert s. induction es as [|[m d] es IH]; intros s; cbn [remove_old]; [by apply wp_ret|].
  apply wp_bind. cbn [existsb fst]. destruct (too_old midnight w t (m, d)) eqn:Et.
  - unfold wp at 1. unfold Remove, call, st_bind. rewrite Hf. cbn [fst snd].
    eapply wp_mono; [apply IH|]. intros ? s' H n. rewrite H, andb_true_r. cbn [names].
    destruct (bool_decide (m = n)) eqn:E; b2p; cbn [orb].
    + subst m. rewrite lookup_delete_eq. by destruct (existsb _ _).
    + by rewrite lookup_delete_ne.
  - apply wp_ret. eapply wp_mono; [apply IH|]. intros ? s' H n. rewrite H, andb_false_r. done.
Qed.

(** C21: retention.  Cleaning up at time [t] removes no directory, no file of
    another name and no log of the last [maxAge], whatever calls fail; no
    content is lost and the open file stays open; and when no call fails, a log
    of a date more than [maxAge] ago is gone afterwards. *)
Theorem cleanup_exact fault midnight t s r s' :
  cleanupOldLocked fault midnight t s = (r, s') →
  writer s' = writer s ∧ files s' = files s ∧
  (∀ n v, names s !! n = Some v → names s' !! n = Some v ∨
     names s' !! n = None ∧ ∃ d q i, v = Some i ∧ parseFileName (writer s) n = Some (d, q) ∧
       ∃ day, Parse d = Some day ∧ maxAge (writer s) < Sub t (midnight day)) ∧
  ((∀ k, fault k = None) → ∀ day q i, valid_date day = true → 0 ≤ q ≤ max_int64 →
     names s !! fileName (writer s) (Format day) q = Some (Some i) →
     maxAge (writer s) < Sub t (midnight day) → names s' !! fileName (writer s) (Format day) q = None).
Proof.
  intros Hrun. assert (∀ Q : () → world → Prop, wp (cleanupOldLocked fault midnight t) Q s → Q r s') as Hwp.
  { intros Q H. unfold wp in H. by rewrite Hrun in H. }
  destruct (Hwp (λ _ s', writer s' = writer s ∧ files s' = files s ∧ cleaned midnight (writer s) t (names s) (names s')))
    as (E1 & E2 & HN1 & HN2); [by apply wp_cleanup; eauto|].
  split_and!; [done..| |].
  - intros n v Hv. destruct (names s' !! n) as [v'|] eqn:E.
    + left. apply (lookup_weaken _ (names s)) in E; [|done]. congruence.
    + right. split; [done|]. specialize (HN2 n v Hv E). unfold too_old in HN2. cbn [fst snd] in HN2.
      destruct v as [i|]; [|done]. rewrite bool_decide_true in HN2 by eauto. cbn [negb] in HN2.
      destruct (parseFileName _ n) as [[d q]|] eqn:Ep; [|done]. destruct (Parse d) as [day|] eqn:Ed; [|done].
      apply Z.ltb_lt in HN2. exists d, q, i. eauto.
  - intros Hf day q i Hd Hq Hi Hold. set (n := fileName _ _ _) in *.
    pose proof (Parse_Format day Hd) as HP. pose proof (parse_fileName (writer s) _ _ _ HP Hq : parseFileName _ n = _) as Hn.
    apply (Hwp (λ _ s', names s' !! n = None)). apply wp_bind. unfold wp at 1, ReadDir, call, st_bind. rewrite Hf. cbn [fst snd].
    apply wp_bind, wp_get. eapply wp_mono; [by apply remove_old_all|]. intros ? s'' H. rewrite H.
    match goal with |- (if ?b then _ else _) = _ => assert (b = true) as -> end; [|done].
    apply existsb_exists. exists (n, false). split; [by apply list_elem_of_In, (elem_of_entries _ _ i)|].
    rewrite bool_decide_true by done. unfold too_old. cbn [fst snd writer]. rewrite Hn, HP. by apply Z.ltb_lt.
Qed.

(** C36: names of log files: the name of a date and a number is read back as that
    date and number, so no two dates or numbers share a name. *)
Theorem fileName_roundtrip w day n :
  valid_date day = true → 0 ≤ n ≤ max_int64 →
  parseFileName w (fileName w (Format day) n) = Some (Format day, n) ∧ Parse (Format day) = Some day ∧
  (∀ day' n', valid_date day' = true → 0 ≤ n' ≤ max_int64 →
     fileName w (Format day') n' = fileName w (Format day) n → day' = day ∧ n' = n).
Proof.
  intros Hd Hn. pose proof (Parse_Format day Hd) as HP. pose proof (parse_fileName w _ _ _ HP Hn) as HF.
  split_and!; [done..|]. intros day' n' Hd' Hn' E. pose proof (Parse_Format day' Hd') as HP'.
  pose proof (parse_fileName w _ _ _ HP' Hn') as HF'. rewrite E, HF in HF'. injection HF' as E1 ->.
  rewrite <- E1, HP in HP'. by injection HP' as ->.
Qed.

(** ** Evaluation *)

Module LoggerExample.
(** A directory with a log of an earlier day, one of the same day and a
    subdirectory; a closing and a write fail, the write after two bytes. *)
Definition day : date := mkDate 2024 5 1.
Definition w0 : rotatingFileWriter := mkWriter "nanotun" 8 defaultMaxAge None [] (-1) 0.
Definition N0 : gmap gostring (option nat) :=
  <[str "nanotun-2024-04-01.log" := Some 0%nat]> (<[str "nanotun-2024-05-01.log" := Some 1%nat]>
  (<[str "sub" := None]> ∅)).
Definition F0 : list gostring := [str "old"; str "same day"].
Definition s0 : world := mkWorld w0 N0 F0 0.
Definition fault (k : nat) : option nat := if bool_decide (k = 12%nat) || bool_decide (k = 17%nat) then Some 2%nat else None.
Definition clock (k : nat) : Z := 40 * 24 * 60 * minute.
Definition civil (t : Z) : date := day.
Definition midnight (d : date) : Z := if bool_decide (d_month d = 5) then 40 * 24 * 60 * minute else 0.
Definition us : list use := [Msg "hello"; Msg "you"; Msg "there"; Shut; Msg "a long message"].
Definition start := newRotatingFileWriter fault "nanotun" 8 0 s0.
Definition end_ := use_all fault clock civil midnight us (mkWorld w0 (names start.2) (files start.2) (tick start.2)).

Lemma numbers : numbers_below w0 N0 0.
Proof.
  intros n i d q Hn Hq. unfold N0 in Hn.
  apply lookup_insert_Some in Hn as [[<- _]|[_ Hn]]; [vm_compute in Hq; by injection Hq as <- <-|].
  apply lookup_insert_Some in Hn as [[<- _]|[_ Hn]]; [vm_compute in Hq; by injection Hq as <- <-|].
  apply lookup_insert_Some in Hn as [[<- Hn]|[_ Hn]]; [done|by apply lookup_empty_Some in Hn].
Qed.

Lemma log_is_messages_witness : ∃ G, files end_.2 = F0 ++ G ∧ concat G = accepted us end_.1 ∧
  Forall (λ c, Z.of_nat (length c) ≤ maxSize w0 ∨ ∃ p, Msg p ∈ us ∧ c `prefix_of` p) G.
Proof.
  refine (proj2 (log_is_messages fault clock civil midnight "nanotun" 8 0 0 us s0 w0 start.2 end_.1 end_.2
    _ _ _ _ _ _ numbers _ _)).
  - vm_compute. reflexivity.
  - intros t. vm_compute. reflexivity.
  - intros i j k _ _. reflexivity.
  - lia.
  - repeat constructor; vm_compute; reflexivity.
  - lia.
  - vm_compute. intros H. discriminate H.
  - vm_compute. reflexivity.
Defined.

Lemma log_shown : drop 2 (files end_.2) = [str "helloyou"; str "th"; str "a long message"] ∧
  names end_.2 !! str "nanotun-2024-04-01.log" = None.
Proof. by vm_compute. Qed.

Lemma cleanup_exact_witness :
  names (cleanupOldLocked (λ _, None) midnight (clock 0) s0).2 !! fileName w0 (Format (mkDate 2024 4 1)) 0 = None.
Proof.
  refine (proj2 (proj2 (proj2 (cleanup_exact (λ _, None) midnight (clock 0) s0 tt _ _))) _ (mkDate 2024 4 1) 0 0%nat _ _ _ _).
  - vm_compute. reflexivity.
  - reflexivity.
  - reflexivity.
  - unfold max_int64. lia.
  - reflexivity.
  - vm_compute. reflexivity.
Defined.

Lemma fileName_roundtrip_witness :
  parseFileName w0 "nanotun-2024-05-01.7.log" = Some (Format day, 7).
Proof. refine (proj1 (fileName_roundtrip w0 day 7 _ _)); [reflexivity|unfold max_int64; lia]. Defined.
End LoggerExample.
