(* ===== verification/LogSetup.v ===== *)
(** * The program's logger (internal/logger/logger.go)

    [SetupWithDir] opens a rotating writer, replaces the global logger and
    closes the writer it replaces; the logger sends records of its level and
    above to standard error and to the writer. *)

From S2P Require Import Prelude GoStrings Config Effects Logger.

(** ** Definitions *)

(** Making the directory and writing can fail; [CloseWriter n] is
    [rotatingFileWriter.Close] on the [n]th writer made. *)
Inductive logreq : Type :=
| MkDir (dir : gostring)
| CloseWriter (n : nat)
| WriteStderr (msg : gostring)
| WriteFile (n : nat) (msg : gostring).
Definition logreq_ans (e : logreq) : Type := bool.
Definition logio := io logreq_ans.
Definition ask (e : logreq) : logio bool := request e.

Inductive sink : Type := Stderr | File (n : nat).

(** A [slog.Logger] with its text handler: the lowest level it lets through and
    the writers of its [io.MultiWriter]. *)
Record slogger : Type := mkSlog { sl_level : Z; sl_out : list sink }.

(** The globals of the package, and the writers made so far with their
    directories. *)
Record logging : Type := mkLogging {
  writers : list (gostring * rotatingFileWriter);
  fileCloser : option nat;
  global : slogger
}.
Definition logging_start : logging := mkLogging [] None (mkSlog LevelInfo [Stderr]).

Definition defaultLogDir : gostring := "logs".
Definition defaultLogPrefix : gostring := "nanotun".

Definition SetupWithDir (level logDir : gostring) (s : logging) : logio logging :=
  let lvl := parseLevel level in
  let logDir := if bool_decide (TrimSpace logDir = []) then defaultLogDir else logDir in
  do ok <- ask (MkDir logDir);
  if negb ok then Ret (mkLogging (writers s) (fileCloser s) (mkSlog lvl [Stderr]))
  else
    let n := length (writers s) in
    do_ match fileCloser s with
        | Some old => do_ ask (CloseWriter old); Ret tt
        | None => Ret tt
        end;
    Ret (mkLogging (writers s ++ [(logDir, new_writer defaultLogPrefix defaultMaxFileSize defaultMaxAge)]) (Some n)
           (mkSlog lvl [Stderr; File n])).

Definition Setup (level : gostring) : logging → logio logging := SetupWithDir level [].

Definition L (s : logging) : slogger := global s.

(** [io.MultiWriter]: the writers in order, up to the first that fails. *)
Fixpoint multi_write (out : list sink) (msg : gostring) : logio () :=
  match out with
  | [] => Ret tt
  | w :: rest =>
      do ok <- ask (match w with Stderr => WriteStderr msg | File n => WriteFile n msg end);
      if ok then multi_write rest msg else Ret tt
  end.

(** [Logger.Log]: a record below the level is dropped; errors are ignored. *)
Definition log_record (l : slogger) (level : Z) (msg : gostring) : logio () :=
  if level <? sl_level l then Ret tt else multi_write (sl_out l) msg.

Fixpoint setups (calls : list (gostring * gostring)) (s : logging) : logio logging :=
  match calls with
  | [] => Ret s
  | (level, dir) :: rest => do s <- SetupWithDir level dir s; setups rest s
  end.

(** ** Lemmas *)

Definition ev_closed (x : event logreq_ans) : list nat := match x with existT (CloseWriter n) _ => [n] | _ => [] end.
Definition closed (tr : list (event logreq_ans)) : list nat := tr ≫= ev_closed.

(** Each writer but the last has been closed, once and in order. *)
Definition one_open (done : list nat) (s : logging) : Prop :=
  let n := length (writers s) in
  done = List.seq 0 (pred n) ∧ fileCloser s = (if decide (n = 0%nat) then None else Some (pred n)).

(** The directories asked for, and whether they could be made. *)
Definition ev_mkdir (x : event logreq_ans) : list (gostring * bool) :=
  match x with existT (MkDir dir) ok => [(dir, ok)] | _ => [] end.
Definition mkdirs (tr : list (event logreq_ans)) : list (gostring * bool) := tr ≫= ev_mkdir.

(** What the logger of a call with [level] and [dir] is: with the writer that is
    open if the directory could be made, and without a file if not. *)
Definition set_up (level dir : gostring) (made : bool) (s : logging) : Prop :=
  sl_level (global s) = parseLevel level ∧
  if made then
    ∃ n w, sl_out (global s) = [Stderr; File n] ∧ fileCloser s = Some n ∧ writers s !! n = Some (dir, w) ∧
      maxSize w = 2 ^ 20 ∧ maxAge w = 72 * 3600 * second
  else sl_out (global s) = [Stderr].

Definition log_dir (dir : gostring) : gostring := if bool_decide (TrimSpace dir = []) then "logs" else dir.

Lemma ask_inv e tr r : runs (ask e) tr r → tr = [ev e r].
Proof. apply (runs_request_inv (R := logreq_ans)). Qed.

Lemma seq_pred n : n ≠ 0%nat → List.seq 0 n = List.seq 0 (pred n) ++ [pred n].
Proof. intros Hn. destruct n; [done|]. cbn [pred]. by rewrite List.seq_S. Qed.

Lemma closed_mkdir dir ok tr : closed ([ev (MkDir dir) ok] ++ tr) = closed tr.
Proof. done. Qed.

Lemma setup_one_open level dir done s tr s' : one_open done s → runs (SetupWithDir level dir s) tr s' →
  one_open (done ++ closed tr) s' ∧ ∃ made, mkdirs tr = [(log_dir dir, made)] ∧ set_up level (log_dir dir) made s'.
Proof.
  intros [Hd Hc] (t1 & t2 & ok & -> & H1%ask_inv & H)%runs_bind_inv. subst t1.
  destruct ok; cbn [negb] in H.
  - apply runs_bind_inv in H as (t3 & t4 & [] & -> & H3 & [-> ->]). rewrite app_nil_r.
    assert (mkdirs t3 = []) as Hm.
    { destruct (fileCloser s); [|by destruct H3 as [-> _]].
      by apply runs_bind_inv in H3 as (t5 & t6 & o & -> & ->%ask_inv & [-> _]). }
    split.
    + unfold one_open. cbn [writers fileCloser]. rewrite length_app, closed_mkdir. cbn [length].
      rewrite Nat.add_1_r. cbn [pred]. split; [|by rewrite decide_False].
      rewrite Hc in H3. destruct (decide _) as [E0|E0].
      * destruct H3 as [-> _]. rewrite Hd, E0. done.
      * apply runs_bind_inv in H3 as (t5 & t6 & o & -> & H5%ask_inv & [-> _]). subst t5. rewrite Hd, (seq_pred _ E0). done.
    + exists true. unfold mkdirs in *. rewrite bind_app, Hm. split; [done|]. split; [done|]. eexists (length (writers s)), _.
      cbn [global sl_out fileCloser writers]. split_and!; [done|done|by rewrite lookup_app_r, Nat.sub_diag by lia|done..].
  - destruct H as [-> ->]. split; [|by exists false].
    unfold one_open. cbn [writers fileCloser]. rewrite app_nil_r. done.
Qed.

Lemma setups_runs calls done s tr s' : one_open done s → runs (setups calls s) tr s' →
  one_open (done ++ closed tr) s' ∧ ∀ level dir, last calls = Some (level, dir) →
    ∃ made, last (mkdirs tr) = Some (log_dir dir, made) ∧ set_up level (log_dir dir) made s'.
Proof.
  revert done s tr. induction calls as [|[l d] calls IH]; intros done s tr Hs H; cbn [setups] in H.
  - destruct H as [-> ->]. by rewrite app_nil_r.
  - apply runs_bind_inv in H as (t1 & t2 & s1 & -> & H1 & H2).
    destruct (setup_one_open _ _ _ _ _ _ Hs H1) as [Hs1 (made & Hm & Hu)]. destruct (IH _ _ _ Hs1 H2) as [Hs2 Hl].
    unfold closed, mkdirs in *. rewrite !bind_app, app_assoc. split; [done|]. intros level dir Hlast.
    destruct calls as [|c calls].
    + destruct H2 as [-> ->]. injection Hlast as -> ->. exists made. by rewrite Hm.
    + destruct (Hl level dir Hlast) as (made' & Hm' & Hu'). exists made'. split; [|done]. by rewrite last_app, Hm'.
Qed.

(** A record with a logger: nothing, or standard error, then the file. *)
Definition out_trace (out : list sink) (msg : gostring) (tr : list (event logreq_ans)) : Prop :=
  match out with
  | [Stderr; File n] =>
      tr = [ev (WriteStderr msg) false] ∨ ∃ ok, tr = [ev (WriteStderr msg) true; ev (WriteFile n msg) ok]
  | _ => ∃ ok, tr = [ev (WriteStderr msg) ok]
  end.

Lemma write_trace n out msg tr : out = [Stderr] ∨ out = [Stderr; File n] → runs (multi_write out msg) tr tt → out_trace out msg tr.
Proof.
  intros [-> | ->] (t1 & t2 & ok & -> & ->%ask_inv & H)%runs_bind_inv.
  - exists ok. by destruct ok; destruct H as [-> _].
  - destruct ok; [right|left; by destruct H as [-> _]].
    apply runs_bind_inv in H as (t3 & t4 & ok & -> & ->%ask_inv & H). exists ok. by destruct ok; destruct H as [-> _].
Qed.

(** ** Theorem *)

(** C39: however often logging is set up and whatever fails, no log file is left
    open behind the program's back: every writer made is closed once, in order,
    except the last.  The logger in use has the level of the last call.  If the
    directory of that call (or [logs]) could be made, a record of that level or
    above goes to standard error and then, if that took it, to the writer that is
    open, in that directory; if it could not be made, such a record goes to
    standard error alone, and a writer still open from an earlier call is not
    used.  A record below the level goes nowhere. *)
Theorem setups_one_file calls level dir tr s lvl msg tr' :
  runs (setups calls logging_start) tr s → last calls = Some (level, dir) → runs (log_record (L s) lvl msg) tr' tt →
  closed tr = List.seq 0 (pred (length (writers s))) ∧
  (∃ made, last (mkdirs tr) = Some (log_dir dir, made) ∧ set_up level (log_dir dir) made s) ∧
  (∀ n, fileCloser s = Some n → n ∉ closed tr) ∧
  (if lvl <? parseLevel level then tr' = [] else out_trace (sl_out (L s)) msg tr').
Proof.
  intros H Hl Hr. destruct (setups_runs calls [] logging_start tr s ltac:(done) H) as [[Hc Hf] Hu].
  change (closed tr = List.seq 0 (pred (length (writers s)))) in Hc.
  destruct (Hu _ _ Hl) as (made & Hm & Elev & Hout). split_and!; [exact Hc|by exists made| |].
  - intros n Ef. rewrite Hf in Ef. destruct (decide _); [done|]. injection Ef as <-. rewrite Hc, elem_of_seq. lia.
  - unfold log_record, L in *. rewrite Elev in Hr. destruct (lvl <? parseLevel level); [by destruct Hr as [-> _]|].
    destruct made; [destruct Hout as (n & w & E & _)|pose proof Hout as E]; rewrite E in *;
      [by apply (write_trace n) in Hr; [|right]|by apply (write_trace 0) in Hr; [|left]].
Qed.

(** ** Evaluation *)

Module LogSetupExample.
(** Two set-ups, the second with a directory that cannot be made, then a third. *)
Definition env (past : list (event logreq_ans)) (e : logreq) : logreq_ans e :=
  match e with MkDir d => negb (bool_decide (d = "/bad")) | _ => true end.
Definition calls : list (gostring * gostring) :=
  [(str "info", []); (str " DEBUG", str "/bad"); (str "warn", str "/var/log")].
Definition run_of := exec env [] (setups calls logging_start).
Definition rec_of := exec env [] (log_record (L run_of.2) LevelWarn "x").

Lemma setup_events : closed run_of.1 = [0%nat] ∧ sl_out (global run_of.2) = [Stderr; File 1] ∧
  rec_of.1 = [ev (WriteStderr "x") true; ev (WriteFile 1 "x") true].
Proof. by vm_compute. Qed.

Lemma setups_one_file_witness : ∃ made, last (mkdirs run_of.1) = Some (str "/var/log", made) ∧ set_up "warn" "/var/log" made run_of.2.
Proof.
  exact (proj1 (proj2 (setups_one_file calls "warn" "/var/log" run_of.1 run_of.2 LevelWarn "x" rec_of.1
    (exec_run env (setups calls logging_start)) eq_refl (exec_run_unit env (log_record (L run_of.2) LevelWarn "x"))))).
Defined.

(** With the bad directory last, the writer of the first call stays open, unused. *)
Lemma open_unused : let s := (exec env [] (setups (take 2 calls) logging_start)).2 in
  fileCloser s = Some 0%nat ∧ sl_out (L s) = [Stderr].
Proof. by vm_compute. Qed.
End LogSetupExample.
