(* ===== verification/Dataplane.v ===== *)
(** * The data plane

    What happens to a flow from the packet stack on: the gateway handler, the
    tunnel, the proxy chain and the process matcher, wired as [app.Run] wires
    them.  The tunnel (tun2socks) is not part of this repository: it describes
    a connection by its metadata and dials it through the chain.  The composed
    program is shown to implement a policy stated flow by flow. *)

From S2P Require Import Prelude GoStrings Netip Netaddr Procname Config Metadata ProxyChain Exclude Effects Dns Gateway.

Section Dataplane.
Context {MD : MetadataOps} {ML : MetadataLaws MD}.

(** ** Composition *)

(** What becomes of a flow. *)
Inductive verdict : Type :=
| Relayed (dns : AddrPort)
| Closed
| Direct
| Proxied.

(** A connection as the stack hands it over, and the metadata of the tunnel. *)
Record flow : Type := mkFlow { fl_udp : bool; fl_id : EndpointID; fl_md : Metadata }.

(** The matcher of the process, what has been done, and what the system showed in
    the scans made, the last first. *)
Record plane : Type := mkPlane { pl_matcher : option Matcher; pl_out : list verdict; pl_scans : list Probe }.

Definition say (v : verdict) : st plane () := λ w, (tt, mkPlane (pl_matcher w) (pl_out w ++ [v]) (pl_scans w)).

Definition dialer (v : verdict) : Proxy plane () () () () :=
  mkProxy (λ _ _, let! _ := say v in st_ret (Ok tt)) (λ _, let! _ := say v in st_ret (Ok tt)).

Definition match_flow (e : MissEnv) (md : Metadata) : st plane bool :=
  λ w, let r := ShouldSkip_scans (pl_matcher w) e md in
       (r.1.1, mkPlane r.1.2 (pl_out w) ((me_probe <$> r.2) ++ pl_scans w)).

Definition discard : Logger plane := mkLogger (λ _ _, st_ret tt).

(** The chain of [Run]: the matcher is passed as an interface that holds a
    pointer, so it is never the nil interface, also when the pointer is nil. *)
Definition chain (r : Runtime) (e : MissEnv) : Chain plane () () () () :=
  ProxyChain.New discard (dialer Direct) (dialer Proxied)
    (ProxyChain.mkOptions (Some (match_flow e)) (r_ExcludedIPs r) (Some discard)).

Definition deliver (r : Runtime) (e : MissEnv) (f : flow) (g : gw) : st plane () :=
  match g with
  | GoRelayTCP d | GoRelayUDP d => say (Relayed (upstream d))
  | CloseConn => say Closed
  | DebugDrop _ _ _ => st_ret tt
  | UpstreamTCP => let! _ := DialContext (chain r e) tt (fl_md f) in st_ret tt
  | UpstreamUDP => let! _ := DialUDP (chain r e) (fl_md f) in st_ret tt
  end.

Fixpoint interp (r : Runtime) (e : MissEnv) (f : flow) (h : handling) : st plane () :=
  match h with
  | Ret _ => st_ret tt
  | Vis g k => let! _ := deliver r e f g in interp r e f (k tt)
  end.

Definition handle (r : Runtime) (e : MissEnv) (f : flow) : st plane () :=
  let h := Gateway.New (r_DNS r) in
  interp r e f (if fl_udp f then Gateway.HandleUDP h (fl_id f) else Gateway.HandleTCP h (fl_id f)).

(** The plane as [Run] starts it. *)
Definition start (r : Runtime) : plane :=
  mkPlane (Exclude.New (r_ExcludedProcesses r) (r_ExcludeRefresh r)) [] [].

(** ** Policy *)

(** What the tunnel says of a flow: its destination, as the stack saw it. *)
Definition described (f : flow) : Prop := Unmap (md_DstIP (fl_md f)) = addrFromTCPIP (LocalAddress (fl_id f)).

Section Policy.
(** The configuration, whether the flow is that of an excluded process, and the
    flow. *)
Context (r : Runtime) (excluded : Prop) (f : flow).

Definition to_gateway : Prop := is_gateway (LocalAddress (fl_id f)) = true.
Definition port : Z := LocalPort (fl_id f).
Definition lan_ports : list Z := if fl_udp f then [137; 138; 445; 5353] else [139; 445].

(** The destination on the wire. *)
Definition dst : Addr := addrFromTCPIP (LocalAddress (fl_id f)).
Definition stays_direct : Prop :=
  excluded ∨ reserved_spec dst = true ∨
  ∃ pre, pre ∈ r_ExcludedIPs r ∧ Contains_addr pre dst = true.

(** The flows the gateway keeps to itself. *)
Definition kept : Prop := to_gateway ∧ (fl_udp f = false ∨ port = 53).

Inductive policy : verdict → Prop :=
| policy_relay : to_gateway → port = 53 → policy (Relayed (r_DNS r))
| policy_gateway : to_gateway → fl_udp f = false → port ≠ 53 → policy Closed
| policy_lan : ¬ kept → port ∈ lan_ports → policy Closed
| policy_direct : ¬ kept → port ∉ lan_ports → stays_direct → policy Direct
| policy_proxied : ¬ kept → port ∉ lan_ports → ¬ stays_direct → policy Proxied.

(** The policy gives one verdict. *)
Lemma policy_functional v v' : policy v → policy v' → v = v'.
Proof. intros H1 H2. destruct H1, H2; try reflexivity; exfalso; unfold kept in *; tauto. Qed.
End Policy.

Lemma policy_iff r ex ex' f v : ex ↔ ex' → policy r ex f v → policy r ex' f v.
Proof.
  intros E H. assert (stays_direct r ex f ↔ stays_direct r ex' f) as Es by (unfold stays_direct; by rewrite E).
  destruct H; [by constructor..|apply policy_direct|apply policy_proxied]; try done; by rewrite <- Es.
Qed.

(** A process with a configured name owns the flow, as the system shows it. *)
Definition excluded_process (names : list gostring) (p : Probe) (f : flow) : Prop :=
  ∃ pid raw entry,
    owner p (md_Network (fl_md f)) (md_SourceAddrPort (fl_md f)) pid ∧ pid ≠ 0 ∧
    pr_NewProcess p pid = true ∧ pr_Name p pid = Some raw ∧
    entry ∈ names ∧ Normalize (Normalize entry) = Normalize (Normalize raw) ∧ Normalize (Normalize raw) ≠ [].

(** ** Lemmas *)

(** Dialling a flow through the chain. *)
Lemma dial_verdict r e f w :
  let s := ShouldSkip_scans (pl_matcher w) e (fl_md f) in
  let v := if s.1.1 || isDirect (chain r e) (fl_md f) then Direct else Proxied in
  let w' := mkPlane s.1.2 (pl_out w ++ [v]) ((me_probe <$> s.2) ++ pl_scans w) in
  DialContext (chain r e) tt (fl_md f) w = (Ok tt, w') ∧ DialUDP (chain r e) (fl_md f) w = (Ok tt, w').
Proof.
  cbn zeta. unfold DialContext, DialUDP, st_bind, shouldBypassProcess.
  change (ch_Matcher (chain r e)) with (Some (match_flow e)). unfold match_flow.
  destruct (ShouldSkip_scans (pl_matcher w) e (fl_md f)) as [[skip m] scans]. cbn [fst snd].
  destruct skip; cbn [orb]; [done|]. destruct (isDirect (chain r e) (fl_md f)); done.
Qed.

Lemma direct_iff r e f (skip : bool) : described f →
  skip || isDirect (chain r e) (fl_md f) = true ↔ stays_direct r (skip = true) f.
Proof.
  intros Hd. rewrite orb_true_iff, isDirect_true, <- Unmap_reserved. unfold stays_direct, dst.
  by rewrite <- Hd, IsReserved_blocks by apply Unmap_wf, md_dst_wf.
Qed.

(** A flow handled with any matcher: one verdict, the policy's for what the
    matcher says, and the matcher as it was or as the lookup left it. *)
Lemma handle_verdict r e f w : runtime_wf r →
  let s := ShouldSkip_scans (pl_matcher w) e (fl_md f) in
  ∃ v w', handle r e f w = (tt, w') ∧ pl_out w' = pl_out w ++ [v] ∧ (described f → policy r (s.1.1 = true) f v) ∧
    (pl_matcher w' = pl_matcher w ∧ pl_scans w' = pl_scans w ∧ (∀ ex, described f → policy r ex f v) ∨
     pl_matcher w' = s.1.2 ∧ pl_scans w' = (me_probe <$> s.2) ++ pl_scans w).
Proof.
  intros Hwf. pose proof (dial_verdict r e f w) as Hdial. cbn zeta in *. destruct Hdial as [Htcp Hudp].
  set (s := ShouldSkip_scans _ e _) in *. pose proof (direct_iff r e f s.1.1) as Hdir. set (b := s.1.1 || _) in *.
  assert (described f → ¬ kept f → port f ∉ lan_ports f → policy r (s.1.1 = true) f (if b then Direct else Proxied)) as Hend.
  { intros Hd Hk Hl. specialize (Hdir Hd). destruct b; [apply policy_direct|apply policy_proxied]; try done; [by apply Hdir|]. by rewrite <- Hdir. }
  destruct (dispatch (r_DNS r) (fl_id f)) as [ET EU]. rewrite (proj2 (rw_dns r Hwf)) in ET, EU.
  unfold handle. destruct w as [m out scans]. cbn [pl_matcher pl_out pl_scans] in *.
  assert (∀ v, (∀ ex, policy r ex f v) → ∃ v' w', say v (mkPlane m out scans) = (tt, w') ∧ pl_out w' = out ++ [v'] ∧
    (described f → policy r (s.1.1 = true) f v') ∧
    (pl_matcher w' = m ∧ pl_scans w' = scans ∧ (∀ ex, described f → policy r ex f v') ∨
     pl_matcher w' = s.1.2 ∧ pl_scans w' = (me_probe <$> s.2) ++ scans)) as Hkeep.
  { intros v Hv. exists v. eexists. split_and!; [reflexivity..|by intros _|by left]. }
  destruct (fl_udp f) eqn:Eu; [rewrite EU|rewrite ET]; clear ET EU.
  - destruct (is_gateway _ && _) eqn:Eg.
    { apply andb_true_iff in Eg as [Eg E53]. apply Z.eqb_eq in E53. apply Hkeep. intros ex. by apply policy_relay. }
    assert (¬ kept f) as Hk.
    { unfold kept, to_gateway, port. rewrite Eu. intros [Hg [Hu|H53]]; [done|]. by rewrite Hg, H53 in Eg. }
    clear Eg. destruct (bool_decide _) eqn:El; b2p.
    + apply Hkeep. intros ex. apply policy_lan; [done|]. unfold lan_ports, port. by rewrite Eu.
    + eexists _, _. split_and!; [cbn [interp deliver request]; unfold st_bind; by rewrite Hudp|reflexivity| |by right].
      intros Hd. apply Hend; [done..|]. unfold lan_ports, port. by rewrite Eu.
  - destruct (is_gateway _) eqn:Eg.
    { destruct (LocalPort (fl_id f) =? 53) eqn:E53; b2p; (apply Hkeep; intros ex);
        [by apply policy_relay|by apply policy_gateway]. }
    assert (¬ kept f) as Hk. { unfold kept, to_gateway. rewrite Eg. by intros [? _]. }
    destruct (bool_decide _) eqn:El; b2p.
    + apply Hkeep. intros ex. apply policy_lan; [done|]. unfold lan_ports, port. by rewrite Eu.
    + eexists _, _. split_and!; [cbn [interp deliver request]; unfold st_bind; by rewrite Htcp|reflexivity| |by right].
      intros Hd. apply Hend; [done..|]. unfold lan_ports, port. by rewrite Eu.
Qed.

(** ** Theorem *)

(** C1: the program implements its policy, flow by flow.  With any accepted
    configuration, the handler, the chain and a new matcher together do exactly
    one thing with a flow, and it is the one the policy gives: port 53 of the
    gateway goes to the configured resolver; other TCP to the gateway and
    LAN-only ports are closed; a flow of an excluded process, to a reserved
    block or to an excluded prefix is dialled directly; and everything else,
    and nothing else, goes through the proxy. *)
Theorem dataplane_refines_policy r names e f :
  runtime_wf r → r_ExcludedProcesses r = normalizeProcessList names → described f → 0 ≤ me_now e →
  ∃ v, pl_out (handle r e f (start r)).2 = [v] ∧
       ∀ v', policy r (excluded_process names (me_probe e) f) f v' ↔ v' = v.
Proof.
  intros Hwf Hn Hd Hnow. destruct (handle_verdict r e f (start r) Hwf) as (v & w' & -> & Ew & Hv & _). exists v.
  split; [exact Ew|]. specialize (Hv Hd). cbn [start pl_matcher] in Hv. rewrite Hn in Hv.
  apply (policy_iff _ _ (excluded_process names (me_probe e) f)) in Hv; [|by apply configured_skip].
  intros v'. split; [|by intros ->]. intros H. by eapply policy_functional.
Qed.

(** ** Sessions *)

(** What happens to a running program: a flow arrives, or the refresh loop scans. *)
Inductive happening : Type :=
| Arrives (e : MissEnv) (f : flow)
| Rescans (p : Probe) (now : Z).

Definition occur (r : Runtime) (x : happening) : st plane () :=
  match x with
  | Arrives e f => handle r e f
  | Rescans p t => λ w, (tt, mkPlane ((λ m, scanOnce m p t) <$> pl_matcher w) (pl_out w) (p :: pl_scans w))
  end.

Fixpoint session (r : Runtime) (xs : list happening) : st plane () :=
  match xs with
  | [] => st_ret tt
  | x :: xs => let! _ := occur r x in session r xs
  end.

(** What the matcher holds comes from the scans made, the last one first. *)
Definition plane_ok (r : Runtime) (w : plane) : Prop :=
  match pl_matcher w with
  | None => r_ExcludedProcesses r = []
  | Some m => seen (pl_scans w) m ∧ latest (pl_scans w) m ∧ targets m = target_set (r_ExcludedProcesses r)
  end.

Lemma no_empty_target names : [] ∉ target_set names.
Proof. rewrite elem_of_target_set. by intros [? _]. Qed.

Lemma handle_plane_ok r e f w : runtime_wf r → plane_ok r w → plane_ok r (handle r e f w).2.
Proof.
  intros Hwf Hw. destruct (handle_verdict r e f w Hwf) as (v & w' & -> & _ & _ & [(E1 & E2 & _)|[E1 E2]]);
    cbn [snd]; unfold plane_ok in *; rewrite E1, E2; [done|].
  destruct (pl_matcher w) as [m0|] eqn:Em; [|done]. destruct Hw as (Hs & Hl & Et).
  destruct (seen_call (pl_scans w) m0 e (fl_md f)) as (m' & E & S' & L' & T' & _); [|done..|].
  { rewrite Et. apply no_empty_target. }
  rewrite E. split_and!; [done..|]. by rewrite T'.
Qed.

Lemma session_plane_ok r xs w : runtime_wf r → plane_ok r w → plane_ok r (session r xs w).2.
Proof.
  intros Hwf. revert w. induction xs as [|[e f|p t] xs IH]; intros w Hw; [done| |]; cbn [session occur]; unfold st_bind.
  - pose proof (handle_plane_ok r e f w Hwf Hw) as Hw'. destruct (handle r e f w) as [[] w']. by apply IH.
  - apply IH. unfold plane_ok in *. cbn [pl_matcher pl_scans]. destruct (pl_matcher w) as [m0|]; [|done].
    destruct Hw as (Hs & _ & Et). destruct (seen_scan _ m0 p t Hs) as [S' T']. cbn.
    split_and!; [done|apply latest_scan|by rewrite T'].
Qed.

Lemma start_ok r : plane_ok r (start r).
Proof.
  unfold plane_ok, start. cbn [pl_matcher pl_scans]. destruct (Exclude.New _ _) as [m|] eqn:Em.
  - destruct (seen_new _ _ _ Em). by split_and!.
  - by destruct (r_ExcludedProcesses r).
Qed.

(** How many flows a session brought. *)
Fixpoint arrivals (xs : list happening) : nat :=
  match xs with
  | [] => 0
  | Arrives _ _ :: xs => S (arrivals xs)
  | Rescans _ _ :: xs => arrivals xs
  end.

Lemma session_out r xs w : runtime_wf r → ∃ vs, pl_out (session r xs w).2 = pl_out w ++ vs ∧ length vs = arrivals xs.
Proof.
  intros Hwf. revert w. induction xs as [|[e f|p t] xs IH]; intros w; [by exists []; rewrite app_nil_r| |];
    cbn [session occur arrivals]; unfold st_bind; [|by apply (IH (mkPlane _ _ _))].
  destruct (handle_verdict r e f w Hwf) as (v & w' & -> & Ew & _). destruct (IH w') as (vs & E & El).
  exists (v :: vs). rewrite E, Ew, <- app_assoc. cbn [app length]. by rewrite El.
Qed.

(** C11: the same over the whole life of the program.  Whatever flows have arrived
    and whenever the refresh loop has scanned, there has been one verdict for
    each flow, and the next flow gets exactly one more, the policy's: the one for
    a flow of no excluded process, or the one for a flow of an excluded process.
    It is the latter only if a scan that was made, before or by this very lookup,
    had the flow owned by a process and a scan that was made named that process
    as excluded; and always if the last scan made had the flow owned by a process
    it could name and every scan made that named the process named it as
    excluded.  The lookup makes at most one scan. *)
Theorem session_refines_policy r xs e f :
  runtime_wf r → described f →
  let w := (session r xs (start r)).2 in let w' := (handle r e f w).2 in
  let excluded := target_set (r_ExcludedProcesses r) in
  length (pl_out w) = arrivals xs ∧
  (pl_scans w' = pl_scans w ∨ pl_scans w' = me_probe e :: pl_scans w) ∧
  ∃ v, pl_out w' = pl_out w ++ [v] ∧
    (policy r False f v ∨ seen_excluded excluded (pl_scans w') (fl_md f) ∧ policy r True f v) ∧
    (always_excluded excluded (pl_scans w') (fl_md f) → policy r True f v).
Proof.
  intros Hwf Hd. cbn zeta. destruct (session_out r xs (start r) Hwf) as (vs & Ev & El).
  split; [by rewrite Ev|]. pose proof (session_plane_ok r xs _ Hwf (start_ok r)) as Hw.
  set (w := (session r xs (start r)).2) in *. destruct (handle_verdict r e f w Hwf) as (v & w' & -> & Ew & Hv & Hcase).
  specialize (Hv Hd). cbn [snd] in *. destruct Hcase as [(_ & Es & Hany)|[_ Es]].
  { rewrite Es. split; [by left|]. exists v. split_and!; [done|by left; apply Hany|intros _; by apply Hany]. }
  rewrite Es. unfold plane_ok in Hw. destruct (pl_matcher w) as [m|] eqn:Em.
  2: { cbn [ShouldSkip_scans fst snd fmap list_fmap app] in *. split; [by left|]. exists v. split_and!; [done|left|].
       - by eapply policy_iff; [|exact Hv].
       - rewrite Hw. intros (pid & p & Hh & _ & _ & _ & [raw Hr] & Hall). exfalso.
         assert (p ∈ pl_scans w) as Hp by (destruct (pl_scans w); [done|injection Hh as ->; left]).
         specialize (Hall p raw Hp Hr). by apply elem_of_empty in Hall. }
  destruct Hw as (Hs & Hl & Et). rewrite <- Et.
  destruct (seen_call (pl_scans w) m e (fl_md f)) as (m' & _ & _ & _ & _ & Hx & Ha & Hscan); [|done..|].
  { rewrite Et. apply no_empty_target. }
  set (s := ShouldSkip_scans (Some m) e (fl_md f)) in *. split.
  { destruct Hscan as [-> | ->]; [by left|by right]. }
  exists v. split_and!; [done| |].
  - destruct s.1.1; [right; split; [by apply Hx|]|left]; (eapply policy_iff; [|exact Hv]); done.
  - intros H%Ha. eapply policy_iff; [|exact Hv]. by rewrite H.
Qed.
End Dataplane.

(** ** Evaluation *)

Module DataplaneExample.
Import Flow.
(** A TCP connection to 8.8.8.8:443 owned by process 42, which is called
    [foo]; the configuration of [ex_runtime] excludes [Foo.exe]. *)
Definition f : Dataplane.flow :=
  Dataplane.mkFlow false (mkID (byte_of_Z <$> [8; 8; 8; 8]) 443)
    (Flow.mkFlow false (ip4 198 18 0 2) 5000 (Addr4 (ip4 8 8 8 8))).
Definition conns (kind : gostring) : option (list ConnectionStat) :=
  if bool_decide (kind = "tcp4") then Some [mkConn "ESTABLISHED" "198.18.0.2" 5000 42] else Some [].
Definition e : MissEnv := mkMiss 0 (mkProbe conns (λ _, true) (λ _, Some (str "FOO"))) 0.
Definition names : list gostring := [str "Foo.exe"; str "bar"; str " foo "].

Lemma names_of : r_ExcludedProcesses ex_runtime = normalizeProcessList names.
Proof. by vm_compute. Qed.

Lemma ex_wf : runtime_wf ex_runtime.
Proof. apply (Finalize_wf (Merge (Merge Default ex_file) (flag_overrides ex_flags))). vm_compute. reflexivity. Qed.

Lemma flow_shown : pl_out (handle ex_runtime e f (start ex_runtime)).2 = [Direct].
Proof. by vm_compute. Qed.

Lemma dataplane_refines_policy_witness : policy ex_runtime (excluded_process names (me_probe e) f) f Direct.
Proof.
  destruct (dataplane_refines_policy ex_runtime names e f ex_wf names_of) as (v & H1 & H2);
    [vm_compute; reflexivity|vm_compute; discriminate|].
  rewrite flow_shown in H1. injection H1 as <-. exact (proj2 (H2 Direct) eq_refl).
Defined.

(** The flow arrives, then a scan that no longer shows it; it arrives again
    within the second, and no scan is made for it. *)
Definition gone : Probe := mkProbe (λ _, Some []) (λ _, false) (λ _, None).
Definition later : MissEnv := mkMiss 1 (me_probe e) 1.
Definition life : list happening := [Arrives e f; Rescans gone 1].

Lemma life_shown : pl_out (session ex_runtime (life ++ [Arrives later f]) (start ex_runtime)).2 = [Direct; Proxied] ∧
  pl_scans (session ex_runtime (life ++ [Arrives later f]) (start ex_runtime)).2 = [gone; me_probe e].
Proof. vm_compute. done. Qed.

Lemma session_refines_policy_witness :
  length (pl_out (session ex_runtime life (start ex_runtime)).2) = 1%nat.
Proof. exact (proj1 (session_refines_policy ex_runtime life later f ex_wf ltac:(vm_compute; reflexivity))). Defined.
End DataplaneExample.
