(* ===== verification/Forward.v ===== *)
(** * The forwarders of the simple stack (internal/stack/simple/stack.go)

    What the simple stack does with a new TCP connection or UDP association:
    it makes the endpoint, sets the keep-alive of a TCP one and hands the
    connection to the handler.  gVisor's endpoints are outside. *)

From S2P Require Import Prelude GoStrings Config Effects Gateway.

(** ** Definitions *)

Definition tcpWindowSize : Z := 2 ^ 20.
Definition tcpMaxConnAttempts : Z := 512.
Definition tcpKeepaliveIdle : Z := 60 * second.
Definition tcpKeepaliveInterval : Z := 30 * second.

Inductive fwd : Type :=
| CreateEndpoint                          (* whether it succeeded *)
| Complete (sendReset : bool)             (* [req.Complete] *)
| SetKeepAlive (on : bool)
| KeepaliveIdle (d : Z)                   (* whether the option was set *)
| KeepaliveInterval (d : Z)
| KeepaliveCount (n : Z)
| CloseEndpoint
| ToHandlerTCP (id : EndpointID)          (* [handler.HandleTCP], until it returns *)
| ToHandlerUDP (id : EndpointID).

Definition fwd_ans (e : fwd) : Type :=
  match e with
  | CreateEndpoint | KeepaliveIdle _ | KeepaliveInterval _ | KeepaliveCount _ => bool
  | _ => ()
  end.
Definition forward := io fwd_ans.
Definition req (e : fwd) : forward (fwd_ans e) := request e.

(** Whether all options were set. *)
Definition setSocketOptions : forward bool :=
  do_ (req (SetKeepAlive true) : forward ());
  do ok <- (req (KeepaliveIdle tcpKeepaliveIdle) : forward bool);
  if negb ok then Ret false
  else
    do ok <- (req (KeepaliveInterval tcpKeepaliveInterval) : forward bool);
    if negb ok then Ret false
    else
      do ok <- (req (KeepaliveCount 9) : forward bool);
      Ret ok.

(** The function given to [tcp.NewForwarder], for the request [id]. *)
Definition registerTCPForwarder (id : EndpointID) : forward () :=
  do ok <- (req CreateEndpoint : forward bool);
  if negb ok then req (Complete true)
  else deferred (req (Complete false)) (
    do ok <- setSocketOptions;
    if negb ok then req CloseEndpoint
    else req (ToHandlerTCP id)).

Definition registerUDPForwarder (id : EndpointID) : forward () :=
  do ok <- (req CreateEndpoint : forward bool);
  if negb ok then Ret tt
  else req (ToHandlerUDP id).

(** ** Theorem *)

Definition is_complete (x : event fwd_ans) : bool := match x with existT (Complete _) _ => true | _ => false end.
Definition is_handed (x : event fwd_ans) : bool :=
  match x with existT (ToHandlerTCP _ | ToHandlerUDP _) _ => true | _ => false end.
Definition is_closed (x : event fwd_ans) : bool := match x with existT CloseEndpoint _ => true | _ => false end.

(** C38: no half-open connection: every request for a TCP connection is completed
    once, as the last thing done, with a reset exactly when there was no
    endpoint; an endpoint that was made is either given to the handler, with
    keep-alive on and all three of its options set, or closed, never both and
    never neither.  A UDP association goes to the handler exactly when its
    endpoint was made. *)
Theorem forwarders_dispose id tr :
  (runs (registerTCPForwarder id) tr tt →
   ∃ made tr', let rst := ev (Complete (negb made)) tt in
     tr = ev CreateEndpoint made :: tr' ++ [rst] ∧ existsb is_complete tr' = false ∧
     (made = false → tr' = []) ∧
     (made = true → existsb is_closed tr' = negb (existsb is_handed tr') ∧
        (existsb is_handed tr' = true →
         tr' = [ev (SetKeepAlive true) tt; ev (KeepaliveIdle tcpKeepaliveIdle) true;
                ev (KeepaliveInterval tcpKeepaliveInterval) true; ev (KeepaliveCount 9) true;
                ev (ToHandlerTCP id) tt]))) ∧
  (runs (registerUDPForwarder id) tr tt →
   tr = [ev CreateEndpoint false] ∨ tr = [ev CreateEndpoint true; ev (ToHandlerUDP id) tt]).
Proof.
  assert (∀ e t r, runs (req e) t r → t = [ev e r]) as run_req by (intros e t r; apply runs_request_inv).
  split.
  - intros (t1 & t2 & made & -> & H1%run_req & H)%runs_bind_inv. subst t1. exists made. destruct made; cbn [negb] in *.
    2: { apply run_req in H as ->. by exists []. }
    apply runs_deferred in H as (t3 & t4 & -> & H & H4%run_req). subst t4.
    exists t3. cbn zeta. split; [done|].
    apply runs_bind_inv in H as (t5 & t6 & ok & -> & H5 & H).
    apply runs_bind_inv in H5 as (t7 & t8 & [] & -> & H7%run_req & H5). subst t7.
    apply runs_bind_inv in H5 as (t9 & t10 & o1 & -> & H9%run_req & H5). subst t9.
    destruct o1; cbn [negb] in H5; [|destruct H5 as [-> ->]; apply run_req in H as ->; done].
    apply runs_bind_inv in H5 as (t11 & t12 & o2 & -> & H11%run_req & H5). subst t11.
    destruct o2; cbn [negb] in H5; [|destruct H5 as [-> ->]; apply run_req in H as ->; done].
    apply runs_bind_inv in H5 as (t13 & t14 & o3 & -> & H13%run_req & [-> ->]). subst t13.
    destruct o3; cbn [negb] in H; apply run_req in H as ->; done.
  - intros (t1 & t2 & made & -> & H1%run_req & H)%runs_bind_inv. subst t1.
    destruct made; cbn [negb] in H; [apply run_req in H as ->; by right|destruct H as [-> _]; by left].
Qed.

Module ForwardExample.
Definition env (past : list (event fwd_ans)) (e : fwd) : fwd_ans e :=
  match e with
  | CreateEndpoint | KeepaliveIdle _ | KeepaliveCount _ => true
  | KeepaliveInterval _ => false
  | _ => tt
  end.
Definition id : EndpointID := mkID gateway4_bytes 80.

Lemma forwarders_dispose_witness :
  ∃ made tr', (exec env [] (registerTCPForwarder id)).1 = ev CreateEndpoint made :: tr' ++ [ev (Complete (negb made)) tt].
Proof.
  destruct (proj1 (forwarders_dispose id _) (exec_run env (registerTCPForwarder id))) as (made & tr' & H & _).
  exists made, tr'. exact H.
Defined.
End ForwardExample.
